(** * Buddy allocator (kernel/buddy.c): shallow embedding and properties

    The allocator keeps, for every size class [k], a free list of block
    addresses and two bit vectors ([alloc], one bit per pair of buddies, and
    [split], one bit per block).  The bit vectors are byte arrays carved out
    of the front of the managed region by [bd_init]; they are modelled inside
    one byte store so that arrays which [bd_init] lays out on top of each
    other really share their bytes.

    C integers are mathematical integers with the conversions written out:
    [to_int] for values stored in an [int], [to_uint64] for [uint64]
    arithmetic, [to_char] for bytes.  C division and remainder are [Z.quot]
    and [Z.rem].  [BLK_SIZE] is a [long] product; it is exact for [k <= 58],
    which covers every table that [bd_init] can build for a region below
    2^62 bytes. *)

From Stdlib Require Import ZArith List Bool Lia.
Import ListNotations.
Local Open Scope Z_scope.

(** ** Machine integers *)

Definition to_int (x : Z) : Z := (x + 2 ^ 31) mod 2 ^ 32 - 2 ^ 31.
Definition to_uint64 (x : Z) : Z := x mod 2 ^ 64.
Definition to_char (x : Z) : Z := x mod 256.

(** ** Constants and macros *)

Definition LEAF_SIZE : Z := 16.
Definition BLK_SIZE (k : Z) : Z := Z.shiftl 1 k * LEAF_SIZE.
(* ROUNDUP over int operands, as in [ROUNDUP(NBLK(k), 8)] and
   [ROUNDUP(meta->meta, LEAF_SIZE)]: the subtraction, the addition and the
   product are int operations *)
Definition ROUNDUP (n sz : Z) : Z :=
  to_int (to_int (Z.quot (to_int (n - 1)) sz + 1) * sz).
(* terms are compared without unfolding the macro where that can be helped *)
Strategy 100 [ROUNDUP].
(* ROUNDUP over uint64 operands, as in [ROUNDUP((uint64)base, LEAF_SIZE)] *)
Definition ROUNDUP_u64 (n sz : Z) : Z :=
  to_uint64 ((Z.quot (to_uint64 (n - 1)) sz + 1) * sz).

(** [sizeof(Sz_info)]: list.h is not part of the sources at hand; a
    [struct list] is two pointers (next, prev), so on the 64-bit target the
    entry is 16 + 8 + 8 bytes. *)
Definition sizeof_Sz_info : Z := 32.

(** ** Data *)

Record Sz_info : Type := mkSz {
  free : list Z;    (* Bd_list: the addresses of the free blocks *)
  alloc : Z;        (* char *alloc: address of the pair bit vector *)
  split : Z         (* char *split: address of the split bit vector *)
}.

Record state : Type := mkState {
  nsizes : Z;
  bd_base : Z;
  bd_sizes : Z -> Sz_info;   (* the table, by index *)
  mem : Z -> Z               (* byte store holding the bit vectors *)
}.

Definition MAXSIZE (s : state) : Z := nsizes s - 1.
Definition HEAP_SIZE (s : state) : Z := BLK_SIZE (MAXSIZE s).
Definition NBLK (s : state) (k : Z) : Z := Z.shiftl 1 (MAXSIZE s - k).

Definition upd {A : Type} (f : Z -> A) (a : Z) (v : A) : Z -> A :=
  fun x => if x =? a then v else f x.

Definition set_mem (s : state) (m : Z -> Z) : state :=
  mkState (nsizes s) (bd_base s) (bd_sizes s) m.

Definition set_free (s : state) (k : Z) (l : list Z) : state :=
  mkState (nsizes s) (bd_base s)
    (upd (bd_sizes s) k (mkSz l (alloc (bd_sizes s k)) (split (bd_sizes s k))))
    (mem s).

Definition set_alloc (s : state) (k : Z) (p : Z) : state :=
  mkState (nsizes s) (bd_base s)
    (upd (bd_sizes s) k (mkSz (free (bd_sizes s k)) p (split (bd_sizes s k))))
    (mem s).

Definition set_split (s : state) (k : Z) (p : Z) : state :=
  mkState (nsizes s) (bd_base s)
    (upd (bd_sizes s) k (mkSz (free (bd_sizes s k)) (alloc (bd_sizes s k)) p))
    (mem s).

(** ** The free list (list.c)

    Modelled from the spec: list.c is not part of the sources at hand.  The
    spec asks for push, pop, remove of a known member and an emptiness test
    on a collection of raw block addresses whose order carries no meaning.
    The model is a list with push and pop at the head.  The spec's list is
    keyed by the address and says nothing of a push of an address that is
    already on a list: the list that [lst_push] leaves then, with the
    address twice, is the model's own. *)

Definition lst_empty (l : list Z) : bool :=
  match l with [] => true | _ :: _ => false end.

Definition lst_push (s : state) (k : Z) (p : Z) : state :=
  set_free s k (p :: free (bd_sizes s k)).

Definition lst_pop (l : list Z) : option (Z * list Z) :=
  match l with [] => None | p :: rest => Some (p, rest) end.

(* lst_remove(q) unlinks q from the list it sits on, whichever it is *)
Definition lst_remove (s : state) (q : Z) : state :=
  mkState (nsizes s) (bd_base s)
    (fun k => mkSz (remove Z.eq_dec q (free (bd_sizes s k)))
                   (alloc (bd_sizes s k)) (split (bd_sizes s k)))
    (mem s).

(** ** Bit vectors *)

Definition bit_mask (index : Z) : Z := to_char (Z.shiftl 1 (Z.rem index 8)).

Definition bit_isset (m : Z -> Z) (array index : Z) : bool :=
  let b := m (array + Z.quot index 8) in
  let msk := bit_mask index in
  Z.land b msk =? msk.

Definition bit_set (m : Z -> Z) (array index : Z) : Z -> Z :=
  let b := m (array + Z.quot index 8) in
  let msk := bit_mask index in
  upd m (array + Z.quot index 8) (to_char (Z.lor b msk)).

Definition bit_clear (m : Z -> Z) (array index : Z) : Z -> Z :=
  let b := m (array + Z.quot index 8) in
  let msk := bit_mask index in
  upd m (array + Z.quot index 8) (to_char (Z.land b (Z.lnot msk))).

Definition bit_flip (m : Z -> Z) (array index : Z) : Z -> Z :=
  if bit_isset m array index then bit_clear m array index
  else bit_set m array index.

(** ** Size classes and indices *)

(* while (size < n) { k++; size *= 2; } on a uint64 [size]; [None] when the
   fuel runs out *)
Fixpoint firstk_loop (fuel : nat) (k size n : Z) : option Z :=
  match fuel with
  | O => None
  | S f =>
      if size <? n then firstk_loop f (k + 1) (to_uint64 (size * 2)) n
      else Some k
  end.

Definition firstk (n : Z) : option Z := firstk_loop 128 0 LEAF_SIZE n.

Definition blk_index (s : state) (k p : Z) : Z :=
  let n := to_int (p - bd_base s) in
  to_int (Z.quot n (BLK_SIZE k)).

Definition addr (s : state) (k bi : Z) : Z :=
  let n := to_int (bi * BLK_SIZE k) in
  bd_base s + n.

Definition blk_index_next (s : state) (k p : Z) : Z :=
  let n := to_int (Z.quot (p - bd_base s) (BLK_SIZE k)) in
  if negb (Z.rem (p - bd_base s) (BLK_SIZE k) =? 0) then to_int (n + 1) else n.

(* while (n > 1) { k++; n = n >> 1; }: a uint64 is exhausted by 64 shifts *)
Fixpoint log2_loop (fuel : nat) (k n : Z) : Z :=
  match fuel with
  | O => k
  | S f => if 1 <? n then log2_loop f (k + 1) (Z.shiftr n 1) else k
  end.

Definition log2 (n : Z) : Z := log2_loop 64 0 n.

(** ** bd_malloc *)

(* for (k = fk; k < nsizes; k++) if (!lst_empty(&bd_sizes[k].free)) break; *)
Fixpoint scan_free (fuel : nat) (s : state) (k : Z) : Z :=
  match fuel with
  | O => k
  | S f =>
      if k <? nsizes s then
        if negb (lst_empty (free (bd_sizes s k))) then k
        else scan_free f s (k + 1)
      else k
  end.

(* for (; k > fk; k--) { split p at size k, free its buddy at size k-1 } *)
Fixpoint split_loop (fuel : nat) (s : state) (k fk p : Z) : state * Z :=
  match fuel with
  | O => (s, k)
  | S f =>
      if fk <? k then
        let q := p + BLK_SIZE (k - 1) in
        let s1 := set_mem s (bit_set (mem s) (split (bd_sizes s k))
                                     (blk_index s k p)) in
        let s2 := set_mem s1 (bit_flip (mem s1) (alloc (bd_sizes s1 (k - 1)))
                                       (Z.quot (blk_index s1 (k - 1) p) 2)) in
        let s3 := lst_push s2 (k - 1) q in
        split_loop f s3 (k - 1) fk p
      else (s, k)
  end.

(** The outcome of a call that returns: the pointer handed back (0 for the
    null pointer), the state left behind, and the value of the loop variable
    [k] at the [return], which is the size class the block was granted at. *)
Record malloc_ret : Type := mkRet {
  ret_ptr : Z;
  ret_state : state;
  ret_class : Z
}.

Definition bd_malloc_run (s : state) (nbytes : Z) : option malloc_ret :=
  match firstk nbytes with
  | None => None                       (* firstk does not return *)
  | Some fk =>
      let k := scan_free (Z.to_nat (nsizes s - fk)) s fk in
      if nsizes s <=? k then Some (mkRet 0 s k)
      else
        match lst_pop (free (bd_sizes s k)) with
        | None => None                 (* pop of an empty list *)
        | Some (p, rest) =>
            let s1 := set_free s k rest in
            let s2 := set_mem s1 (bit_flip (mem s1) (alloc (bd_sizes s1 k))
                                           (Z.quot (blk_index s1 k p) 2)) in
            let '(s3, k') := split_loop (Z.to_nat (k - fk)) s2 k fk p in
            Some (mkRet p s3 k')
        end
  end.

Definition bd_malloc (s : state) (nbytes : Z) : option (Z * state) :=
  match bd_malloc_run s nbytes with
  | None => None
  | Some r => Some (ret_ptr r, ret_state r)
  end.

(** ** size and bd_free *)

(** [size] reads [bd_sizes[k + 1]] for every [k < nsizes].  At
    [k = nsizes - 1] that entry lies past the end of the table: the read
    is undefined behaviour in C (the bytes that follow the table are those
    of the first bit vector) and the model stops there with [None].  What
    the function answers is only stated for the calls that find a split
    bit inside the table. *)
Fixpoint size_loop (fuel : nat) (s : state) (k p : Z) : option Z :=
  match fuel with
  | O => Some 0
  | S f =>
      if k <? nsizes s then
        if k + 1 <? nsizes s then
          if bit_isset (mem s) (split (bd_sizes s (k + 1)))
                       (blk_index s (k + 1) p)
          then Some k
          else size_loop f s (k + 1) p
        else None
      else Some 0
  end.

Definition size (s : state) (p : Z) : option Z :=
  size_loop (S (Z.to_nat (nsizes s))) s 0 p.

(* the for loop of bd_free; yields the state, k and p at the loop exit *)
Fixpoint bd_free_loop (fuel : nat) (s : state) (k p : Z) : state * Z * Z :=
  match fuel with
  | O => (s, k, p)
  | S f =>
      if k <? MAXSIZE s then
        let bi := blk_index s k p in
        let buddy := if Z.rem bi 2 =? 0 then bi + 1 else bi - 1 in
        let s1 := set_mem s (bit_set (mem s) (alloc (bd_sizes s k))
                                     (Z.quot bi 2)) in
        if bit_isset (mem s1) (alloc (bd_sizes s1 k)) (Z.quot bi 2)
        then (s1, k, p)
        else
          let q := addr s1 k buddy in
          let s2 := lst_remove s1 q in
          let p' := if Z.rem buddy 2 =? 0 then q else p in
          let s3 := set_mem s2 (bit_clear (mem s2)
                                          (split (bd_sizes s2 (k + 1)))
                                          (blk_index s2 (k + 1) p')) in
          bd_free_loop f s3 (k + 1) p'
      else (s, k, p)
  end.

Definition bd_free (s : state) (p : Z) : option state :=
  match size s p with
  | None => None
  | Some k0 =>
      let '(s', k, p') := bd_free_loop (Z.to_nat (MAXSIZE s - k0)) s k0 p in
      Some (lst_push s' k p')
  end.

(** ** bd_mark *)

(* for (; bi < bj; bi++) { if (k > 0) bit_set(split, bi); bit_flip(alloc, bi / 2); } *)
Fixpoint mark_blocks (fuel : nat) (s : state) (k bi bj : Z) : state :=
  match fuel with
  | O => s
  | S f =>
      if bi <? bj then
        let s1 := if 0 <? k
                  then set_mem s (bit_set (mem s) (split (bd_sizes s k)) bi)
                  else s in
        let s2 := set_mem s1 (bit_flip (mem s1) (alloc (bd_sizes s1 k))
                                       (Z.quot bi 2)) in
        mark_blocks f s2 k (bi + 1) bj
      else s
  end.

Definition mark_class (s : state) (k start stop : Z) (is_left : bool)
    (free_ret : Z) : state * Z :=
  let bi := blk_index s k start in
  let bj := blk_index_next s k stop in
  let '(s1, fr1) :=
    if k <? nsizes s - 2 then
      let '(sa, fa) :=
        if is_left && negb (Z.rem bj 2 =? 0)
        then (lst_push s k (addr s k bj), to_int (free_ret + BLK_SIZE k))
        else (s, free_ret) in
      if negb is_left && negb (Z.rem bi 2 =? 0)
      then (lst_push sa k (addr sa k (bi - 1)), to_int (fa + BLK_SIZE k))
      else (sa, fa)
    else (s, free_ret) in
  let s2 := if negb (Z.rem bi 2 =? 0)
            then set_mem s1 (bit_set (mem s1) (alloc (bd_sizes s1 k))
                                     (Z.quot bi 2))
            else s1 in
  let s3 := if negb (Z.rem bj 2 =? 0)
            then set_mem s2 (bit_set (mem s2) (alloc (bd_sizes s2 k))
                                     (Z.quot bj 2))
            else s2 in
  (mark_blocks (Z.to_nat (bj - bi)) s3 k bi bj, fr1).

Fixpoint mark_loop (fuel : nat) (s : state) (k start stop : Z)
    (is_left : bool) (free_ret : Z) : state * Z :=
  match fuel with
  | O => (s, free_ret)
  | S f =>
      if k <? nsizes s then
        let '(s1, fr) := mark_class s k start stop is_left free_ret in
        mark_loop f s1 (k + 1) start stop is_left fr
      else (s, free_ret)
  end.

(** [None] is the call of panic("bd_mark"). *)
Definition bd_mark (s : state) (start stop : Z) (is_left : bool)
    : option (state * Z) :=
  if negb (Z.rem (to_uint64 start) LEAF_SIZE =? 0)
     || negb (Z.rem (to_uint64 stop) LEAF_SIZE =? 0)
  then None
  else Some (mark_loop (Z.to_nat (nsizes s)) s 0 start stop is_left 0).

(** ** bd_init *)

Record MARK_META : Type := mkMeta { meta : Z; mfree : Z }.

Definition memset (m : Z -> Z) (a v n : Z) : Z -> Z :=
  fun x => if (a <=? x) && (x <? a + n) then v else m x.

Definition alloc_bytes (s : state) (k : Z) : Z :=
  to_int (Z.quot (to_uint64 (1 * ROUNDUP (NBLK s k) 8)) 16).

Definition split_bytes (s : state) (k : Z) : Z :=
  to_int (Z.quot (to_uint64 (1 * ROUNDUP (NBLK s k) 8)) 8).

(* first loop: free list and alloc array of every size *)
Fixpoint init_alloc (fuel : nat) (s : state) (k p : Z) : state * Z :=
  match fuel with
  | O => (s, p)
  | S f =>
      if k <? nsizes s then
        let s1 := set_free s k [] in
        let sz := alloc_bytes s1 k in
        let s2 := set_alloc s1 k p in
        let s3 := set_mem s2 (memset (mem s2) (alloc (bd_sizes s2 k)) 0 sz) in
        init_alloc f s3 (k + 1) (p + sz)
      else (s, p)
  end.

(* second loop: split array of every size but 0 *)
Fixpoint init_split (fuel : nat) (s : state) (k p : Z) : state * Z :=
  match fuel with
  | O => (s, p)
  | S f =>
      if k <? nsizes s then
        let sz := split_bytes s k in
        let s1 := set_split s k p in
        let s2 := set_mem s1 (memset (mem s1) (split (bd_sizes s1 k)) 0 sz) in
        init_split f s2 (k + 1) (p + sz)
      else (s, p)
  end.

Definition bd_mark_data_structures (s : state) (p : Z)
    : option (state * MARK_META) :=
  let m := to_int (p - bd_base s) in
  match bd_mark s (bd_base s) p true with
  | None => None
  | Some (s', fr) => Some (s', mkMeta m fr)
  end.

Definition bd_mark_unavailable (s : state) (end_ left : Z)
    : option (state * MARK_META) :=
  let m0 := to_int (BLK_SIZE (MAXSIZE s) - (end_ - bd_base s)) in
  let m := if 0 <? m0 then to_int (ROUNDUP m0 LEAF_SIZE) else m0 in
  let bd_end := bd_base s + BLK_SIZE (MAXSIZE s) - m in
  match bd_mark s bd_end (bd_base s + BLK_SIZE (MAXSIZE s)) false with
  | None => None
  | Some (s', fr) => Some (s', mkMeta m fr)
  end.

(** The first half of [bd_init]: the number of sizes, the table and the
    bit vectors, up to the rounding of the cursor [p]; yields the state and
    that cursor. *)
Definition bd_init_layout (m0 : Z -> Z) (base end_ : Z) : state * Z :=
  let p := ROUNDUP_u64 base LEAF_SIZE in
  let ns0 := to_int (log2 (to_uint64 (Z.quot (end_ - p) LEAF_SIZE)) + 1) in
  let ns := if BLK_SIZE (ns0 - 1) <? end_ - p then to_int (ns0 + 1) else ns0 in
  let tbl := p in
  let p1 := p + sizeof_Sz_info * ns in
  let s0 := mkState ns p (fun _ => mkSz [] 0 0)
                    (memset m0 tbl 0 (sizeof_Sz_info * ns)) in
  let '(s1, p2) := init_alloc (Z.to_nat ns) s0 0 p1 in
  let '(s2, p3) := init_split (Z.to_nat ns) s1 1 p2 in
  (s2, ROUNDUP_u64 p3 LEAF_SIZE).

(** What a completed [bd_init] leaves: the state and the two records
    [m_left], [m_right] it checked.  [None] is a panic. *)
Definition bd_init_run (m0 : Z -> Z) (base end_ : Z)
    : option (state * MARK_META * MARK_META) :=
  let '(s2, p4) := bd_init_layout m0 base end_ in
  match bd_mark_data_structures s2 p4 with
  | None => None
  | Some (s3, m_left) =>
      match bd_mark_unavailable s3 end_ p4 with
      | None => None
      | Some (s4, m_right) =>
          let fr := to_int (mfree m_left + mfree m_right) in
          if negb (fr =? BLK_SIZE (MAXSIZE s4) - meta m_left - meta m_right)
          then None
          else Some (s4, m_left, m_right)
      end
  end.

Definition bd_init (m0 : Z -> Z) (base end_ : Z) : option state :=
  match bd_init_run m0 base end_ with
  | None => None
  | Some (s, _, _) => Some s
  end.

(** ** Observations used in the statements *)

Definition frees (s : state) (k : Z) : list Z := free (bd_sizes s k).

Definition free_lists (s : state) : list (list Z) :=
  map (fun k => frees s (Z.of_nat k)) (seq 0 (Z.to_nat (nsizes s))).

(* bytes held on the free lists of the classes below n *)
Fixpoint free_bytes_below (s : state) (n : nat) : Z :=
  match n with
  | O => 0
  | S n' => free_bytes_below s n'
            + Z.of_nat (length (frees s (Z.of_nat n'))) * BLK_SIZE (Z.of_nat n')
  end.

Definition free_bytes (s : state) : Z :=
  free_bytes_below s (Z.to_nat (nsizes s)).

(** ** A small region used in the examples

    [bd_init] on the 1040 bytes from address 4096 on, over a zeroed store:
    8 size classes, 2048 bytes of heap, 304 bytes of metadata at the front
    and 1008 unavailable bytes at the back. *)

Definition empty_state : state :=
  mkState 0 0 (fun _ => mkSz [] 0 0) (fun _ => 0).

Definition ex_state : state :=
  match bd_init (fun _ => 0) 4096 5136 with
  | Some s => s
  | None => empty_state
  end.

(* the state a call leaves, for chaining calls in examples *)
Definition after_malloc (s : state) (n : Z) : state :=
  match bd_malloc s n with Some (_, s') => s' | None => s end.

Definition after_free (s : state) (p : Z) : state :=
  match bd_free s p with Some s' => s' | None => s end.

(* the split bit that [size] tests for class k: the one of p's block at
   class k + 1 *)
Definition parent_split (s : state) (k p : Z) : bool :=
  bit_isset (mem s) (split (bd_sizes s (k + 1))) (blk_index s (k + 1) p).

(** Two states with the same table geometry: number of sizes, base address
    and bit-vector addresses. *)
Definition same_layout (s s' : state) : Prop :=
  nsizes s' = nsizes s
  /\ bd_base s' = bd_base s
  /\ forall k, alloc (bd_sizes s' k) = alloc (bd_sizes s k)
               /\ split (bd_sizes s' k) = split (bd_sizes s k).

(** The address that [bd_mark] pushes on the free list of class [k], if
    any: the buddy of the last block touched on the left, of the first block
    touched on the right. *)
Definition mark_push (s : state) (k start stop : Z) (is_left : bool)
    : option Z :=
  let bi := blk_index s k start in
  let bj := blk_index_next s k stop in
  if k <? nsizes s - 2 then
    if is_left then
      if negb (Z.rem bj 2 =? 0) then Some (addr s k bj) else None
    else
      if negb (Z.rem bi 2 =? 0) then Some (addr s k (bi - 1)) else None
  else None.

(** ** Blocks, live allocations and calls *)

(* 1 when x lies in [a, b), 0 otherwise *)
Definition ind (a b x : Z) : Z := if (a <=? x) && (x <? b) then 1 else 0.

(* 1 when byte x lies in the block of class k at address a *)
Definition inb (k a x : Z) : Z := ind a (a + BLK_SIZE k) x.

(* how many blocks of a class-k free list contain byte x *)
Fixpoint count_list (k : Z) (l : list Z) (x : Z) : Z :=
  match l with
  | [] => 0
  | a :: l' => inb k a x + count_list k l' x
  end.

Fixpoint count_free_below (s : state) (n : nat) (x : Z) : Z :=
  match n with
  | O => 0
  | S n' => count_free_below s n' x
            + count_list (Z.of_nat n') (frees s (Z.of_nat n')) x
  end.

(* how many free blocks, over all classes, contain byte x *)
Definition count_free (s : state) (x : Z) : Z :=
  count_free_below s (Z.to_nat (nsizes s)) x.

(** A live allocation is the address [bd_malloc] returned together with the
    class it was granted at; its bytes are [a, a + BLK_SIZE c). *)
Fixpoint count_live (live : list (Z * Z)) (x : Z) : Z :=
  match live with
  | [] => 0
  | (a, c) :: l => inb c a x + count_live l x
  end.

Definition blocks_disjoint (b1 b2 : Z * Z) : Prop :=
  fst b1 + BLK_SIZE (snd b1) <= fst b2 \/ fst b2 + BLK_SIZE (snd b2) <= fst b1.

Fixpoint no_overlap (l : list (Z * Z)) : Prop :=
  match l with
  | [] => True
  | b :: l' => (forall b', In b' l' -> blocks_disjoint b b') /\ no_overlap l'
  end.

Fixpoint remove_one (b : Z * Z) (l : list (Z * Z)) : list (Z * Z) :=
  match l with
  | [] => []
  | b' :: l' =>
      if (fst b =? fst b') && (snd b =? snd b') then l'
      else b' :: remove_one b l'
  end.

(** One call, from a state and the allocations live in it.  [bd_free] is
    only called on an address that [bd_malloc] returned and that has not
    been freed since. *)
Inductive step : state * list (Z * Z) -> state * list (Z * Z) -> Prop :=
| step_malloc s live n r :
    bd_malloc_run s n = Some r -> ret_ptr r <> 0 ->
    step (s, live) (ret_state r, (ret_ptr r, ret_class r) :: live)
| step_malloc_null s live n r :
    bd_malloc_run s n = Some r -> ret_ptr r = 0 ->
    step (s, live) (ret_state r, live)
| step_free s live p c s' :
    In (p, c) live -> bd_free s p = Some s' ->
    step (s, live) (s', remove_one (p, c) live).

Inductive reachable (s0 : state) : state -> list (Z * Z) -> Prop :=
| reach_init : reachable s0 s0 []
| reach_step s live s' live' :
    reachable s0 s live -> step (s, live) (s', live') ->
    reachable s0 s' live'.

(** The alloc bit vectors sit below bit number [B] of the store and the
    split bits that matter sit at or above it.  (The alloc vectors of the
    classes with at most 8 blocks have no bytes of their own: they start
    where the split vector of class 1 starts and share its first four
    bits.) *)
Definition split_sep (s : state) (B : Z) : Prop :=
  (forall k i, 0 <= k < nsizes s -> 0 <= i < NBLK s k ->
     8 * alloc (bd_sizes s k) + i / 2 < B)
  /\ (forall j i, 1 <= j < nsizes s -> 0 <= i -> (j = 1 -> 4 <= i) ->
        B <= 8 * split (bd_sizes s j) + i).

(** The invariant of the allocator between calls: [lo] and [hi] are the
    offsets from [bd_base] between which memory is handed out. *)
Record Inv (s : state) (lo hi : Z) (live : list (Z * Z)) : Prop := mkInv {
  inv_n : 1 <= nsizes s <= 27;
  inv_base : 0 <= bd_base s;
  inv_sep : exists B, split_sep s B;
  inv_range : 0 <= lo /\ hi <= HEAP_SIZE s /\ (lo < hi -> 128 <= lo);
  inv_cover : forall x,
      count_live live x + count_free s x
      <= ind (bd_base s + lo) (bd_base s + hi) x;
  inv_blk : forall k a,
      (0 <= k < nsizes s /\ In a (frees s k)) \/ In (a, k) live ->
      0 <= k <= nsizes s - 2
      /\ (a - bd_base s) mod BLK_SIZE k = 0
      /\ parent_split s k a = true
}.

(** The split bits that matter (every bit of the classes above 1, and the
    bits from 4 on of class 1) that are set in [m] are set in [m']. *)
Definition split_le (s : state) (m m' : Z -> Z) : Prop :=
  forall j i, 1 <= j < nsizes s -> 0 <= i -> (j = 1 -> 4 <= i) ->
    bit_isset m (split (bd_sizes s j)) i = true ->
    bit_isset m' (split (bd_sizes s j)) i = true.

(* bd_malloc after the pop: the block is off its list and its pair bit is
   flipped *)
Definition malloc_pop (s : state) (k p : Z) (rest : list Z) : state :=
  let s1 := set_free s k rest in
  set_mem s1 (bit_flip (mem s1) (alloc (bd_sizes s1 k))
                       (Z.quot (blk_index s1 k p) 2)).

(** Index of the first class-k block that starts at or after offset [P],
    and of the class-k block that holds offset [P]. *)
Definition ceil_idx (P k : Z) : Z :=
  P / BLK_SIZE k + (if P mod BLK_SIZE k =? 0 then 0 else 1).

Definition floor_idx (P k : Z) : Z := P / BLK_SIZE k.

(* sum over the classes below n of a weight on the block pushed there *)
Fixpoint sum_marks (w : Z -> Z -> Z) (f : Z -> option Z) (n : nat) : Z :=
  match n with
  | O => 0
  | S n' => sum_marks w f n'
            + match f (Z.of_nat n') with
              | Some a => w (Z.of_nat n') a
              | None => 0
              end
  end.

(** What the two calls of [bd_mark] in [bd_init] push at class [k], in
    terms of the offsets [P] (end of the metadata) and [E] (start of the
    unavailable tail). *)
Definition left_push (base P N k : Z) : option Z :=
  if (k <? N - 2) && negb (ceil_idx P k mod 2 =? 0)
  then Some (base + ceil_idx P k * BLK_SIZE k)
  else None.

Definition right_push (base E N k : Z) : option Z :=
  if (k <? N - 2) && negb (floor_idx E k mod 2 =? 0)
  then Some (base + (floor_idx E k - 1) * BLK_SIZE k)
  else None.

(* the free memory reaches up to [left_end] from the metadata and down to
   [right_start] from the tail *)
Definition left_end (P N : Z) : Z :=
  ceil_idx P (Z.max 0 (N - 2)) * BLK_SIZE (Z.max 0 (N - 2)).

Definition right_start (E N : Z) : Z :=
  floor_idx E (Z.max 0 (N - 2)) * BLK_SIZE (Z.max 0 (N - 2)).

(* the state of one round of bd_mark when its inner loop starts *)
Definition mark_pre (s : state) (k start stop : Z) (is_left : bool) : state :=
  let bi := blk_index s k start in
  let bj := blk_index_next s k stop in
  let s1 := match mark_push s k start stop is_left with
            | Some a => lst_push s k a
            | None => s
            end in
  let s2 := if negb (Z.rem bi 2 =? 0)
            then set_mem s1 (bit_set (mem s1) (alloc (bd_sizes s1 k))
                                     (Z.quot bi 2))
            else s1 in
  if negb (Z.rem bj 2 =? 0)
  then set_mem s2 (bit_set (mem s2) (alloc (bd_sizes s2 k)) (Z.quot bj 2))
  else s2.

(** ** bd_print_vector

    The output is modelled as the list of the ranges [lb, b) that the calls
    of printf write, in order. *)

(* for (int b = 0; b < len; b++) { ... }: yields last, lb and the ranges
   printed so far *)
Fixpoint print_vector_loop (fuel : nat) (m : Z -> Z) (vector b len last lb : Z)
    (out : list (Z * Z)) : Z * Z * list (Z * Z) :=
  match fuel with
  | O => (last, lb, out)
  | S f =>
      if b <? len then
        let bit := if bit_isset m vector b then 1 else 0 in
        if last =? bit then print_vector_loop f m vector (b + 1) len last lb out
        else
          let out1 := if last =? 1 then out ++ [(lb, b)] else out in
          print_vector_loop f m vector (b + 1) len bit b out1
      else (last, lb, out)
  end.

Definition bd_print_vector (m : Z -> Z) (vector len : Z) : list (Z * Z) :=
  let '(last, lb, out) :=
    print_vector_loop (Z.to_nat len) m vector 0 len 1 0 [] in
  if (lb =? 0) || (last =? 1) then out ++ [(lb, len)] else out.

(* whether index i lies in one of the printed ranges *)
Definition covers (out : list (Z * Z)) (i : Z) : bool :=
  existsb (fun r => (fst r <=? i) && (i <? snd r)) out.

(** ** Split bits and the blocks in use

    The split vectors of different classes share no bit. *)
Definition split_disj (s : state) : Prop :=
  forall j j' i, 1 <= j < j' -> j' < nsizes s -> 0 <= i < NBLK s j ->
    8 * split (bd_sizes s j) + i < 8 * split (bd_sizes s j').

(** Among the split bits that matter, [m'] has none set beyond those set
    in [m] and those of the blocks in [S]. *)
Definition split_only (s : state) (m m' : Z -> Z) (S : Z -> Z -> Prop)
    : Prop :=
  forall j i, 1 <= j < nsizes s -> 0 <= i < NBLK s j -> (j = 1 -> 4 <= i) ->
    bit_isset m' (split (bd_sizes s j)) i = true ->
    bit_isset m (split (bd_sizes s j)) i = true \/ S j i.

(** No block that lies inside a free or a live block is marked split. *)
Definition split_exact (s : state) (live : list (Z * Z)) : Prop :=
  forall k a,
    (0 <= k < nsizes s /\ In a (frees s k)) \/ In (a, k) live ->
    forall j i, 1 <= j <= k ->
      a - bd_base s <= i * BLK_SIZE j < a - bd_base s + BLK_SIZE k ->
      bit_isset (mem s) (split (bd_sizes s j)) i = false.

(* the bytes of the live blocks *)
Fixpoint live_bytes (live : list (Z * Z)) : Z :=
  match live with
  | [] => 0
  | (_, c) :: l => BLK_SIZE c + live_bytes l
  end.

(** The pair vectors of the classes with 16 blocks or more lie one after
    the other, each before those of the larger classes; the pair vector of
    a class with at most 8 blocks has no byte of its own and starts where
    those of the larger classes start. *)
Definition alloc_disj (s : state) : Prop :=
  forall j j', 0 <= j < j' -> j' < nsizes s ->
    (16 <= NBLK s j -> forall i, 0 <= i < NBLK s j ->
       8 * alloc (bd_sizes s j) + i / 2 < 8 * alloc (bd_sizes s j'))
    /\ (NBLK s j <= 8 -> alloc (bd_sizes s j') = alloc (bd_sizes s j)).

(** * Properties *)

(** ** Machine integers and bits *)

Lemma to_int_id (x : Z) : - 2 ^ 31 <= x < 2 ^ 31 -> to_int x = x.
Proof.
  intros H. unfold to_int. rewrite Z.mod_small; lia.
Qed.

Lemma to_uint64_id (x : Z) : 0 <= x < 2 ^ 64 -> to_uint64 x = x.
Proof.
  intros H. unfold to_uint64. apply Z.mod_small. exact H.
Qed.

Lemma shiftl_1_nonneg (k : Z) : 0 <= k -> Z.shiftl 1 k = 2 ^ k.
Proof.
  intros H. rewrite Z.shiftl_1_l. reflexivity.
Qed.

Lemma shiftl_1_neg (k : Z) : k < 0 -> Z.shiftl 1 k = 0.
Proof.
  intros H. rewrite Z.shiftl_1_l. apply Z.pow_neg_r. exact H.
Qed.

Lemma BLK_SIZE_eq (k : Z) : 0 <= k -> BLK_SIZE k = 16 * 2 ^ k.
Proof.
  intros H. unfold BLK_SIZE, LEAF_SIZE. rewrite shiftl_1_nonneg by exact H. lia.
Qed.

Lemma BLK_SIZE_neg (k : Z) : k < 0 -> BLK_SIZE k = 0.
Proof.
  intros H. unfold BLK_SIZE. rewrite shiftl_1_neg by exact H. reflexivity.
Qed.

Lemma BLK_SIZE_succ (k : Z) : 0 <= k -> BLK_SIZE (k + 1) = 2 * BLK_SIZE k.
Proof.
  intros H. rewrite !BLK_SIZE_eq by lia. rewrite Z.pow_add_r by lia. lia.
Qed.

Lemma BLK_SIZE_pos (k : Z) : 0 <= k -> 16 <= BLK_SIZE k.
Proof.
  intros H. rewrite BLK_SIZE_eq by exact H.
  assert (0 < 2 ^ k) by (apply Z.pow_pos_nonneg; lia). lia.
Qed.

Lemma BLK_SIZE_mono (j k : Z) : 0 <= j <= k -> BLK_SIZE j <= BLK_SIZE k.
Proof.
  intros H. rewrite !BLK_SIZE_eq by lia.
  assert (2 ^ j <= 2 ^ k) by (apply Z.pow_le_mono_r; lia). lia.
Qed.

Lemma BLK_SIZE_lt (j k : Z) : 0 <= j < k -> BLK_SIZE j < BLK_SIZE k.
Proof.
  intros H. rewrite !BLK_SIZE_eq by lia.
  assert (2 ^ j < 2 ^ k) by (apply Z.pow_lt_mono_r; lia). lia.
Qed.

Lemma BLK_SIZE_nonneg (k : Z) : 0 <= BLK_SIZE k.
Proof.
  destruct (Z.lt_ge_cases k 0) as [H | H].
  - rewrite BLK_SIZE_neg by exact H. lia.
  - pose proof (BLK_SIZE_pos k H). lia.
Qed.

(* the mask of a bit operation is nothing or one bit of the byte *)
Lemma bit_mask_cases (i : Z) :
  bit_mask i = 0 \/ (0 <= Z.rem i 8 < 8 /\ bit_mask i = 2 ^ Z.rem i 8).
Proof.
  unfold bit_mask, to_char.
  destruct (Z.lt_ge_cases (Z.rem i 8) 0) as [H | H].
  - left. rewrite shiftl_1_neg by exact H. reflexivity.
  - right.
    assert (Hr : Z.rem i 8 < 8).
    { pose proof (Z.rem_bound_abs i 8). lia. }
    split; [lia |].
    rewrite shiftl_1_nonneg by exact H.
    apply Z.mod_small. split.
    + apply Z.pow_nonneg. lia.
    + change 256 with (2 ^ 8). apply Z.pow_lt_mono_r; lia.
Qed.

Lemma land_pow2_eqb (b r : Z) :
  0 <= r -> (Z.land b (2 ^ r) =? 2 ^ r) = Z.testbit b r.
Proof.
  intros Hr.
  destruct (Z.testbit b r) eqn:Hb.
  - apply Z.eqb_eq. apply Z.bits_inj'. intros n Hn.
    rewrite Z.land_spec, Z.pow2_bits_eqb by lia.
    destruct (Z.eqb_spec r n) as [-> | Hne].
    + rewrite Hb. reflexivity.
    + apply andb_false_r.
  - apply Z.eqb_neq. intros Heq.
    assert (Ht : Z.testbit (Z.land b (2 ^ r)) r = true).
    { rewrite Heq. apply Z.pow2_bits_true. exact Hr. }
    rewrite Z.land_spec, Hb in Ht. discriminate.
Qed.

Lemma testbit_to_char (x r : Z) :
  0 <= r < 8 -> Z.testbit (to_char x) r = Z.testbit x r.
Proof.
  intros Hr. unfold to_char. change 256 with (2 ^ 8).
  apply Z.mod_pow2_bits_low. lia.
Qed.

(** Testing a bit right after setting it always answers yes, whatever the
    array, the index and the store. *)
Lemma bit_isset_bit_set (m : Z -> Z) (a i : Z) :
  bit_isset (bit_set m a i) a i = true.
Proof.
  unfold bit_isset, bit_set, upd. rewrite Z.eqb_refl.
  destruct (bit_mask_cases i) as [H0 | [Hr Hm]].
  - rewrite H0. rewrite Z.land_0_r. reflexivity.
  - rewrite Hm. rewrite land_pow2_eqb by lia.
    rewrite testbit_to_char by exact Hr.
    rewrite Z.lor_spec, Z.pow2_bits_true by lia.
    apply orb_true_r.
Qed.

(** ** firstk *)

(* once the uint64 [size] has wrapped to 0 the loop never leaves *)
Lemma firstk_loop_stuck (fuel : nat) : forall k n,
  0 < n -> firstk_loop fuel k 0 n = None.
Proof.
  induction fuel as [| f IH]; intros k n Hn; simpl.
  - reflexivity.
  - destruct (Z.ltb_spec 0 n) as [_ | Hc]; [| lia].
    change (to_uint64 (0 * 2)) with 0. apply IH. exact Hn.
Qed.

Lemma to_uint64_double_BLK (k : Z) :
  0 <= k <= 59 ->
  to_uint64 (BLK_SIZE k * 2) = if k =? 59 then 0 else BLK_SIZE (k + 1).
Proof.
  intros Hk. destruct (Z.eqb_spec k 59) as [-> | Hne].
  - reflexivity.
  - rewrite BLK_SIZE_succ by lia. rewrite to_uint64_id; [lia |].
    rewrite BLK_SIZE_eq by lia.
    assert (0 < 2 ^ k) by (apply Z.pow_pos_nonneg; lia).
    assert (2 ^ k <= 2 ^ 58) by (apply Z.pow_le_mono_r; lia).
    change (2 ^ 64) with (64 * 2 ^ 58). lia.
Qed.

Lemma firstk_loop_sound (fuel : nat) : forall k n r,
  0 <= k <= 59 ->
  (forall j, 0 <= j < k -> BLK_SIZE j < n) ->
  firstk_loop fuel k (BLK_SIZE k) n = Some r ->
  k <= r <= 59 /\ n <= BLK_SIZE r /\ (forall j, 0 <= j < r -> BLK_SIZE j < n).
Proof.
  induction fuel as [| f IH]; intros k n r Hk Hlow Hrun; simpl in Hrun.
  - discriminate.
  - destruct (Z.ltb_spec (BLK_SIZE k) n) as [Hlt | Hge].
    + rewrite to_uint64_double_BLK in Hrun by exact Hk.
      destruct (Z.eqb_spec k 59) as [-> | Hne].
      * rewrite firstk_loop_stuck in Hrun; [discriminate |].
        pose proof (BLK_SIZE_pos 59). lia.
      * apply IH in Hrun; [| lia |].
        -- destruct Hrun as (H1 & H2 & H3). repeat split; try lia; assumption.
        -- intros j Hj. destruct (Z.eq_dec j k) as [-> | Hjk]; [exact Hlt |].
           apply Hlow. lia.
    + injection Hrun as <-. repeat split; try lia; assumption.
Qed.

Lemma firstk_loop_returns (fuel : nat) : forall k n,
  0 <= k <= 59 -> n <= 2 ^ 63 -> (59 - k < Z.of_nat fuel) ->
  exists r, firstk_loop fuel k (BLK_SIZE k) n = Some r.
Proof.
  induction fuel as [| f IH]; intros k n Hk Hn Hf; simpl.
  - lia.
  - destruct (Z.ltb_spec (BLK_SIZE k) n) as [Hlt | Hge]; [| eauto].
    rewrite to_uint64_double_BLK by exact Hk.
    destruct (Z.eqb_spec k 59) as [-> | Hne].
    + change (BLK_SIZE 59) with (2 ^ 63) in Hlt. lia.
    + apply IH; lia.
Qed.

Lemma firstk_loop_diverges (fuel : nat) : forall k n,
  0 <= k <= 59 -> 2 ^ 63 < n -> firstk_loop fuel k (BLK_SIZE k) n = None.
Proof.
  induction fuel as [| f IH]; intros k n Hk Hn; simpl.
  - reflexivity.
  - assert (HB : BLK_SIZE k <= BLK_SIZE 59) by (apply BLK_SIZE_mono; lia).
    change (BLK_SIZE 59) with (2 ^ 63) in HB.
    destruct (Z.ltb_spec (BLK_SIZE k) n) as [_ | Hge]; [| lia].
    rewrite to_uint64_double_BLK by exact Hk.
    destruct (Z.eqb_spec k 59) as [-> | Hne].
    + apply firstk_loop_stuck. lia.
    + apply IH; lia.
Qed.

(** [firstk n], when it returns, gives the least class whose blocks hold
    [n] bytes. *)
Lemma firstk_sound (n r : Z) :
  firstk n = Some r ->
  0 <= r <= 59 /\ n <= BLK_SIZE r /\ (forall j, 0 <= j < r -> BLK_SIZE j < n).
Proof.
  intros H. unfold firstk in H.
  change LEAF_SIZE with (BLK_SIZE 0) in H.
  apply firstk_loop_sound in H; [exact H | lia | intros j Hj; lia].
Qed.

(** It returns for every request up to 2^63 bytes... *)
Lemma firstk_returns (n : Z) : n <= 2 ^ 63 -> exists r, firstk n = Some r.
Proof.
  intros H. unfold firstk. change LEAF_SIZE with (BLK_SIZE 0).
  apply firstk_loop_returns; simpl; lia.
Qed.

(** ... and for a larger one the loop runs forever, whatever the fuel. *)
Lemma firstk_diverges (n : Z) (fuel : nat) :
  2 ^ 63 < n -> firstk_loop fuel 0 LEAF_SIZE n = None.
Proof.
  intros H. change LEAF_SIZE with (BLK_SIZE 0).
  apply firstk_loop_diverges; lia.
Qed.

Lemma firstk_unique (n k r : Z) :
  0 <= k -> BLK_SIZE (k - 1) < n <= BLK_SIZE k -> firstk n = Some r -> r = k.
Proof.
  intros Hk [Hlo Hhi] Hr.
  apply firstk_sound in Hr. destruct Hr as (Hr0 & Hr1 & Hr2).
  destruct (Z.lt_trichotomy r k) as [Hlt | [Heq | Hgt]]; [| exact Heq |].
  - assert (BLK_SIZE r <= BLK_SIZE (k - 1)) by (apply BLK_SIZE_mono; lia). lia.
  - specialize (Hr2 k). lia.
Qed.

Lemma firstk_loop_exit (f : nat) (k size n : Z) :
  n <= size -> firstk_loop (S f) k size n = Some k.
Proof.
  intros H. cbn [firstk_loop].
  destruct (Z.ltb_spec size n); [lia | reflexivity].
Qed.

Lemma firstk_small (n : Z) : n <= LEAF_SIZE -> firstk n = Some 0.
Proof.
  intros H. unfold firstk. apply firstk_loop_exit. exact H.
Qed.

(** ** State bookkeeping *)

Lemma frees_set_mem s m k : frees (set_mem s m) k = frees s k.
Proof. reflexivity. Qed.

Lemma frees_lst_push s k q j :
  frees (lst_push s k q) j = if j =? k then q :: frees s k else frees s j.
Proof.
  unfold frees, lst_push, set_free, upd. simpl.
  destruct (j =? k); reflexivity.
Qed.

Lemma frees_set_free s k l j :
  frees (set_free s k l) j = if j =? k then l else frees s j.
Proof.
  unfold frees, set_free, upd. simpl.
  destruct (j =? k); reflexivity.
Qed.

(** ** bd_malloc: the scan and the split loop *)

Lemma scan_free_spec (fuel : nat) : forall s k,
  nsizes s - k <= Z.of_nat fuel ->
  let r := scan_free fuel s k in
  k <= r
  /\ (forall j, k <= j < r -> j < nsizes s -> frees s j = [])
  /\ (r < nsizes s -> frees s r <> []).
Proof.
  induction fuel as [| f IH]; intros s k Hf; simpl.
  - repeat split; intros; lia.
  - destruct (Z.ltb_spec k (nsizes s)) as [Hk | Hk].
    + destruct (free (bd_sizes s k)) as [| x l] eqn:Hl; simpl.
      * specialize (IH s (k + 1)). simpl in IH.
        destruct IH as (H1 & H2 & H3); [lia |].
        split; [lia |]. split; [| exact H3].
        intros j Hj Hjn. destruct (Z.eq_dec j k) as [-> | Hne].
        -- exact Hl.
        -- apply H2; lia.
      * split; [lia |]. split; [intros; lia |].
        intros _. unfold frees. rewrite Hl. discriminate.
    + repeat split; intros; lia.
Qed.

Lemma split_loop_spec (fuel : nat) : forall s k fk p,
  Z.of_nat fuel = k - fk ->
  let r := split_loop fuel s k fk p in
  snd r = fk
  /\ nsizes (fst r) = nsizes s
  /\ bd_base (fst r) = bd_base s
  /\ (forall j, frees (fst r) j =
        if (fk <=? j) && (j <? k) then (p + BLK_SIZE j) :: frees s j
        else frees s j).
Proof.
  induction fuel as [| f IH]; intros s k fk p Hf; simpl.
  - split; [lia |]. split; [reflexivity |]. split; [reflexivity |].
    intros j. destruct (Z.leb_spec fk j), (Z.ltb_spec j k); simpl; try reflexivity.
    lia.
  - destruct (Z.ltb_spec fk k) as [Hk | Hk]; [| lia].
    match goal with |- context [split_loop f ?s3 _ _ _] =>
      specialize (IH s3 (k - 1) fk p); simpl in IH;
      destruct IH as (H1 & H2 & H3 & H4); [lia |]
    end.
    repeat split; try assumption.
    intros j. rewrite H4. rewrite frees_lst_push.
    destruct (Z.leb_spec fk j), (Z.ltb_spec j (k - 1)), (Z.ltb_spec j k),
             (Z.eqb_spec j (k - 1)); simpl; try lia; try reflexivity.
    subst j. reflexivity.
Qed.

(** ** Bytes on the free lists *)

Lemma free_bytes_below_ext (s s' : state) (n : nat) :
  (forall j, 0 <= j < Z.of_nat n -> frees s' j = frees s j) ->
  free_bytes_below s' n = free_bytes_below s n.
Proof.
  induction n as [| n IH]; intros H; simpl.
  - reflexivity.
  - rewrite IH by (intros j Hj; apply H; lia).
    rewrite H by lia. reflexivity.
Qed.

Lemma free_bytes_below_push (s : state) (k q : Z) (n : nat) :
  free_bytes_below (lst_push s k q) n =
  free_bytes_below s n
  + (if (0 <=? k) && (k <? Z.of_nat n) then BLK_SIZE k else 0).
Proof.
  induction n as [| n IH].
  - cbn [free_bytes_below]. change (Z.of_nat 0) with 0.
    destruct (Z.leb_spec 0 k), (Z.ltb_spec k 0); cbn [andb]; lia.
  - cbn [free_bytes_below]. rewrite IH. rewrite frees_lst_push.
    destruct (Z.eqb_spec (Z.of_nat n) k) as [<- | Hne].
    + cbn [length]. rewrite !Nat2Z.inj_succ.
      destruct (Z.leb_spec 0 (Z.of_nat n)); [| lia].
      destruct (Z.ltb_spec (Z.of_nat n) (Z.of_nat n)); [lia |].
      destruct (Z.ltb_spec (Z.of_nat n) (Z.succ (Z.of_nat n))); [| lia].
      cbn [andb]. unfold frees. lia.
    + rewrite Nat2Z.inj_succ.
      destruct (Z.leb_spec 0 k); cbn [andb]; [| lia].
      destruct (Z.ltb_spec k (Z.of_nat n)), (Z.ltb_spec k (Z.succ (Z.of_nat n)));
        lia.
Qed.

(* what a pop at class k and pushes at the classes fk .. k-1 do to the sum *)
Lemma free_bytes_below_malloc (s s' : state) (k fk p : Z) (rest : list Z)
    (n : nat) :
  0 <= fk <= k ->
  frees s k = p :: rest ->
  (forall j, frees s' j =
     if j =? k then rest
     else if (fk <=? j) && (j <? k) then (p + BLK_SIZE j) :: frees s j
     else frees s j) ->
  free_bytes_below s' n =
  free_bytes_below s n
  + (if Z.of_nat n <=? fk then 0
     else if Z.of_nat n <=? k then BLK_SIZE (Z.of_nat n) - BLK_SIZE fk
     else - BLK_SIZE fk).
Proof.
  intros Hk Hpop Hfr.
  induction n as [| n IH].
  - simpl. destruct (Z.leb_spec 0 fk); lia.
  - cbn [free_bytes_below]. rewrite IH. rewrite Hfr.
    rewrite Nat2Z.inj_succ. unfold Z.succ.
    set (z := Z.of_nat n) in *.
    assert (Hz : 0 <= z) by (unfold z; lia).
    pose proof (BLK_SIZE_succ z Hz) as Hs.
    destruct (Z.eqb_spec z k) as [Hzk | Hzk].
    + rewrite <- Hzk in Hpop. rewrite Hpop. cbn [length].
      rewrite Nat2Z.inj_succ.
      destruct (Z.leb_spec z fk), (Z.leb_spec z k), (Z.leb_spec (z + 1) fk),
               (Z.leb_spec (z + 1) k); try lia.
      assert (z = fk) by lia. subst fk. lia.
    + destruct (Z.leb_spec fk z), (Z.ltb_spec z k); cbn [andb length];
        try rewrite Nat2Z.inj_succ;
        destruct (Z.leb_spec z fk), (Z.leb_spec z k), (Z.leb_spec (z + 1) fk),
                 (Z.leb_spec (z + 1) k); try lia.
      assert (z = fk) by lia. subst fk. lia.
Qed.

(** ** bd_malloc: what a call does *)

Lemma bd_malloc_run_cases (s : state) (n fk : Z) :
  firstk n = Some fk ->
  (exists k,
      nsizes s <= k
      /\ (forall j, fk <= j < nsizes s -> frees s j = [])
      /\ bd_malloc_run s n = Some (mkRet 0 s k))
  \/ (exists k p rest s',
      fk <= k < nsizes s
      /\ (forall j, fk <= j < k -> frees s j = [])
      /\ frees s k = p :: rest
      /\ bd_malloc_run s n = Some (mkRet p s' fk)
      /\ nsizes s' = nsizes s
      /\ bd_base s' = bd_base s
      /\ (forall j, frees s' j =
            if j =? k then rest
            else if (fk <=? j) && (j <? k) then (p + BLK_SIZE j) :: frees s j
            else frees s j)).
Proof.
  intros Hfk. unfold bd_malloc_run. rewrite Hfk.
  pose proof (scan_free_spec (Z.to_nat (nsizes s - fk)) s fk) as Hscan.
  cbv zeta in Hscan.
  set (k := scan_free (Z.to_nat (nsizes s - fk)) s fk) in *.
  destruct Hscan as (Hk1 & Hk2 & Hk3); [lia |].
  destruct (Z.leb_spec (nsizes s) k) as [Hge | Hlt].
  - left. exists k. split; [exact Hge |]. split; [| reflexivity].
    intros j Hj. apply Hk2; lia.
  - right. specialize (Hk3 Hlt). unfold frees in Hk3.
    destruct (free (bd_sizes s k)) as [| p rest] eqn:Hl; [congruence |].
    cbn [lst_pop].
    match goal with |- context [split_loop ?f ?s2 k fk p] =>
      pose proof (split_loop_spec f s2 k fk p) as Hsp; cbv zeta in Hsp;
      destruct (split_loop f s2 k fk p) as [s3 k'] eqn:Hrun
    end.
    destruct Hsp as (H1 & H2 & H3 & H4); [lia |].
    cbn [fst snd] in *. subst k'.
    exists k, p, rest, s3.
    split; [lia |]. split; [intros j Hj; apply Hk2; lia |].
    split; [exact Hl |]. split; [reflexivity |].
    split; [exact H2 |]. split; [exact H3 |].
    intros j. rewrite H4. rewrite frees_set_mem, frees_set_free.
    destruct (Z.eqb_spec j k) as [-> | Hne].
    + destruct (Z.ltb_spec k k); [lia |]. rewrite andb_false_r. reflexivity.
    + reflexivity.
Qed.

(** ** Claims about bd_malloc *)





(** C10. Minimum grant and zero-size requests: every request of at most
    [LEAF_SIZE] bytes, the request for 0 bytes included, is served like a
    request for [LEAF_SIZE] bytes: [firstk] picks class 0, the call takes a
    block whenever some free list holds one, and the block it hands out is
    a class-0 block of [LEAF_SIZE] = 16 bytes.  No request is granted a
    block below [LEAF_SIZE]. *)
Theorem bd_malloc_minimum_grant (s : state) (n : Z) :
  0 <= n <= LEAF_SIZE ->
  firstk n = Some 0
  /\ bd_malloc_run s n = bd_malloc_run s LEAF_SIZE
  /\ (exists r, bd_malloc_run s n = Some r)
  /\ ((exists k, 0 <= k < nsizes s /\ frees s k <> []) ->
      exists r k rest,
        bd_malloc_run s n = Some r /\ frees s k = ret_ptr r :: rest)
  /\ (forall r, bd_malloc_run s n = Some r -> ret_ptr r <> 0 ->
        ret_class r = 0
        /\ BLK_SIZE (ret_class r) = 16
        /\ free_bytes (ret_state r) + LEAF_SIZE = free_bytes s)
  /\ (forall m r, bd_malloc_run s m = Some r -> ret_ptr r <> 0 ->
        LEAF_SIZE <= BLK_SIZE (ret_class r)).
Proof.
  intros Hn.
  assert (Hfk : firstk n = Some 0) by (apply firstk_small; lia).
  split; [exact Hfk |].
  split.
  { unfold bd_malloc_run. rewrite Hfk. rewrite firstk_small by lia. reflexivity. }
  split.
  { destruct (bd_malloc_run_cases s n 0 Hfk)
      as [(k & _ & _ & Hr) | (k & p & rest & s' & _ & _ & _ & Hr & _)];
      rewrite Hr; eauto. }
  split.
  { intros (k0 & Hk0 & Hne).
    destruct (bd_malloc_run_cases s n 0 Hfk)
      as [(k & _ & Hall & Hr) | (k & p & rest & s' & _ & _ & Hpop & Hr & _)].
    - exfalso. apply Hne. apply Hall. exact Hk0.
    - rewrite Hr. eexists. exists k, rest. split; [reflexivity |]. exact Hpop. }
  split.
  { intros r Hrun Hp.
    destruct (bd_malloc_run_cases s n 0 Hfk)
      as [(k & _ & _ & Hr) | (k & p & rest & s' & Hk & _ & Hpop & Hr & Hns & _ & Hfr)];
      rewrite Hr in Hrun; injection Hrun as <-;
      cbn [ret_ptr ret_class ret_state] in *; [congruence |].
    split; [reflexivity |]. split; [reflexivity |].
    unfold free_bytes. rewrite Hns.
    rewrite (free_bytes_below_malloc s s' k 0 p rest) by (try lia; assumption).
    rewrite Z2Nat.id by lia. change (BLK_SIZE 0) with LEAF_SIZE.
    destruct (Z.leb_spec (nsizes s) 0), (Z.leb_spec (nsizes s) k); lia. }
  intros m r Hrun Hp.
  destruct (firstk m) as [fk |] eqn:Hm;
    [| unfold bd_malloc_run in Hrun; rewrite Hm in Hrun; discriminate].
  pose proof (firstk_sound m fk Hm) as (Hfk0 & _).
  destruct (bd_malloc_run_cases s m fk Hm)
    as [(k & _ & _ & Hr) | (k & p & rest & s' & _ & _ & _ & Hr & _)];
    rewrite Hr in Hrun; injection Hrun as <-;
    cbn [ret_ptr ret_class ret_state] in *; [congruence |].
  change LEAF_SIZE with 16. apply BLK_SIZE_pos. lia.
Qed.

Lemma bd_malloc_minimum_grant_witness :
  firstk 0 = Some 0
  /\ bd_malloc_run ex_state 0 = bd_malloc_run ex_state LEAF_SIZE
  /\ exists r, bd_malloc_run ex_state 0 = Some r.
Proof.
  destruct (bd_malloc_minimum_grant ex_state 0) as (H1 & H2 & H3 & _).
  - vm_compute. split; discriminate.
  - auto.
Defined.

(** ** size and bd_free *)

Lemma size_loop_spec (fuel : nat) : forall s k p,
  nsizes s - k < Z.of_nat fuel ->
  match size_loop fuel s k p with
  | Some r =>
      (k <= r < nsizes s - 1 /\ parent_split s r p = true
       /\ forall j, k <= j < r -> parent_split s j p = false)
      \/ (nsizes s <= k /\ r = 0)
  | None =>
      k < nsizes s /\ forall j, k <= j < nsizes s - 1 -> parent_split s j p = false
  end.
Proof.
  induction fuel as [| f IH]; intros s k p Hf;
    [right; split; [simpl in Hf; lia | reflexivity] |].
  cbn [size_loop].
  destruct (Z.ltb_spec k (nsizes s)) as [Hk | Hk]; [| right; split; [lia | reflexivity]].
  destruct (Z.ltb_spec (k + 1) (nsizes s)) as [Hk1 | Hk1].
  - fold (parent_split s k p).
    destruct (parent_split s k p) eqn:Hb.
    + left. split; [lia |]. split; [exact Hb |]. intros; lia.
    + specialize (IH s (k + 1) p).
      destruct (size_loop f s (k + 1) p) as [r |].
      * destruct IH as [(H1 & H2 & H3) | H]; [lia | | lia].
        left. split; [lia |]. split; [exact H2 |].
        intros j Hj. destruct (Z.eq_dec j k) as [-> | Hne]; [exact Hb |].
        apply H3. lia.
      * destruct IH as (H1 & H2); [lia |]. split; [lia |].
        intros j Hj. destruct (Z.eq_dec j k) as [-> | Hne]; [exact Hb |].
        apply H2. lia.
  - split; [lia |]. intros; lia.
Qed.

(** [size] answers the first class, from 0 up, whose parent split bit is set
    for p, as long as there is one below the last class. *)
Lemma size_first_split (s : state) (p k : Z) :
  0 <= k < nsizes s - 1 ->
  parent_split s k p = true ->
  (forall j, 0 <= j < k -> parent_split s j p = false) ->
  size s p = Some k.
Proof.
  intros Hk Hset Hlow. unfold size.
  pose proof (size_loop_spec (S (Z.to_nat (nsizes s))) s 0 p) as H.
  destruct (size_loop (S (Z.to_nat (nsizes s))) s 0 p) as [r |].
  - destruct H as [(H1 & H2 & H3) | H]; [lia | | lia].
    f_equal.
    destruct (Z.lt_trichotomy r k) as [Hlt | [Heq | Hgt]]; [| exact Heq |].
    + rewrite Hlow in H2 by lia. discriminate.
    + rewrite H3 in Hset by lia. discriminate.
  - destruct H as (_ & H); [lia |]. rewrite H in Hset by lia. discriminate.
Qed.

Lemma size_some_inv (s : state) (p k : Z) :
  0 < nsizes s ->
  size s p = Some k ->
  0 <= k < nsizes s - 1 /\ parent_split s k p = true
  /\ forall j, 0 <= j < k -> parent_split s j p = false.
Proof.
  intros Hn Hsz. unfold size in Hsz.
  pose proof (size_loop_spec (S (Z.to_nat (nsizes s))) s 0 p) as H.
  rewrite Hsz in H. destruct H as [H | H]; [lia | exact H | lia].
Qed.

(** The loop of [bd_free] sets the pair bit and then tests that very bit, so
    it leaves at once: the block goes back on the free list of the class
    that [size] found, its buddy stays where it is and no split bit is
    cleared. *)
Lemma bd_free_loop_breaks (fuel : nat) (s : state) (k p : Z) :
  bd_free_loop fuel s k p =
  (match fuel with
   | O => s
   | S _ => if k <? MAXSIZE s
            then set_mem s (bit_set (mem s) (alloc (bd_sizes s k))
                                    (Z.quot (blk_index s k p) 2))
            else s
   end, k, p).
Proof.
  destruct fuel as [| f]; [reflexivity |].
  cbn [bd_free_loop].
  destruct (k <? MAXSIZE s); [| reflexivity].
  cbn [set_mem mem bd_sizes]. rewrite bit_isset_bit_set. reflexivity.
Qed.

Lemma bd_free_spec (s : state) (p k0 : Z) :
  size s p = Some k0 ->
  bd_free s p =
  Some (lst_push
          (if k0 <? MAXSIZE s
           then set_mem s (bit_set (mem s) (alloc (bd_sizes s k0))
                                   (Z.quot (blk_index s k0 p) 2))
           else s) k0 p).
Proof.
  intros Hsz. unfold bd_free. rewrite Hsz. rewrite bd_free_loop_breaks.
  destruct (Z.ltb_spec k0 (MAXSIZE s)) as [Hlt | Hge].
  - destruct (Z.to_nat (MAXSIZE s - k0)) eqn:Hf; [lia | reflexivity].
  - destruct (Z.to_nat (MAXSIZE s - k0)); reflexivity.
Qed.

(** C1 (the code departs from it).  In the example region [bd_malloc 32]
    takes the class-2 block at 4416 and splits it into the class-1 blocks
    4416 (handed out) and 4448 (put on the class-1 list).  Freeing 4416
    should bring back the one class-2 block and leave class 1 empty; the
    code leaves both halves on the class-1 list, class 2 empty and the
    split bit of the class-2 block set.  The same holds when both halves
    were handed out and are freed, in either order. *)
Theorem bd_free_does_not_coalesce :
  let s1 := after_malloc ex_state 32 in
  let s2 := after_malloc s1 32 in
  free_lists ex_state = [[5120; 4400]; []; [4416]; [4480]; []; [4608]; []; []]
  /\ bd_malloc ex_state 32 = Some (4416, s1)
  /\ free_lists s1 = [[5120; 4400]; [4448]; []; [4480]; []; [4608]; []; []]
  /\ free_lists (after_free s1 4416)
     = [[5120; 4400]; [4416; 4448]; []; [4480]; []; [4608]; []; []]
  /\ parent_split (after_free s1 4416) 1 4416 = true
  /\ bd_malloc s1 32 = Some (4448, s2)
  /\ free_lists (after_free (after_free s2 4416) 4448)
     = [[5120; 4400]; [4448; 4416]; []; [4480]; []; [4608]; []; []]
  /\ free_lists (after_free (after_free s2 4448) 4416)
     = [[5120; 4400]; [4416; 4448]; []; [4480]; []; [4608]; []; []].
Proof.
  vm_compute. repeat split; reflexivity.
Qed.

(** C2 (the code departs from it).  In the example region the call
    [bd_malloc 32] followed at once by [bd_free] of the address it returned
    does not give back the free lists it started from: the class-2 block
    has become two class-1 blocks. *)
Theorem malloc_free_not_identity :
  let s1 := after_malloc ex_state 32 in
  bd_malloc ex_state 32 = Some (4416, s1)
  /\ free_lists ex_state = [[5120; 4400]; []; [4416]; [4480]; []; [4608]; []; []]
  /\ free_lists (after_free s1 4416)
     = [[5120; 4400]; [4416; 4448]; []; [4480]; []; [4608]; []; []]
  /\ free_lists (after_free s1 4416) <> free_lists ex_state.
Proof.
  vm_compute. repeat split; try reflexivity. discriminate.
Qed.

(** ** bd_mark *)

Lemma rem_uint64_leaf (x : Z) : Z.rem (to_uint64 x) LEAF_SIZE = x mod LEAF_SIZE.
Proof.
  unfold to_uint64, LEAF_SIZE.
  assert (0 <= x mod 2 ^ 64 < 2 ^ 64) by (apply Z.mod_pos_bound; lia).
  rewrite Z.rem_mod_nonneg by lia.
  apply Z.mod_mod_divide. exists (2 ^ 60). reflexivity.
Qed.

(** C9. Alignment check of the range marking: [bd_mark] panics if and only
    if [start] or [stop] is not a multiple of [LEAF_SIZE]; on aligned
    bounds it runs to the end and returns. *)
Theorem bd_mark_alignment_check (s : state) (start stop : Z) (is_left : bool) :
  (bd_mark s start stop is_left = None
   <-> (start mod LEAF_SIZE <> 0 \/ stop mod LEAF_SIZE <> 0))
  /\ (start mod LEAF_SIZE = 0 /\ stop mod LEAF_SIZE = 0
      <-> exists s' fr, bd_mark s start stop is_left = Some (s', fr)).
Proof.
  unfold bd_mark. rewrite !rem_uint64_leaf.
  destruct (Z.eqb_spec (start mod LEAF_SIZE) 0) as [Ha | Ha],
           (Z.eqb_spec (stop mod LEAF_SIZE) 0) as [Hb | Hb]; cbn [negb orb].
  - split; split.
    + discriminate.
    + intros [H | H]; contradiction.
    + intros _.
      destruct (mark_loop (Z.to_nat (nsizes s)) s 0 start stop is_left 0)
        as [s' fr]. eauto.
    + intros _. split; assumption.
  - split; split; try tauto.
    intros (s' & fr & H). discriminate.
  - split; split; try tauto.
    intros (s' & fr & H). discriminate.
  - split; split; try tauto.
    intros (s' & fr & H). discriminate.
Qed.

(** ** Frame properties of the state updates *)

Lemma same_layout_refl s : same_layout s s.
Proof. unfold same_layout. auto. Qed.

Lemma same_layout_trans s1 s2 s3 :
  same_layout s1 s2 -> same_layout s2 s3 -> same_layout s1 s3.
Proof.
  unfold same_layout. intros (A1 & B1 & C1) (A2 & B2 & C2).
  split; [congruence |]. split; [congruence |].
  intros k. destruct (C1 k), (C2 k). split; congruence.
Qed.

Lemma same_layout_set_mem s m : same_layout s (set_mem s m).
Proof. unfold same_layout, set_mem. simpl. auto. Qed.

Lemma same_layout_set_free s k l : same_layout s (set_free s k l).
Proof.
  unfold same_layout, set_free, upd. simpl.
  split; [reflexivity |]. split; [reflexivity |].
  intros j. destruct (Z.eqb_spec j k) as [-> | Hne]; simpl; auto.
Qed.

Lemma same_layout_lst_push s k q : same_layout s (lst_push s k q).
Proof. apply same_layout_set_free. Qed.

Lemma mark_push_layout s s' k start stop is_left :
  same_layout s s' ->
  mark_push s' k start stop is_left = mark_push s k start stop is_left.
Proof.
  intros (Hn & Hb & _).
  unfold mark_push, blk_index, blk_index_next, addr. rewrite Hn, Hb.
  reflexivity.
Qed.

Lemma free_bytes_ext (s s' : state) :
  nsizes s' = nsizes s -> (forall j, frees s' j = frees s j) ->
  free_bytes s' = free_bytes s.
Proof.
  intros Hn Hf. unfold free_bytes. rewrite Hn.
  apply free_bytes_below_ext. intros j _. apply Hf.
Qed.

Lemma free_bytes_push (s : state) (k q : Z) :
  0 <= k < nsizes s ->
  free_bytes (lst_push s k q) = free_bytes s + BLK_SIZE k.
Proof.
  intros Hk. unfold free_bytes.
  change (nsizes (lst_push s k q)) with (nsizes s).
  rewrite free_bytes_below_push. rewrite Z2Nat.id by lia.
  destruct (Z.leb_spec 0 k), (Z.ltb_spec k (nsizes s)); cbn [andb]; lia.
Qed.

(** ** bd_mark: free lists and returned byte count *)

Lemma mark_blocks_frame (fuel : nat) : forall s k bi bj,
  let s' := mark_blocks fuel s k bi bj in
  same_layout s s' /\ forall j, frees s' j = frees s j.
Proof.
  induction fuel as [| f IH]; intros s k bi bj; cbn [mark_blocks].
  - split; [apply same_layout_refl | reflexivity].
  - destruct (bi <? bj); [| split; [apply same_layout_refl | reflexivity]].
    match goal with |- context [mark_blocks f ?s2 k (bi + 1) bj] =>
      destruct (IH s2 k (bi + 1) bj) as (HL & HF);
      assert (HL0 : same_layout s s2);
      [| assert (HF0 : forall j, frees s2 j = frees s j)]
    end.
    + destruct (0 <? k).
      * eapply same_layout_trans; apply same_layout_set_mem.
      * apply same_layout_set_mem.
    + intros j. destruct (0 <? k); reflexivity.
    + split; [eapply same_layout_trans; eassumption |].
      intros j. rewrite HF. apply HF0.
Qed.

Lemma mark_class_spec (s : state) (k start stop : Z) (is_left : bool) (fr : Z) :
  let r := mark_class s k start stop is_left fr in
  same_layout s (fst r)
  /\ (forall j, frees (fst r) j =
        match mark_push s k start stop is_left with
        | Some a => if j =? k then a :: frees s j else frees s j
        | None => frees s j
        end)
  /\ snd r = match mark_push s k start stop is_left with
             | Some _ => to_int (fr + BLK_SIZE k)
             | None => fr
             end.
Proof.
  unfold mark_class, mark_push.
  set (bi := blk_index s k start). set (bj := blk_index_next s k stop).
  set (cl := negb (Z.rem bj 2 =? 0)). set (cr := negb (Z.rem bi 2 =? 0)).
  destruct (k <? nsizes s - 2); destruct is_left; cbn [andb negb];
    destruct cl eqn:Hcl; destruct cr eqn:Hcr; cbv zeta beta iota;
    match goal with |- context [mark_blocks ?f ?s3 k bi bj] =>
      destruct (mark_blocks_frame f s3 k bi bj) as (HL & HF)
    end;
    cbn [fst snd];
    (split; [eapply same_layout_trans; [| exact HL];
             repeat (first [apply same_layout_refl
                           | apply same_layout_set_mem
                           | apply same_layout_lst_push
                           | eapply same_layout_trans;
                             [| apply same_layout_set_mem]]) |]);
    (split; [intros j; rewrite HF; rewrite ?frees_set_mem, ?frees_lst_push;
             try reflexivity; destruct (j =? k) eqn:E; try reflexivity;
             apply Z.eqb_eq in E; subst j; reflexivity
            | reflexivity]).
Qed.

Lemma mark_loop_spec (start stop : Z) (is_left : bool) (fuel : nat) :
  forall s k fr,
  let r := mark_loop fuel s k start stop is_left fr in
  same_layout s (fst r)
  /\ (forall j, frees (fst r) j =
        if (k <=? j) && (j <? k + Z.of_nat fuel) && (j <? nsizes s)
        then match mark_push s j start stop is_left with
             | Some a => a :: frees s j
             | None => frees s j
             end
        else frees s j).
Proof.
  induction fuel as [| f IH]; intros s k fr; cbn [mark_loop].
  - split; [apply same_layout_refl |].
    intros j. destruct (Z.leb_spec k j), (Z.ltb_spec j (k + Z.of_nat 0));
      cbn [andb]; try reflexivity; lia.
  - destruct (Z.ltb_spec k (nsizes s)) as [Hk | Hk].
    + pose proof (mark_class_spec s k start stop is_left fr) as HC.
      cbv zeta in HC.
      destruct (mark_class s k start stop is_left fr) as [s1 fr1].
      cbn [fst snd] in HC. destruct HC as (HL1 & HF1 & _).
      specialize (IH s1 (k + 1) fr1). cbv zeta in IH.
      destruct IH as (HL2 & HF2).
      split; [eapply same_layout_trans; eassumption |].
      intros j. rewrite HF2, HF1.
      assert (Hn1 : nsizes s1 = nsizes s) by apply HL1. rewrite Hn1.
      rewrite (mark_push_layout s s1) by exact HL1.
      rewrite Nat2Z.inj_succ.
      destruct (Z.leb_spec (k + 1) j), (Z.leb_spec k j),
               (Z.ltb_spec j (k + 1 + Z.of_nat f)),
               (Z.ltb_spec j (k + Z.succ (Z.of_nat f))),
               (Z.ltb_spec j (nsizes s)); cbn [andb]; try lia;
        destruct (Z.eqb_spec j k); try lia;
        try (destruct (mark_push s k start stop is_left); reflexivity);
        try (destruct (mark_push s j start stop is_left); reflexivity).
      subst j. destruct (mark_push s k start stop is_left); reflexivity.
    + split; [apply same_layout_refl |].
      intros j. destruct (Z.leb_spec k j), (Z.ltb_spec j (k + Z.of_nat (S f))),
                         (Z.ltb_spec j (nsizes s)); cbn [andb]; try reflexivity.
      lia.
Qed.

Lemma mark_push_class s k start stop is_left a :
  mark_push s k start stop is_left = Some a -> k < nsizes s - 2.
Proof.
  unfold mark_push. destruct (Z.ltb_spec k (nsizes s - 2)); [auto | discriminate].
Qed.

(** Without overflow of the [int] counter, [bd_mark] returns exactly the
    number of bytes it put on the free lists. *)
Lemma mark_loop_account (start stop : Z) (is_left : bool) (fuel : nat) :
  forall s k fr,
  0 <= k -> nsizes s <= 27 ->
  (k < nsizes s - 2 -> 0 <= fr <= BLK_SIZE k - 16) ->
  let r := mark_loop fuel s k start stop is_left fr in
  free_bytes (fst r) - free_bytes s = snd r - fr
  /\ fr <= snd r
  /\ (nsizes s - 2 <= k -> snd r = fr)
  /\ (k < nsizes s - 2 -> snd r <= BLK_SIZE (nsizes s - 2) - 16).
Proof.
  induction fuel as [| f IH]; intros s k fr Hk Hn Hfr; cbn [mark_loop].
  - cbn [fst snd]. split; [lia |]. split; [lia |]. split; [reflexivity |].
    intros Hlt. specialize (Hfr Hlt).
    assert (BLK_SIZE k <= BLK_SIZE (nsizes s - 2))
      by (apply BLK_SIZE_mono; lia). lia.
  - destruct (Z.ltb_spec k (nsizes s)) as [Hkn | Hkn];
      [| cbn [fst snd]; repeat split; lia].
    pose proof (mark_class_spec s k start stop is_left fr) as HC.
    cbv zeta in HC.
    destruct (mark_class s k start stop is_left fr) as [s1 fr1].
    cbn [fst snd] in HC. destruct HC as (HL1 & HF1 & HR1).
    assert (Hn1 : nsizes s1 = nsizes s) by apply HL1.
    assert (Hstep : free_bytes s1 - free_bytes s = fr1 - fr
                    /\ fr <= fr1
                    /\ (nsizes s - 2 <= k -> fr1 = fr)
                    /\ (k < nsizes s - 2 -> 0 <= fr1 <= BLK_SIZE (k + 1) - 16)).
    { rewrite BLK_SIZE_succ by lia.
      destruct (mark_push s k start stop is_left) as [a |] eqn:Hp.
      - apply mark_push_class in Hp. specialize (Hfr Hp).
        assert (Hb : BLK_SIZE k <= BLK_SIZE 24) by (apply BLK_SIZE_mono; lia).
        change (BLK_SIZE 24) with (2 ^ 28) in Hb.
        pose proof (BLK_SIZE_pos k Hk).
        rewrite to_int_id in HR1 by lia.
        rewrite (free_bytes_ext (lst_push s k a) s1).
        + rewrite free_bytes_push by lia. lia.
        + exact Hn1.
        + intros j. rewrite HF1, frees_lst_push.
          destruct (Z.eqb_spec j k) as [-> | Hne]; reflexivity.
      - rewrite (free_bytes_ext s s1) by assumption.
        pose proof (BLK_SIZE_pos k Hk). lia. }
    destruct Hstep as (Ha & Hb & Hc & Hd).
    specialize (IH s1 (k + 1) fr1). cbv zeta in IH. rewrite Hn1 in IH.
    destruct IH as (H1 & H2 & H3 & H4); [lia | lia | intros; apply Hd; lia |].
    split; [lia |]. split; [lia |]. split.
    + intros Hge. rewrite H3 by lia. apply Hc. exact Hge.
    + intros Hlt. destruct (Z.eq_dec (k + 1) (nsizes s - 2)) as [He | Hne].
      * rewrite H3 by lia. rewrite <- He. apply Hd. exact Hlt.
      * apply H4. lia.
Qed.

(** ** bd_init: shape of the tables *)

Lemma log2_loop_range (f : nat) : forall k n,
  k <= log2_loop f k n <= k + Z.of_nat f.
Proof.
  induction f as [| f IH]; intros k n; cbn [log2_loop].
  - lia.
  - destruct (1 <? n); [| lia].
    specialize (IH (k + 1) (Z.shiftr n 1)). lia.
Qed.

Lemma log2_range (n : Z) : 0 <= log2 n <= 64.
Proof.
  unfold log2. pose proof (log2_loop_range 64 0 n). lia.
Qed.

Lemma frees_set_alloc s k p j : frees (set_alloc s k p) j = frees s j.
Proof.
  unfold frees, set_alloc, upd. cbn [bd_sizes].
  destruct (Z.eqb_spec j k) as [-> | Hne]; reflexivity.
Qed.

Lemma frees_set_split s k p j : frees (set_split s k p) j = frees s j.
Proof.
  unfold frees, set_split, upd. cbn [bd_sizes].
  destruct (Z.eqb_spec j k) as [-> | Hne]; reflexivity.
Qed.

Lemma init_alloc_shape (fuel : nat) : forall s k p,
  let r := init_alloc fuel s k p in
  nsizes (fst r) = nsizes s
  /\ bd_base (fst r) = bd_base s
  /\ ((forall j, frees s j = []) -> forall j, frees (fst r) j = []).
Proof.
  induction fuel as [| f IH]; intros s k p; cbn [init_alloc].
  - auto.
  - destruct (k <? nsizes s); [| auto].
    match goal with |- context [init_alloc f ?s3 (k + 1) ?q] =>
      destruct (IH s3 (k + 1) q) as (H1 & H2 & H3)
    end.
    split; [exact H1 |]. split; [exact H2 |].
    intros He. apply H3. intros j.
    rewrite frees_set_mem, frees_set_alloc, frees_set_free.
    destruct (j =? k); [reflexivity | apply He].
Qed.

Lemma init_split_shape (fuel : nat) : forall s k p,
  let r := init_split fuel s k p in
  nsizes (fst r) = nsizes s
  /\ bd_base (fst r) = bd_base s
  /\ (forall j, frees (fst r) j = frees s j).
Proof.
  induction fuel as [| f IH]; intros s k p; cbn [init_split].
  - auto.
  - destruct (k <? nsizes s); [| auto].
    match goal with |- context [init_split f ?s3 (k + 1) ?q] =>
      destruct (IH s3 (k + 1) q) as (H1 & H2 & H3)
    end.
    split; [exact H1 |]. split; [exact H2 |].
    intros j. rewrite H3.
    rewrite frees_set_mem, frees_set_split. reflexivity.
Qed.

Lemma bd_init_layout_shape (m0 : Z -> Z) (base end_ : Z) :
  let r := bd_init_layout m0 base end_ in
  1 <= nsizes (fst r) <= 66
  /\ bd_base (fst r) = ROUNDUP_u64 base LEAF_SIZE
  /\ forall j, frees (fst r) j = [].
Proof.
  unfold bd_init_layout.
  set (p := ROUNDUP_u64 base LEAF_SIZE).
  set (ns0 := to_int (log2 (to_uint64 (Z.quot (end_ - p) LEAF_SIZE)) + 1)).
  set (ns := if BLK_SIZE (ns0 - 1) <? end_ - p then to_int (ns0 + 1) else ns0).
  assert (H0 : 1 <= ns0 <= 65).
  { unfold ns0.
    pose proof (log2_range (to_uint64 (Z.quot (end_ - p) LEAF_SIZE))).
    rewrite to_int_id; lia. }
  assert (Hns : 1 <= ns <= 66).
  { unfold ns. destruct (BLK_SIZE (ns0 - 1) <? end_ - p); [| lia].
    rewrite to_int_id; lia. }
  match goal with |- context [init_alloc ?f ?s0 0 ?q] =>
    pose proof (init_alloc_shape f s0 0 q) as HA; cbv zeta in HA;
    destruct (init_alloc f s0 0 q) as [s1 p2]
  end.
  match goal with |- context [init_split ?f s1 1 p2] =>
    pose proof (init_split_shape f s1 1 p2) as HS; cbv zeta in HS;
    destruct (init_split f s1 1 p2) as [s2 p3]
  end.
  cbn [fst snd nsizes bd_base] in *.
  destruct HA as (A1 & A2 & A3), HS as (S1 & S2 & S3).
  split; [lia |]. split; [congruence |].
  intros j. rewrite S3. apply A3. reflexivity.
Qed.

Lemma free_bytes_empty (s : state) :
  (forall j, frees s j = []) -> free_bytes s = 0.
Proof.
  intros He. unfold free_bytes.
  induction (Z.to_nat (nsizes s)) as [| n IH]; cbn [free_bytes_below].
  - reflexivity.
  - rewrite IH, He. reflexivity.
Qed.

Lemma nsizes_bound_of_heap (s : state) :
  1 <= nsizes s -> HEAP_SIZE s < 2 ^ 31 -> nsizes s <= 27.
Proof.
  intros Hn Hh. unfold HEAP_SIZE, MAXSIZE in Hh.
  destruct (Z.le_gt_cases (nsizes s) 27) as [H | H]; [exact H |].
  assert (BLK_SIZE 27 <= BLK_SIZE (nsizes s - 1)) by (apply BLK_SIZE_mono; lia).
  change (BLK_SIZE 27) with (2 ^ 31) in *. lia.
Qed.

Lemma bd_mark_some (s : state) (start stop : Z) (is_left : bool) s' fr :
  bd_mark s start stop is_left = Some (s', fr) ->
  start mod LEAF_SIZE = 0 /\ stop mod LEAF_SIZE = 0
  /\ mark_loop (Z.to_nat (nsizes s)) s 0 start stop is_left 0 = (s', fr).
Proof.
  unfold bd_mark. rewrite !rem_uint64_leaf.
  destruct (Z.eqb_spec (start mod LEAF_SIZE) 0),
           (Z.eqb_spec (stop mod LEAF_SIZE) 0); cbn [negb orb];
    try discriminate.
  intros H. injection H as H. auto.
Qed.

(** What a completed [bd_init] went through. *)
Lemma bd_init_run_inv (m0 : Z -> Z) (base end_ : Z) s ml mr :
  bd_init_run m0 base end_ = Some (s, ml, mr) ->
  exists s2 p4 s3,
    bd_init_layout m0 base end_ = (s2, p4)
    /\ bd_mark s2 (bd_base s2) p4 true = Some (s3, mfree ml)
    /\ meta ml = to_int (p4 - bd_base s2)
    /\ bd_mark s3 (bd_base s3 + BLK_SIZE (MAXSIZE s3) - meta mr)
               (bd_base s3 + BLK_SIZE (MAXSIZE s3)) false = Some (s, mfree mr)
    /\ meta mr =
       (let m0' := to_int (BLK_SIZE (MAXSIZE s3) - (end_ - bd_base s3)) in
        if 0 <? m0' then to_int (ROUNDUP m0' LEAF_SIZE) else m0')
    /\ to_int (mfree ml + mfree mr) = HEAP_SIZE s - meta ml - meta mr.
Proof.
  unfold bd_init_run. destruct (bd_init_layout m0 base end_) as [s2 p4].
  unfold bd_mark_data_structures.
  destruct (bd_mark s2 (bd_base s2) p4 true) as [[s3 fl] |] eqn:HL;
    [| discriminate].
  unfold bd_mark_unavailable.
  match goal with |- context [bd_mark s3 ?a ?b false] =>
    destruct (bd_mark s3 a b false) as [[s4 fr] |] eqn:HR; [| discriminate]
  end.
  cbn [meta mfree].
  match goal with |- context [negb (?a =? ?b)] =>
    destruct (Z.eqb_spec a b) as [Heq | Hne]; cbn [negb]; [| discriminate]
  end.
  intros H. injection H as <- <- <-. cbn [meta mfree].
  exists s2, p4, s3. repeat split; try assumption; reflexivity.
Qed.

(** The free lists of a completed [bd_init] hold what the two markings
    returned, and the check of [bd_init] makes that the heap less the two
    reservations. *)
Lemma bd_init_run_free_bytes (m0 : Z -> Z) (base end_ : Z) s ml mr :
  bd_init_run m0 base end_ = Some (s, ml, mr) ->
  HEAP_SIZE s < 2 ^ 31 ->
  free_bytes s = mfree ml + mfree mr
  /\ free_bytes s + meta ml + meta mr = HEAP_SIZE s
  /\ HEAP_SIZE s = LEAF_SIZE * 2 ^ (nsizes s - 1).
Proof.
  intros Hrun Hheap.
  destruct (bd_init_run_inv _ _ _ _ _ _ Hrun)
    as (s2 & p4 & s3 & Hlay & HL & Hml & HR & Hmr & Hchk).
  pose proof (bd_init_layout_shape m0 base end_) as Hsh. cbv zeta in Hsh.
  rewrite Hlay in Hsh. cbn [fst] in Hsh. destruct Hsh as (Hn2 & _ & Hempty).
  apply bd_mark_some in HL. destruct HL as (_ & _ & HL).
  apply bd_mark_some in HR. destruct HR as (_ & _ & HR).
  pose proof (mark_loop_spec (bd_base s2) p4 true (Z.to_nat (nsizes s2)) s2 0 0)
    as HsL. cbv zeta in HsL. rewrite HL in HsL. cbn [fst] in HsL.
  destruct HsL as ((Hn3 & _) & _).
  match type of HR with mark_loop ?f s3 0 ?a ?b false 0 = _ =>
    pose proof (mark_loop_spec a b false f s3 0 0) as HsR;
    pose proof (mark_loop_account a b false f s3 0 0) as HaR
  end.
  cbv zeta in HsR, HaR. rewrite HR in HsR, HaR. cbn [fst snd] in HsR, HaR.
  destruct HsR as ((Hn4 & _) & _).
  assert (Hn27 : nsizes s <= 27).
  { apply nsizes_bound_of_heap; [lia | exact Hheap]. }
  pose proof (mark_loop_account (bd_base s2) p4 true (Z.to_nat (nsizes s2)) s2 0 0)
    as HaL. cbv zeta in HaL. rewrite HL in HaL. cbn [fst snd] in HaL.
  change (BLK_SIZE 0 - 16) with 0 in HaL, HaR.
  destruct HaL as (L1 & L2 & L3 & L4); [lia | lia | lia |].
  destruct HaR as (R1 & R2 & R3 & R4); [lia | lia | lia |].
  rewrite (free_bytes_empty s2 Hempty) in L1.
  assert (E2 : nsizes s2 = nsizes s) by lia.
  assert (E3 : nsizes s3 = nsizes s) by lia.
  rewrite E2 in L3, L4. rewrite E3 in R3, R4.
  assert (Hfree : free_bytes s = mfree ml + mfree mr) by lia.
  assert (Hbl : mfree ml <= 2 ^ 30 - 16 /\ mfree mr <= 2 ^ 30 - 16).
  { assert (BLK_SIZE (nsizes s - 2) <= BLK_SIZE 25).
    { destruct (Z.le_gt_cases 0 (nsizes s - 2)).
      - apply BLK_SIZE_mono. lia.
      - rewrite BLK_SIZE_neg by lia. pose proof (BLK_SIZE_pos 25). lia. }
    change (BLK_SIZE 25) with (2 ^ 29) in *.
    split.
    - destruct (Z.le_gt_cases (nsizes s - 2) 0); [rewrite L3 by lia; lia |].
      specialize (L4 ltac:(lia)). lia.
    - destruct (Z.le_gt_cases (nsizes s - 2) 0); [rewrite R3 by lia; lia |].
      specialize (R4 ltac:(lia)). lia. }
  rewrite to_int_id in Hchk by lia.
  split; [exact Hfree |]. split; [lia |].
  unfold HEAP_SIZE, MAXSIZE, BLK_SIZE.
  rewrite shiftl_1_nonneg by lia. lia.
Qed.


(** ** The example region, without reading states back *)

Lemma ex_state_run :
  exists ml mr,
    bd_init_run (fun _ => 0) 4096 5136 = Some (ex_state, ml, mr)
    /\ meta ml = 304 /\ meta mr = 1008.
Proof.
  assert (H : match bd_init_run (fun _ => 0) 4096 5136 with
              | Some (_, ml, mr) => Some (meta ml, meta mr)
              | None => None
              end = Some (304, 1008)) by (vm_compute; reflexivity).
  unfold ex_state, bd_init.
  destruct (bd_init_run (fun _ => 0) 4096 5136) as [[[s ml] mr] |];
    [| discriminate].
  injection H as H1 H2. exists ml, mr. auto.
Qed.

Lemma ex_state_init : bd_init (fun _ => 0) 4096 5136 = Some ex_state.
Proof.
  destruct ex_state_run as (ml & mr & H & _). unfold bd_init at 1.
  rewrite H. reflexivity.
Qed.

Lemma ex_state_shape :
  nsizes ex_state = 8 /\ bd_base ex_state = 4096 /\ HEAP_SIZE ex_state = 2048.
Proof. vm_compute. repeat split; reflexivity. Qed.

(* one allocating step, named by the address and class it hands out *)
Lemma step_after_malloc (s : state) (live : list (Z * Z)) (n p c : Z) :
  match bd_malloc_run s n with
  | Some r => Some (ret_ptr r, ret_class r)
  | None => None
  end = Some (p, c) ->
  p <> 0 ->
  step (s, live) (after_malloc s n, (p, c) :: live).
Proof.
  intros H Hp. unfold after_malloc, bd_malloc.
  destruct (bd_malloc_run s n) as [r |] eqn:Hr; [| discriminate].
  injection H as <- <-. apply (step_malloc s live n r Hr Hp).
Qed.

(** C3 (X24). Accounting at initialisation: when [bd_init] completes (on a heap
    below 2^31 bytes, so that its [int] counters do not overflow), the bytes
    on the free lists of all classes, the bytes reserved for the metadata
    and the bytes reserved for the unavailable tail add up to [HEAP_SIZE];
    [bd_init] completes only if its own count agrees, and panics
    otherwise. *)
Theorem bd_init_accounting (m0 : Z -> Z) (base end_ : Z) s ml mr :
  bd_init_run m0 base end_ = Some (s, ml, mr) ->
  HEAP_SIZE s < 2 ^ 31 ->
  free_bytes s = mfree ml + mfree mr
  /\ free_bytes s + meta ml + meta mr = HEAP_SIZE s
  /\ HEAP_SIZE s = LEAF_SIZE * 2 ^ (nsizes s - 1).
Proof.
  intros Hrun Hheap. exact (bd_init_run_free_bytes m0 base end_ s ml mr Hrun Hheap).
Qed.

Lemma bd_init_accounting_witness :
  exists s ml mr,
    bd_init_run (fun _ => 0) 4096 5136 = Some (s, ml, mr)
    /\ meta ml = 304 /\ meta mr = 1008 /\ HEAP_SIZE s = 2048
    /\ free_bytes s + meta ml + meta mr = HEAP_SIZE s.
Proof.
  destruct ex_state_run as (ml & mr & Hrun & H1 & H2).
  destruct ex_state_shape as (_ & _ & H3).
  exists ex_state, ml, mr. repeat split; try assumption.
  apply (bd_init_accounting (fun _ => 0) 4096 5136 ex_state ml mr Hrun).
  rewrite H3. reflexivity.
Defined.

(** ** Bit vectors: one bit at a time

    For a non-negative index, bit [i] of the array at [a] is bit [i mod 8]
    of the byte at [a + i / 8], that is bit number [8 * a + i] of the
    store. *)

Lemma bit_mask_nonneg (i : Z) : 0 <= i -> bit_mask i = 2 ^ (i mod 8).
Proof.
  intros Hi. destruct (bit_mask_cases i) as [H0 | [Hr Hm]].
  - exfalso. unfold bit_mask, to_char in H0.
    rewrite Z.rem_mod_nonneg in H0 by lia.
    assert (Hb : 0 <= i mod 8 < 8) by (apply Z.mod_pos_bound; lia).
    rewrite shiftl_1_nonneg in H0 by lia.
    assert (0 < 2 ^ (i mod 8)) by (apply Z.pow_pos_nonneg; lia).
    assert (2 ^ (i mod 8) < 2 ^ 8) by (apply Z.pow_lt_mono_r; lia).
    rewrite Z.mod_small in H0 by (change 256 with (2 ^ 8); lia). lia.
  - rewrite Hm. rewrite Z.rem_mod_nonneg by lia. reflexivity.
Qed.

Lemma bit_isset_testbit (m : Z -> Z) (a i : Z) :
  0 <= i -> bit_isset m a i = Z.testbit (m (a + i / 8)) (i mod 8).
Proof.
  intros Hi. unfold bit_isset. rewrite bit_mask_nonneg by exact Hi.
  rewrite Z.quot_div_nonneg by lia.
  apply land_pow2_eqb. apply Z.mod_pos_bound. lia.
Qed.

Lemma bit_number_split (a i a' i' : Z) :
  0 <= i -> 0 <= i' ->
  8 * a + i <> 8 * a' + i' ->
  a + i / 8 <> a' + i' / 8 \/ i mod 8 <> i' mod 8.
Proof.
  intros Hi Hi' Hne.
  pose proof (Z.div_mod i 8 ltac:(lia)). pose proof (Z.div_mod i' 8 ltac:(lia)).
  destruct (Z.eq_dec (a + i / 8) (a' + i' / 8)); [| left; assumption].
  right. lia.
Qed.

(** Setting a bit leaves every set bit set. *)
Lemma bit_set_mono (m : Z -> Z) (a i a' i' : Z) :
  0 <= i -> 0 <= i' ->
  bit_isset m a' i' = true -> bit_isset (bit_set m a i) a' i' = true.
Proof.
  intros Hi Hi'. rewrite !bit_isset_testbit by exact Hi'.
  unfold bit_set, upd. rewrite bit_mask_nonneg by exact Hi.
  rewrite Z.quot_div_nonneg by lia.
  assert (0 <= i' mod 8 < 8) by (apply Z.mod_pos_bound; lia).
  assert (0 <= i mod 8 < 8) by (apply Z.mod_pos_bound; lia).
  destruct (Z.eqb_spec (a' + i' / 8) (a + i / 8)) as [He | Hne]; [| auto].
  rewrite He. intros Hb. rewrite testbit_to_char by lia.
  rewrite Z.lor_spec, Hb. reflexivity.
Qed.

(** Setting, clearing or flipping a bit leaves every other bit as it is. *)
Lemma bit_set_other (m : Z -> Z) (a i a' i' : Z) :
  0 <= i -> 0 <= i' -> 8 * a + i <> 8 * a' + i' ->
  bit_isset (bit_set m a i) a' i' = bit_isset m a' i'.
Proof.
  intros Hi Hi' Hne. rewrite !bit_isset_testbit by exact Hi'.
  unfold bit_set, upd. rewrite bit_mask_nonneg by exact Hi.
  rewrite Z.quot_div_nonneg by lia.
  assert (0 <= i' mod 8 < 8) by (apply Z.mod_pos_bound; lia).
  assert (0 <= i mod 8 < 8) by (apply Z.mod_pos_bound; lia).
  destruct (Z.eqb_spec (a' + i' / 8) (a + i / 8)) as [He | Hne']; [| reflexivity].
  destruct (bit_number_split a i a' i' Hi Hi' Hne) as [Hb | Hb]; [congruence |].
  rewrite He. rewrite testbit_to_char by lia.
  rewrite Z.lor_spec, Z.pow2_bits_false by lia. apply orb_false_r.
Qed.

Lemma bit_clear_other (m : Z -> Z) (a i a' i' : Z) :
  0 <= i -> 0 <= i' -> 8 * a + i <> 8 * a' + i' ->
  bit_isset (bit_clear m a i) a' i' = bit_isset m a' i'.
Proof.
  intros Hi Hi' Hne. rewrite !bit_isset_testbit by exact Hi'.
  unfold bit_clear, upd. rewrite bit_mask_nonneg by exact Hi.
  rewrite Z.quot_div_nonneg by lia.
  assert (0 <= i' mod 8 < 8) by (apply Z.mod_pos_bound; lia).
  assert (0 <= i mod 8 < 8) by (apply Z.mod_pos_bound; lia).
  destruct (Z.eqb_spec (a' + i' / 8) (a + i / 8)) as [He | Hne']; [| reflexivity].
  destruct (bit_number_split a i a' i' Hi Hi' Hne) as [Hb | Hb]; [congruence |].
  rewrite He. rewrite testbit_to_char by lia.
  rewrite Z.land_spec, Z.lnot_spec, Z.pow2_bits_false by lia.
  apply andb_true_r.
Qed.

Lemma bit_flip_other (m : Z -> Z) (a i a' i' : Z) :
  0 <= i -> 0 <= i' -> 8 * a + i <> 8 * a' + i' ->
  bit_isset (bit_flip m a i) a' i' = bit_isset m a' i'.
Proof.
  intros Hi Hi' Hne. unfold bit_flip.
  destruct (bit_isset m a i).
  - apply bit_clear_other; assumption.
  - apply bit_set_other; assumption.
Qed.

(** ** Index arithmetic without overflow *)

Lemma blk_index_eq (s : state) (k p : Z) :
  0 <= k -> 0 <= p - bd_base s < 2 ^ 31 ->
  blk_index s k p = (p - bd_base s) / BLK_SIZE k.
Proof.
  intros Hk Hp. unfold blk_index.
  pose proof (BLK_SIZE_pos k Hk) as HB.
  rewrite (to_int_id (p - bd_base s)) by lia.
  rewrite Z.quot_div_nonneg by lia.
  apply to_int_id.
  assert (0 <= (p - bd_base s) / BLK_SIZE k) by (apply Z.div_pos; lia).
  assert ((p - bd_base s) / BLK_SIZE k <= p - bd_base s).
  { apply Z.div_le_upper_bound; [lia |]. nia. }
  lia.
Qed.

Lemma blk_index_next_eq (s : state) (k p : Z) :
  0 <= k -> 0 <= p - bd_base s < 2 ^ 31 - 1 ->
  blk_index_next s k p =
  (p - bd_base s) / BLK_SIZE k
  + (if (p - bd_base s) mod BLK_SIZE k =? 0 then 0 else 1).
Proof.
  intros Hk Hp. unfold blk_index_next.
  pose proof (BLK_SIZE_pos k Hk) as HB.
  rewrite Z.quot_div_nonneg by lia.
  rewrite Z.rem_mod_nonneg by lia.
  assert (0 <= (p - bd_base s) / BLK_SIZE k) by (apply Z.div_pos; lia).
  assert ((p - bd_base s) / BLK_SIZE k <= p - bd_base s).
  { apply Z.div_le_upper_bound; [lia |]. nia. }
  rewrite (to_int_id ((p - bd_base s) / BLK_SIZE k)) by lia.
  destruct ((p - bd_base s) mod BLK_SIZE k =? 0); cbn [negb].
  - lia.
  - apply to_int_id. lia.
Qed.

Lemma addr_eq (s : state) (k bi : Z) :
  - 2 ^ 31 <= bi * BLK_SIZE k < 2 ^ 31 ->
  addr s k bi = bd_base s + bi * BLK_SIZE k.
Proof.
  intros H. unfold addr. rewrite to_int_id by exact H. reflexivity.
Qed.

(** ** Counting the blocks over a byte *)

Lemma ind_range (a b x : Z) : 0 <= ind a b x <= 1.
Proof.
  unfold ind. destruct ((a <=? x) && (x <? b)); lia.
Qed.

Lemma ind_add (a b c x : Z) :
  a <= b <= c -> ind a b x + ind b c x = ind a c x.
Proof.
  intros H. unfold ind.
  destruct (Z.leb_spec a x), (Z.ltb_spec x b), (Z.leb_spec b x),
           (Z.ltb_spec x c); cbn [andb]; lia.
Qed.

Lemma ind_in (a b x : Z) : a <= x < b -> ind a b x = 1.
Proof.
  intros H. unfold ind.
  destruct (Z.leb_spec a x), (Z.ltb_spec x b); cbn [andb]; lia.
Qed.

Lemma ind_pos_inv (a b x : Z) : 0 < ind a b x -> a <= x < b.
Proof.
  unfold ind.
  destruct (Z.leb_spec a x), (Z.ltb_spec x b); cbn [andb]; lia.
Qed.

Lemma ind_mono (a b c x : Z) : b <= c -> ind a b x <= ind a c x.
Proof.
  intros H. unfold ind.
  destruct (Z.leb_spec a x), (Z.ltb_spec x b), (Z.ltb_spec x c);
    cbn [andb]; lia.
Qed.

Lemma inb_range (k a x : Z) : 0 <= inb k a x <= 1.
Proof. apply ind_range. Qed.

Lemma inb_class_mono (k c a x : Z) :
  0 <= k <= c -> inb k a x <= inb c a x.
Proof.
  intros H. unfold inb. apply ind_mono.
  pose proof (BLK_SIZE_mono k c H). lia.
Qed.

Lemma count_list_nonneg (k : Z) (l : list Z) (x : Z) : 0 <= count_list k l x.
Proof.
  induction l as [| a l IH]; cbn [count_list]; [lia |].
  pose proof (inb_range k a x). lia.
Qed.

Lemma count_list_in (k : Z) (l : list Z) (a x : Z) :
  In a l -> inb k a x <= count_list k l x.
Proof.
  induction l as [| b l IH]; cbn [count_list In]; [tauto |].
  intros [-> | Hin].
  - pose proof (count_list_nonneg k l x). lia.
  - specialize (IH Hin). pose proof (inb_range k b x). lia.
Qed.

Lemma count_free_below_nonneg (s : state) (n : nat) (x : Z) :
  0 <= count_free_below s n x.
Proof.
  induction n as [| n IH]; cbn [count_free_below]; [lia |].
  pose proof (count_list_nonneg (Z.of_nat n) (frees s (Z.of_nat n)) x). lia.
Qed.

Lemma count_free_below_in (s : state) (n : nat) (k a x : Z) :
  0 <= k < Z.of_nat n -> In a (frees s k) ->
  inb k a x <= count_free_below s n x.
Proof.
  induction n as [| n IH]; intros Hk Hin; [lia |].
  cbn [count_free_below].
  destruct (Z.eq_dec k (Z.of_nat n)) as [-> | Hne].
  - pose proof (count_list_in (Z.of_nat n) _ a x Hin).
    pose proof (count_free_below_nonneg s n x). lia.
  - specialize (IH ltac:(lia) Hin).
    pose proof (count_list_nonneg (Z.of_nat n) (frees s (Z.of_nat n)) x). lia.
Qed.

Lemma count_free_in (s : state) (k a x : Z) :
  0 <= k < nsizes s -> In a (frees s k) -> inb k a x <= count_free s x.
Proof.
  intros Hk Hin. unfold count_free. apply count_free_below_in; [lia | exact Hin].
Qed.

Lemma count_free_nonneg (s : state) (x : Z) : 0 <= count_free s x.
Proof. apply count_free_below_nonneg. Qed.

Lemma count_live_nonneg (live : list (Z * Z)) (x : Z) : 0 <= count_live live x.
Proof.
  induction live as [| [a c] l IH]; cbn [count_live]; [lia |].
  pose proof (inb_range c a x). lia.
Qed.

Lemma count_live_in (live : list (Z * Z)) (a c x : Z) :
  In (a, c) live -> inb c a x <= count_live live x.
Proof.
  induction live as [| [a' c'] l IH]; cbn [count_live In]; [tauto |].
  intros [Heq | Hin].
  - injection Heq as -> ->. pose proof (count_live_nonneg l x). lia.
  - specialize (IH Hin). pose proof (inb_range c' a' x). lia.
Qed.

Lemma count_live_remove_one (live : list (Z * Z)) (a c x : Z) :
  In (a, c) live ->
  count_live (remove_one (a, c) live) x = count_live live x - inb c a x.
Proof.
  induction live as [| [a' c'] l IH]; cbn [count_live In remove_one fst snd];
    [tauto |].
  intros Hin.
  destruct (Z.eqb_spec a a') as [-> | Ha]; cbn [andb].
  - destruct (Z.eqb_spec c c') as [-> | Hc]; [lia |].
    destruct Hin as [Heq | Hin]; [congruence |].
    cbn [count_live]. rewrite IH by exact Hin. lia.
  - destruct Hin as [Heq | Hin]; [congruence |].
    cbn [count_live]. rewrite IH by exact Hin. lia.
Qed.

Lemma remove_one_in (b b0 : Z * Z) (l : list (Z * Z)) :
  In b (remove_one b0 l) -> In b l.
Proof.
  induction l as [| b' l IH]; cbn [remove_one In]; [tauto |].
  destruct ((fst b0 =? fst b') && (snd b0 =? snd b')); cbn [In]; tauto.
Qed.

(** Blocks that are counted at most once over every byte do not overlap. *)
Lemma no_overlap_of_count (live : list (Z * Z)) :
  (forall a c, In (a, c) live -> 0 <= c) ->
  (forall x, count_live live x <= 1) ->
  no_overlap live.
Proof.
  induction live as [| [a c] l IH]; intros Hc Hcnt; cbn [no_overlap]; [exact I |].
  split.
  - intros [a' c'] Hin. unfold blocks_disjoint. cbn [fst snd].
    assert (0 <= c) by (apply (Hc a); left; reflexivity).
    assert (0 <= c') by (apply (Hc a'); right; exact Hin).
    pose proof (BLK_SIZE_pos c ltac:(lia)).
    pose proof (BLK_SIZE_pos c' ltac:(lia)).
    destruct (Z.le_gt_cases (a + BLK_SIZE c) a') as [| Hlt1];
      [left; assumption |].
    destruct (Z.le_gt_cases (a' + BLK_SIZE c') a) as [| Hlt2];
      [right; assumption |].
    exfalso.
    specialize (Hcnt (Z.max a a')). cbn [count_live] in Hcnt.
    pose proof (count_live_in l a' c' (Z.max a a') Hin) as Hle.
    unfold inb in *.
    rewrite (ind_in a) in Hcnt by lia. rewrite (ind_in a') in Hle by lia. lia.
  - apply IH.
    + intros a' c' Hin. apply (Hc a'). right. exact Hin.
    + intros x. specialize (Hcnt x). cbn [count_live] in Hcnt.
      pose proof (inb_range c a x). lia.
Qed.

(** ** Arithmetic of block sizes *)

Lemma BLK_SIZE_divide (j k : Z) : 0 <= j <= k -> (BLK_SIZE j | BLK_SIZE k).
Proof.
  intros H. exists (2 ^ (k - j)). rewrite !BLK_SIZE_eq by lia.
  replace k with ((k - j) + j) at 1 by lia.
  rewrite Z.pow_add_r by lia. lia.
Qed.

Lemma mod_BLK_SIZE_lower (x j k : Z) :
  0 <= j <= k -> x mod BLK_SIZE k = 0 -> x mod BLK_SIZE j = 0.
Proof.
  intros H Hx.
  pose proof (BLK_SIZE_pos j ltac:(lia)). pose proof (BLK_SIZE_pos k ltac:(lia)).
  apply Z.mod_divide; [lia |].
  apply Z.divide_trans with (BLK_SIZE k); [apply BLK_SIZE_divide; exact H |].
  apply Z.mod_divide; [lia | exact Hx].
Qed.

Lemma NBLK_eq (s : state) (k : Z) :
  k < nsizes s -> NBLK s k = 2 ^ (nsizes s - 1 - k).
Proof.
  intros H. unfold NBLK, MAXSIZE. apply shiftl_1_nonneg. lia.
Qed.

Lemma HEAP_SIZE_blocks (s : state) (k : Z) :
  0 <= k < nsizes s -> HEAP_SIZE s = NBLK s k * BLK_SIZE k.
Proof.
  intros H. unfold HEAP_SIZE, MAXSIZE. rewrite NBLK_eq by lia.
  rewrite !BLK_SIZE_eq by lia.
  replace (nsizes s - 1) with ((nsizes s - 1 - k) + k) at 1 by lia.
  rewrite Z.pow_add_r by lia. lia.
Qed.

Lemma HEAP_SIZE_bound (s : state) :
  1 <= nsizes s <= 27 -> 16 <= HEAP_SIZE s <= 2 ^ 30.
Proof.
  intros H. unfold HEAP_SIZE, MAXSIZE.
  pose proof (BLK_SIZE_pos (nsizes s - 1) ltac:(lia)).
  assert (BLK_SIZE (nsizes s - 1) <= BLK_SIZE 26) by (apply BLK_SIZE_mono; lia).
  change (BLK_SIZE 26) with (2 ^ 30) in *. lia.
Qed.

Lemma blk_index_range (s : state) (k p : Z) :
  0 <= k < nsizes s -> nsizes s <= 27 ->
  0 <= p - bd_base s < HEAP_SIZE s ->
  0 <= blk_index s k p < NBLK s k.
Proof.
  intros Hk Hn Hp.
  pose proof (HEAP_SIZE_bound s ltac:(lia)).
  rewrite blk_index_eq by lia.
  pose proof (BLK_SIZE_pos k ltac:(lia)).
  split.
  - apply Z.div_pos; lia.
  - apply Z.div_lt_upper_bound; [lia |].
    rewrite (HEAP_SIZE_blocks s k) in Hp by lia. lia.
Qed.

Lemma div_BLK_SIZE_buddy (x j : Z) :
  0 <= j -> x mod BLK_SIZE (j + 1) = 0 ->
  (x + BLK_SIZE j) / BLK_SIZE (j + 1) = x / BLK_SIZE (j + 1).
Proof.
  intros Hj Hx.
  pose proof (BLK_SIZE_pos j Hj). pose proof (BLK_SIZE_succ j Hj) as Hs.
  apply Z.mod_divide in Hx; [| lia]. destruct Hx as [t ->].
  rewrite Z.div_add_l by lia.
  rewrite (Z.div_small (BLK_SIZE j)) by lia.
  rewrite Z.div_mul by lia. lia.
Qed.

(** ** Split bits survive the updates *)

Lemma split_le_refl s m : split_le s m m.
Proof. unfold split_le. auto. Qed.

Lemma split_le_trans s m1 m2 m3 :
  split_le s m1 m2 -> split_le s m2 m3 -> split_le s m1 m3.
Proof. unfold split_le. intros H1 H2 j i Hj Hi H4 Hb. auto. Qed.

Lemma split_le_bit_set s m a i :
  0 <= i -> split_le s m (bit_set m a i).
Proof.
  intros Hi j i' Hj Hi' _ Hb. apply bit_set_mono; assumption.
Qed.

Lemma split_le_bit_flip s B m k i :
  split_sep s B -> 0 <= k < nsizes s -> 0 <= i < NBLK s k ->
  split_le s m (bit_flip m (alloc (bd_sizes s k)) (Z.quot i 2)).
Proof.
  intros (Hlow & Hhigh) Hk Hi j i' Hj Hi' H4 Hb.
  rewrite Z.quot_div_nonneg by lia.
  rewrite bit_flip_other; [exact Hb | | exact Hi' |].
  - apply Z.div_pos; lia.
  - specialize (Hlow k i Hk Hi). specialize (Hhigh j i' Hj Hi' H4). lia.
Qed.

Lemma split_sep_layout s s' B :
  same_layout s s' -> split_sep s B -> split_sep s' B.
Proof.
  intros (Hn & Hb & Hp) (Hlow & Hhigh). unfold split_sep, NBLK, MAXSIZE.
  rewrite Hn. split.
  - intros k i Hk Hi. destruct (Hp k) as (-> & _). apply Hlow; assumption.
  - intros j i Hj Hi H4. destruct (Hp j) as (_ & ->). apply Hhigh; assumption.
Qed.

Lemma split_le_layout s s' m m' :
  same_layout s s' -> split_le s m m' -> split_le s' m m'.
Proof.
  intros (Hn & Hb & Hp) H j i Hj Hi H4. destruct (Hp j) as (_ & ->).
  apply H; [lia | assumption | assumption].
Qed.

Lemma parent_split_layout s s' k a :
  same_layout s s' ->
  parent_split s' k a =
  bit_isset (mem s') (split (bd_sizes s (k + 1))) (blk_index s (k + 1) a).
Proof.
  intros (Hn & Hb & Hp). unfold parent_split, blk_index.
  destruct (Hp (k + 1)) as (_ & ->). rewrite Hb. reflexivity.
Qed.

(** ** Counting after a push and after a bd_malloc *)

Lemma count_free_below_ext (s s' : state) (n : nat) (x : Z) :
  (forall j, 0 <= j < Z.of_nat n -> frees s' j = frees s j) ->
  count_free_below s' n x = count_free_below s n x.
Proof.
  induction n as [| n IH]; intros H; cbn [count_free_below].
  - reflexivity.
  - rewrite IH by (intros j Hj; apply H; lia).
    rewrite H by lia. reflexivity.
Qed.

Lemma count_free_below_push (s : state) (k q : Z) (n : nat) (x : Z) :
  count_free_below (lst_push s k q) n x =
  count_free_below s n x
  + (if (0 <=? k) && (k <? Z.of_nat n) then inb k q x else 0).
Proof.
  induction n as [| n IH].
  - cbn [count_free_below]. change (Z.of_nat 0) with 0.
    destruct (Z.leb_spec 0 k), (Z.ltb_spec k 0); cbn [andb]; lia.
  - cbn [count_free_below]. rewrite IH. rewrite frees_lst_push.
    rewrite !Nat2Z.inj_succ.
    destruct (Z.eqb_spec (Z.of_nat n) k) as [<- | Hne].
    + cbn [count_list].
      destruct (Z.leb_spec 0 (Z.of_nat n)); [| lia].
      destruct (Z.ltb_spec (Z.of_nat n) (Z.of_nat n)); [lia |].
      destruct (Z.ltb_spec (Z.of_nat n) (Z.succ (Z.of_nat n))); [| lia].
      cbn [andb]. lia.
    + destruct (Z.leb_spec 0 k); cbn [andb]; [| lia].
      destruct (Z.ltb_spec k (Z.of_nat n)), (Z.ltb_spec k (Z.succ (Z.of_nat n)));
        lia.
Qed.

Lemma count_free_push (s : state) (k q x : Z) :
  0 <= k < nsizes s ->
  count_free (lst_push s k q) x = count_free s x + inb k q x.
Proof.
  intros Hk. unfold count_free.
  change (nsizes (lst_push s k q)) with (nsizes s).
  rewrite count_free_below_push. rewrite Z2Nat.id by lia.
  destruct (Z.leb_spec 0 k), (Z.ltb_spec k (nsizes s)); cbn [andb]; lia.
Qed.

Lemma count_free_ext (s s' : state) (x : Z) :
  nsizes s' = nsizes s -> (forall j, frees s' j = frees s j) ->
  count_free s' x = count_free s x.
Proof.
  intros Hn Hf. unfold count_free. rewrite Hn.
  apply count_free_below_ext. intros j _. apply Hf.
Qed.

Lemma count_free_below_malloc (s s' : state) (k fk p : Z) (rest : list Z)
    (n : nat) (x : Z) :
  0 <= fk <= k ->
  frees s k = p :: rest ->
  (forall j, frees s' j =
     if j =? k then rest
     else if (fk <=? j) && (j <? k) then (p + BLK_SIZE j) :: frees s j
     else frees s j) ->
  count_free_below s' n x =
  count_free_below s n x
  + (if Z.of_nat n <=? fk then 0
     else if Z.of_nat n <=? k
          then ind (p + BLK_SIZE fk) (p + BLK_SIZE (Z.of_nat n)) x
          else - inb fk p x).
Proof.
  intros Hk Hpop Hfr.
  induction n as [| n IH].
  - cbn [count_free_below]. destruct (Z.leb_spec (Z.of_nat 0) fk); lia.
  - cbn [count_free_below]. rewrite IH. rewrite Hfr.
    rewrite Nat2Z.inj_succ. unfold Z.succ.
    set (z := Z.of_nat n) in *.
    assert (Hz : 0 <= z) by (unfold z; lia).
    pose proof (BLK_SIZE_succ z Hz) as Hs.
    pose proof (BLK_SIZE_pos z Hz) as Hzp.
    assert (Hm1 : fk <= z -> BLK_SIZE fk <= BLK_SIZE z)
      by (intros; apply BLK_SIZE_mono; lia).
    assert (Hm2 : z <= k -> BLK_SIZE z <= BLK_SIZE k)
      by (intros; apply BLK_SIZE_mono; lia).
    destruct (Z.eqb_spec z k) as [Hzk | Hzk].
    + rewrite <- Hzk in Hpop. rewrite Hpop. cbn [count_list].
      destruct (Z.leb_spec z fk), (Z.leb_spec z k), (Z.leb_spec (z + 1) fk),
               (Z.leb_spec (z + 1) k); try lia.
      * assert (z = fk) by lia. subst fk. lia.
      * unfold inb.
        pose proof (ind_add p (p + BLK_SIZE fk) (p + BLK_SIZE z) x
                      ltac:(pose proof (BLK_SIZE_nonneg fk); lia)).
        lia.
    + destruct (Z.leb_spec fk z), (Z.ltb_spec z k); cbn [andb count_list];
        destruct (Z.leb_spec z fk), (Z.leb_spec z k), (Z.leb_spec (z + 1) fk),
                 (Z.leb_spec (z + 1) k); try lia.
      * assert (z = fk) by lia. subst fk. unfold inb.
        replace (p + BLK_SIZE z + BLK_SIZE z) with (p + BLK_SIZE (z + 1)) by lia.
        lia.
      * unfold inb.
        replace (p + BLK_SIZE z + BLK_SIZE z) with (p + BLK_SIZE (z + 1)) by lia.
        pose proof (ind_add (p + BLK_SIZE fk) (p + BLK_SIZE z)
                      (p + BLK_SIZE (z + 1)) x ltac:(lia)).
        lia.
Qed.

(** ** Consequences of the invariant *)

Lemma HEAP_SIZE_layout s s' : same_layout s s' -> HEAP_SIZE s' = HEAP_SIZE s.
Proof.
  intros (Hn & _). unfold HEAP_SIZE, MAXSIZE. rewrite Hn. reflexivity.
Qed.

Lemma inv_block_range s lo hi live k a :
  Inv s lo hi live ->
  (0 <= k < nsizes s /\ In a (frees s k)) \/ In (a, k) live ->
  lo <= a - bd_base s /\ a - bd_base s + BLK_SIZE k <= hi
  /\ 128 <= a - bd_base s /\ a - bd_base s + BLK_SIZE k <= 2 ^ 30.
Proof.
  intros HI Hin.
  destruct (inv_blk _ _ _ _ HI k a Hin) as (Hk & _ & _).
  pose proof (BLK_SIZE_pos k ltac:(lia)) as HB.
  assert (Hc : forall x, inb k a x <= ind (bd_base s + lo) (bd_base s + hi) x).
  { intros x. pose proof (inv_cover _ _ _ _ HI x) as Hx.
    pose proof (count_live_nonneg live x). pose proof (count_free_nonneg s x).
    destruct Hin as [[Hk' Hin] | Hin].
    - pose proof (count_free_in s k a x Hk' Hin). lia.
    - pose proof (count_live_in live a k x Hin). lia. }
  pose proof (Hc a) as H1. pose proof (Hc (a + BLK_SIZE k - 1)) as H2.
  unfold inb in H1, H2. rewrite ind_in in H1, H2 by lia.
  assert (H1' : 0 < ind (bd_base s + lo) (bd_base s + hi) a) by lia.
  assert (H2' : 0 < ind (bd_base s + lo) (bd_base s + hi) (a + BLK_SIZE k - 1))
    by lia.
  apply ind_pos_inv in H1'. apply ind_pos_inv in H2'.
  destruct (inv_range _ _ _ _ HI) as (R1 & R2 & R3).
  pose proof (HEAP_SIZE_bound s (inv_n _ _ _ _ HI)).
  assert (Hlh : lo < hi) by lia. specialize (R3 Hlh).
  repeat split; lia.
Qed.

Lemma parent_split_transfer s s' j a :
  same_layout s s' -> split_le s (mem s) (mem s') ->
  0 <= j <= nsizes s - 2 -> 128 <= a - bd_base s < 2 ^ 31 ->
  parent_split s j a = true -> parent_split s' j a = true.
Proof.
  intros HL Hle Hj Ha Hb.
  rewrite (parent_split_layout s s') by exact HL.
  unfold parent_split in Hb.
  apply Hle; try assumption; try lia.
  - rewrite blk_index_eq by lia.
    apply Z.div_pos; [lia |]. pose proof (BLK_SIZE_pos (j + 1)). lia.
  - intros Hj1. rewrite blk_index_eq by lia.
    rewrite Hj1. change (BLK_SIZE 1) with 32.
    apply Z.div_le_lower_bound; lia.
Qed.

(** On a live block [size] finds a class, and one that is not above the
    class the block was granted at. *)
Lemma size_live s p c :
  0 <= c < nsizes s - 1 -> parent_split s c p = true ->
  exists k0, size s p = Some k0 /\ 0 <= k0 <= c /\ parent_split s k0 p = true.
Proof.
  intros Hc Hb. unfold size.
  pose proof (size_loop_spec (S (Z.to_nat (nsizes s))) s 0 p) as H.
  destruct (size_loop (S (Z.to_nat (nsizes s))) s 0 p) as [r |].
  - destruct H as [(H1 & H2 & H3) | H]; [lia | | lia].
    exists r. split; [reflexivity |]. split; [| exact H2].
    destruct (Z.le_gt_cases r c) as [| Hgt]; [lia |].
    rewrite H3 in Hb by lia. discriminate.
  - destruct H as (_ & H); [lia |]. rewrite H in Hb by lia. discriminate.
Qed.

(** ** bd_free keeps the invariant *)

Lemma inv_free s lo hi live p c :
  Inv s lo hi live -> In (p, c) live ->
  exists s', bd_free s p = Some s' /\ Inv s' lo hi (remove_one (p, c) live).
Proof.
  intros HI Hin.
  pose proof (inv_n _ _ _ _ HI) as Hn.
  destruct (inv_blk _ _ _ _ HI c p (or_intror Hin)) as (Hc & Hal & Hps).
  destruct (inv_block_range _ _ _ _ c p HI (or_intror Hin)) as (R1 & R2 & R3 & R4).
  destruct (size_live s p c ltac:(lia) Hps) as (k0 & Hsz & Hk0 & Hps0).
  rewrite (bd_free_spec s p k0 Hsz).
  destruct (Z.ltb_spec k0 (MAXSIZE s)) as [_ | Hge]; [| unfold MAXSIZE in Hge; lia].
  set (m' := bit_set (mem s) (alloc (bd_sizes s k0)) (Z.quot (blk_index s k0 p) 2)).
  set (s' := lst_push (set_mem s m') k0 p).
  exists s'. split; [reflexivity |].
  assert (HL : same_layout s s').
  { eapply same_layout_trans; [apply same_layout_set_mem | apply same_layout_lst_push]. }
  pose proof (BLK_SIZE_pos c ltac:(lia)) as HBc.
  assert (Hle : split_le s (mem s) (mem s')).
  { apply split_le_bit_set.
    pose proof (blk_index_range s k0 p ltac:(lia) ltac:(lia)) as Hr.
    destruct (inv_range _ _ _ _ HI) as (_ & Hhi & _).
    rewrite Z.quot_div_nonneg by lia. apply Z.div_pos; lia. }
  assert (Hfr : forall j, frees s' j = if j =? k0 then p :: frees s k0 else frees s j).
  { intros j. unfold s'. rewrite frees_lst_push, !frees_set_mem. reflexivity. }
  constructor.
  - destruct HL as (-> & _). exact Hn.
  - destruct HL as (_ & -> & _). apply (inv_base _ _ _ _ HI).
  - destruct (inv_sep _ _ _ _ HI) as [B HB]. exists B.
    eapply split_sep_layout; eassumption.
  - rewrite (HEAP_SIZE_layout s s' HL). apply (inv_range _ _ _ _ HI).
  - intros x. rewrite count_live_remove_one by exact Hin.
    unfold s'. rewrite count_free_push by (cbn; lia).
    rewrite (count_free_ext s (set_mem s m')) by reflexivity.
    pose proof (inv_cover _ _ _ _ HI x).
    pose proof (inb_class_mono k0 c p x ltac:(lia)).
    change (bd_base (lst_push (set_mem s m') k0 p)) with (bd_base s). lia.
  - intros k a Hfam.
    assert (Hns : nsizes s' = nsizes s) by apply HL.
    assert (Hbs : bd_base s' = bd_base s) by apply HL.
    rewrite Hns, Hbs.
    assert (Hold : (0 <= k < nsizes s /\ In a (frees s k)) \/ In (a, k) live ->
              0 <= k <= nsizes s - 2 /\ (a - bd_base s) mod BLK_SIZE k = 0
              /\ parent_split s' k a = true).
    { intros Ho.
      destruct (inv_blk _ _ _ _ HI k a Ho) as (A1 & A2 & A3).
      destruct (inv_block_range _ _ _ _ k a HI Ho) as (B1 & B2 & B3 & B4).
      pose proof (BLK_SIZE_pos k ltac:(lia)).
      split; [exact A1 |]. split; [exact A2 |].
      apply (parent_split_transfer s s'); try assumption; lia. }
    destruct Hfam as [[Hk Hf] | Hl].
    + rewrite Hfr in Hf.
      destruct (Z.eqb_spec k k0) as [-> | Hne].
      * destruct Hf as [<- | Hf].
        -- split; [lia |]. split.
           ++ apply (mod_BLK_SIZE_lower _ k0 c); [lia | exact Hal].
           ++ apply (parent_split_transfer s s'); try assumption; lia.
        -- apply Hold. left. split; [lia | exact Hf].
      * apply Hold. left. split; [lia | exact Hf].
    + apply Hold. right. eapply remove_one_in. exact Hl.
Qed.

(** ** bd_malloc keeps the invariant *)

Lemma same_layout_sym s s' : same_layout s s' -> same_layout s' s.
Proof.
  intros (Hn & Hb & Hp). split; [congruence |]. split; [congruence |].
  intros k. destruct (Hp k). split; congruence.
Qed.

Lemma blk_index_layout s s' k p :
  same_layout s s' -> blk_index s' k p = blk_index s k p.
Proof.
  intros (_ & Hb & _). unfold blk_index. rewrite Hb. reflexivity.
Qed.

Lemma split_loop_mem (fuel : nat) : forall s k fk p B,
  split_sep s B -> Z.of_nat fuel = k - fk -> 0 <= fk ->
  k < nsizes s -> nsizes s <= 27 ->
  128 <= p - bd_base s < HEAP_SIZE s ->
  let r := split_loop fuel s k fk p in
  same_layout s (fst r)
  /\ split_le s (mem s) (mem (fst r))
  /\ forall j, fk < j <= k ->
       bit_isset (mem (fst r)) (split (bd_sizes s j)) (blk_index s j p) = true.
Proof.
  induction fuel as [| f IH]; intros s k fk p B HB Hf Hfk Hk Hn Hp;
    cbn [split_loop].
  - cbn [fst]. split; [apply same_layout_refl |].
    split; [apply split_le_refl |]. intros j Hj. lia.
  - destruct (Z.ltb_spec fk k) as [Hlt | Hge]; [| lia].
    set (s1 := set_mem s (bit_set (mem s) (split (bd_sizes s k)) (blk_index s k p))).
    set (s2 := set_mem s1 (bit_flip (mem s1) (alloc (bd_sizes s1 (k - 1)))
                                    (Z.quot (blk_index s1 (k - 1) p) 2))).
    set (s3 := lst_push s2 (k - 1) (p + BLK_SIZE (k - 1))).
    assert (HL3 : same_layout s s3).
    { eapply same_layout_trans; [apply same_layout_set_mem |].
      eapply same_layout_trans; [apply same_layout_set_mem |].
      apply same_layout_lst_push. }
    pose proof (HEAP_SIZE_bound s ltac:(lia)) as HH.
    pose proof (blk_index_range s k p ltac:(lia) Hn ltac:(lia)) as Hik.
    pose proof (blk_index_range s (k - 1) p ltac:(lia) Hn ltac:(lia)) as Hik1.
    assert (Hle1 : split_le s (mem s) (mem s1)).
    { apply split_le_bit_set. lia. }
    assert (Hle2 : split_le s (mem s1) (mem s3)).
    { apply (split_le_bit_flip s B); [exact HB | lia | exact Hik1]. }
    specialize (IH s3 (k - 1) fk p B). cbv zeta in IH.
    destruct IH as (L & LE & BITS).
    { eapply split_sep_layout; eassumption. }
    { lia. }
    { exact Hfk. }
    { change (nsizes s3) with (nsizes s). lia. }
    { exact Hn. }
    { exact Hp. }
    split; [eapply same_layout_trans; eassumption |].
    assert (LE' : split_le s (mem s3) (mem (fst (split_loop f s3 (k - 1) fk p)))).
    { apply (split_le_layout s3 s); [apply same_layout_sym; exact HL3 | exact LE]. }
    split.
    { eapply split_le_trans; [exact Hle1 |].
      eapply split_le_trans; [exact Hle2 | exact LE']. }
    intros j Hj.
    destruct (Z.eq_dec j k) as [-> | Hne].
    + apply LE'; [lia | lia | |].
      * intros ->. rewrite blk_index_eq by lia. change (BLK_SIZE 1) with 32.
        apply Z.div_le_lower_bound; lia.
      * apply Hle2; [lia | lia | |].
        -- intros ->. rewrite blk_index_eq by lia. change (BLK_SIZE 1) with 32.
           apply Z.div_le_lower_bound; lia.
        -- apply bit_isset_bit_set.
    + specialize (BITS j ltac:(lia)).
      rewrite (blk_index_layout s s3) in BITS by exact HL3.
      destruct HL3 as (_ & _ & HP). destruct (HP j) as (_ & Hsp).
      rewrite Hsp in BITS. exact BITS.
Qed.

Lemma bd_malloc_run_taken (s : state) (n fk k p : Z) (rest : list Z) :
  firstk n = Some fk ->
  fk <= k < nsizes s ->
  (forall j, fk <= j < k -> frees s j = []) ->
  frees s k = p :: rest ->
  bd_malloc_run s n =
  Some (mkRet p
          (fst (split_loop (Z.to_nat (k - fk)) (malloc_pop s k p rest) k fk p))
          (snd (split_loop (Z.to_nat (k - fk)) (malloc_pop s k p rest) k fk p))).
Proof.
  intros Hfk Hk Hempty Hpop. unfold bd_malloc_run. rewrite Hfk.
  pose proof (scan_free_spec (Z.to_nat (nsizes s - fk)) s fk) as Hscan.
  cbv zeta in Hscan.
  set (r := scan_free (Z.to_nat (nsizes s - fk)) s fk) in *.
  destruct Hscan as (H1 & H2 & H3); [lia |].
  assert (r = k).
  { destruct (Z.lt_trichotomy r k) as [Hlt | [Heq | Hgt]]; [| exact Heq |].
    - exfalso. apply H3; [lia |]. apply Hempty. lia.
    - rewrite H2 in Hpop by lia. discriminate. }
  subst r. replace (scan_free (Z.to_nat (nsizes s - fk)) s fk) with k.
  destruct (Z.leb_spec (nsizes s) k); [lia |].
  unfold frees in Hpop. rewrite Hpop. cbn [lst_pop].
  fold (malloc_pop s k p rest).
  destruct (split_loop (Z.to_nat (k - fk)) (malloc_pop s k p rest) k fk p).
  reflexivity.
Qed.

Lemma inv_malloc s lo hi live n r :
  Inv s lo hi live -> bd_malloc_run s n = Some r ->
  (ret_ptr r = 0 /\ ret_state r = s)
  \/ (ret_ptr r <> 0
      /\ lo <= ret_ptr r - bd_base s
      /\ ret_ptr r - bd_base s + BLK_SIZE (ret_class r) <= hi
      /\ Inv (ret_state r) lo hi ((ret_ptr r, ret_class r) :: live)).
Proof.
  intros HI Hrun.
  destruct (firstk n) as [fk |] eqn:Hfk;
    [| unfold bd_malloc_run in Hrun; rewrite Hfk in Hrun; discriminate].
  pose proof (firstk_sound n fk Hfk) as (Hfk0 & _).
  destruct (bd_malloc_run_cases s n fk Hfk)
    as [(k & _ & _ & Hr) | (k & p & rest & s' & Hk & Hempty & Hpop & Hr & Hns & Hbs & Hfr)].
  { rewrite Hr in Hrun. injection Hrun as <-. left. split; reflexivity. }
  right.
  pose proof (bd_malloc_run_taken s n fk k p rest Hfk Hk Hempty Hpop) as Hr2.
  rewrite Hr in Hr2. injection Hr2 as Hs' _.
  rewrite Hr in Hrun. injection Hrun as <-. cbn [ret_ptr ret_class ret_state].
  pose proof (inv_n _ _ _ _ HI) as Hn.
  pose proof (inv_base _ _ _ _ HI) as Hb0.
  assert (Hinp : (0 <= k < nsizes s /\ In p (frees s k)) \/ In (p, k) live).
  { left. split; [lia |]. rewrite Hpop. left. reflexivity. }
  destruct (inv_blk _ _ _ _ HI k p Hinp) as (Hk2 & Hal & Hps).
  destruct (inv_block_range _ _ _ _ k p HI Hinp) as (R1 & R2 & R3 & R4).
  destruct (inv_range _ _ _ _ HI) as (_ & Hhi & _).
  pose proof (BLK_SIZE_pos k ltac:(lia)) as HBk.
  pose proof (BLK_SIZE_mono fk k ltac:(lia)) as HBfk.
  split; [lia |]. split; [lia |]. split; [lia |].
  destruct (inv_sep _ _ _ _ HI) as [B HB].
  (* the state after the pop *)
  set (s2 := malloc_pop s k p rest) in *.
  assert (HL2 : same_layout s s2).
  { unfold s2, malloc_pop.
    eapply same_layout_trans; [apply same_layout_set_free | apply same_layout_set_mem]. }
  assert (Hle2 : split_le s (mem s) (mem s2)).
  { unfold s2, malloc_pop. cbn [mem set_mem].
    destruct (same_layout_set_free s k rest) as (_ & _ & HP).
    destruct (HP k) as (-> & _).
    rewrite (blk_index_layout s (set_free s k rest))
      by apply same_layout_set_free.
    apply (split_le_bit_flip s B); [exact HB | lia |].
    apply blk_index_range; lia. }
  assert (Hn2 : nsizes s2 = nsizes s) by apply HL2.
  assert (Hb2 : bd_base s2 = bd_base s) by apply HL2.
  pose proof (split_loop_mem (Z.to_nat (k - fk)) s2 k fk p B) as HM.
  cbv zeta in HM. rewrite <- Hs' in HM.
  destruct HM as (HL3 & Hle3 & BITS).
  { eapply split_sep_layout; eassumption. }
  { lia. }
  { lia. }
  { rewrite Hn2. lia. }
  { rewrite Hn2. lia. }
  { rewrite Hb2. rewrite (HEAP_SIZE_layout s s2 HL2). lia. }
  assert (HL : same_layout s s') by (eapply same_layout_trans; eassumption).
  assert (Hle : split_le s (mem s) (mem s')).
  { eapply split_le_trans; [exact Hle2 |].
    apply (split_le_layout s2 s); [apply same_layout_sym; exact HL2 | exact Hle3]. }
  assert (BITS' : forall j, fk < j <= k ->
            bit_isset (mem s') (split (bd_sizes s j)) (blk_index s j p) = true).
  { intros j Hj. specialize (BITS j Hj).
    rewrite (blk_index_layout s s2) in BITS by exact HL2.
    pose proof HL2 as (_ & _ & HP). destruct (HP j) as (_ & Hsp).
    rewrite Hsp in BITS. exact BITS. }
  assert (Hold : forall j a,
            (0 <= j < nsizes s /\ In a (frees s j)) \/ In (a, j) live ->
            0 <= j <= nsizes s - 2 /\ (a - bd_base s) mod BLK_SIZE j = 0
            /\ parent_split s' j a = true).
  { intros j a Ho.
    destruct (inv_blk _ _ _ _ HI j a Ho) as (A1 & A2 & A3).
    destruct (inv_block_range _ _ _ _ j a HI Ho) as (B1 & B2 & B3 & B4).
    pose proof (BLK_SIZE_pos j ltac:(lia)).
    split; [exact A1 |]. split; [exact A2 |].
    apply (parent_split_transfer s s'); try assumption; lia. }
  assert (Hnew : forall j, fk <= j < k ->
            parent_split s' j p = true
            /\ parent_split s' j (p + BLK_SIZE j) = true).
  { intros j Hj.
    rewrite !(parent_split_layout s s') by exact HL.
    pose proof (BLK_SIZE_pos j ltac:(lia)).
    pose proof (BLK_SIZE_mono j k ltac:(lia)).
    split; [apply BITS'; lia |].
    rewrite (blk_index_eq s (j + 1) (p + BLK_SIZE j)) by lia.
    replace (p + BLK_SIZE j - bd_base s) with (p - bd_base s + BLK_SIZE j) by lia.
    rewrite div_BLK_SIZE_buddy;
      [| lia | apply (mod_BLK_SIZE_lower _ (j + 1) k); [lia | exact Hal]].
    rewrite <- (blk_index_eq s (j + 1) p) by lia.
    apply BITS'. lia. }
  constructor.
  - rewrite Hns. exact Hn.
  - rewrite Hbs. exact Hb0.
  - exists B. eapply split_sep_layout; eassumption.
  - rewrite (HEAP_SIZE_layout s s' HL). apply (inv_range _ _ _ _ HI).
  - intros x. cbn [count_live]. rewrite Hbs.
    unfold count_free. rewrite Hns.
    rewrite (count_free_below_malloc s s' k fk p rest) by (try lia; assumption).
    rewrite Z2Nat.id by lia.
    destruct (Z.leb_spec (nsizes s) fk), (Z.leb_spec (nsizes s) k); try lia.
    pose proof (inv_cover _ _ _ _ HI x) as Hc. unfold count_free in Hc. lia.
  - intros j a Hfam. rewrite Hns, Hbs.
    destruct Hfam as [[Hj Hf] | Hl].
    + rewrite Hfr in Hf.
      destruct (Z.eqb_spec j k) as [-> | Hne].
      * apply Hold. left. split; [lia |]. rewrite Hpop. right. exact Hf.
      * destruct (Z.leb_spec fk j), (Z.ltb_spec j k); cbn [andb] in Hf;
          try (apply Hold; left; split; [lia | exact Hf]).
        destruct Hf as [<- | Hf]; [| apply Hold; left; split; [lia | exact Hf]].
        split; [lia |]. split; [| apply Hnew; lia].
        replace (p + BLK_SIZE j - bd_base s)
          with (p - bd_base s + 1 * BLK_SIZE j) by lia.
        rewrite Z.mod_add by (pose proof (BLK_SIZE_pos j); lia).
        apply (mod_BLK_SIZE_lower _ j k); [lia | exact Hal].
    + destruct Hl as [Heq | Hl]; [| apply Hold; right; exact Hl].
      injection Heq as <- <-.
      split; [lia |]. split.
      * apply (mod_BLK_SIZE_lower _ fk k); [lia | exact Hal].
      * destruct (Z.eq_dec fk k) as [-> | Hne].
        -- apply (parent_split_transfer s s'); try assumption; lia.
        -- apply Hnew. lia.
Qed.

(** ** The invariant along a run *)

Lemma inv_step s lo hi live s' live' :
  Inv s lo hi live -> step (s, live) (s', live') -> Inv s' lo hi live'.
Proof.
  intros HI Hstep.
  inversion Hstep as [s1 l1 n r Hrun Hp E1 E2 | s1 l1 n r Hrun Hp E1 E2
                     | s1 l1 p c s2 Hin Hf E1 E2]; subst.
  - destruct (inv_malloc _ _ _ _ _ _ HI Hrun) as [(H0 & _) | (_ & _ & _ & HI')];
      [contradiction | exact HI'].
  - destruct (inv_malloc _ _ _ _ _ _ HI Hrun) as [(_ & ->) | (Hne & _)];
      [exact HI | contradiction].
  - destruct (inv_free _ _ _ _ _ _ HI Hin) as (s3 & Hs3 & HI').
    rewrite Hs3 in Hf. injection Hf as <-. exact HI'.
Qed.

Lemma inv_reachable s0 lo hi s live :
  Inv s0 lo hi [] -> reachable s0 s live -> Inv s lo hi live.
Proof.
  intros H0 Hr. induction Hr as [| s live s' live' _ IH Hstep].
  - exact H0.
  - eapply inv_step; eassumption.
Qed.

Lemma inv_no_overlap s lo hi live : Inv s lo hi live -> no_overlap live.
Proof.
  intros HI. apply no_overlap_of_count.
  - intros a c Hin.
    destruct (inv_blk _ _ _ _ HI c a (or_intror Hin)) as (Hc & _). lia.
  - intros x. pose proof (inv_cover _ _ _ _ HI x).
    pose proof (count_free_nonneg s x).
    pose proof (ind_range (bd_base s + lo) (bd_base s + hi) x). lia.
Qed.

(** ** Arithmetic of the block indices used by bd_mark *)

Lemma ceil_idx_spec (P k : Z) :
  0 <= k ->
  (ceil_idx P k - 1) * BLK_SIZE k < P <= ceil_idx P k * BLK_SIZE k.
Proof.
  intros Hk. pose proof (BLK_SIZE_pos k Hk) as HB. unfold ceil_idx.
  pose proof (Z.div_mod P (BLK_SIZE k) ltac:(lia)) as Hdm.
  pose proof (Z.mod_pos_bound P (BLK_SIZE k) ltac:(lia)) as Hm.
  destruct (Z.eqb_spec (P mod BLK_SIZE k) 0) as [H0 | Hne]; nia.
Qed.

Lemma ceil_idx_unique (P k c : Z) :
  0 <= k -> (c - 1) * BLK_SIZE k < P <= c * BLK_SIZE k -> ceil_idx P k = c.
Proof.
  intros Hk Hc. pose proof (ceil_idx_spec P k Hk) as Hs.
  pose proof (BLK_SIZE_pos k Hk) as HB. nia.
Qed.

Lemma ceil_idx_succ (P k : Z) :
  0 <= k -> ceil_idx P (k + 1) * 2 = ceil_idx P k + ceil_idx P k mod 2.
Proof.
  intros Hk.
  pose proof (ceil_idx_spec P k Hk) as Hs.
  pose proof (BLK_SIZE_pos k Hk) as HB.
  pose proof (BLK_SIZE_succ k Hk) as H2.
  set (c := ceil_idx P k) in *.
  pose proof (Z.div_mod c 2 ltac:(lia)) as Hdm.
  pose proof (Z.mod_pos_bound c 2 ltac:(lia)) as Hm.
  rewrite (ceil_idx_unique P (k + 1) (c / 2 + c mod 2)); [lia | lia |].
  rewrite H2.
  assert (Hc : c mod 2 = 0 \/ c mod 2 = 1) by lia.
  destruct Hc as [Hc | Hc]; rewrite Hc in *; nia.
Qed.

Lemma floor_idx_spec (P k : Z) :
  0 <= k ->
  floor_idx P k * BLK_SIZE k <= P < (floor_idx P k + 1) * BLK_SIZE k.
Proof.
  intros Hk. pose proof (BLK_SIZE_pos k Hk) as HB. unfold floor_idx.
  pose proof (Z.div_mod P (BLK_SIZE k) ltac:(lia)) as Hdm.
  pose proof (Z.mod_pos_bound P (BLK_SIZE k) ltac:(lia)) as Hm.
  nia.
Qed.

Lemma floor_idx_succ (P k : Z) :
  0 <= k -> floor_idx P (k + 1) * 2 = floor_idx P k - floor_idx P k mod 2.
Proof.
  intros Hk. unfold floor_idx.
  pose proof (BLK_SIZE_pos k Hk) as HB.
  rewrite BLK_SIZE_succ by exact Hk.
  rewrite (Z.mul_comm 2 (BLK_SIZE k)).
  rewrite <- Z.div_div by lia.
  pose proof (Z.div_mod (P / BLK_SIZE k) 2 ltac:(lia)). lia.
Qed.

Lemma ceil_idx_nonneg (P k : Z) : 0 <= k -> 0 <= P -> 0 <= ceil_idx P k.
Proof.
  intros Hk HP. pose proof (ceil_idx_spec P k Hk).
  pose proof (BLK_SIZE_pos k Hk). nia.
Qed.

Lemma floor_idx_nonneg (P k : Z) : 0 <= k -> 0 <= P -> 0 <= floor_idx P k.
Proof.
  intros Hk HP. unfold floor_idx. apply Z.div_pos; [lia |].
  pose proof (BLK_SIZE_pos k Hk). lia.
Qed.

Lemma ceil_idx_mono (P Q k : Z) :
  0 <= k -> P <= Q -> ceil_idx P k <= ceil_idx Q k.
Proof.
  intros Hk HPQ. pose proof (ceil_idx_spec P k Hk).
  pose proof (ceil_idx_spec Q k Hk). pose proof (BLK_SIZE_pos k Hk). nia.
Qed.

Lemma ceil_idx_exact (c k : Z) : 0 <= k -> ceil_idx (c * BLK_SIZE k) k = c.
Proof.
  intros Hk. apply ceil_idx_unique; [exact Hk |].
  pose proof (BLK_SIZE_pos k Hk). nia.
Qed.

Lemma floor_idx_exact (c k : Z) : 0 <= k -> floor_idx (c * BLK_SIZE k) k = c.
Proof.
  intros Hk. unfold floor_idx. apply Z.div_mul.
  pose proof (BLK_SIZE_pos k Hk). lia.
Qed.

Lemma floor_idx_mono (P Q k : Z) :
  0 <= k -> P <= Q -> floor_idx P k <= floor_idx Q k.
Proof.
  intros Hk HPQ. unfold floor_idx. apply Z.div_le_mono; [| exact HPQ].
  pose proof (BLK_SIZE_pos k Hk). lia.
Qed.

Lemma sum_marks_telescope (w : Z -> Z -> Z) (f : Z -> option Z) (G : Z -> Z)
    (n : nat) :
  (forall j, 0 <= j < Z.of_nat n ->
     match f j with Some a => w j a | None => 0 end = G (j + 1) - G j) ->
  sum_marks w f n = G (Z.of_nat n) - G 0.
Proof.
  induction n as [| n IH]; intros H; cbn [sum_marks].
  - change (Z.of_nat 0) with 0. lia.
  - rewrite IH by (intros j Hj; apply H; lia).
    rewrite H by lia. rewrite Nat2Z.inj_succ. unfold Z.succ. lia.
Qed.

Lemma count_free_below_marks (s s' : state) (f : Z -> option Z) (n : nat)
    (x : Z) :
  (forall j, 0 <= j < Z.of_nat n ->
     frees s' j = match f j with Some a => a :: frees s j | None => frees s j end) ->
  count_free_below s' n x =
  count_free_below s n x + sum_marks (fun j a => inb j a x) f n.
Proof.
  induction n as [| n IH]; intros H; cbn [count_free_below sum_marks].
  - lia.
  - rewrite IH by (intros j Hj; apply H; lia).
    rewrite H by lia.
    destruct (f (Z.of_nat n)); cbn [count_list]; lia.
Qed.

(** ** bd_init: sizes and addresses of the bit vectors *)

(* within the int range ROUNDUP is the plain arithmetic *)
Lemma ROUNDUP_eq (n sz : Z) :
  0 <= n -> 0 < sz -> n + sz < 2 ^ 31 ->
  ROUNDUP n sz = (Z.quot (n - 1) sz + 1) * sz.
Proof.
  intros Hn Hsz Hr. unfold ROUNDUP.
  rewrite (to_int_id (n - 1)) by lia.
  destruct (Z.eq_dec n 0) as [-> | Hne].
  - change (0 - 1) with (- (1)). rewrite Z.quot_opp_l by lia.
    rewrite Z.quot_div_nonneg by lia.
    destruct (Z.eq_dec sz 1) as [-> | Hs1].
    + reflexivity.
    + rewrite Z.div_small by lia. cbn [Z.opp Z.add].
      rewrite (to_int_id 1) by lia. rewrite to_int_id by lia. reflexivity.
  - rewrite Z.quot_div_nonneg by lia.
    pose proof (Z.div_mod (n - 1) sz ltac:(lia)) as Hdm.
    pose proof (Z.mod_pos_bound (n - 1) sz ltac:(lia)) as Hm.
    assert (Hq : 0 <= (n - 1) / sz) by (apply Z.div_pos; lia).
    assert (Hq2 : (n - 1) / sz <= n - 1) by nia.
    rewrite (to_int_id ((n - 1) / sz + 1)) by lia.
    rewrite to_int_id by nia. reflexivity.
Qed.

Lemma ROUNDUP_spec (n sz : Z) :
  1 <= n -> 0 < sz -> n + sz < 2 ^ 31 ->
  n <= ROUNDUP n sz < n + sz /\ ROUNDUP n sz mod sz = 0.
Proof.
  intros Hn Hsz Hr. rewrite ROUNDUP_eq by lia.
  rewrite Z.quot_div_nonneg by lia.
  pose proof (Z.div_mod (n - 1) sz ltac:(lia)) as Hdm.
  pose proof (Z.mod_pos_bound (n - 1) sz ltac:(lia)) as Hm.
  split; [nia |]. apply Z.mod_mul. lia.
Qed.

Lemma ROUNDUP_u64_leaf (x : Z) :
  0 <= x < 2 ^ 63 ->
  x <= ROUNDUP_u64 x LEAF_SIZE < x + 16 /\ ROUNDUP_u64 x LEAF_SIZE mod 16 = 0.
Proof.
  intros Hx. destruct (Z.eq_dec x 0) as [-> | Hne].
  - vm_compute. split; [split |]; congruence.
  - unfold ROUNDUP_u64, LEAF_SIZE.
    rewrite (to_uint64_id (x - 1)) by lia.
    rewrite Z.quot_div_nonneg by lia.
    pose proof (Z.div_mod (x - 1) 16 ltac:(lia)) as Hdm.
    pose proof (Z.mod_pos_bound (x - 1) 16 ltac:(lia)) as Hm.
    rewrite to_uint64_id by lia.
    split; [lia |]. apply Z.mod_mul. lia.
Qed.

Lemma NBLK_range (s : state) (k : Z) :
  0 <= k < nsizes s -> nsizes s <= 27 -> 1 <= NBLK s k <= 2 ^ 26.
Proof.
  intros Hk Hn. rewrite NBLK_eq by lia.
  assert (0 < 2 ^ (nsizes s - 1 - k)) by (apply Z.pow_pos_nonneg; lia).
  assert (2 ^ (nsizes s - 1 - k) <= 2 ^ 26) by (apply Z.pow_le_mono_r; lia).
  lia.
Qed.

Lemma NBLK_small_or_16 (s : state) (k : Z) :
  0 <= k < nsizes s -> NBLK s k <= 8 \/ NBLK s k mod 16 = 0.
Proof.
  intros Hk. rewrite NBLK_eq by lia.
  destruct (Z.le_gt_cases (nsizes s - 1 - k) 3) as [Hle | Hgt].
  - left. assert (2 ^ (nsizes s - 1 - k) <= 2 ^ 3) by (apply Z.pow_le_mono_r; lia).
    lia.
  - right. replace (nsizes s - 1 - k) with ((nsizes s - 5 - k) + 4) by lia.
    rewrite Z.pow_add_r by lia. apply Z.mod_mul. lia.
Qed.

Lemma alloc_bytes_spec (s : state) (k : Z) :
  0 <= k < nsizes s -> nsizes s <= 27 ->
  0 <= alloc_bytes s k <= 2 ^ 22
  /\ forall i, 0 <= i < NBLK s k -> i / 2 < 8 * alloc_bytes s k + 4.
Proof.
  intros Hk Hn. unfold alloc_bytes.
  pose proof (NBLK_range s k Hk Hn) as Hr.
  destruct (ROUNDUP_spec (NBLK s k) 8 ltac:(lia) ltac:(lia) ltac:(lia)) as (HR & _).
  set (R := ROUNDUP (NBLK s k) 8) in *.
  rewrite Z.mul_1_l. rewrite (to_uint64_id R) by lia.
  rewrite Z.quot_div_nonneg by lia.
  assert (0 <= R / 16) by (apply Z.div_pos; lia).
  assert (R / 16 < 2 ^ 22 + 1) by (apply Z.div_lt_upper_bound; lia).
  rewrite to_int_id by lia.
  split; [lia |]. intros i Hi.
  destruct (NBLK_small_or_16 s k Hk) as [Hs | H16].
  - assert (i / 2 < 4) by (apply Z.div_lt_upper_bound; lia). lia.
  - apply Z.mod_divide in H16; [| lia]. destruct H16 as [t Ht].
    assert (t <= R / 16) by (apply Z.div_le_lower_bound; lia).
    assert (i / 2 < 8 * t) by (apply Z.div_lt_upper_bound; lia). lia.
Qed.

Lemma split_bytes_spec (s : state) (k : Z) :
  0 <= k < nsizes s -> nsizes s <= 27 -> 1 <= split_bytes s k <= 2 ^ 23.
Proof.
  intros Hk Hn. unfold split_bytes.
  pose proof (NBLK_range s k Hk Hn) as Hr.
  destruct (ROUNDUP_spec (NBLK s k) 8 ltac:(lia) ltac:(lia) ltac:(lia)) as (HR & Hmod).
  set (R := ROUNDUP (NBLK s k) 8) in *.
  rewrite Z.mul_1_l. rewrite (to_uint64_id R) by lia.
  rewrite Z.quot_div_nonneg by lia.
  assert (8 <= R).
  { apply Z.mod_divide in Hmod; [| lia]. destruct Hmod as [t Ht]. lia. }
  assert (1 <= R / 8) by (apply Z.div_le_lower_bound; lia).
  assert (R / 8 < 2 ^ 23 + 1) by (apply Z.div_lt_upper_bound; lia).
  rewrite to_int_id by lia. lia.
Qed.

Lemma alloc_set_alloc s k p j :
  alloc (bd_sizes (set_alloc s k p) j) = if j =? k then p else alloc (bd_sizes s j).
Proof.
  unfold set_alloc, upd. cbn [bd_sizes].
  destruct (Z.eqb_spec j k) as [-> | Hne]; reflexivity.
Qed.

Lemma alloc_set_free s k l j :
  alloc (bd_sizes (set_free s k l) j) = alloc (bd_sizes s j).
Proof.
  unfold set_free, upd. cbn [bd_sizes].
  destruct (Z.eqb_spec j k) as [-> | Hne]; reflexivity.
Qed.

Lemma split_set_split s k p j :
  split (bd_sizes (set_split s k p) j) = if j =? k then p else split (bd_sizes s j).
Proof.
  unfold set_split, upd. cbn [bd_sizes].
  destruct (Z.eqb_spec j k) as [-> | Hne]; reflexivity.
Qed.

Lemma alloc_set_split s k p j :
  alloc (bd_sizes (set_split s k p) j) = alloc (bd_sizes s j).
Proof.
  unfold set_split, upd. cbn [bd_sizes].
  destruct (Z.eqb_spec j k) as [-> | Hne]; reflexivity.
Qed.

Lemma init_alloc_ptrs (fuel : nat) : forall s k p,
  0 <= k -> nsizes s <= 27 ->
  let r := init_alloc fuel s k p in
  p <= snd r <= p + Z.of_nat fuel * 2 ^ 22
  /\ (forall j, j < k -> alloc (bd_sizes (fst r) j) = alloc (bd_sizes s j))
  /\ (forall j, k <= j < k + Z.of_nat fuel -> j < nsizes s ->
        p <= alloc (bd_sizes (fst r) j)
        /\ alloc (bd_sizes (fst r) j) + alloc_bytes s j <= snd r).
Proof.
  induction fuel as [| f IH]; intros s k p Hk Hn; cbn [init_alloc].
  - cbn [fst snd]. split; [lia |]. split; [reflexivity |]. intros; lia.
  - destruct (Z.ltb_spec k (nsizes s)) as [Hlt | Hge].
    + set (sz := alloc_bytes (set_free s k []) k).
      assert (Hsz : sz = alloc_bytes s k) by reflexivity.
      destruct (alloc_bytes_spec s k ltac:(lia) Hn) as (Hb & _).
      match goal with |- context [init_alloc f ?s3 (k + 1) (p + sz)] =>
        specialize (IH s3 (k + 1) (p + sz)); cbv zeta in IH;
        change (nsizes s3) with (nsizes s) in IH;
        destruct IH as (I1 & I2 & I3); [lia | lia |];
        assert (Hat : forall j, alloc (bd_sizes s3 j)
                      = if j =? k then p else alloc (bd_sizes s j))
      end.
      { intros j. cbn [set_mem bd_sizes].
        rewrite alloc_set_alloc, alloc_set_free. reflexivity. }
      rewrite Nat2Z.inj_succ. split; [lia |]. split.
      * intros j Hj. rewrite I2 by lia. rewrite Hat.
        destruct (Z.eqb_spec j k); [lia | reflexivity].
      * intros j Hj Hjn. destruct (Z.eq_dec j k) as [-> | Hne].
        -- rewrite I2 by lia. rewrite Hat, Z.eqb_refl. lia.
        -- specialize (I3 j ltac:(lia) Hjn).
           change (alloc_bytes _ j) with (alloc_bytes s j) in I3. lia.
    + cbn [fst snd]. split; [lia |]. split; [reflexivity |]. intros; lia.
Qed.

Lemma init_split_ptrs (fuel : nat) : forall s k p,
  0 <= k -> nsizes s <= 27 ->
  let r := init_split fuel s k p in
  p <= snd r <= p + Z.of_nat fuel * 2 ^ 23
  /\ (forall j, alloc (bd_sizes (fst r) j) = alloc (bd_sizes s j))
  /\ (forall j, j < k -> split (bd_sizes (fst r) j) = split (bd_sizes s j))
  /\ (forall j, k <= j < k + Z.of_nat fuel -> j < nsizes s ->
        p <= split (bd_sizes (fst r) j)
        /\ (k < j -> p + 1 <= split (bd_sizes (fst r) j)))
  /\ (0 < Z.of_nat fuel -> k < nsizes s -> p + 1 <= snd r).
Proof.
  induction fuel as [| f IH]; intros s k p Hk Hn; cbn [init_split].
  - cbn [fst snd]. split; [lia |]. split; [reflexivity |].
    split; [reflexivity |]. split; intros; lia.
  - destruct (Z.ltb_spec k (nsizes s)) as [Hlt | Hge].
    + pose proof (split_bytes_spec s k ltac:(lia) Hn) as Hb.
      match goal with |- context [init_split f ?s3 (k + 1) (p + ?sz)] =>
        specialize (IH s3 (k + 1) (p + sz)); cbv zeta in IH;
        change (nsizes s3) with (nsizes s) in IH;
        destruct IH as (I1 & I2 & I3 & I4 & I5); [lia | lia |];
        assert (Hst : forall j, split (bd_sizes s3 j)
                      = if j =? k then p else split (bd_sizes s j));
        [| assert (Hat : forall j, alloc (bd_sizes s3 j) = alloc (bd_sizes s j))]
      end.
      { intros j. cbn [set_mem bd_sizes]. rewrite split_set_split. reflexivity. }
      { intros j. cbn [set_mem bd_sizes]. rewrite alloc_set_split. reflexivity. }
      rewrite Nat2Z.inj_succ. split; [lia |]. split.
      * intros j. rewrite I2. apply Hat.
      * split.
        -- intros j Hj. rewrite I3 by lia. rewrite Hst.
           destruct (Z.eqb_spec j k); [lia | reflexivity].
        -- split; [| intros; lia].
           intros j Hj Hjn. destruct (Z.eq_dec j k) as [-> | Hne].
           ++ rewrite I3 by lia. rewrite Hst, Z.eqb_refl. lia.
           ++ specialize (I4 j ltac:(lia) Hjn). lia.
    + cbn [fst snd]. split; [lia |]. split; [reflexivity |].
      split; [reflexivity |]. split; intros; lia.
Qed.

Lemma log2_loop_upper (f : nat) : forall k n,
  0 <= n < 2 ^ Z.of_nat f -> n < 2 ^ (log2_loop f k n - k + 1).
Proof.
  induction f as [| f IH]; intros k n Hn; cbn [log2_loop].
  - change (2 ^ Z.of_nat 0) with 1 in Hn.
    replace (k - k + 1) with 1 by lia. change (2 ^ 1) with 2. lia.
  - destruct (Z.ltb_spec 1 n) as [H1 | H1].
    + rewrite Z.shiftr_div_pow2 by lia. change (2 ^ 1) with 2.
      rewrite Nat2Z.inj_succ in Hn. rewrite Z.pow_succ_r in Hn by lia.
      assert (Hh : 0 <= n / 2 < 2 ^ Z.of_nat f).
      { split; [apply Z.div_pos; lia | apply Z.div_lt_upper_bound; lia]. }
      specialize (IH (k + 1) (n / 2) Hh).
      pose proof (log2_loop_range f (k + 1) (n / 2)) as Hr.
      set (r := log2_loop f (k + 1) (n / 2)) in *.
      replace (r - k + 1) with (Z.succ (r - (k + 1) + 1)) by lia.
      rewrite Z.pow_succ_r by lia.
      pose proof (Z.div_mod n 2 ltac:(lia)).
      pose proof (Z.mod_pos_bound n 2 ltac:(lia)). lia.
    + replace (k - k + 1) with 1 by lia. change (2 ^ 1) with 2. lia.
Qed.

Lemma log2_upper (n : Z) : 0 <= n < 2 ^ 64 -> n < 2 ^ (log2 n + 1).
Proof.
  intros Hn. unfold log2.
  pose proof (log2_loop_upper 64 0 n Hn) as H.
  replace (log2_loop 64 0 n - 0 + 1) with (log2_loop 64 0 n + 1) in H by lia.
  exact H.
Qed.

(** What [bd_init] has laid out before it marks anything. *)
Lemma bd_init_layout_facts (m0 : Z -> Z) (base end_ : Z) s2 p4 :
  bd_init_layout m0 base end_ = (s2, p4) ->
  0 <= base < 2 ^ 62 -> bd_base s2 <= end_ < 2 ^ 63 -> nsizes s2 <= 27 ->
  bd_base s2 = ROUNDUP_u64 base LEAF_SIZE
  /\ 1 <= nsizes s2
  /\ (forall j, frees s2 j = [])
  /\ 32 * nsizes s2 <= p4 - bd_base s2 <= 2 ^ 29
  /\ p4 mod 16 = 0
  /\ end_ - bd_base s2 <= HEAP_SIZE s2
  /\ exists B, split_sep s2 B.
Proof.
  intros Hlay Hbase Hend Hn27.
  pose proof (bd_init_layout_shape m0 base end_) as Hsh. cbv zeta in Hsh.
  rewrite Hlay in Hsh. cbn [fst] in Hsh. destruct Hsh as (Hn1 & Hb & Hempty).
  split; [exact Hb |]. split; [lia |]. split; [exact Hempty |].
  destruct (ROUNDUP_u64_leaf base ltac:(lia)) as (Hp & Hpm).
  revert Hlay. unfold bd_init_layout. rewrite <- Hb.
  set (p := bd_base s2) in *.
  set (ns0 := to_int (log2 (to_uint64 (Z.quot (end_ - p) LEAF_SIZE)) + 1)).
  set (ns := if BLK_SIZE (ns0 - 1) <? end_ - p then to_int (ns0 + 1) else ns0).
  set (s0 := mkState ns p (fun _ => mkSz [] 0 0)
                     (memset m0 p 0 (sizeof_Sz_info * ns))).
  pose proof (init_alloc_shape (Z.to_nat ns) s0 0 (p + sizeof_Sz_info * ns)) as HA.
  pose proof (init_alloc_ptrs (Z.to_nat ns) s0 0 (p + sizeof_Sz_info * ns)) as HAp.
  cbv zeta in HA, HAp.
  destruct (init_alloc (Z.to_nat ns) s0 0 (p + sizeof_Sz_info * ns)) as [s1 p2].
  pose proof (init_split_shape (Z.to_nat ns) s1 1 p2) as HS.
  pose proof (init_split_ptrs (Z.to_nat ns) s1 1 p2) as HSp.
  cbv zeta in HS, HSp.
  destruct (init_split (Z.to_nat ns) s1 1 p2) as [s2' p3].
  intros Heq. injection Heq as <- <-.
  cbn [fst snd] in *.
  destruct HA as (A1 & A2 & _). destruct HS as (S1 & S2 & _).
  assert (Hns : nsizes s2' = ns) by (rewrite S1, A1; reflexivity).
  assert (Hns1 : nsizes s1 = ns) by (rewrite A1; reflexivity).
  change (nsizes s0) with ns in HAp. rewrite Hns1 in HSp. rewrite Hns in *.
  destruct HAp as (P1 & _ & P3); [lia | lia |].
  destruct HSp as (Q1 & Q2 & _ & Q4 & _); [lia | lia |].
  rewrite Z2Nat.id in P1, P3, Q1, Q4 by lia.
  unfold sizeof_Sz_info in *.
  destruct (ROUNDUP_u64_leaf p3 ltac:(lia)) as (Hp3 & Hp3m).
  split; [lia |]. split; [exact Hp3m |].
  split.
  { (* the heap covers the region *)
    unfold HEAP_SIZE, MAXSIZE. rewrite Hns.
    assert (Hsz : 0 <= end_ - p) by lia.
    unfold LEAF_SIZE in ns0.
    assert (Hx : to_uint64 (Z.quot (end_ - p) 16) = (end_ - p) / 16).
    { rewrite Z.quot_div_nonneg by lia. apply to_uint64_id.
      split; [apply Z.div_pos; lia | apply Z.div_lt_upper_bound; lia]. }
    assert (Hx0 : 0 <= (end_ - p) / 16 < 2 ^ 64).
    { split; [apply Z.div_pos; lia | apply Z.div_lt_upper_bound; lia]. }
    pose proof (log2_upper _ Hx0) as Hup.
    pose proof (log2_range ((end_ - p) / 16)) as Hlr.
    assert (Hns0 : ns0 = log2 ((end_ - p) / 16) + 1).
    { unfold ns0. rewrite Hx. apply to_int_id. lia. }
    assert (Hlt : end_ - p < BLK_SIZE ns0).
    { rewrite BLK_SIZE_eq by lia. rewrite Hns0.
      pose proof (Z.div_mod (end_ - p) 16 ltac:(lia)).
      pose proof (Z.mod_pos_bound (end_ - p) 16 ltac:(lia)). lia. }
    unfold ns in *.
    destruct (Z.ltb_spec (BLK_SIZE (ns0 - 1)) (end_ - p)) as [Hc | Hc].
    - rewrite to_int_id by lia. replace (ns0 + 1 - 1) with ns0 by lia. lia.
    - exact Hc. }
  exists (8 * p2 + 4). split.
  - intros k i Hk Hi. rewrite Q2.
    destruct (P3 k ltac:(lia) ltac:(cbn; lia)) as (_ & Hle).
    destruct (alloc_bytes_spec s2' k ltac:(lia) ltac:(lia)) as (_ & Hpair).
    specialize (Hpair i Hi).
    assert (Hab : alloc_bytes s2' k = alloc_bytes s0 k).
    { unfold alloc_bytes, NBLK, MAXSIZE. rewrite Hns. reflexivity. }
    lia.
  - intros j i Hj Hi H4.
    destruct (Q4 j ltac:(lia) ltac:(lia)) as (Hge & Hgt).
    destruct (Z.eq_dec j 1) as [-> | Hne]; [specialize (H4 eq_refl); lia |].
    specialize (Hgt ltac:(lia)). lia.
Qed.

(** ** bd_mark as bd_init calls it *)

Lemma mark_push_left (s : state) (P k : Z) :
  0 <= k < nsizes s -> nsizes s <= 27 -> 0 <= P <= 2 ^ 29 ->
  mark_push s k (bd_base s) (bd_base s + P) true
  = left_push (bd_base s) P (nsizes s) k.
Proof.
  intros Hk Hn HP. unfold mark_push, left_push.
  rewrite blk_index_next_eq by lia.
  replace (bd_base s + P - bd_base s) with P by lia.
  fold (ceil_idx P k).
  pose proof (ceil_idx_nonneg P k ltac:(lia) ltac:(lia)) as Hc0.
  pose proof (ceil_idx_spec P k ltac:(lia)) as Hcs.
  assert (HB : BLK_SIZE k <= BLK_SIZE 26) by (apply BLK_SIZE_mono; lia).
  change (BLK_SIZE 26) with (2 ^ 30) in HB.
  pose proof (BLK_SIZE_pos k ltac:(lia)).
  rewrite Z.rem_mod_nonneg by lia.
  destruct (k <? nsizes s - 2); cbn [andb]; [| reflexivity].
  destruct (ceil_idx P k mod 2 =? 0); cbn [negb]; [reflexivity |].
  rewrite addr_eq by nia. reflexivity.
Qed.

Lemma mark_push_right (s : state) (E k : Z) :
  0 <= k < nsizes s -> nsizes s <= 27 -> 0 <= E <= HEAP_SIZE s ->
  mark_push s k (bd_base s + E) (bd_base s + HEAP_SIZE s) false
  = right_push (bd_base s) E (nsizes s) k.
Proof.
  intros Hk Hn HE. unfold mark_push, right_push.
  pose proof (HEAP_SIZE_bound s ltac:(lia)) as HH.
  rewrite blk_index_eq by lia.
  replace (bd_base s + E - bd_base s) with E by lia.
  fold (floor_idx E k).
  pose proof (floor_idx_nonneg E k ltac:(lia) ltac:(lia)) as Hf0.
  pose proof (floor_idx_spec E k ltac:(lia)) as Hfs.
  pose proof (BLK_SIZE_pos k ltac:(lia)).
  assert (HB : BLK_SIZE k <= BLK_SIZE 26) by (apply BLK_SIZE_mono; lia).
  change (BLK_SIZE 26) with (2 ^ 30) in HB.
  rewrite Z.rem_mod_nonneg by lia.
  destruct (k <? nsizes s - 2); cbn [andb]; [| reflexivity].
  destruct (floor_idx E k mod 2 =? 0); cbn [negb]; [reflexivity |].
  rewrite addr_eq by nia. reflexivity.
Qed.

(* the step from class j to class j + 1 on the left *)
Lemma left_end_step (P j : Z) :
  0 <= j ->
  ceil_idx P (j + 1) * BLK_SIZE (j + 1)
  = ceil_idx P j * BLK_SIZE j + (ceil_idx P j mod 2) * BLK_SIZE j.
Proof.
  intros Hj. rewrite BLK_SIZE_succ by exact Hj.
  pose proof (ceil_idx_succ P j Hj). nia.
Qed.

Lemma right_start_step (E j : Z) :
  0 <= j ->
  floor_idx E (j + 1) * BLK_SIZE (j + 1)
  = floor_idx E j * BLK_SIZE j - (floor_idx E j mod 2) * BLK_SIZE j.
Proof.
  intros Hj. rewrite BLK_SIZE_succ by exact Hj.
  pose proof (floor_idx_succ E j Hj). nia.
Qed.

Lemma mod2_cases (c : Z) : c mod 2 = 0 \/ c mod 2 = 1.
Proof. pose proof (Z.mod_pos_bound c 2 ltac:(lia)). lia. Qed.

(* the free memory on the left, class by class: the part of [P, left_end)
   below class j *)
Lemma left_end_ge (P j : Z) : 0 <= j -> P <= ceil_idx P j * BLK_SIZE j.
Proof. intros Hj. apply ceil_idx_spec. exact Hj. Qed.

Lemma right_start_le (E j : Z) : 0 <= j -> floor_idx E j * BLK_SIZE j <= E.
Proof. intros Hj. apply floor_idx_spec. exact Hj. Qed.

Lemma ceil_idx_leaf (P : Z) : P mod 16 = 0 -> ceil_idx P 0 * BLK_SIZE 0 = P.
Proof.
  intros H. unfold ceil_idx. change (BLK_SIZE 0) with 16. rewrite H.
  cbn [Z.eqb]. pose proof (Z.div_mod P 16 ltac:(lia)). lia.
Qed.

Lemma floor_idx_leaf (E : Z) : E mod 16 = 0 -> floor_idx E 0 * BLK_SIZE 0 = E.
Proof.
  intros H. unfold floor_idx. change (BLK_SIZE 0) with 16.
  pose proof (Z.div_mod E 16 ltac:(lia)). lia.
Qed.

Lemma left_marks_cover (base P N : Z) (n : nat) (x : Z) :
  P mod 16 = 0 -> N <= Z.of_nat n ->
  sum_marks (fun j a => inb j a x) (left_push base P N) n
  = ind (base + P) (base + left_end P N) x.
Proof.
  intros HP Hn.
  set (K := Z.max 0 (N - 2)).
  set (U := fun j => ceil_idx P j * BLK_SIZE j).
  set (G := fun j => ind (base + P) (base + U (Z.min j K)) x).
  rewrite (sum_marks_telescope _ _ G).
  - unfold G. rewrite Z.min_r by lia. rewrite Z.min_l by lia.
    unfold U at 2. rewrite (ceil_idx_leaf P HP).
    unfold left_end. fold K. fold (U K).
    assert (ind (base + P) (base + P) x = 0).
    { unfold ind. destruct (Z.leb_spec (base + P) x), (Z.ltb_spec x (base + P));
        cbn [andb]; lia. }
    lia.
  - intros j Hj. unfold G, left_push.
    destruct (Z.ltb_spec j (N - 2)) as [Hlt | Hge]; cbn [andb].
    + rewrite !Z.min_l by lia. unfold U.
      rewrite (left_end_step P j) by lia.
      pose proof (left_end_ge P j ltac:(lia)) as Hge.
      pose proof (BLK_SIZE_pos j ltac:(lia)) as HB.
      destruct (mod2_cases (ceil_idx P j)) as [Hm | Hm]; rewrite Hm;
        cbn [Z.eqb negb].
      * replace (ceil_idx P j * BLK_SIZE j + 0 * BLK_SIZE j)
          with (ceil_idx P j * BLK_SIZE j) by lia. lia.
      * unfold inb.
        pose proof (ind_add (base + P) (base + ceil_idx P j * BLK_SIZE j)
                      (base + ceil_idx P j * BLK_SIZE j + BLK_SIZE j) x
                      ltac:(lia)) as Hadd.
        replace (base + (ceil_idx P j * BLK_SIZE j + 1 * BLK_SIZE j))
          with (base + ceil_idx P j * BLK_SIZE j + BLK_SIZE j) by lia.
        lia.
    + rewrite !Z.min_r by lia. lia.
Qed.

Lemma right_marks_cover (base E N : Z) (n : nat) (x : Z) :
  E mod 16 = 0 -> N <= Z.of_nat n ->
  sum_marks (fun j a => inb j a x) (right_push base E N) n
  = ind (base + right_start E N) (base + E) x.
Proof.
  intros HE Hn.
  set (K := Z.max 0 (N - 2)).
  set (D := fun j => floor_idx E j * BLK_SIZE j).
  set (G := fun j => ind (base + D (Z.min j K)) (base + E) x).
  rewrite (sum_marks_telescope _ _ G).
  - unfold G. rewrite Z.min_r by lia. rewrite Z.min_l by lia.
    unfold D at 2. rewrite (floor_idx_leaf E HE).
    unfold right_start. fold K. fold (D K).
    assert (ind (base + E) (base + E) x = 0).
    { unfold ind. destruct (Z.leb_spec (base + E) x), (Z.ltb_spec x (base + E));
        cbn [andb]; lia. }
    lia.
  - intros j Hj. unfold G, right_push.
    destruct (Z.ltb_spec j (N - 2)) as [Hlt | Hge]; cbn [andb].
    + rewrite !Z.min_l by lia. unfold D.
      rewrite (right_start_step E j) by lia.
      pose proof (right_start_le E j ltac:(lia)) as Hle.
      pose proof (BLK_SIZE_pos j ltac:(lia)) as HB.
      destruct (mod2_cases (floor_idx E j)) as [Hm | Hm]; rewrite Hm;
        cbn [Z.eqb negb].
      * replace (floor_idx E j * BLK_SIZE j - 0 * BLK_SIZE j)
          with (floor_idx E j * BLK_SIZE j) by lia. lia.
      * unfold inb.
        pose proof (ind_add (base + (floor_idx E j * BLK_SIZE j - BLK_SIZE j))
                      (base + floor_idx E j * BLK_SIZE j) (base + E) x
                      ltac:(lia)) as Hadd.
        replace (base + (floor_idx E j - 1) * BLK_SIZE j)
          with (base + (floor_idx E j * BLK_SIZE j - BLK_SIZE j)) by lia.
        replace (base + (floor_idx E j * BLK_SIZE j - BLK_SIZE j) + BLK_SIZE j)
          with (base + floor_idx E j * BLK_SIZE j) by lia.
        replace (base + (floor_idx E j * BLK_SIZE j - 1 * BLK_SIZE j))
          with (base + (floor_idx E j * BLK_SIZE j - BLK_SIZE j)) by lia.
        lia.
    + rewrite !Z.min_r by lia. lia.
Qed.

Lemma free_bytes_below_marks (s s' : state) (f : Z -> option Z) (n : nat) :
  (forall j, 0 <= j < Z.of_nat n ->
     frees s' j = match f j with Some a => a :: frees s j | None => frees s j end) ->
  free_bytes_below s' n =
  free_bytes_below s n + sum_marks (fun j _ => BLK_SIZE j) f n.
Proof.
  induction n as [| n IH]; intros H; cbn [free_bytes_below sum_marks].
  - lia.
  - rewrite IH by (intros j Hj; apply H; lia).
    rewrite H by lia.
    destruct (f (Z.of_nat n)); cbn [length]; [rewrite Nat2Z.inj_succ |]; lia.
Qed.

Lemma left_marks_bytes (base P N : Z) (n : nat) :
  P mod 16 = 0 -> N <= Z.of_nat n ->
  sum_marks (fun j _ => BLK_SIZE j) (left_push base P N) n = left_end P N - P.
Proof.
  intros HP Hn.
  set (K := Z.max 0 (N - 2)).
  set (G := fun j => ceil_idx P (Z.min j K) * BLK_SIZE (Z.min j K)).
  rewrite (sum_marks_telescope _ _ G).
  - unfold G. rewrite Z.min_r by lia. rewrite Z.min_l by lia.
    rewrite (ceil_idx_leaf P HP). reflexivity.
  - intros j Hj. unfold G, left_push.
    destruct (Z.ltb_spec j (N - 2)) as [Hlt | Hge]; cbn [andb].
    + rewrite !Z.min_l by lia. rewrite (left_end_step P j) by lia.
      destruct (mod2_cases (ceil_idx P j)) as [Hm | Hm]; rewrite Hm;
        cbn [Z.eqb negb]; lia.
    + rewrite !Z.min_r by lia. lia.
Qed.

Lemma right_marks_bytes (base E N : Z) (n : nat) :
  E mod 16 = 0 -> N <= Z.of_nat n ->
  sum_marks (fun j _ => BLK_SIZE j) (right_push base E N) n
  = E - right_start E N.
Proof.
  intros HE Hn.
  set (K := Z.max 0 (N - 2)).
  set (G := fun j => - (floor_idx E (Z.min j K) * BLK_SIZE (Z.min j K))).
  rewrite (sum_marks_telescope _ _ G).
  - unfold G. rewrite Z.min_r by lia. rewrite Z.min_l by lia.
    rewrite (floor_idx_leaf E HE). unfold right_start. fold K. lia.
  - intros j Hj. unfold G, right_push.
    destruct (Z.ltb_spec j (N - 2)) as [Hlt | Hge]; cbn [andb].
    + rewrite !Z.min_l by lia. rewrite (right_start_step E j) by lia.
      destruct (mod2_cases (floor_idx E j)) as [Hm | Hm]; rewrite Hm;
        cbn [Z.eqb negb]; lia.
    + rewrite !Z.min_r by lia. lia.
Qed.

(** ** bd_mark: the split bits it sets stay set *)

Lemma NBLK_layout s s' k : same_layout s s' -> NBLK s' k = NBLK s k.
Proof.
  intros (Hn & _). unfold NBLK, MAXSIZE. rewrite Hn. reflexivity.
Qed.

Lemma blk_index_next_layout s s' k p :
  same_layout s s' -> blk_index_next s' k p = blk_index_next s k p.
Proof.
  intros (_ & Hb & _). unfold blk_index_next. rewrite Hb. reflexivity.
Qed.

Lemma mark_blocks_mem (fuel : nat) : forall s k bi bj B,
  split_sep s B -> 0 <= k < nsizes s -> 0 <= bi -> bj <= NBLK s k ->
  let s' := mark_blocks fuel s k bi bj in
  split_le s (mem s) (mem s')
  /\ (0 < k -> forall i, bi <= i < bj -> i < bi + Z.of_nat fuel ->
        (k = 1 -> 4 <= i) ->
        bit_isset (mem s') (split (bd_sizes s k)) i = true).
Proof.
  induction fuel as [| f IH]; intros s k bi bj B HB Hk Hbi Hbj;
    cbn [mark_blocks].
  - split; [apply split_le_refl |]. intros; lia.
  - destruct (Z.ltb_spec bi bj) as [Hlt | Hge];
      [| split; [apply split_le_refl | intros; lia]].
    set (s1 := if 0 <? k
               then set_mem s (bit_set (mem s) (split (bd_sizes s k)) bi)
               else s).
    assert (HL1 : same_layout s s1).
    { unfold s1. destruct (0 <? k);
        [apply same_layout_set_mem | apply same_layout_refl]. }
    assert (Hle1 : split_le s (mem s) (mem s1)).
    { unfold s1. destruct (0 <? k);
        [apply split_le_bit_set; lia | apply split_le_refl]. }
    assert (Hset : 0 < k ->
              bit_isset (mem s1) (split (bd_sizes s k)) bi = true).
    { intros Hk0. unfold s1. destruct (Z.ltb_spec 0 k); [| lia].
      apply bit_isset_bit_set. }
    set (s2 := set_mem s1 (bit_flip (mem s1) (alloc (bd_sizes s1 k))
                                    (Z.quot bi 2))).
    assert (HL2 : same_layout s s2).
    { eapply same_layout_trans; [exact HL1 | apply same_layout_set_mem]. }
    assert (Hle2 : split_le s (mem s1) (mem s2)).
    { unfold s2. cbn [mem set_mem].
      pose proof HL1 as (_ & _ & HP). destruct (HP k) as (-> & _).
      apply (split_le_bit_flip s B); [exact HB | exact Hk | lia]. }
    specialize (IH s2 k (bi + 1) bj B). cbv zeta in IH.
    destruct IH as (LE & BITS).
    { eapply split_sep_layout; eassumption. }
    { destruct HL2 as (-> & _). exact Hk. }
    { lia. }
    { rewrite (NBLK_layout s s2 k HL2). exact Hbj. }
    assert (LE' : split_le s (mem s2) (mem (mark_blocks f s2 k (bi + 1) bj))).
    { apply (split_le_layout s2 s); [apply same_layout_sym; exact HL2 | exact LE]. }
    split.
    { eapply split_le_trans; [exact Hle1 |].
      eapply split_le_trans; [exact Hle2 | exact LE']. }
    intros Hk0 i Hi Hif H4.
    destruct (Z.eq_dec i bi) as [-> | Hne].
    + apply LE'; [lia | lia | exact H4 |].
      apply Hle2; [lia | lia | exact H4 |]. apply Hset. exact Hk0.
    + specialize (BITS Hk0 i ltac:(lia) ltac:(lia) H4).
      pose proof HL2 as (_ & _ & HP). destruct (HP k) as (_ & Hsp).
      rewrite Hsp in BITS. exact BITS.
Qed.

Lemma mark_class_state (s : state) (k start stop : Z) (is_left : bool)
    (fr : Z) :
  fst (mark_class s k start stop is_left fr)
  = mark_blocks
      (Z.to_nat (blk_index_next s k stop - blk_index s k start))
      (mark_pre s k start stop is_left) k
      (blk_index s k start) (blk_index_next s k stop).
Proof.
  unfold mark_class, mark_pre, mark_push.
  destruct (k <? nsizes s - 2); destruct is_left; cbn [andb negb];
    destruct (negb (Z.rem (blk_index_next s k stop) 2 =? 0));
    destruct (negb (Z.rem (blk_index s k start) 2 =? 0));
    reflexivity.
Qed.

Lemma mark_pre_mem (s : state) (k start stop : Z) (is_left : bool) :
  0 <= blk_index s k start -> 0 <= blk_index_next s k stop ->
  same_layout s (mark_pre s k start stop is_left)
  /\ split_le s (mem s) (mem (mark_pre s k start stop is_left)).
Proof.
  intros Hbi Hbj.
  assert (Hq : forall z, 0 <= z -> 0 <= Z.quot z 2).
  { intros z Hz. rewrite Z.quot_div_nonneg by lia. apply Z.div_pos; lia. }
  unfold mark_pre.
  destruct (mark_push s k start stop is_left);
    destruct (negb (Z.rem (blk_index s k start) 2 =? 0));
    destruct (negb (Z.rem (blk_index_next s k stop) 2 =? 0));
    (split;
     [ repeat (first [apply same_layout_refl
                     | apply same_layout_lst_push
                     | eapply same_layout_trans; [| apply same_layout_set_mem]])
     | cbn [mem set_mem lst_push set_free];
       repeat (first [apply split_le_refl
                     | apply split_le_bit_set; apply Hq; assumption
                     | eapply split_le_trans;
                       [| apply split_le_bit_set; apply Hq; assumption]]) ]).
Qed.

Lemma mark_class_mem (s : state) (k start stop : Z) (is_left : bool)
    (fr B : Z) :
  split_sep s B -> 0 <= k < nsizes s ->
  0 <= blk_index s k start ->
  0 <= blk_index_next s k stop <= NBLK s k ->
  let s' := fst (mark_class s k start stop is_left fr) in
  split_le s (mem s) (mem s')
  /\ (0 < k -> forall i,
        blk_index s k start <= i < blk_index_next s k stop ->
        (k = 1 -> 4 <= i) ->
        bit_isset (mem s') (split (bd_sizes s k)) i = true).
Proof.
  intros HB Hk Hbi Hbj. cbv zeta. rewrite mark_class_state.
  set (bi := blk_index s k start) in *.
  set (bj := blk_index_next s k stop) in *.
  destruct (mark_pre_mem s k start stop is_left Hbi ltac:(lia)) as (HL3 & Hle3).
  set (s3 := mark_pre s k start stop is_left) in *.
  pose proof (mark_blocks_mem (Z.to_nat (bj - bi)) s3 k bi bj B) as HM.
  cbv zeta in HM. destruct HM as (LE & BITS).
  { eapply split_sep_layout; eassumption. }
  { destruct HL3 as (-> & _). exact Hk. }
  { exact Hbi. }
  { rewrite (NBLK_layout s s3 k HL3). lia. }
  split.
  - eapply split_le_trans; [exact Hle3 |].
    apply (split_le_layout s3 s); [apply same_layout_sym; exact HL3 | exact LE].
  - intros Hk0 i Hi H4.
    specialize (BITS Hk0 i Hi ltac:(lia) H4).
    pose proof HL3 as (_ & _ & HP). destruct (HP k) as (_ & Hsp).
    rewrite Hsp in BITS. exact BITS.
Qed.

Lemma mark_loop_mem (start stop : Z) (is_left : bool) (fuel : nat) :
  forall s k fr B,
  split_sep s B -> 0 <= k ->
  (forall j, k <= j < nsizes s ->
     0 <= blk_index s j start
     /\ 0 <= blk_index_next s j stop <= NBLK s j) ->
  let s' := fst (mark_loop fuel s k start stop is_left fr) in
  split_le s (mem s) (mem s')
  /\ (forall j i, k <= j < k + Z.of_nat fuel -> 0 < j < nsizes s ->
        blk_index s j start <= i < blk_index_next s j stop ->
        (j = 1 -> 4 <= i) ->
        bit_isset (mem s') (split (bd_sizes s j)) i = true).
Proof.
  induction fuel as [| f IH]; intros s k fr B HB Hk Hidx; cbn [mark_loop].
  - cbn [fst]. split; [apply split_le_refl |]. intros; lia.
  - destruct (Z.ltb_spec k (nsizes s)) as [Hlt | Hge];
      [| cbn [fst]; split; [apply split_le_refl | intros; lia]].
    destruct (Hidx k ltac:(lia)) as (Hbi & Hbj).
    pose proof (mark_class_mem s k start stop is_left fr B HB ltac:(lia) Hbi Hbj)
      as HC. cbv zeta in HC.
    pose proof (mark_class_spec s k start stop is_left fr) as HS.
    cbv zeta in HS.
    destruct (mark_class s k start stop is_left fr) as [s1 fr1].
    cbn [fst snd] in HC, HS. destruct HC as (Hle1 & Hbits1).
    destruct HS as (HL1 & _ & _).
    specialize (IH s1 (k + 1) fr1 B). cbv zeta in IH.
    destruct IH as (LE & BITS).
    { eapply split_sep_layout; eassumption. }
    { lia. }
    { intros j Hj. pose proof HL1 as (Hn1 & _). rewrite Hn1 in Hj.
      rewrite (blk_index_layout s s1), (blk_index_next_layout s s1),
              (NBLK_layout s s1) by exact HL1.
      apply Hidx. lia. }
    assert (LE' : split_le s (mem s1)
                    (mem (fst (mark_loop f s1 (k + 1) start stop is_left fr1)))).
    { apply (split_le_layout s1 s); [apply same_layout_sym; exact HL1 | exact LE]. }
    split; [eapply split_le_trans; eassumption |].
    intros j i Hj Hjn Hi H4.
    destruct (Z.eq_dec j k) as [-> | Hne].
    + apply LE'; [lia | | exact H4 |].
      * lia.
      * apply Hbits1; [lia | exact Hi | exact H4].
    + pose proof HL1 as (Hn1 & _ & HP).
      specialize (BITS j i ltac:(lia) ltac:(lia)).
      rewrite (blk_index_layout s s1), (blk_index_next_layout s s1) in BITS
        by exact HL1.
      destruct (HP j) as (_ & Hsp). rewrite Hsp in BITS.
      apply BITS; assumption.
Qed.

(** ** bd_init establishes the invariant *)

Lemma HEAP_SIZE_mod16 (s : state) : 1 <= nsizes s -> HEAP_SIZE s mod 16 = 0.
Proof.
  intros Hn. unfold HEAP_SIZE, MAXSIZE. rewrite BLK_SIZE_eq by lia.
  rewrite Z.mul_comm. apply Z.mod_mul. lia.
Qed.

(** The two markings of a completed [bd_init], in offsets from [bd_base]:
    [P] bytes of metadata in front, the unavailable tail from [E] on. *)
Lemma bd_init_run_marks (m0 : Z -> Z) (base end_ : Z) s ml mr :
  bd_init_run m0 base end_ = Some (s, ml, mr) ->
  0 <= base < 2 ^ 62 -> bd_base s <= end_ < 2 ^ 63 -> HEAP_SIZE s < 2 ^ 31 ->
  exists s2 s3,
    same_layout s2 s3 /\ same_layout s3 s
    /\ 1 <= nsizes s <= 27
    /\ 0 <= bd_base s
    /\ (forall j, frees s2 j = [])
    /\ (exists B, split_sep s2 B)
    /\ 32 * nsizes s <= meta ml <= 2 ^ 29
    /\ meta ml mod 16 = 0
    /\ 0 <= meta mr <= HEAP_SIZE s
    /\ meta mr mod 16 = 0
    /\ end_ - bd_base s <= HEAP_SIZE s
    /\ HEAP_SIZE s - meta mr <= end_ - bd_base s
    /\ mark_loop (Z.to_nat (nsizes s)) s2 0 (bd_base s)
                 (bd_base s + meta ml) true 0 = (s3, mfree ml)
    /\ mark_loop (Z.to_nat (nsizes s)) s3 0
                 (bd_base s + (HEAP_SIZE s - meta mr))
                 (bd_base s + HEAP_SIZE s) false 0 = (s, mfree mr)
    /\ free_bytes s = HEAP_SIZE s - meta mr - meta ml
    /\ fst (bd_init_layout m0 base end_) = s2.
Proof.
  intros Hrun Hbase Hend Hheap.
  pose proof (bd_init_run_free_bytes _ _ _ _ _ _ Hrun Hheap) as (_ & Hacc & _).
  destruct (bd_init_run_inv _ _ _ _ _ _ Hrun)
    as (s2 & p4 & s3 & Hlay & HL & Hml & HR & Hmr & _).
  apply bd_mark_some in HL. destruct HL as (_ & _ & HL).
  apply bd_mark_some in HR. destruct HR as (_ & _ & HR).
  pose proof (mark_loop_spec (bd_base s2) p4 true (Z.to_nat (nsizes s2)) s2 0 0)
    as HsL. cbv zeta in HsL. rewrite HL in HsL. cbn [fst] in HsL.
  destruct HsL as (HL23 & _).
  match type of HR with mark_loop ?f s3 0 ?a ?b false 0 = _ =>
    pose proof (mark_loop_spec a b false f s3 0 0) as HsR
  end.
  cbv zeta in HsR. rewrite HR in HsR. cbn [fst] in HsR.
  destruct HsR as (HL34 & _).
  assert (E2 : nsizes s2 = nsizes s).
  { destruct HL23 as (A & _), HL34 as (B & _). congruence. }
  assert (E3 : nsizes s3 = nsizes s).
  { destruct HL34 as (B & _). congruence. }
  assert (B2 : bd_base s2 = bd_base s).
  { destruct HL23 as (_ & A & _), HL34 as (_ & B & _). congruence. }
  assert (B3 : bd_base s3 = bd_base s).
  { destruct HL34 as (_ & B & _). congruence. }
  pose proof (bd_init_layout_shape m0 base end_) as Hsh. cbv zeta in Hsh.
  rewrite Hlay in Hsh. cbn [fst] in Hsh. destruct Hsh as (Hn1 & _ & _).
  assert (Hn27 : nsizes s <= 27)
    by (apply nsizes_bound_of_heap; [lia | exact Hheap]).
  destruct (bd_init_layout_facts m0 base end_ s2 p4 Hlay Hbase)
    as (Hb & _ & Hempty & HP & Hp4 & Hsz & HB); [rewrite B2; lia | lia |].
  destruct (ROUNDUP_u64_leaf base ltac:(lia)) as (Hrb & Hrbm).
  rewrite <- Hb, B2 in Hrb, Hrbm.
  rewrite E2, B2 in *. rewrite E3, B3 in *.
  rewrite <- (HEAP_SIZE_layout s2 s) in Hsz
    by (eapply same_layout_trans; eassumption).
  fold (HEAP_SIZE s3) in HR, Hmr.
  rewrite <- (HEAP_SIZE_layout s3 s HL34) in HR, Hmr.
  pose proof (HEAP_SIZE_bound s ltac:(lia)) as HH.
  pose proof (HEAP_SIZE_mod16 s ltac:(lia)) as HHm.
  rewrite to_int_id in Hml by lia.
  assert (Hmlm : meta ml mod 16 = 0).
  { rewrite Hml. apply Z.mod_divide; [lia |].
    apply Z.divide_sub_r; apply Z.mod_divide; (lia || assumption). }
  assert (Hmrs : 0 <= meta mr <= HEAP_SIZE s /\ meta mr mod 16 = 0
                 /\ HEAP_SIZE s - (end_ - bd_base s) <= meta mr).
  { cbv zeta in Hmr.
    rewrite (to_int_id (HEAP_SIZE s - (end_ - bd_base s))) in Hmr by lia.
    destruct (Z.ltb_spec 0 (HEAP_SIZE s - (end_ - bd_base s))) as [Hpos | Hz].
    - destruct (ROUNDUP_spec (HEAP_SIZE s - (end_ - bd_base s)) LEAF_SIZE
                  ltac:(lia) ltac:(unfold LEAF_SIZE; lia)
                  ltac:(unfold LEAF_SIZE; lia)) as (Hr & Hrm).
      unfold LEAF_SIZE in *.
      rewrite to_int_id in Hmr by lia. rewrite Hmr.
      apply Z.mod_divide in Hrm; [| lia]. destruct Hrm as [t Ht].
      apply Z.mod_divide in HHm; [| lia]. destruct HHm as [h Hh].
      rewrite Ht in *. split; [lia |]. split; [apply Z.mod_mul; lia | lia].
    - assert (HEAP_SIZE s - (end_ - bd_base s) = 0) by lia.
      rewrite Hmr. split; [lia |]. split; [| lia].
      replace (HEAP_SIZE s - (end_ - bd_base s)) with 0 by lia. reflexivity. }
  destruct Hmrs as (M1 & M2 & M3).
  exists s2, s3.
  split; [exact HL23 |]. split; [exact HL34 |]. split; [lia |].
  split; [lia |]. split; [exact Hempty |]. split; [exact HB |].
  split; [lia |]. split; [exact Hmlm |]. split; [exact M1 |].
  split; [exact M2 |]. split; [exact Hsz |]. split; [lia |].
  split.
  { rewrite <- HL. f_equal. lia. }
  split.
  { rewrite <- HR. f_equal; lia. }
  split; [lia |].
  rewrite Hlay. reflexivity.
Qed.

Lemma count_free_below_empty (s : state) (n : nat) (x : Z) :
  (forall j, frees s j = []) -> count_free_below s n x = 0.
Proof.
  intros He. induction n as [| n IH]; cbn [count_free_below]; [reflexivity |].
  rewrite IH, He. reflexivity.
Qed.

Lemma free_bytes_below_empty (s : state) (n : nat) :
  (forall j, frees s j = []) -> free_bytes_below s n = 0.
Proof.
  intros He. induction n as [| n IH]; cbn [free_bytes_below]; [reflexivity |].
  rewrite IH, He. reflexivity.
Qed.

(* a heap with room for its own table has at least five classes *)
Lemma five_classes (s : state) :
  1 <= nsizes s <= 27 -> 32 * nsizes s < HEAP_SIZE s -> 5 <= nsizes s.
Proof.
  intros Hn Hlt. unfold HEAP_SIZE, MAXSIZE in Hlt.
  assert (Hc : nsizes s = 1 \/ nsizes s = 2 \/ nsizes s = 3 \/ nsizes s = 4
               \/ 5 <= nsizes s) by lia.
  destruct Hc as [Hc | [Hc | [Hc | [Hc | Hc]]]]; try exact Hc;
    rewrite Hc in Hlt; vm_compute in Hlt; discriminate.
Qed.

Lemma left_push_inv (base P N k a : Z) :
  left_push base P N k = Some a ->
  k < N - 2 /\ ceil_idx P k mod 2 = 1 /\ a = base + ceil_idx P k * BLK_SIZE k.
Proof.
  unfold left_push. destruct (Z.ltb_spec k (N - 2)); cbn [andb]; [| discriminate].
  destruct (Z.eqb_spec (ceil_idx P k mod 2) 0); cbn [negb]; [discriminate |].
  intros H'. injection H' as <-.
  destruct (mod2_cases (ceil_idx P k)); [contradiction |]. auto.
Qed.

Lemma right_push_inv (base E N k a : Z) :
  right_push base E N k = Some a ->
  k < N - 2 /\ floor_idx E k mod 2 = 1
  /\ a = base + (floor_idx E k - 1) * BLK_SIZE k.
Proof.
  unfold right_push. destruct (Z.ltb_spec k (N - 2)); cbn [andb]; [| discriminate].
  destruct (Z.eqb_spec (floor_idx E k mod 2) 0); cbn [negb]; [discriminate |].
  intros H'. injection H' as <-.
  destruct (mod2_cases (floor_idx E k)); [contradiction |]. auto.
Qed.

(* the parent of class-k block c is block c / 2 of class k + 1 *)
Lemma parent_index (c k : Z) :
  0 <= k -> (c * BLK_SIZE k) / BLK_SIZE (k + 1) = c / 2.
Proof.
  intros Hk. rewrite BLK_SIZE_succ by exact Hk.
  pose proof (BLK_SIZE_pos k Hk).
  apply Z.div_mul_cancel_r; lia.
Qed.

Lemma blk_index_next_ceil (s : state) (k P : Z) :
  0 <= k -> 0 <= P < 2 ^ 31 - 1 ->
  blk_index_next s k (bd_base s + P) = ceil_idx P k.
Proof.
  intros Hk HP. rewrite blk_index_next_eq by lia.
  replace (bd_base s + P - bd_base s) with P by lia. reflexivity.
Qed.

Lemma blk_index_floor (s : state) (k P : Z) :
  0 <= k -> 0 <= P < 2 ^ 31 ->
  blk_index s k (bd_base s + P) = floor_idx P k.
Proof.
  intros Hk HP. rewrite blk_index_eq by lia.
  replace (bd_base s + P - bd_base s) with P by lia. reflexivity.
Qed.

Lemma ceil_idx_heap (s : state) (k : Z) :
  0 <= k < nsizes s -> ceil_idx (HEAP_SIZE s) k = NBLK s k.
Proof.
  intros Hk. rewrite (HEAP_SIZE_blocks s k Hk). apply ceil_idx_exact. lia.
Qed.

Lemma floor_idx_heap (s : state) (k : Z) :
  0 <= k < nsizes s -> floor_idx (HEAP_SIZE s) k = NBLK s k.
Proof.
  intros Hk. rewrite (HEAP_SIZE_blocks s k Hk). apply floor_idx_exact. lia.
Qed.

Lemma NBLK_succ (s : state) (k : Z) :
  0 <= k -> k + 1 < nsizes s -> NBLK s k = 2 * NBLK s (k + 1).
Proof.
  intros Hk Hlt. rewrite !NBLK_eq by lia.
  replace (nsizes s - 1 - k) with (Z.succ (nsizes s - 1 - (k + 1))) by lia.
  rewrite Z.pow_succ_r by lia. reflexivity.
Qed.

(** The free lists that the two markings of [bd_init] leave, and the
    consequence of the check that ends [bd_init]: the blocks pushed from
    the metadata upwards and from the tail downwards meet. *)
Lemma marks_lists (s2 s3 s : state) (P E fl fr : Z) :
  same_layout s2 s3 -> same_layout s3 s ->
  1 <= nsizes s <= 27 -> 0 <= bd_base s -> HEAP_SIZE s < 2 ^ 31 ->
  (forall j, frees s2 j = []) ->
  32 * nsizes s <= P <= 2 ^ 29 -> P mod 16 = 0 ->
  0 <= E <= HEAP_SIZE s -> E mod 16 = 0 ->
  mark_loop (Z.to_nat (nsizes s)) s2 0 (bd_base s) (bd_base s + P) true 0
    = (s3, fl) ->
  mark_loop (Z.to_nat (nsizes s)) s3 0 (bd_base s + E)
            (bd_base s + HEAP_SIZE s) false 0 = (s, fr) ->
  free_bytes s = E - P ->
  (forall j, 0 <= j < nsizes s ->
     frees s3 j = match left_push (bd_base s) P (nsizes s) j with
                  | Some a => a :: frees s2 j
                  | None => frees s2 j
                  end)
  /\ (forall j, 0 <= j < nsizes s ->
        frees s j = match right_push (bd_base s) E (nsizes s) j with
                    | Some a => a :: frees s3 j
                    | None => frees s3 j
                    end)
  /\ left_end P (nsizes s) = right_start E (nsizes s)
  /\ (forall x, count_free s x = ind (bd_base s + P) (bd_base s + E) x).
Proof.
  intros HL23 HL34 Hn Hb0 Hheap Hempty HP HPm HE HEm HL HR Hfb.
  set (N := nsizes s) in *. set (b := bd_base s) in *.
  pose proof (HEAP_SIZE_bound s Hn) as HH.
  assert (HE30 : 0 <= E <= 2 ^ 30) by lia.
  assert (HL24 : same_layout s2 s) by (eapply same_layout_trans; eassumption).
  assert (E2 : nsizes s2 = N) by (destruct HL24 as (A & _); unfold N; congruence).
  assert (E3 : nsizes s3 = N) by (destruct HL34 as (A & _); unfold N; congruence).
  assert (B2 : bd_base s2 = b) by (destruct HL24 as (_ & A & _); unfold b; congruence).
  assert (B3 : bd_base s3 = b) by (destruct HL34 as (_ & A & _); unfold b; congruence).
  (* the free lists *)
  assert (Hf3 : forall j, 0 <= j < N ->
            frees s3 j = match left_push b P N j with
                         | Some a => a :: frees s2 j
                         | None => frees s2 j
                         end).
  { intros j Hj.
    pose proof (mark_loop_spec b (b + P) true (Z.to_nat N) s2 0 0) as Hs.
    cbv zeta in Hs. rewrite HL in Hs. cbn [fst] in Hs. destruct Hs as (_ & Hs).
    rewrite Hs, E2. rewrite Z2Nat.id by lia.
    destruct (Z.leb_spec 0 j), (Z.ltb_spec j (0 + N)), (Z.ltb_spec j N);
      cbn [andb]; try lia.
    rewrite <- B2, <- E2. rewrite mark_push_left; [reflexivity | lia | lia | lia]. }
  assert (Hf4 : forall j, 0 <= j < N ->
            frees s j = match right_push b E N j with
                        | Some a => a :: frees s3 j
                        | None => frees s3 j
                        end).
  { intros j Hj.
    pose proof (mark_loop_spec (b + E) (b + HEAP_SIZE s) false (Z.to_nat N) s3 0 0)
      as Hs.
    cbv zeta in Hs. rewrite HR in Hs. cbn [fst] in Hs. destruct Hs as (_ & Hs).
    rewrite Hs, E3. rewrite Z2Nat.id by lia.
    destruct (Z.leb_spec 0 j), (Z.ltb_spec j (0 + N)), (Z.ltb_spec j N);
      cbn [andb]; try lia.
    rewrite <- B3, <- E3. rewrite (HEAP_SIZE_layout s3 s HL34).
    rewrite mark_push_right; [reflexivity | lia | lia |].
    rewrite <- (HEAP_SIZE_layout s3 s HL34). lia. }
  (* counting them *)
  assert (Hcnt : forall x, count_free s x
                 = ind (b + P) (b + left_end P N) x
                   + ind (b + right_start E N) (b + E) x).
  { intros x. unfold count_free. fold N.
    rewrite (count_free_below_marks s3 s (right_push b E N))
      by (intros j Hj; apply Hf4; lia).
    rewrite (count_free_below_marks s2 s3 (left_push b P N))
      by (intros j Hj; apply Hf3; lia).
    rewrite (count_free_below_empty s2) by exact Hempty.
    rewrite left_marks_cover by (try assumption; lia).
    rewrite right_marks_cover by (try assumption; lia). lia. }
  assert (Hbytes : free_bytes s = (left_end P N - P) + (E - right_start E N)).
  { unfold free_bytes. fold N.
    rewrite (free_bytes_below_marks s3 s (right_push b E N))
      by (intros j Hj; apply Hf4; lia).
    rewrite (free_bytes_below_marks s2 s3 (left_push b P N))
      by (intros j Hj; apply Hf3; lia).
    rewrite (free_bytes_below_empty s2) by exact Hempty.
    rewrite left_marks_bytes by (try assumption; lia).
    rewrite right_marks_bytes by (try assumption; lia). lia. }
  assert (Hmid : left_end P N = right_start E N) by lia.
  assert (HPle : P <= left_end P N) by (apply left_end_ge; lia).
  assert (HEge : right_start E N <= E) by (apply right_start_le; lia).
  assert (Hcov : forall x, count_free s x = ind (b + P) (b + E) x).
  { intros x. rewrite Hcnt. rewrite Hmid. apply ind_add. lia. }
  split; [exact Hf3 |]. split; [exact Hf4 |]. split; [exact Hmid |]. exact Hcov.
Qed.

Lemma bd_init_inv (m0 : Z -> Z) (base end_ : Z) s ml mr :
  bd_init_run m0 base end_ = Some (s, ml, mr) ->
  0 <= base < 2 ^ 62 -> bd_base s <= end_ < 2 ^ 63 -> HEAP_SIZE s < 2 ^ 31 ->
  Inv s (meta ml) (HEAP_SIZE s - meta mr) []
  /\ meta ml <= HEAP_SIZE s - meta mr.
Proof.
  intros Hrun Hbase Hend Hheap.
  destruct (bd_init_run_marks _ _ _ _ _ _ Hrun Hbase Hend Hheap)
    as (s2 & s3 & HL23 & HL34 & Hn & Hb0 & Hempty & (B & HB) & HP & HPm & HM
        & HMm & _ & _ & HL & HR & Hfb & _).
  set (P := meta ml) in *. set (E := HEAP_SIZE s - meta mr) in *.
  set (N := nsizes s) in *. set (b := bd_base s) in *.
  pose proof (HEAP_SIZE_bound s Hn) as HH.
  pose proof (HEAP_SIZE_mod16 s ltac:(lia)) as HHm.
  assert (HE30 : 0 <= E <= 2 ^ 30) by (unfold E; lia).
  assert (HEm : E mod 16 = 0).
  { unfold E. apply Z.mod_divide; [lia |].
    apply Z.divide_sub_r; apply Z.mod_divide; (lia || assumption). }
  assert (HL24 : same_layout s2 s) by (eapply same_layout_trans; eassumption).
  assert (E2 : nsizes s2 = N) by (destruct HL24 as (A & _); unfold N; congruence).
  assert (E3 : nsizes s3 = N) by (destruct HL34 as (A & _); unfold N; congruence).
  assert (B2 : bd_base s2 = b) by (destruct HL24 as (_ & A & _); unfold b; congruence).
  assert (B3 : bd_base s3 = b) by (destruct HL34 as (_ & A & _); unfold b; congruence).
  destruct (marks_lists s2 s3 s P E (mfree ml) (mfree mr) HL23 HL34 Hn Hb0 Hheap
              Hempty HP HPm ltac:(unfold E; lia) HEm HL HR
              ltac:(unfold E; lia))
    as (Hf3 & Hf4 & Hmid & Hcov).
  fold N b in Hf3, Hf4, Hmid, Hcov.
  assert (HPle : P <= left_end P N) by (apply left_end_ge; lia).
  assert (HEge : right_start E N <= E) by (apply right_start_le; lia).
  assert (H5 : P < E -> 5 <= N /\ 160 <= P).
  { intros Hlt. assert (5 <= N) by (apply five_classes; unfold N in *; lia). lia. }
  (* the split bits *)
  pose proof (mark_loop_mem b (b + P) true (Z.to_nat N) s2 0 0 B HB ltac:(lia))
    as HmL. cbv zeta in HmL. rewrite HL in HmL. cbn [fst] in HmL.
  destruct HmL as (_ & BITS3).
  { intros j Hj. rewrite E2 in Hj. rewrite <- B2.
    rewrite blk_index_eq by lia. replace (bd_base s2 - bd_base s2) with 0 by lia.
    rewrite Z.div_0_l by (pose proof (BLK_SIZE_pos j); lia).
    rewrite blk_index_next_ceil by lia.
    pose proof (ceil_idx_nonneg P j ltac:(lia) ltac:(lia)).
    pose proof (ceil_idx_mono P (HEAP_SIZE s) j ltac:(lia) ltac:(unfold E in *; lia)).
    rewrite (NBLK_layout s s2), <- (ceil_idx_heap s j)
      by (try (apply same_layout_sym; exact HL24); unfold N in *; lia).
    lia. }
  assert (HB3 : split_sep s3 B) by (eapply split_sep_layout; eassumption).
  pose proof (mark_loop_mem (b + E) (b + HEAP_SIZE s) false (Z.to_nat N) s3 0 0
                B HB3 ltac:(lia)) as HmR.
  cbv zeta in HmR. rewrite HR in HmR. cbn [fst] in HmR.
  destruct HmR as (LE4 & BITS4).
  { intros j Hj. rewrite E3 in Hj. rewrite <- B3.
    rewrite blk_index_floor by (unfold E; lia).
    rewrite blk_index_next_ceil by lia.
    pose proof (floor_idx_nonneg E j ltac:(lia) ltac:(unfold E; lia)).
    rewrite (NBLK_layout s s3), (ceil_idx_heap s j)
      by (try (apply same_layout_sym; exact HL34); unfold N in *; lia).
    pose proof (NBLK_range s j ltac:(unfold N in *; lia) ltac:(unfold N in *; lia)).
    lia. }
  split; [| unfold P, E in *; lia].
  constructor.
  - exact Hn.
  - exact Hb0.
  - exists B. eapply split_sep_layout; eassumption.
  - split; [lia |]. split; [unfold E; lia |]. intros Hlt. apply H5 in Hlt. lia.
  - intros x. cbn [count_live]. rewrite Hcov. unfold P, E, b. lia.
  - intros k a [[Hk Hin] | []]. fold N b in Hk |- *.
    assert (Hlt : P < E).
    { pose proof (count_free_in s k a a Hk Hin) as Hc. rewrite Hcov in Hc.
      unfold inb in Hc. pose proof (BLK_SIZE_pos k ltac:(lia)).
      rewrite ind_in in Hc by lia.
      assert (Hpos : 0 < ind (b + P) (b + E) a) by lia.
      apply ind_pos_inv in Hpos. lia. }
    destruct (H5 Hlt) as (HN5 & HP160).
    pose proof HL24 as (_ & _ & HP2). pose proof HL34 as (_ & _ & HP3).
    rewrite Hf4 in Hin by lia.
    assert (Hright : forall a', right_push b E N k = Some a' ->
              0 <= k <= N - 2 /\ (a' - b) mod BLK_SIZE k = 0
              /\ parent_split s k a' = true).
    { intros a' Hr. apply right_push_inv in Hr. destruct Hr as (Hk2 & Hodd & ->).
      split; [lia |]. split.
      { replace (b + (floor_idx E k - 1) * BLK_SIZE k - b)
          with ((floor_idx E k - 1) * BLK_SIZE k) by lia.
        apply Z.mod_mul. pose proof (BLK_SIZE_pos k). lia. }
      unfold parent_split.
      pose proof (floor_idx_spec E k ltac:(lia)) as Hfs.
      pose proof (floor_idx_nonneg E k ltac:(lia) ltac:(lia)) as Hf0.
      pose proof (BLK_SIZE_pos k ltac:(lia)) as HBk.
      pose proof (floor_idx_succ E k ltac:(lia)) as Hfn.
      rewrite Hodd in Hfn.
      assert (Hidx : blk_index s (k + 1) (b + (floor_idx E k - 1) * BLK_SIZE k)
                     = floor_idx E (k + 1)).
      { assert (Hf1 : 1 <= floor_idx E k).
        { pose proof (Z.div_mod (floor_idx E k) 2 ltac:(lia)). lia. }
        assert (Hm0 : 0 <= (floor_idx E k - 1) * BLK_SIZE k)
          by (apply Z.mul_nonneg_nonneg; lia).
        assert (Hm1 : (floor_idx E k - 1) * BLK_SIZE k
                      = floor_idx E k * BLK_SIZE k - BLK_SIZE k) by ring.
        assert (Hrng : 0 <= b + (floor_idx E k - 1) * BLK_SIZE k - bd_base s < 2 ^ 31).
        { fold b. rewrite Hm1. lia. }
        rewrite blk_index_eq by (try exact Hrng; lia).
        replace (b + (floor_idx E k - 1) * BLK_SIZE k - bd_base s)
          with ((floor_idx E k - 1) * BLK_SIZE k) by (unfold b; lia).
        rewrite parent_index by lia.
        symmetry. apply Z.div_unique with (r := 0); lia. }
      rewrite Hidx.
      destruct (HP3 (k + 1)) as (_ & ->).
      apply BITS4.
      - rewrite Z2Nat.id by lia. lia.
      - rewrite E3. lia.
      - rewrite <- B3. rewrite blk_index_floor by lia.
        rewrite blk_index_next_ceil by lia.
        rewrite (ceil_idx_heap s (k + 1)) by (fold N; lia).
        split; [lia |].
        pose proof (floor_idx_mono E (HEAP_SIZE s) k ltac:(lia) ltac:(unfold E; lia)) as Hm.
        rewrite (floor_idx_heap s k) in Hm by (fold N; lia).
        rewrite (NBLK_succ s k) in Hm by (fold N; lia). lia.
      - intros Hk1. assert (k = 0) by lia. subst k.
        unfold floor_idx. change (BLK_SIZE (0 + 1)) with 32.
        apply Z.div_le_lower_bound; lia. }
    assert (Hleft : forall a', left_push b P N k = Some a' ->
              0 <= k <= N - 2 /\ (a' - b) mod BLK_SIZE k = 0
              /\ parent_split s k a' = true).
    { intros a' Hl. apply left_push_inv in Hl. destruct Hl as (Hk2 & Hodd & ->).
      split; [lia |]. split.
      { replace (b + ceil_idx P k * BLK_SIZE k - b)
          with (ceil_idx P k * BLK_SIZE k) by lia.
        apply Z.mod_mul. pose proof (BLK_SIZE_pos k). lia. }
      unfold parent_split.
      pose proof (ceil_idx_spec P k ltac:(lia)) as Hcs.
      pose proof (ceil_idx_nonneg P k ltac:(lia) ltac:(lia)) as Hc0.
      pose proof (BLK_SIZE_pos k ltac:(lia)) as HBk.
      assert (HBk30 : BLK_SIZE k <= BLK_SIZE 26) by (apply BLK_SIZE_mono; lia).
      change (BLK_SIZE 26) with (2 ^ 30) in HBk30.
      pose proof (ceil_idx_succ P k ltac:(lia)) as Hcn.
      rewrite Hodd in Hcn.
      pose proof (Z.div_mod (ceil_idx P k) 2 ltac:(lia)) as Hdm.
      rewrite Hodd in Hdm.
      assert (Hidx : blk_index s (k + 1) (b + ceil_idx P k * BLK_SIZE k)
                     = ceil_idx P k / 2).
      { assert (Hm0 : 0 <= ceil_idx P k * BLK_SIZE k)
          by (apply Z.mul_nonneg_nonneg; lia).
        assert (Hm1 : (ceil_idx P k - 1) * BLK_SIZE k
                      = ceil_idx P k * BLK_SIZE k - BLK_SIZE k) by ring.
        assert (Hrng : 0 <= b + ceil_idx P k * BLK_SIZE k - bd_base s < 2 ^ 31).
        { fold b. lia. }
        rewrite blk_index_eq by (try exact Hrng; lia).
        replace (b + ceil_idx P k * BLK_SIZE k - bd_base s)
          with (ceil_idx P k * BLK_SIZE k) by (unfold b; lia).
        apply parent_index. lia. }
      rewrite Hidx.
      destruct (HP3 (k + 1)) as (_ & ->).
      apply LE4.
      - rewrite E3. lia.
      - apply Z.div_pos; lia.
      - intros Hk1. assert (k = 0) by lia. subst k.
        assert (ceil_idx P 0 * BLK_SIZE 0 = P) by (apply ceil_idx_leaf; exact HPm).
        change (BLK_SIZE 0) with 16 in *. lia.
      - destruct (HP3 (k + 1)) as (_ & <-). destruct (HP2 (k + 1)) as (_ & ->).
        apply BITS3.
        + rewrite Z2Nat.id by lia. lia.
        + rewrite E2. lia.
        + rewrite <- B2. rewrite blk_index_eq by lia.
          replace (bd_base s2 - bd_base s2) with 0 by lia.
          rewrite Z.div_0_l by (pose proof (BLK_SIZE_pos (k + 1)); lia).
          rewrite blk_index_next_ceil by lia. lia.
        + intros Hk1. assert (k = 0) by lia. subst k.
          assert (ceil_idx P 0 * BLK_SIZE 0 = P) by (apply ceil_idx_leaf; exact HPm).
          change (BLK_SIZE 0) with 16 in *. lia. }
    destruct (right_push b E N k) as [ar |] eqn:Hrp.
    + destruct Hin as [<- | Hin]; [apply Hright; reflexivity |].
      rewrite Hf3 in Hin by lia. rewrite Hempty in Hin.
      destruct (left_push b P N k) as [al |] eqn:Hlp; [| destruct Hin].
      destruct Hin as [<- | []]. apply Hleft. reflexivity.
    + rewrite Hf3 in Hin by lia. rewrite Hempty in Hin.
      destruct (left_push b P N k) as [al |] eqn:Hlp; [| destruct Hin].
      destruct Hin as [<- | []]. apply Hleft. reflexivity.
Qed.

(** ** The claims about every reachable state *)

Lemma bd_init_some (m0 : Z -> Z) (base end_ : Z) (s : state) :
  bd_init m0 base end_ = Some s ->
  exists ml mr, bd_init_run m0 base end_ = Some (s, ml, mr).
Proof.
  unfold bd_init.
  destruct (bd_init_run m0 base end_) as [[[s' ml] mr] |]; [| discriminate].
  intros H. injection H as <-. eauto.
Qed.

Lemma step_base s live s' live' :
  step (s, live) (s', live') ->
  nsizes s' = nsizes s /\ bd_base s' = bd_base s.
Proof.
  intros Hstep.
  inversion Hstep as [s1 l1 n r Hrun Hp E1 E2 | s1 l1 n r Hrun Hp E1 E2
                     | s1 l1 p c s2 Hin Hf E1 E2]; subst.
  - destruct (firstk n) as [fk |] eqn:Hfk;
      [| unfold bd_malloc_run in Hrun; rewrite Hfk in Hrun; discriminate].
    destruct (bd_malloc_run_cases s n fk Hfk)
      as [(k & _ & _ & Hr) | (k & p & rest & s2 & _ & _ & _ & Hr & Hns & Hbs & _)];
      rewrite Hr in Hrun; injection Hrun as <-; cbn [ret_state]; auto.
  - destruct (firstk n) as [fk |] eqn:Hfk;
      [| unfold bd_malloc_run in Hrun; rewrite Hfk in Hrun; discriminate].
    destruct (bd_malloc_run_cases s n fk Hfk)
      as [(k & _ & _ & Hr) | (k & p & rest & s2 & _ & _ & _ & Hr & Hns & Hbs & _)];
      rewrite Hr in Hrun; injection Hrun as <-; cbn [ret_state]; auto.
  - destruct (size s p) as [k0 |] eqn:Hsz;
      [| unfold bd_free in Hf; rewrite Hsz in Hf; discriminate].
    rewrite (bd_free_spec s p k0 Hsz) in Hf. injection Hf as <-.
    destruct (k0 <? MAXSIZE s); auto.
Qed.

Lemma reachable_base s0 s live :
  reachable s0 s live -> nsizes s = nsizes s0 /\ bd_base s = bd_base s0.
Proof.
  intros Hr. induction Hr as [| s live s' live' _ IH Hstep]; [auto |].
  destruct (step_base _ _ _ _ Hstep) as (A & B). destruct IH. split; congruence.
Qed.

(** C5 (X25). No overlap of live allocations: from a completed [bd_init] (region
    and addresses within the range of the C integer types used), after any
    sequence of [bd_malloc] and [bd_free] calls in which [bd_free] is only
    given addresses that [bd_malloc] returned and that are still live, the
    blocks that are live do not overlap; and every such [bd_free] call
    returns. *)
Theorem live_blocks_disjoint (m0 : Z -> Z) (base end_ : Z) (s0 s : state)
    (live : list (Z * Z)) :
  bd_init m0 base end_ = Some s0 ->
  0 <= base < 2 ^ 62 -> bd_base s0 <= end_ < 2 ^ 63 ->
  HEAP_SIZE s0 < 2 ^ 31 ->
  reachable s0 s live ->
  no_overlap live
  /\ (forall p c, In (p, c) live -> exists s', bd_free s p = Some s').
Proof.
  intros Hinit Hbase Hend Hheap Hreach.
  destruct (bd_init_some _ _ _ _ Hinit) as (ml & mr & Hrun).
  destruct (bd_init_inv _ _ _ _ _ _ Hrun Hbase Hend Hheap) as (HI0 & _).
  pose proof (inv_reachable _ _ _ _ _ HI0 Hreach) as HI.
  split; [eapply inv_no_overlap; exact HI |].
  intros p c Hin. destruct (inv_free _ _ _ _ _ _ HI Hin) as (s' & Hs' & _).
  eauto.
Qed.

Lemma live_blocks_disjoint_witness :
  reachable ex_state (after_malloc (after_malloc ex_state 32) 32)
            [(4448, 1); (4416, 1)]
  /\ no_overlap [(4448, 1); (4416, 1)].
Proof.
  assert (Hreach : reachable ex_state (after_malloc (after_malloc ex_state 32) 32)
                     [(4448, 1); (4416, 1)]).
  { apply (reach_step ex_state (after_malloc ex_state 32) [(4416, 1)]).
    - apply (reach_step ex_state ex_state []); [apply reach_init |].
      apply step_after_malloc; [vm_compute; reflexivity | discriminate].
    - apply step_after_malloc; [vm_compute; reflexivity | discriminate]. }
  split; [exact Hreach |].
  destruct ex_state_shape as (_ & Hb & Hh).
  apply (live_blocks_disjoint (fun _ => 0) 4096 5136 ex_state
           (after_malloc (after_malloc ex_state 32) 32)).
  - exact ex_state_init.
  - lia.
  - rewrite Hb. lia.
  - rewrite Hh. lia.
  - exact Hreach.
Defined.

(** C8 (X26). Boundary non-overlap: after a completed [bd_init] the metadata
    range [bd_base, bd_base + meta m_left) and the unavailable tail
    [bd_base + HEAP_SIZE - meta m_right, bd_base + HEAP_SIZE) do not
    overlap, the tail range starts at or before [end], and every block
    that [bd_malloc] hands out in a reachable state lies between the two:
    at or above the end of the metadata and, with all its bytes, below the
    tail. *)
Theorem reserved_ranges_untouched (m0 : Z -> Z) (base end_ : Z) (s0 : state)
    (ml mr : MARK_META) :
  bd_init_run m0 base end_ = Some (s0, ml, mr) ->
  0 <= base < 2 ^ 62 -> bd_base s0 <= end_ < 2 ^ 63 ->
  HEAP_SIZE s0 < 2 ^ 31 ->
  0 <= meta ml <= HEAP_SIZE s0 - meta mr
  /\ 0 <= meta mr
  /\ bd_base s0 + HEAP_SIZE s0 - meta mr <= end_
  /\ forall s live n r,
       reachable s0 s live -> bd_malloc_run s n = Some r -> ret_ptr r <> 0 ->
       bd_base s0 + meta ml <= ret_ptr r
       /\ ret_ptr r + BLK_SIZE (ret_class r)
          <= bd_base s0 + HEAP_SIZE s0 - meta mr.
Proof.
  intros Hrun Hbase Hend Hheap.
  destruct (bd_init_inv _ _ _ _ _ _ Hrun Hbase Hend Hheap) as (HI0 & Hle).
  destruct (bd_init_run_marks _ _ _ _ _ _ Hrun Hbase Hend Hheap)
    as (_ & _ & _ & _ & Hn & _ & _ & _ & HP & _ & HM & _ & _ & Hsz2 & _).
  split; [lia |]. split; [lia |]. split; [lia |].
  intros s live n r Hreach Hmal Hp.
  pose proof (inv_reachable _ _ _ _ _ HI0 Hreach) as HI.
  destruct (reachable_base _ _ _ Hreach) as (_ & Hb).
  destruct (inv_malloc _ _ _ _ _ _ HI Hmal) as [(H0 & _) | (_ & Hlo & Hhi & _)];
    [contradiction |].
  rewrite Hb in Hlo, Hhi. lia.
Qed.

Lemma reserved_ranges_untouched_witness :
  exists ml mr,
    bd_init_run (fun _ => 0) 4096 5136 = Some (ex_state, ml, mr)
    /\ (0 <= meta ml <= HEAP_SIZE ex_state - meta mr
        /\ 0 <= meta mr
        /\ bd_base ex_state + HEAP_SIZE ex_state - meta mr <= 5136
        /\ forall s live n r,
             reachable ex_state s live -> bd_malloc_run s n = Some r ->
             ret_ptr r <> 0 ->
             bd_base ex_state + meta ml <= ret_ptr r
             /\ ret_ptr r + BLK_SIZE (ret_class r)
                <= bd_base ex_state + HEAP_SIZE ex_state - meta mr).
Proof.
  destruct ex_state_run as (ml & mr & Hrun & _).
  destruct ex_state_shape as (_ & Hb & Hh).
  exists ml, mr. split; [exact Hrun |].
  apply (reserved_ranges_untouched (fun _ => 0) 4096 5136 ex_state ml mr Hrun).
  - lia.
  - rewrite Hb. lia.
  - rewrite Hh. lia.
Defined.

(** ** Bit vectors: each operation touches exactly one bit *)

(* two index pairs that name the same bit of the store read the same *)
Lemma bit_isset_same_bit (m : Z -> Z) (a i a' i' : Z) :
  0 <= i -> 0 <= i' -> 8 * a + i = 8 * a' + i' ->
  bit_isset m a i = bit_isset m a' i'.
Proof.
  intros Hi Hi' He. rewrite !bit_isset_testbit by assumption.
  pose proof (Z.div_mod i 8 ltac:(lia)) as D1.
  pose proof (Z.div_mod i' 8 ltac:(lia)) as D2.
  pose proof (Z.mod_pos_bound i 8 ltac:(lia)) as M1.
  pose proof (Z.mod_pos_bound i' 8 ltac:(lia)) as M2.
  assert (E1 : a + i / 8 = a' + i' / 8) by lia.
  assert (E2 : i mod 8 = i' mod 8) by lia.
  rewrite E1, E2. reflexivity.
Qed.

Lemma bit_isset_bit_clear (m : Z -> Z) (a i : Z) :
  0 <= i -> bit_isset (bit_clear m a i) a i = false.
Proof.
  intros Hi. rewrite bit_isset_testbit by exact Hi.
  unfold bit_clear, upd. rewrite bit_mask_nonneg by exact Hi.
  rewrite Z.quot_div_nonneg by lia. rewrite Z.eqb_refl.
  pose proof (Z.mod_pos_bound i 8 ltac:(lia)) as Hr.
  rewrite testbit_to_char by exact Hr.
  rewrite Z.land_spec, Z.lnot_spec by lia.
  rewrite Z.pow2_bits_true by lia. apply andb_false_r.
Qed.

(** X1. [bit_set] sets the bit it names and no other: read through
    [bit_isset], any bit of the store (any array, any non-negative index)
    is set afterwards if it is that bit, and is as before otherwise. *)
Theorem bit_set_sets_one_bit (m : Z -> Z) (a i a' i' : Z) :
  0 <= i -> 0 <= i' ->
  bit_isset (bit_set m a i) a' i' =
  if 8 * a + i =? 8 * a' + i' then true else bit_isset m a' i'.
Proof.
  intros Hi Hi'. destruct (Z.eqb_spec (8 * a + i) (8 * a' + i')) as [He | Hne].
  - rewrite <- (bit_isset_same_bit _ a i a' i') by assumption.
    apply bit_isset_bit_set.
  - apply bit_set_other; assumption.
Qed.

Lemma bit_set_sets_one_bit_witness :
  bit_isset (bit_set (fun _ => 0) 100 11) 101 3 =
  (if 8 * 100 + 11 =? 8 * 101 + 3 then true
   else bit_isset (fun _ => 0) 101 3).
Proof. apply bit_set_sets_one_bit; lia. Defined.

(** X2. [bit_clear] clears the bit it names and no other. *)
Theorem bit_clear_clears_one_bit (m : Z -> Z) (a i a' i' : Z) :
  0 <= i -> 0 <= i' ->
  bit_isset (bit_clear m a i) a' i' =
  if 8 * a + i =? 8 * a' + i' then false else bit_isset m a' i'.
Proof.
  intros Hi Hi'. destruct (Z.eqb_spec (8 * a + i) (8 * a' + i')) as [He | Hne].
  - rewrite <- (bit_isset_same_bit _ a i a' i') by assumption.
    apply bit_isset_bit_clear. exact Hi.
  - apply bit_clear_other; assumption.
Qed.

Lemma bit_clear_clears_one_bit_witness :
  bit_isset (bit_clear (fun _ => 255) 100 11) 101 3 =
  (if 8 * 100 + 11 =? 8 * 101 + 3 then false
   else bit_isset (fun _ => 255) 101 3).
Proof. apply bit_clear_clears_one_bit; lia. Defined.

(** X3. [bit_flip] inverts the bit it names and no other, so flipping the
    same bit twice gives back every bit of the store. *)
Theorem bit_flip_inverts_one_bit (m : Z -> Z) (a i a' i' : Z) :
  0 <= i -> 0 <= i' ->
  bit_isset (bit_flip m a i) a' i' =
    (if 8 * a + i =? 8 * a' + i' then negb (bit_isset m a' i')
     else bit_isset m a' i')
  /\ bit_isset (bit_flip (bit_flip m a i) a i) a' i' = bit_isset m a' i'.
Proof.
  intros Hi Hi'.
  assert (Hself : forall m0, bit_isset (bit_flip m0 a i) a i
                             = negb (bit_isset m0 a i)).
  { intros m0. unfold bit_flip. destruct (bit_isset m0 a i) eqn:Hb; cbn [negb].
    - apply bit_isset_bit_clear. exact Hi.
    - apply bit_isset_bit_set. }
  destruct (Z.eqb_spec (8 * a + i) (8 * a' + i')) as [He | Hne].
  - rewrite <- !(bit_isset_same_bit _ a i a' i') by assumption.
    rewrite !Hself. rewrite negb_involutive. split; reflexivity.
  - rewrite !bit_flip_other by assumption. split; reflexivity.
Qed.

Lemma bit_flip_inverts_one_bit_witness :
  bit_isset (bit_flip (fun _ => 0) 100 11) 101 3 =
    (if 8 * 100 + 11 =? 8 * 101 + 3
     then negb (bit_isset (fun _ => 0) 101 3)
     else bit_isset (fun _ => 0) 101 3)
  /\ bit_isset (bit_flip (bit_flip (fun _ => 0) 100 11) 100 11) 101 3
     = bit_isset (fun _ => 0) 101 3.
Proof. apply bit_flip_inverts_one_bit; lia. Defined.

(** ** firstk, log2 and ROUNDUP *)

(** X4. [firstk] returns exactly for the requests of at most 2^63 bytes.
    For a larger one the doubled [uint64] size wraps to 0 before it can
    reach the request, the loop never exits, and [bd_malloc] does not
    return either: it holds the lock for ever. *)
Theorem firstk_returns_iff (n : Z) :
  ((exists k, firstk n = Some k) <-> n <= 2 ^ 63)
  /\ (2 ^ 63 < n ->
      (forall fuel, firstk_loop fuel 0 LEAF_SIZE n = None)
      /\ forall s, bd_malloc s n = None).
Proof.
  assert (Hdiv : 2 ^ 63 < n -> forall fuel, firstk_loop fuel 0 LEAF_SIZE n = None).
  { intros H fuel. apply firstk_diverges. exact H. }
  split; [split |].
  - intros [k Hk]. destruct (Z.le_gt_cases n (2 ^ 63)) as [Hle | Hgt];
      [exact Hle |].
    unfold firstk in Hk. rewrite Hdiv in Hk by lia. discriminate.
  - apply firstk_returns.
  - intros Hgt. split; [apply Hdiv; exact Hgt |].
    intros s. unfold bd_malloc, bd_malloc_run, firstk.
    rewrite Hdiv by exact Hgt. reflexivity.
Qed.

Lemma log2_loop_lower (f : nat) : forall k n,
  1 <= n -> 2 ^ (log2_loop f k n - k) <= n.
Proof.
  induction f as [| f IH]; intros k n Hn; cbn [log2_loop].
  - replace (k - k) with 0 by lia. change (2 ^ 0) with 1. lia.
  - destruct (Z.ltb_spec 1 n) as [H1 | H1].
    + rewrite Z.shiftr_div_pow2 by lia. change (2 ^ 1) with 2.
      assert (Hh : 1 <= n / 2) by (apply Z.div_le_lower_bound; lia).
      specialize (IH (k + 1) (n / 2) Hh).
      pose proof (log2_loop_range f (k + 1) (n / 2)) as Hr.
      set (r := log2_loop f (k + 1) (n / 2)) in *.
      replace (r - k) with (Z.succ (r - (k + 1))) by lia.
      rewrite Z.pow_succ_r by lia.
      pose proof (Z.div_mod n 2 ltac:(lia)).
      pose proof (Z.mod_pos_bound n 2 ltac:(lia)). lia.
    + replace (k - k) with 0 by lia. change (2 ^ 0) with 1. lia.
Qed.

(** X5. [log2] is the integer logarithm, rounded down, of every [uint64]
    from 1 on: [2 ^ log2 n <= n < 2 ^ (log2 n + 1)].  It answers 0 for 0
    as it does for 1. *)
Theorem log2_floor (n : Z) :
  (1 <= n < 2 ^ 64 -> 2 ^ log2 n <= n < 2 ^ (log2 n + 1))
  /\ (n <= 1 -> log2 n = 0).
Proof.
  split.
  - intros Hn. split.
    + pose proof (log2_loop_lower 64 0 n ltac:(lia)) as H.
      unfold log2. replace (log2_loop 64 0 n - 0) with (log2_loop 64 0 n) in H by lia.
      exact H.
    + apply log2_upper. lia.
  - intros Hn. unfold log2. cbn [log2_loop].
    destruct (Z.ltb_spec 1 n); [lia | reflexivity].
Qed.

Lemma ROUNDUP_u64_spec (n sz : Z) :
  1 <= n -> 0 < sz -> n + sz <= 2 ^ 64 ->
  n <= ROUNDUP_u64 n sz < n + sz /\ ROUNDUP_u64 n sz mod sz = 0.
Proof.
  intros Hn Hsz Hr. unfold ROUNDUP_u64.
  rewrite (to_uint64_id (n - 1)) by lia.
  rewrite Z.quot_div_nonneg by lia.
  pose proof (Z.div_mod (n - 1) sz ltac:(lia)) as Hdm.
  pose proof (Z.mod_pos_bound (n - 1) sz ltac:(lia)) as Hm.
  rewrite to_uint64_id by nia.
  split; [nia |]. apply Z.mod_mul. lia.
Qed.

Lemma ROUNDUP_u64_zero (sz : Z) :
  0 < sz -> (sz | 2 ^ 64) -> ROUNDUP_u64 0 sz = 0.
Proof.
  intros Hsz [c Hc]. unfold ROUNDUP_u64.
  assert (Hm1 : to_uint64 (0 - 1) = 2 ^ 64 - 1) by reflexivity.
  rewrite Hm1. rewrite Z.quot_div_nonneg by lia.
  assert (Hc1 : 1 <= c) by nia.
  assert (Hq : (2 ^ 64 - 1) / sz = c - 1).
  { symmetry. apply Z.div_unique with (r := sz - 1); [lia | nia]. }
  rewrite Hq. replace ((c - 1 + 1) * sz) with (2 ^ 64) by lia.
  reflexivity.
Qed.

(** X6. [ROUNDUP(n, sz)] is the least multiple of [sz] that is at least
    [n], for [n >= 1], as long as the result fits the type of the
    operands: below 2^31 for the [int] operands of [bd_init]'s vector
    sizes and of [bd_mark_unavailable], up to 2^64 for the [uint64]
    addresses of [bd_init].  For [n = 0] the two differ: over [int] the
    quotient [(0 - 1) / sz] is 0 and the macro gives [sz], which is why
    [bd_mark_unavailable] rounds its byte count only when it is positive;
    over [uint64] the subtraction wraps and the macro gives 0. *)
Theorem ROUNDUP_least_multiple (n sz : Z) :
  0 < sz ->
  (1 <= n -> n + sz < 2 ^ 31 ->
   (sz | ROUNDUP n sz) /\ n <= ROUNDUP n sz
   /\ forall m, (sz | m) -> n <= m -> ROUNDUP n sz <= m)
  /\ (1 < sz < 2 ^ 31 -> ROUNDUP 0 sz = sz)
  /\ (1 <= n -> n + sz <= 2 ^ 64 ->
      (sz | ROUNDUP_u64 n sz) /\ n <= ROUNDUP_u64 n sz
      /\ forall m, (sz | m) -> n <= m -> ROUNDUP_u64 n sz <= m)
  /\ ((sz | 2 ^ 64) -> ROUNDUP_u64 0 sz = 0).
Proof.
  intros Hsz.
  assert (Hleast : forall R, n <= R < n + sz -> R mod sz = 0 ->
            (sz | R) /\ n <= R /\ forall m, (sz | m) -> n <= m -> R <= m).
  { intros R (Hlo & Hhi) Hmod.
    apply Z.mod_divide in Hmod; [| lia].
    split; [exact Hmod |]. split; [exact Hlo |].
    intros m [c Hc] Hm. destruct Hmod as [d Hd].
    rewrite Hd in *. subst m.
    assert (d - 1 < c) by nia. nia. }
  split; [| split; [| split]].
  - intros Hn Hr. destruct (ROUNDUP_spec n sz Hn Hsz Hr) as (H1 & H2).
    apply Hleast; assumption.
  - intros H1. rewrite ROUNDUP_eq by lia.
    assert (Hq : Z.quot (0 - 1) sz = 0).
    { apply Z.quot_small_iff; lia. }
    rewrite Hq. lia.
  - intros Hn Hr. destruct (ROUNDUP_u64_spec n sz Hn Hsz Hr) as (H1 & H2).
    apply Hleast; assumption.
  - intros Hd. apply ROUNDUP_u64_zero; assumption.
Qed.

Lemma ROUNDUP_least_multiple_witness :
  ((16 | ROUNDUP 20 16) /\ 20 <= ROUNDUP 20 16
   /\ forall m, (16 | m) -> 20 <= m -> ROUNDUP 20 16 <= m)
  /\ ROUNDUP 0 16 = 16
  /\ ((16 | ROUNDUP_u64 (2 ^ 63 + 20) 16)
      /\ 2 ^ 63 + 20 <= ROUNDUP_u64 (2 ^ 63 + 20) 16
      /\ forall m, (16 | m) -> 2 ^ 63 + 20 <= m ->
           ROUNDUP_u64 (2 ^ 63 + 20) 16 <= m)
  /\ ROUNDUP_u64 0 16 = 0.
Proof.
  destruct (ROUNDUP_least_multiple 20 16 ltac:(lia)) as (H1 & H2 & _).
  destruct (ROUNDUP_least_multiple (2 ^ 63 + 20) 16 ltac:(lia))
    as (_ & _ & H3 & H4).
  split; [apply H1; lia |]. split; [apply H2; lia |].
  split; [apply H3; lia |].
  apply H4. exists (2 ^ 60). reflexivity.
Defined.

(** ** Block indices and addresses *)





(** ** size, bd_free and bd_malloc in any state *)

(** X9. [size] answers the least class whose parent is marked split:
    whenever the split bit of the class-[k + 1] block around [p] is set
    for some class [k] below the last one, [size] returns, having read no
    entry past the table, and answers the least such class. *)
Theorem size_least_split_class (s : state) (p k : Z) :
  0 <= k < nsizes s - 1 -> parent_split s k p = true ->
  exists k0,
    size s p = Some k0 /\ 0 <= k0 <= k
    /\ parent_split s k0 p = true
    /\ forall j, 0 <= j < k0 -> parent_split s j p = false.
Proof.
  intros Hk Hset. unfold size.
  pose proof (size_loop_spec (S (Z.to_nat (nsizes s))) s 0 p) as H.
  destruct (size_loop (S (Z.to_nat (nsizes s))) s 0 p) as [r |].
  - destruct H as [(H1 & H2 & H3) | H]; [lia | | lia].
    exists r. split; [reflexivity |]. split.
    + split; [lia |].
      destruct (Z.le_gt_cases r k) as [Hle | Hgt]; [exact Hle |].
      rewrite H3 in Hset by lia. discriminate.
    + split; [exact H2 | exact H3].
  - destruct H as (_ & H); [lia |]. rewrite H in Hset by lia. discriminate.
Qed.

Lemma size_least_split_class_witness :
  exists k0,
    size (after_malloc ex_state 32) 4416 = Some k0 /\ 0 <= k0 <= 1
    /\ parent_split (after_malloc ex_state 32) k0 4416 = true
    /\ forall j, 0 <= j < k0 ->
         parent_split (after_malloc ex_state 32) j 4416 = false.
Proof.
  apply (size_least_split_class (after_malloc ex_state 32) 4416 1).
  - vm_compute. split; [discriminate | reflexivity].
  - vm_compute. reflexivity.
Defined.

(** X10. [bd_free] never merges.  Whatever the state, a call that returns
    has set one pair bit and pushed [p] on the free list of the class that
    [size] answered: no block has left a free list, no split bit has been
    cleared, and the free lists have grown by exactly the bytes of that
    one block. *)
Theorem bd_free_pushes_without_merging (s s' : state) (p : Z) :
  0 < nsizes s -> bd_free s p = Some s' ->
  exists k0,
    size s p = Some k0 /\ 0 <= k0 < nsizes s - 1
    /\ same_layout s s'
    /\ mem s' = bit_set (mem s) (alloc (bd_sizes s k0))
                        (Z.quot (blk_index s k0 p) 2)
    /\ (forall j, frees s' j = if j =? k0 then p :: frees s j else frees s j)
    /\ (forall x, count_free s' x = count_free s x + inb k0 p x)
    /\ free_bytes s' = free_bytes s + BLK_SIZE k0.
Proof.
  intros Hn Hf.
  destruct (size s p) as [k0 |] eqn:Hsz;
    [| unfold bd_free in Hf; rewrite Hsz in Hf; discriminate].
  destruct (size_some_inv s p k0 Hn Hsz) as (Hk0 & _).
  rewrite (bd_free_spec s p k0 Hsz) in Hf.
  destruct (Z.ltb_spec k0 (MAXSIZE s)) as [_ | Hge];
    [| unfold MAXSIZE in Hge; lia].
  injection Hf as <-.
  set (m' := bit_set (mem s) (alloc (bd_sizes s k0))
                     (Z.quot (blk_index s k0 p) 2)).
  exists k0. split; [reflexivity |]. split; [exact Hk0 |].
  split.
  { eapply same_layout_trans;
      [apply same_layout_set_mem | apply same_layout_lst_push]. }
  split; [reflexivity |].
  assert (Hfr : forall j, frees (lst_push (set_mem s m') k0 p) j
                          = if j =? k0 then p :: frees s j else frees s j).
  { intros j. rewrite frees_lst_push, !frees_set_mem.
    destruct (Z.eqb_spec j k0) as [-> | _]; reflexivity. }
  split; [exact Hfr |]. split.
  - intros x. rewrite count_free_push by (cbn [set_mem nsizes]; lia).
    rewrite (count_free_ext s (set_mem s m')); [reflexivity | reflexivity |].
    intros j. apply frees_set_mem.
  - rewrite free_bytes_push by (cbn [set_mem nsizes]; lia).
    rewrite (free_bytes_ext s (set_mem s m')); [reflexivity | reflexivity |].
    intros j. apply frees_set_mem.
Qed.

(* a call of bd_free that returns leaves [after_free] *)
Lemma bd_free_after (s : state) (p : Z) :
  match bd_free s p with Some _ => true | None => false end = true ->
  bd_free s p = Some (after_free s p).
Proof.
  unfold after_free. destruct (bd_free s p); [reflexivity | discriminate].
Qed.

Lemma bd_free_pushes_without_merging_witness :
  exists k0,
    size (after_malloc ex_state 32) 4416 = Some k0
    /\ 0 <= k0 < nsizes (after_malloc ex_state 32) - 1
    /\ same_layout (after_malloc ex_state 32)
                   (after_free (after_malloc ex_state 32) 4416)
    /\ mem (after_free (after_malloc ex_state 32) 4416)
       = bit_set (mem (after_malloc ex_state 32))
                 (alloc (bd_sizes (after_malloc ex_state 32) k0))
                 (Z.quot (blk_index (after_malloc ex_state 32) k0 4416) 2)
    /\ (forall j, frees (after_free (after_malloc ex_state 32) 4416) j
                  = if j =? k0 then 4416 :: frees (after_malloc ex_state 32) j
                    else frees (after_malloc ex_state 32) j)
    /\ (forall x, count_free (after_free (after_malloc ex_state 32) 4416) x
                  = count_free (after_malloc ex_state 32) x + inb k0 4416 x)
    /\ free_bytes (after_free (after_malloc ex_state 32) 4416)
       = free_bytes (after_malloc ex_state 32) + BLK_SIZE k0.
Proof.
  apply (bd_free_pushes_without_merging (after_malloc ex_state 32)
           (after_free (after_malloc ex_state 32) 4416) 4416).
  - vm_compute. reflexivity.
  - apply bd_free_after. vm_compute. reflexivity.
Defined.

(** X11. What a call of [bd_mark] that returns has done to the free
    lists: it has pushed at most one block per class, none at the two
    largest classes, and the count it returns is the number of bytes it
    pushed, which stays below half of the heap.  Vector addresses, base and
    number of sizes are untouched. *)
Theorem bd_mark_pushes (s s' : state) (start stop fr : Z) (is_left : bool) :
  bd_mark s start stop is_left = Some (s', fr) ->
  1 <= nsizes s <= 27 ->
  same_layout s s'
  /\ (forall j, frees s' j = frees s j
        \/ (0 <= j < nsizes s - 2 /\ exists a, frees s' j = a :: frees s j))
  /\ fr = free_bytes s' - free_bytes s
  /\ 0 <= fr
  /\ (nsizes s <= 2 -> fr = 0)
  /\ (2 < nsizes s -> fr <= BLK_SIZE (nsizes s - 2) - 16).
Proof.
  intros Hm Hn. apply bd_mark_some in Hm. destruct Hm as (_ & _ & Hloop).
  pose proof (mark_loop_spec start stop is_left (Z.to_nat (nsizes s)) s 0 0) as Hs.
  cbv zeta in Hs. rewrite Hloop in Hs. cbn [fst] in Hs.
  destruct Hs as (HL & Hfr).
  pose proof (mark_loop_account start stop is_left (Z.to_nat (nsizes s)) s 0 0
                ltac:(lia) ltac:(lia)) as Ha.
  cbv zeta in Ha. rewrite Hloop in Ha. cbn [fst snd] in Ha.
  destruct Ha as (A1 & A2 & A3 & A4).
  { intros _. change (BLK_SIZE 0) with 16. lia. }
  split; [exact HL |]. split.
  - intros j. rewrite Hfr.
    destruct ((0 <=? j) && (j <? 0 + Z.of_nat (Z.to_nat (nsizes s)))
              && (j <? nsizes s)) eqn:Hc; [| left; reflexivity].
    destruct (mark_push s j start stop is_left) as [a |] eqn:Hp;
      [| left; reflexivity].
    right. apply mark_push_class in Hp.
    apply andb_prop in Hc. destruct Hc as (Hc & _).
    apply andb_prop in Hc. destruct Hc as (Hc & _).
    apply Z.leb_le in Hc. split; [lia |]. exists a. reflexivity.
  - split; [lia |]. split; [lia |]. split.
    + intros H2. apply A3. lia.
    + intros H2. apply A4. lia.
Qed.

Lemma bd_mark_pushes_witness :
  exists s' fr,
    bd_mark ex_state 4096 4400 true = Some (s', fr)
    /\ same_layout ex_state s'
    /\ (forall j, frees s' j = frees ex_state j
          \/ (0 <= j < nsizes ex_state - 2
              /\ exists a, frees s' j = a :: frees ex_state j))
    /\ fr = free_bytes s' - free_bytes ex_state
    /\ 0 <= fr
    /\ (nsizes ex_state <= 2 -> fr = 0)
    /\ (2 < nsizes ex_state -> fr <= BLK_SIZE (nsizes ex_state - 2) - 16).
Proof.
  destruct ex_state_shape as (Hn & _).
  destruct (bd_mark ex_state 4096 4400 true) as [[s' fr] |] eqn:Hm.
  - exists s', fr. split; [reflexivity |].
    apply (bd_mark_pushes ex_state s' 4096 4400 fr true Hm).
    rewrite Hn. lia.
  - exfalso. unfold bd_mark in Hm. discriminate Hm.
Defined.

(** X12. What [bd_malloc] takes is what it hands out: when a call returns
    a block, that block was the head of the first non-empty free list at
    or above the class of the request, each class below that holds one new
    block, the upper half of what was split there, and over every byte the
    free lists have lost exactly the bytes of the block handed out. *)
Theorem bd_malloc_takes_its_block (s : state) (n : Z) (r : malloc_ret) :
  bd_malloc_run s n = Some r -> ret_ptr r <> 0 ->
  (exists k rest,
      0 <= ret_class r <= k /\ k < nsizes s
      /\ frees s k = ret_ptr r :: rest
      /\ frees (ret_state r) k = rest
      /\ forall j, ret_class r <= j < k ->
           frees s j = []
           /\ frees (ret_state r) j = [ret_ptr r + BLK_SIZE j])
  /\ forall x, count_free (ret_state r) x + inb (ret_class r) (ret_ptr r) x
               = count_free s x.
Proof.
  intros Hrun Hp.
  destruct (firstk n) as [fk |] eqn:Hfk;
    [| unfold bd_malloc_run in Hrun; rewrite Hfk in Hrun; discriminate].
  pose proof (firstk_sound n fk Hfk) as (Hfk0 & _).
  destruct (bd_malloc_run_cases s n fk Hfk)
    as [(k & _ & _ & Hr)
       | (k & p & rest & s' & Hk & Hempty & Hpop & Hr & Hns & Hbs & Hfr)];
    rewrite Hr in Hrun; injection Hrun as <-;
    cbn [ret_ptr ret_class ret_state] in *; [congruence |].
  split.
  - exists k, rest. split; [lia |]. split; [lia |]. split; [exact Hpop |].
    split.
    + rewrite Hfr. rewrite Z.eqb_refl. reflexivity.
    + intros j Hj. split; [apply Hempty; exact Hj |].
      rewrite Hfr. destruct (Z.eqb_spec j k) as [-> | _]; [lia |].
      destruct (Z.leb_spec fk j), (Z.ltb_spec j k); cbn [andb]; try lia.
      rewrite Hempty by lia. reflexivity.
  - intros x. unfold count_free. rewrite Hns.
    rewrite (count_free_below_malloc s s' k fk p rest) by (try lia; assumption).
    rewrite Z2Nat.id by lia.
    destruct (Z.leb_spec (nsizes s) fk), (Z.leb_spec (nsizes s) k); lia.
Qed.

(* an allocating call, named by the address it hands out *)
Lemma bd_malloc_run_after (s : state) (n p : Z) :
  match bd_malloc_run s n with Some r => Some (ret_ptr r) | None => None end
  = Some p ->
  exists r, bd_malloc_run s n = Some r /\ ret_ptr r = p.
Proof.
  destruct (bd_malloc_run s n) as [r |]; [| discriminate].
  intros H. injection H as <-. exists r. auto.
Qed.

Lemma bd_malloc_takes_its_block_witness :
  exists r,
    bd_malloc_run ex_state 32 = Some r /\ ret_ptr r = 4416
    /\ (exists k rest,
          0 <= ret_class r <= k /\ k < nsizes ex_state
          /\ frees ex_state k = ret_ptr r :: rest
          /\ frees (ret_state r) k = rest
          /\ forall j, ret_class r <= j < k ->
               frees ex_state j = []
               /\ frees (ret_state r) j = [ret_ptr r + BLK_SIZE j])
    /\ forall x, count_free (ret_state r) x + inb (ret_class r) (ret_ptr r) x
                 = count_free ex_state x.
Proof.
  destruct (bd_malloc_run_after ex_state 32 4416) as (r & Hr & Hp).
  { vm_compute. reflexivity. }
  exists r. split; [exact Hr |]. split; [exact Hp |].
  apply (bd_malloc_takes_its_block ex_state 32 r Hr).
  rewrite Hp. discriminate.
Defined.

(** ** bd_init: what the free lists hold when it completes *)

Lemma bd_init_run_lists (m0 : Z -> Z) (base end_ : Z) s ml mr :
  bd_init_run m0 base end_ = Some (s, ml, mr) ->
  0 <= base < 2 ^ 62 -> bd_base s <= end_ < 2 ^ 63 -> HEAP_SIZE s < 2 ^ 31 ->
  (forall j, 0 <= j < nsizes s ->
     frees s j =
     match right_push (bd_base s) (HEAP_SIZE s - meta mr) (nsizes s) j with
     | Some a => [a]
     | None => []
     end ++
     match left_push (bd_base s) (meta ml) (nsizes s) j with
     | Some a => [a]
     | None => []
     end)
  /\ left_end (meta ml) (nsizes s)
     = right_start (HEAP_SIZE s - meta mr) (nsizes s)
  /\ (forall x, count_free s x
                = ind (bd_base s + meta ml)
                      (bd_base s + (HEAP_SIZE s - meta mr)) x)
  /\ 1 <= nsizes s <= 27
  /\ 32 * nsizes s <= meta ml <= HEAP_SIZE s - meta mr
  /\ 0 <= meta mr
  /\ meta ml mod 16 = 0 /\ meta mr mod 16 = 0.
Proof.
  intros Hrun Hbase Hend Hheap.
  destruct (bd_init_inv _ _ _ _ _ _ Hrun Hbase Hend Hheap) as (_ & Hle).
  destruct (bd_init_run_marks _ _ _ _ _ _ Hrun Hbase Hend Hheap)
    as (s2 & s3 & HL23 & HL34 & Hn & Hb0 & Hempty & _ & HP & HPm & HM
        & HMm & _ & _ & HL & HR & Hfb & _).
  pose proof (HEAP_SIZE_mod16 s ltac:(lia)) as HHm.
  assert (HEm : (HEAP_SIZE s - meta mr) mod 16 = 0).
  { apply Z.mod_divide; [lia |].
    apply Z.divide_sub_r; apply Z.mod_divide; (lia || assumption). }
  destruct (marks_lists s2 s3 s (meta ml) (HEAP_SIZE s - meta mr)
              (mfree ml) (mfree mr) HL23 HL34 Hn Hb0 Hheap
              Hempty HP HPm ltac:(lia) HEm HL HR ltac:(lia))
    as (Hf3 & Hf4 & Hmid & Hcov).
  split.
  { intros j Hj. rewrite Hf4, Hf3 by exact Hj. rewrite Hempty.
    destruct (right_push _ _ _ j), (left_push _ _ _ j); reflexivity. }
  split; [exact Hmid |]. split; [exact Hcov |]. split; [exact Hn |].
  split; [lia |]. split; [lia |]. split; assumption.
Qed.

(** X13. The free lists of a completed [bd_init] cover the usable memory
    exactly: every byte from the end of the metadata up to the unavailable
    tail lies in exactly one free block, no other byte lies in any; no
    class holds more than two free blocks and the two largest classes hold
    none. *)
Theorem bd_init_free_lists_cover (m0 : Z -> Z) (base end_ : Z) s ml mr :
  bd_init_run m0 base end_ = Some (s, ml, mr) ->
  0 <= base < 2 ^ 62 -> bd_base s <= end_ < 2 ^ 63 -> HEAP_SIZE s < 2 ^ 31 ->
  (forall x, count_free s x
             = if (bd_base s + meta ml <=? x)
                  && (x <? bd_base s + HEAP_SIZE s - meta mr)
               then 1 else 0)
  /\ (forall j, 0 <= j < nsizes s ->
        (length (frees s j) <= 2)%nat
        /\ (nsizes s - 2 <= j -> frees s j = [])).
Proof.
  intros Hrun Hbase Hend Hheap.
  destruct (bd_init_run_lists _ _ _ _ _ _ Hrun Hbase Hend Hheap)
    as (Hf & _ & Hcov & Hn & _).
  split.
  { intros x. rewrite Hcov. unfold ind.
    replace (bd_base s + HEAP_SIZE s - meta mr)
      with (bd_base s + (HEAP_SIZE s - meta mr)) by lia.
    reflexivity. }
  intros j Hj. rewrite Hf by exact Hj. split.
  - destruct (right_push _ _ _ j), (left_push _ _ _ j); cbn; lia.
  - intros Hj2. unfold right_push, left_push.
    destruct (Z.ltb_spec j (nsizes s - 2)); [lia |]. reflexivity.
Qed.

Lemma bd_init_free_lists_cover_witness :
  exists ml mr,
    bd_init_run (fun _ => 0) 4096 5136 = Some (ex_state, ml, mr)
    /\ (forall x, count_free ex_state x
                  = if (bd_base ex_state + meta ml <=? x)
                       && (x <? bd_base ex_state + HEAP_SIZE ex_state - meta mr)
                    then 1 else 0)
    /\ (forall j, 0 <= j < nsizes ex_state ->
          (length (frees ex_state j) <= 2)%nat
          /\ (nsizes ex_state - 2 <= j -> frees ex_state j = [])).
Proof.
  destruct ex_state_run as (ml & mr & Hrun & _).
  destruct ex_state_shape as (_ & Hb & Hh).
  exists ml, mr. split; [exact Hrun |].
  apply (bd_init_free_lists_cover (fun _ => 0) 4096 5136 ex_state ml mr Hrun).
  - lia.
  - rewrite Hb. lia.
  - rewrite Hh. lia.
Defined.

(** ** bd_init: the two reservations in terms of the region *)

Lemma bd_init_run_metas (m0 : Z -> Z) (base end_ : Z) s ml mr :
  bd_init_run m0 base end_ = Some (s, ml, mr) ->
  0 <= base < 2 ^ 62 -> bd_base s <= end_ < 2 ^ 63 -> HEAP_SIZE s < 2 ^ 31 ->
  exists s2 p4,
    bd_init_layout m0 base end_ = (s2, p4)
    /\ same_layout s2 s
    /\ meta ml = p4 - bd_base s
    /\ end_ - bd_base s <= HEAP_SIZE s
    /\ meta mr = (if 0 <? HEAP_SIZE s - (end_ - bd_base s)
                  then ROUNDUP (HEAP_SIZE s - (end_ - bd_base s)) LEAF_SIZE
                  else 0).
Proof.
  intros Hrun Hbase Hend Hheap.
  destruct (bd_init_run_inv _ _ _ _ _ _ Hrun)
    as (s2 & p4 & s3 & Hlay & HL & Hml & HR & Hmr & _).
  apply bd_mark_some in HL. destruct HL as (_ & _ & HL).
  apply bd_mark_some in HR. destruct HR as (_ & _ & HR).
  pose proof (mark_loop_spec (bd_base s2) p4 true (Z.to_nat (nsizes s2)) s2 0 0)
    as HsL. cbv zeta in HsL. rewrite HL in HsL. cbn [fst] in HsL.
  destruct HsL as (HL23 & _).
  match type of HR with mark_loop ?f s3 0 ?a ?b false 0 = _ =>
    pose proof (mark_loop_spec a b false f s3 0 0) as HsR
  end.
  cbv zeta in HsR. rewrite HR in HsR. cbn [fst] in HsR.
  destruct HsR as (HL34 & _).
  assert (HL24 : same_layout s2 s) by (eapply same_layout_trans; eassumption).
  assert (E2 : nsizes s2 = nsizes s) by (destruct HL24 as (A & _); congruence).
  assert (B2 : bd_base s2 = bd_base s)
    by (destruct HL24 as (_ & A & _); congruence).
  assert (B3 : bd_base s3 = bd_base s)
    by (destruct HL34 as (_ & B & _); congruence).
  pose proof (bd_init_layout_shape m0 base end_) as Hsh. cbv zeta in Hsh.
  rewrite Hlay in Hsh. cbn [fst] in Hsh. destruct Hsh as (Hn1 & _ & _).
  assert (Hn27 : nsizes s <= 27)
    by (apply nsizes_bound_of_heap; [lia | exact Hheap]).
  destruct (bd_init_layout_facts m0 base end_ s2 p4 Hlay Hbase)
    as (Hb & _ & _ & HP & _ & Hsz & _); [rewrite B2; lia | lia |].
  rewrite (HEAP_SIZE_layout s s2) in Hsz by (apply same_layout_sym; exact HL24).
  rewrite B2 in *.
  fold (HEAP_SIZE s3) in Hmr.
  rewrite <- (HEAP_SIZE_layout s3 s HL34), B3 in Hmr.
  pose proof (HEAP_SIZE_bound s ltac:(lia)) as HH.
  rewrite to_int_id in Hml by lia.
  exists s2, p4. split; [exact Hlay |]. split; [exact HL24 |].
  split; [exact Hml |]. split; [exact Hsz |].
  cbv zeta in Hmr.
  rewrite (to_int_id (HEAP_SIZE s - (end_ - bd_base s))) in Hmr by lia.
  destruct (Z.ltb_spec 0 (HEAP_SIZE s - (end_ - bd_base s))) as [Hpos | Hz].
  - destruct (ROUNDUP_spec (HEAP_SIZE s - (end_ - bd_base s)) LEAF_SIZE
                ltac:(lia) ltac:(unfold LEAF_SIZE; lia)
                ltac:(unfold LEAF_SIZE; lia)) as (Hr & _).
    unfold LEAF_SIZE in *. rewrite to_int_id in Hmr by lia. exact Hmr.
  - lia.
Qed.

(* the check that ends bd_init holds only when the metadata and the tail
   lie on the two sides of the middle of the heap *)
Lemma bd_init_run_middle (m0 : Z -> Z) (base end_ : Z) s ml mr :
  bd_init_run m0 base end_ = Some (s, ml, mr) ->
  0 <= base < 2 ^ 62 -> bd_base s <= end_ < 2 ^ 63 -> HEAP_SIZE s < 2 ^ 31 ->
  2 <= nsizes s
  /\ HEAP_SIZE s = 2 * BLK_SIZE (nsizes s - 2)
  /\ ((meta ml <= BLK_SIZE (nsizes s - 2) <= HEAP_SIZE s - meta mr
       /\ 0 < meta mr)
      \/ (BLK_SIZE (nsizes s - 2) < meta ml /\ meta mr = 0)).
Proof.
  intros Hrun Hbase Hend Hheap.
  destruct (bd_init_run_lists _ _ _ _ _ _ Hrun Hbase Hend Hheap)
    as (_ & Hmid & _ & Hn & HP & HM & _).
  assert (Hn2 : 2 <= nsizes s).
  { destruct (Z.eq_dec (nsizes s) 1) as [H1 | H1]; [| lia].
    exfalso. unfold HEAP_SIZE, MAXSIZE in HP. rewrite H1 in HP.
    change (BLK_SIZE (1 - 1)) with 16 in HP. lia. }
  assert (HH : HEAP_SIZE s = 2 * BLK_SIZE (nsizes s - 2)).
  { unfold HEAP_SIZE, MAXSIZE.
    replace (nsizes s - 1) with (nsizes s - 2 + 1) by lia.
    apply BLK_SIZE_succ. lia. }
  split; [exact Hn2 |]. split; [exact HH |].
  unfold left_end, right_start in Hmid.
  rewrite Z.max_r in Hmid by lia.
  set (Q := BLK_SIZE (nsizes s - 2)) in *.
  pose proof (BLK_SIZE_pos (nsizes s - 2) ltac:(lia)) as HQ. fold Q in HQ.
  pose proof (ceil_idx_spec (meta ml) (nsizes s - 2) ltac:(lia)) as Hc.
  pose proof (floor_idx_spec (HEAP_SIZE s - meta mr) (nsizes s - 2) ltac:(lia))
    as Hf.
  fold Q in Hc, Hf.
  set (c := ceil_idx (meta ml) (nsizes s - 2)) in *.
  set (f := floor_idx (HEAP_SIZE s - meta mr) (nsizes s - 2)) in *.
  assert (Hcf : c = f) by (apply Z.mul_reg_r with (p := Q); lia).
  assert (Hc1 : 1 <= c) by nia.
  assert (Hc2 : c <= 2) by nia.
  assert (Hc12 : c = 1 \/ c = 2) by lia.
  destruct Hc12 as [H1 | H2].
  - left. rewrite <- Hcf, H1 in Hf. rewrite H1 in Hc. lia.
  - right. rewrite <- Hcf, H2 in Hf. rewrite H2 in Hc. lia.
Qed.

(** X14. [bd_init] completes only when the metadata ends in the lower half
    of the heap and a non-empty tail starts in the upper half, or when the
    metadata reaches into the upper half and there is no tail.  ([bd_mark]
    pushes nothing at the two largest classes, so in every other layout
    the bytes it counted fall short of the check that ends [bd_init].) *)
Theorem bd_init_completes_around_the_middle (m0 : Z -> Z) (base end_ : Z)
    s ml mr :
  bd_init_run m0 base end_ = Some (s, ml, mr) ->
  0 <= base < 2 ^ 62 -> bd_base s <= end_ < 2 ^ 63 -> HEAP_SIZE s < 2 ^ 31 ->
  (2 * meta ml <= HEAP_SIZE s <= 2 * (HEAP_SIZE s - meta mr) /\ 0 < meta mr)
  \/ (HEAP_SIZE s < 2 * meta ml /\ meta mr = 0).
Proof.
  intros Hrun Hbase Hend Hheap.
  destruct (bd_init_run_middle _ _ _ _ _ _ Hrun Hbase Hend Hheap)
    as (_ & HH & [H | H]); [left | right]; lia.
Qed.

Lemma bd_init_completes_around_the_middle_witness :
  exists ml mr,
    bd_init_run (fun _ => 0) 4096 5136 = Some (ex_state, ml, mr)
    /\ ((2 * meta ml <= HEAP_SIZE ex_state
           <= 2 * (HEAP_SIZE ex_state - meta mr) /\ 0 < meta mr)
        \/ (HEAP_SIZE ex_state < 2 * meta ml /\ meta mr = 0)).
Proof.
  destruct ex_state_run as (ml & mr & Hrun & _).
  destruct ex_state_shape as (_ & Hb & Hh).
  exists ml, mr. split; [exact Hrun |].
  apply (bd_init_completes_around_the_middle (fun _ => 0) 4096 5136
           ex_state ml mr Hrun).
  - lia.
  - rewrite Hb. lia.
  - rewrite Hh. lia.
Defined.

(** X15. [bd_init] panics on every region that fills its heap, that is
    whose length from the aligned base is 16 times a power of two, unless
    the metadata takes more than half of it: with no tail to mark, nothing
    is pushed above the metadata's own half and the final check fails.
    ([s2] is the table and [p4] the end of the metadata that the first
    half of [bd_init] lays out.) *)
Theorem bd_init_panics_on_power_of_two_region (m0 : Z -> Z) (base end_ : Z)
    (s2 : state) (p4 : Z) :
  bd_init_layout m0 base end_ = (s2, p4) ->
  0 <= base < 2 ^ 62 -> end_ < 2 ^ 63 -> HEAP_SIZE s2 < 2 ^ 31 ->
  end_ - bd_base s2 = HEAP_SIZE s2 ->
  2 * (p4 - bd_base s2) <= HEAP_SIZE s2 ->
  bd_init m0 base end_ = None.
Proof.
  intros Hlay Hbase Hend Hheap Hfull Hhalf. unfold bd_init.
  destruct (bd_init_run m0 base end_) as [[[s ml] mr] |] eqn:Hrun;
    [| reflexivity].
  exfalso.
  pose proof (bd_init_run_inv _ _ _ _ _ _ Hrun)
    as (s2' & p4' & s3 & Hlay' & HL & _ & HR & _).
  rewrite Hlay in Hlay'. injection Hlay' as <- <-.
  assert (HL24 : same_layout s2 s).
  { apply bd_mark_some in HL. destruct HL as (_ & _ & HL).
    apply bd_mark_some in HR. destruct HR as (_ & _ & HR).
    pose proof (mark_loop_spec (bd_base s2) p4 true (Z.to_nat (nsizes s2)) s2 0 0)
      as HsL. cbv zeta in HsL. rewrite HL in HsL. cbn [fst] in HsL.
    match type of HR with mark_loop ?f s3 0 ?a ?b false 0 = _ =>
      pose proof (mark_loop_spec a b false f s3 0 0) as HsR
    end.
    cbv zeta in HsR. rewrite HR in HsR. cbn [fst] in HsR.
    eapply same_layout_trans; [apply HsL | apply HsR]. }
  pose proof (HEAP_SIZE_layout s2 s HL24) as HH.
  assert (HB : bd_base s = bd_base s2) by (destruct HL24 as (_ & A & _); exact A).
  pose proof (BLK_SIZE_nonneg (MAXSIZE s2)) as Hnn. fold (HEAP_SIZE s2) in Hnn.
  assert (Hend' : bd_base s <= end_ < 2 ^ 63) by lia.
  assert (Hheap' : HEAP_SIZE s < 2 ^ 31) by lia.
  destruct (bd_init_run_metas _ _ _ _ _ _ Hrun Hbase Hend' Hheap')
    as (s2' & p4' & Hlay' & _ & Hml & _ & Hmr).
  rewrite Hlay in Hlay'. injection Hlay' as <- <-.
  destruct (Z.ltb_spec 0 (HEAP_SIZE s - (end_ - bd_base s))) as [Hlt | _];
    [lia |].
  destruct (bd_init_run_middle m0 base end_ s ml mr Hrun Hbase Hend' Hheap')
    as (_ & HQ & [Hc | Hc]); lia.
Qed.

Lemma bd_init_panics_on_power_of_two_region_witness :
  bd_init (fun _ => 0) 4096 5120 = None.
Proof.
  assert (H : (let r := bd_init_layout (fun _ => 0) 4096 5120 in
               (bd_base (fst r), HEAP_SIZE (fst r), snd r))
              = (4096, 1024, 4352)) by (vm_compute; reflexivity).
  destruct (bd_init_layout (fun _ => 0) 4096 5120) as [s2 p4] eqn:Hlay.
  cbn [fst snd] in H. injection H as Hb Hh Hp.
  apply (bd_init_panics_on_power_of_two_region (fun _ => 0) 4096 5120 s2 p4 Hlay).
  - lia.
  - lia.
  - rewrite Hh. lia.
  - rewrite Hb, Hh. lia.
  - rewrite Hb, Hh, Hp. lia.
Defined.

(** X16. The unavailable tail starts at [end] rounded down to a multiple
    of 16 bytes from [bd_base]: fewer than 16 bytes below [end] are given
    up, nothing at or above [end] is left to hand out, and the tail is
    empty exactly when the region fills the heap. *)
Theorem unavailable_tail_starts_below_end (m0 : Z -> Z) (base end_ : Z)
    s ml mr :
  bd_init_run m0 base end_ = Some (s, ml, mr) ->
  0 <= base < 2 ^ 62 -> bd_base s <= end_ < 2 ^ 63 -> HEAP_SIZE s < 2 ^ 31 ->
  HEAP_SIZE s - meta mr = 16 * ((end_ - bd_base s) / 16)
  /\ end_ - 16 < bd_base s + HEAP_SIZE s - meta mr <= end_
  /\ (meta mr = 0 <-> end_ - bd_base s = HEAP_SIZE s).
Proof.
  intros Hrun Hbase Hend Hheap.
  destruct (bd_init_run_metas _ _ _ _ _ _ Hrun Hbase Hend Hheap)
    as (s2 & p4 & _ & _ & _ & Hsz & Hmr).
  destruct (bd_init_run_lists _ _ _ _ _ _ Hrun Hbase Hend Hheap)
    as (_ & _ & _ & Hn & _).
  pose proof (HEAP_SIZE_mod16 s ltac:(lia)) as HHm.
  pose proof (HEAP_SIZE_bound s ltac:(lia)) as HH.
  apply Z.mod_divide in HHm; [| lia]. destruct HHm as [h Hh].
  set (r := end_ - bd_base s) in *.
  pose proof (Z.div_mod r 16 ltac:(lia)) as Dr.
  pose proof (Z.mod_pos_bound r 16 ltac:(lia)) as Mr.
  assert (Hkey : HEAP_SIZE s - meta mr = 16 * (r / 16)).
  { destruct (Z.ltb_spec 0 (HEAP_SIZE s - r)) as [Hpos | Hz].
    - rewrite ROUNDUP_eq in Hmr by (unfold LEAF_SIZE; lia).
      unfold LEAF_SIZE in Hmr.
      rewrite Z.quot_div_nonneg in Hmr by lia.
      pose proof (Z.div_mod (HEAP_SIZE s - r - 1) 16 ltac:(lia)) as Dt.
      pose proof (Z.mod_pos_bound (HEAP_SIZE s - r - 1) 16 ltac:(lia)) as Mt.
      lia.
    - assert (r = HEAP_SIZE s) by lia. lia. }
  split; [exact Hkey |]. split; [lia |].
  split; intros H.
  - destruct (Z.ltb_spec 0 (HEAP_SIZE s - r)) as [Hpos | Hz]; [| lia].
    exfalso.
    destruct (ROUNDUP_spec (HEAP_SIZE s - r) LEAF_SIZE ltac:(lia)
                ltac:(unfold LEAF_SIZE; lia)
                ltac:(unfold LEAF_SIZE; lia)) as (Hr & _). lia.
  - destruct (Z.ltb_spec 0 (HEAP_SIZE s - r)) as [Hpos | Hz]; lia.
Qed.

Lemma unavailable_tail_starts_below_end_witness :
  exists ml mr,
    bd_init_run (fun _ => 0) 4096 5136 = Some (ex_state, ml, mr)
    /\ HEAP_SIZE ex_state - meta mr = 16 * ((5136 - bd_base ex_state) / 16)
    /\ 5136 - 16 < bd_base ex_state + HEAP_SIZE ex_state - meta mr <= 5136
    /\ (meta mr = 0 <-> 5136 - bd_base ex_state = HEAP_SIZE ex_state).
Proof.
  destruct ex_state_run as (ml & mr & Hrun & _).
  destruct ex_state_shape as (_ & Hb & Hh).
  exists ml, mr. split; [exact Hrun |].
  apply (unavailable_tail_starts_below_end (fun _ => 0) 4096 5136
           ex_state ml mr Hrun).
  - lia.
  - rewrite Hb. lia.
  - rewrite Hh. lia.
Defined.

(** ** bd_init: the number of sizes *)

Lemma bd_init_layout_nsizes (m0 : Z -> Z) (base end_ : Z) :
  let p := ROUNDUP_u64 base LEAF_SIZE in
  let ns0 := to_int (log2 (to_uint64 (Z.quot (end_ - p) LEAF_SIZE)) + 1) in
  nsizes (fst (bd_init_layout m0 base end_))
  = (if BLK_SIZE (ns0 - 1) <? end_ - p then to_int (ns0 + 1) else ns0)
  /\ bd_base (fst (bd_init_layout m0 base end_)) = p.
Proof.
  cbv zeta. unfold bd_init_layout.
  set (p := ROUNDUP_u64 base LEAF_SIZE).
  set (ns0 := to_int (log2 (to_uint64 (Z.quot (end_ - p) LEAF_SIZE)) + 1)).
  set (ns := if BLK_SIZE (ns0 - 1) <? end_ - p then to_int (ns0 + 1) else ns0).
  match goal with |- context [init_alloc ?f ?s0 0 ?q] =>
    pose proof (init_alloc_shape f s0 0 q) as HA; cbv zeta in HA;
    destruct (init_alloc f s0 0 q) as [s1 p2]
  end.
  match goal with |- context [init_split ?f s1 1 p2] =>
    pose proof (init_split_shape f s1 1 p2) as HS; cbv zeta in HS;
    destruct (init_split f s1 1 p2) as [s2 p3]
  end.
  cbn [fst snd nsizes bd_base] in *.
  destruct HA as (A1 & A2 & _), HS as (S1 & S2 & _).
  split; congruence.
Qed.

(** X17. The heap that [bd_init] lays out is the least block size that
    covers the region: with [bd_base] the base rounded up to 16 bytes and
    a region of at least 16 bytes from there, [HEAP_SIZE] is 16 times a
    power of two, at least the length of the region and less than twice
    that length. *)
Theorem bd_init_heap_is_least_cover (m0 : Z -> Z) (base end_ : Z) :
  0 <= base < 2 ^ 62 ->
  16 <= end_ - ROUNDUP_u64 base LEAF_SIZE < 2 ^ 62 ->
  let s := fst (bd_init_layout m0 base end_) in
  base <= bd_base s < base + 16 /\ bd_base s mod 16 = 0
  /\ 1 <= nsizes s <= 60
  /\ HEAP_SIZE s = 16 * 2 ^ (nsizes s - 1)
  /\ end_ - bd_base s <= HEAP_SIZE s < 2 * (end_ - bd_base s).
Proof.
  intros Hbase Hr. cbv zeta.
  pose proof (bd_init_layout_nsizes m0 base end_) as Hns. cbv zeta in Hns.
  destruct Hns as (Hns & Hb). rewrite Hb.
  destruct (ROUNDUP_u64_leaf base ltac:(lia)) as (Hp & Hpm).
  set (p := ROUNDUP_u64 base LEAF_SIZE) in *.
  set (r := end_ - p) in *.
  unfold LEAF_SIZE in Hns.
  rewrite Z.quot_div_nonneg in Hns by lia.
  pose proof (Z.div_mod r 16 ltac:(lia)) as Dr.
  pose proof (Z.mod_pos_bound r 16 ltac:(lia)) as Mr.
  set (x := r / 16) in *.
  assert (Hx : 1 <= x < 2 ^ 58) by lia.
  rewrite (to_uint64_id x) in Hns by lia.
  pose proof (log2_loop_lower 64 0 x ltac:(lia)) as Hlo.
  pose proof (log2_upper x ltac:(lia)) as Hhi.
  pose proof (log2_range x) as Hrg.
  fold (log2 x) in Hlo. replace (log2 x - 0) with (log2 x) in Hlo by lia.
  set (j := log2 x) in *.
  assert (Hj : j <= 57).
  { destruct (Z.le_gt_cases j 57) as [H | H]; [exact H |].
    assert (2 ^ 58 <= 2 ^ j) by (apply Z.pow_le_mono_r; lia). lia. }
  rewrite (to_int_id (j + 1)) in Hns by lia.
  replace (j + 1 - 1) with j in Hns by lia.
  rewrite BLK_SIZE_eq in Hns by lia.
  assert (Hpj : 2 ^ (j + 1) = 2 * 2 ^ j).
  { rewrite Z.pow_add_r by lia. lia. }
  unfold HEAP_SIZE, MAXSIZE.
  split; [lia |]. split; [exact Hpm |].
  destruct (Z.ltb_spec (16 * 2 ^ j) r) as [Hlt | Hge].
  - rewrite to_int_id in Hns by lia. rewrite Hns.
    replace (j + 1 + 1 - 1) with (j + 1) by lia.
    rewrite BLK_SIZE_eq by lia. rewrite Hpj.
    split; [lia |]. split; [reflexivity |]. lia.
  - rewrite Hns. replace (j + 1 - 1) with j by lia.
    rewrite BLK_SIZE_eq by lia.
    split; [lia |]. split; [reflexivity |]. lia.
Qed.

Lemma bd_init_heap_is_least_cover_witness :
  let s := fst (bd_init_layout (fun _ => 0) 4096 5136) in
  4096 <= bd_base s < 4096 + 16 /\ bd_base s mod 16 = 0
  /\ 1 <= nsizes s <= 60
  /\ HEAP_SIZE s = 16 * 2 ^ (nsizes s - 1)
  /\ 5136 - bd_base s <= HEAP_SIZE s < 2 * (5136 - bd_base s).
Proof.
  apply (bd_init_heap_is_least_cover (fun _ => 0) 4096 5136).
  - lia.
  - change (ROUNDUP_u64 4096 LEAF_SIZE) with 4096. lia.
Defined.

(** ** bd_init: the pair vectors of the largest classes have no bytes *)

Lemma alloc_bytes_top (s : state) (k : Z) :
  nsizes s - 4 <= k < nsizes s -> alloc_bytes s k = 0.
Proof.
  intros Hk. unfold alloc_bytes, NBLK, MAXSIZE.
  assert (He : nsizes s - 1 - k = 0 \/ nsizes s - 1 - k = 1
               \/ nsizes s - 1 - k = 2 \/ nsizes s - 1 - k = 3) by lia.
  destruct He as [-> | [-> | [-> | ->]]]; reflexivity.
Qed.

Lemma init_alloc_top (fuel : nat) : forall s k p,
  (forall j, k <= j < nsizes s -> alloc_bytes s j = 0) ->
  let r := init_alloc fuel s k p in
  snd r = p
  /\ (forall j, j < k -> alloc (bd_sizes (fst r) j) = alloc (bd_sizes s j)).
Proof.
  induction fuel as [| f IH]; intros s k p Hz; cbn [init_alloc].
  - cbn [fst snd]. auto.
  - destruct (Z.ltb_spec k (nsizes s)) as [Hk | Hk]; [| cbn [fst snd]; auto].
    match goal with |- context [init_alloc f ?s3 (k + 1) ?q] =>
      specialize (IH s3 (k + 1) q)
    end.
    cbv zeta in IH. destruct IH as (I1 & I2).
    { intros j Hj. cbn [set_mem set_alloc set_free nsizes] in Hj.
      rewrite <- (Hz j) by lia. reflexivity. }
    assert (Hsz : alloc_bytes (set_free s k []) k = 0)
      by (rewrite <- (Hz k) by lia; reflexivity).
    split.
    + rewrite I1, Hsz. lia.
    + intros j Hj. rewrite I2 by lia.
      cbn [set_mem bd_sizes]. rewrite alloc_set_alloc, alloc_set_free.
      destruct (Z.eqb_spec j k); [lia | reflexivity].
Qed.

Lemma init_alloc_tail (fuel : nat) : forall s k p,
  nsizes s <= k + Z.of_nat fuel ->
  forall j, k <= j < nsizes s -> nsizes s - 4 <= j ->
    alloc (bd_sizes (fst (init_alloc fuel s k p)) j) = snd (init_alloc fuel s k p).
Proof.
  induction fuel as [| f IH]; intros s k p Hf j Hj Hj4; cbn [init_alloc].
  - cbn [Z.of_nat] in Hf. lia.
  - destruct (Z.ltb_spec k (nsizes s)) as [Hk | Hk]; [| lia].
    set (s3 := set_mem _ _).
    set (sz := alloc_bytes (set_free s k []) k).
    destruct (Z.eq_dec j k) as [-> | Hne].
    + pose proof (init_alloc_top f s3 (k + 1) (p + sz)) as HT.
      cbv zeta in HT. destruct HT as (T1 & T2).
      { intros i Hi. unfold s3 in Hi. cbn [set_mem set_alloc set_free nsizes] in Hi.
        rewrite <- (alloc_bytes_top s i) by lia. reflexivity. }
      rewrite T1, T2 by lia.
      assert (Hsz : sz = 0).
      { unfold sz. rewrite <- (alloc_bytes_top s k) by lia. reflexivity. }
      unfold s3. cbn [set_mem bd_sizes]. rewrite alloc_set_alloc, Z.eqb_refl. lia.
    + apply IH.
      * unfold s3. cbn [set_mem set_alloc set_free nsizes].
        rewrite Nat2Z.inj_succ in Hf. lia.
      * unfold s3. cbn [set_mem set_alloc set_free nsizes]. lia.
      * unfold s3. cbn [set_mem set_alloc set_free nsizes]. lia.
Qed.

Lemma bd_init_layout_alias (m0 : Z -> Z) (base end_ : Z) s2 p4 :
  bd_init_layout m0 base end_ = (s2, p4) ->
  2 <= nsizes s2 <= 27 ->
  forall k, 0 <= k -> nsizes s2 - 4 <= k < nsizes s2 ->
    alloc (bd_sizes s2 k) = split (bd_sizes s2 1).
Proof.
  intros Hlay Hn k Hk0 Hk.
  pose proof (bd_init_layout_nsizes m0 base end_) as Hns. cbv zeta in Hns.
  destruct Hns as (Hns & _). rewrite Hlay in Hns. cbn [fst] in Hns.
  revert Hlay. unfold bd_init_layout.
  set (p := ROUNDUP_u64 base LEAF_SIZE) in *.
  set (ns0 := to_int (log2 (to_uint64 (Z.quot (end_ - p) LEAF_SIZE)) + 1)) in *.
  set (ns := if BLK_SIZE (ns0 - 1) <? end_ - p then to_int (ns0 + 1) else ns0) in *.
  set (s0 := mkState ns p (fun _ => mkSz [] 0 0)
                     (memset m0 p 0 (sizeof_Sz_info * ns))).
  set (p1 := p + sizeof_Sz_info * ns).
  pose proof (init_alloc_tail (Z.to_nat ns) s0 0 p1) as HT.
  pose proof (init_alloc_shape (Z.to_nat ns) s0 0 p1) as HA. cbv zeta in HA.
  destruct (init_alloc (Z.to_nat ns) s0 0 p1) as [s1 p2].
  cbn [fst snd] in HT, HA. destruct HA as (A1 & _).
  change (nsizes s0) with ns in HT, A1.
  assert (Hfuel : Z.to_nat ns = S (Z.to_nat (ns - 1))).
  { rewrite <- Z2Nat.inj_succ by lia. f_equal. lia. }
  rewrite Hfuel. cbn [init_split].
  destruct (Z.ltb_spec 1 (nsizes s1)) as [_ | H1]; [| lia].
  set (s1' := set_mem _ _).
  match goal with |- context [init_split ?f s1' (1 + 1) ?q] =>
    pose proof (init_split_ptrs f s1' (1 + 1) q ltac:(lia)) as HS
  end.
  cbv zeta in HS.
  match type of HS with _ -> _ /\ _ => idtac end.
  destruct HS as (_ & S2 & S3 & _).
  { unfold s1'. cbn [set_mem set_split nsizes]. lia. }
  match goal with |- context [init_split ?f s1' (1 + 1) ?q] =>
    destruct (init_split f s1' (1 + 1) q) as [s2' p3]
  end.
  cbn [fst] in S2, S3.
  intros H. injection H as <- _.
  rewrite S2, S3 by lia. unfold s1'. cbn [set_mem bd_sizes].
  rewrite alloc_set_split, split_set_split, Z.eqb_refl.
  apply HT; lia.
Qed.

(** X18. In the table that a completed [bd_init] leaves, the pair
    ([alloc]) vector of each of the four largest classes starts at the
    address of the split vector of class 1: [ROUNDUP(NBLK(k), 8) / 16] is
    0 for a class of at most 8 blocks, so these vectors have no bytes of
    their own and their bits are the first bits of that split vector. *)
Theorem alloc_vectors_of_top_classes_alias (m0 : Z -> Z) (base end_ : Z)
    s ml mr :
  bd_init_run m0 base end_ = Some (s, ml, mr) ->
  0 <= base < 2 ^ 62 -> bd_base s <= end_ < 2 ^ 63 -> HEAP_SIZE s < 2 ^ 31 ->
  4 <= nsizes s
  /\ forall k, nsizes s - 4 <= k < nsizes s ->
       alloc (bd_sizes s k) = split (bd_sizes s 1)
       /\ forall m i, bit_isset m (alloc (bd_sizes s k)) i
                      = bit_isset m (split (bd_sizes s 1)) i.
Proof.
  intros Hrun Hbase Hend Hheap.
  destruct (bd_init_run_metas _ _ _ _ _ _ Hrun Hbase Hend Hheap)
    as (s2 & p4 & Hlay & HL24 & _).
  destruct (bd_init_run_middle _ _ _ _ _ _ Hrun Hbase Hend Hheap)
    as (Hn2 & HH & _).
  destruct (bd_init_run_lists _ _ _ _ _ _ Hrun Hbase Hend Hheap)
    as (_ & _ & _ & Hn & HP & HM & _).
  assert (Hn4 : 4 <= nsizes s).
  { assert (Hc : nsizes s = 2 \/ nsizes s = 3 \/ 4 <= nsizes s) by lia.
    unfold HEAP_SIZE, MAXSIZE in HP.
    destruct Hc as [Hc | [Hc | Hc]]; [| | exact Hc]; exfalso; rewrite Hc in HP.
    - change (BLK_SIZE (2 - 1)) with 32 in HP. lia.
    - change (BLK_SIZE (3 - 1)) with 64 in HP. lia. }
  split; [exact Hn4 |].
  intros k Hk.
  assert (Heq : alloc (bd_sizes s k) = split (bd_sizes s 1)).
  { destruct HL24 as (E2 & _ & HP2).
    destruct (HP2 k) as (-> & _). destruct (HP2 1) as (_ & ->).
    apply (bd_init_layout_alias m0 base end_ s2 p4 Hlay); lia. }
  split; [exact Heq |]. intros m i. rewrite Heq. reflexivity.
Qed.

Lemma alloc_vectors_of_top_classes_alias_witness :
  exists ml mr,
    bd_init_run (fun _ => 0) 4096 5136 = Some (ex_state, ml, mr)
    /\ 4 <= nsizes ex_state
    /\ forall k, nsizes ex_state - 4 <= k < nsizes ex_state ->
         alloc (bd_sizes ex_state k) = split (bd_sizes ex_state 1)
         /\ forall m i, bit_isset m (alloc (bd_sizes ex_state k)) i
                        = bit_isset m (split (bd_sizes ex_state 1)) i.
Proof.
  destruct ex_state_run as (ml & mr & Hrun & _).
  destruct ex_state_shape as (_ & Hb & Hh).
  exists ml, mr. split; [exact Hrun |].
  apply (alloc_vectors_of_top_classes_alias (fun _ => 0) 4096 5136
           ex_state ml mr Hrun).
  - lia.
  - rewrite Hb. lia.
  - rewrite Hh. lia.
Defined.

(** ** Along a run: the two largest classes stay empty *)

Lemma top_empty_step s lo hi live s' live' :
  Inv s lo hi live -> step (s, live) (s', live') ->
  (forall j, nsizes s - 2 <= j < nsizes s -> frees s j = []) ->
  (forall p c, In (p, c) live -> c < nsizes s - 2) ->
  (forall j, nsizes s - 2 <= j < nsizes s -> frees s' j = [])
  /\ (forall p c, In (p, c) live' -> c < nsizes s - 2).
Proof.
  intros HI Hstep Hfr Hlv.
  pose proof (inv_n _ _ _ _ HI) as Hn.
  assert (Hmal : forall n r, bd_malloc_run s n = Some r ->
            (forall j, nsizes s - 2 <= j < nsizes s -> frees (ret_state r) j = [])
            /\ (ret_ptr r <> 0 -> ret_class r < nsizes s - 2)).
  { intros n r Hrun.
    destruct (firstk n) as [fk |] eqn:Hfk;
      [| unfold bd_malloc_run in Hrun; rewrite Hfk in Hrun; discriminate].
    destruct (bd_malloc_run_cases s n fk Hfk)
      as [(k & _ & _ & Hr)
         | (k & p & rest & s2 & Hk & Hempty & Hpop & Hr & Hns & Hbs & Hf2)];
      rewrite Hr in Hrun; injection Hrun as <-;
      cbn [ret_ptr ret_class ret_state].
    - split; [exact Hfr | congruence].
    - assert (Hk2 : k < nsizes s - 2).
      { destruct (Z.lt_ge_cases k (nsizes s - 2)) as [H | H]; [exact H |].
        rewrite Hfr in Hpop by lia. discriminate. }
      split; [| lia].
      intros j Hj. rewrite Hf2.
      destruct (Z.eqb_spec j k); [lia |].
      destruct (Z.leb_spec fk j), (Z.ltb_spec j k); cbn [andb]; try lia;
        apply Hfr; exact Hj. }
  inversion Hstep as [s1 l1 n r Hrun Hp E1 E2 | s1 l1 n r Hrun Hp E1 E2
                     | s1 l1 p c s2 Hin Hf E1 E2]; subst.
  - destruct (Hmal n r Hrun) as (H1 & H2). split; [exact H1 |].
    intros p c [Heq | Hin];
      [injection Heq as <- <-; apply H2; exact Hp | eapply Hlv; exact Hin].
  - destruct (Hmal n r Hrun) as (H1 & _). split; [exact H1 | exact Hlv].
  - destruct (inv_blk _ _ _ _ HI c p (or_intror Hin)) as (Hc & _ & Hps).
    destruct (size_live s p c ltac:(lia) Hps) as (k0 & Hsz & Hk0 & _).
    rewrite (bd_free_spec s p k0 Hsz) in Hf. injection Hf as <-.
    pose proof Hlv as Hlv0. specialize (Hlv p c Hin). split.
    + intros j Hj. rewrite frees_lst_push.
      destruct (Z.eqb_spec j k0); [lia |].
      destruct (k0 <? MAXSIZE s); [rewrite frees_set_mem |]; apply Hfr; exact Hj.
    + intros q d Hq. apply remove_one_in in Hq. eapply Hlv0; exact Hq.
Qed.

Lemma top_empty_reachable s0 lo hi s live :
  Inv s0 lo hi [] ->
  (forall j, nsizes s0 - 2 <= j < nsizes s0 -> frees s0 j = []) ->
  reachable s0 s live ->
  (forall j, nsizes s0 - 2 <= j < nsizes s0 -> frees s j = [])
  /\ (forall p c, In (p, c) live -> c < nsizes s0 - 2).
Proof.
  intros HI0 H0 Hr. induction Hr as [| s live s' live' Hr IH Hstep].
  - split; [exact H0 |]. intros p c [].
  - destruct IH as (I1 & I2).
    destruct (reachable_base _ _ _ Hr) as (En & _).
    pose proof (inv_reachable _ _ _ _ _ HI0 Hr) as HI.
    rewrite <- En in I1, I2 |- *.
    eapply top_empty_step; eassumption.
Qed.

Lemma ex_reach2 :
  reachable ex_state (after_malloc (after_malloc ex_state 32) 32)
            [(4448, 1); (4416, 1)].
Proof.
  apply (reach_step ex_state (after_malloc ex_state 32) [(4416, 1)]).
  - apply (reach_step ex_state ex_state []); [apply reach_init |].
    apply step_after_malloc; [vm_compute; reflexivity | discriminate].
  - apply step_after_malloc; [vm_compute; reflexivity | discriminate].
Qed.

(** X19. No block of the two largest classes is ever free or handed out:
    [bd_init] pushes nothing there and [bd_free] never merges, so in every
    state that calls of [bd_malloc] and [bd_free] (of live addresses) lead
    to, the free lists of the classes [nsizes - 2] and [nsizes - 1] are
    empty and every live block is of a smaller class.  A request for more
    than a quarter of the heap is never served: up to 2^63 bytes the call
    returns the null pointer and leaves the state as it found it; above
    that it does not return. *)
Theorem top_classes_stay_empty (m0 : Z -> Z) (base end_ : Z) (s0 s : state)
    (live : list (Z * Z)) :
  bd_init m0 base end_ = Some s0 ->
  0 <= base < 2 ^ 62 -> bd_base s0 <= end_ < 2 ^ 63 ->
  HEAP_SIZE s0 < 2 ^ 31 ->
  reachable s0 s live ->
  HEAP_SIZE s0 = 4 * BLK_SIZE (nsizes s0 - 3)
  /\ (forall j, nsizes s0 - 2 <= j < nsizes s0 -> frees s j = [])
  /\ (forall p c, In (p, c) live -> 0 <= c < nsizes s0 - 2)
  /\ (forall n, BLK_SIZE (nsizes s0 - 3) < n <= 2 ^ 63 ->
        exists r, bd_malloc_run s n = Some r
                  /\ ret_ptr r = 0 /\ ret_state r = s)
  /\ (forall n, 2 ^ 63 < n -> bd_malloc_run s n = None).
Proof.
  intros Hinit Hbase Hend Hheap Hreach.
  destruct (bd_init_some _ _ _ _ Hinit) as (ml & mr & Hrun).
  destruct (bd_init_inv _ _ _ _ _ _ Hrun Hbase Hend Hheap) as (HI0 & _).
  destruct (bd_init_run_lists _ _ _ _ _ _ Hrun Hbase Hend Hheap)
    as (Hf & _ & _ & Hn & HP & HM & _).
  destruct (bd_init_run_middle _ _ _ _ _ _ Hrun Hbase Hend Hheap)
    as (Hn2 & HH & _).
  assert (Hn3 : 3 <= nsizes s0).
  { destruct (Z.eq_dec (nsizes s0) 2) as [Hc | Hc]; [| lia].
    exfalso. unfold HEAP_SIZE, MAXSIZE in HP. rewrite Hc in HP.
    change (BLK_SIZE (2 - 1)) with 32 in HP. lia. }
  assert (H0 : forall j, nsizes s0 - 2 <= j < nsizes s0 -> frees s0 j = []).
  { intros j Hj. rewrite Hf by lia. unfold right_push, left_push.
    destruct (Z.ltb_spec j (nsizes s0 - 2)); [lia | reflexivity]. }
  destruct (top_empty_reachable s0 _ _ s live HI0 H0 Hreach) as (T1 & T2).
  pose proof (inv_reachable _ _ _ _ _ HI0 Hreach) as HI.
  destruct (reachable_base _ _ _ Hreach) as (En & _).
  split.
  { rewrite HH. replace (nsizes s0 - 2) with (nsizes s0 - 3 + 1) by lia.
    rewrite BLK_SIZE_succ by lia. lia. }
  split; [exact T1 |]. split.
  { intros p c Hin. split; [| eauto].
    destruct (inv_blk _ _ _ _ HI c p (or_intror Hin)) as (Hc & _). lia. }
  split.
  - intros n (Hbig & Hle).
    destruct (firstk_returns n Hle) as (fk & Hfk).
    pose proof (firstk_sound n fk Hfk) as (Hfk0 & Hfit & _).
    assert (Hfk2 : nsizes s0 - 2 <= fk).
    { destruct (Z.le_gt_cases (nsizes s0 - 2) fk) as [H | H]; [exact H |].
      assert (BLK_SIZE fk <= BLK_SIZE (nsizes s0 - 3))
        by (apply BLK_SIZE_mono; lia). lia. }
    destruct (bd_malloc_run_cases s n fk Hfk)
      as [(k & _ & _ & Hr)
         | (k & p & rest & s2 & Hk & _ & Hpop & _)].
    + rewrite Hr. eexists. split; [reflexivity |]. split; reflexivity.
    + rewrite T1 in Hpop by lia. discriminate.
  - intros n Hn63. unfold bd_malloc_run, firstk.
    rewrite firstk_diverges by exact Hn63. reflexivity.
Qed.

Lemma top_classes_stay_empty_witness :
  HEAP_SIZE ex_state = 4 * BLK_SIZE (nsizes ex_state - 3)
  /\ (forall j, nsizes ex_state - 2 <= j < nsizes ex_state ->
        frees (after_malloc (after_malloc ex_state 32) 32) j = [])
  /\ (forall p c, In (p, c) [(4448, 1); (4416, 1)] ->
        0 <= c < nsizes ex_state - 2)
  /\ (forall n, BLK_SIZE (nsizes ex_state - 3) < n <= 2 ^ 63 ->
        exists r,
          bd_malloc_run (after_malloc (after_malloc ex_state 32) 32) n = Some r
          /\ ret_ptr r = 0
          /\ ret_state r = after_malloc (after_malloc ex_state 32) 32)
  /\ (forall n, 2 ^ 63 < n ->
        bd_malloc_run (after_malloc (after_malloc ex_state 32) 32) n = None).
Proof.
  destruct ex_state_shape as (_ & Hb & Hh).
  apply (top_classes_stay_empty (fun _ => 0) 4096 5136 ex_state
           (after_malloc (after_malloc ex_state 32) 32)
           [(4448, 1); (4416, 1)]).
  - exact ex_state_init.
  - lia.
  - rewrite Hb. lia.
  - rewrite Hh. lia.
  - exact ex_reach2.
Defined.

(** X20. Every block on a free list and every live block starts at a
    multiple of its own size from [bd_base] and not within the first 128
    bytes of the heap; in particular no free list ever holds the null
    address, so a null result of [bd_malloc] always means that the lists
    were empty. *)
Theorem blocks_are_aligned (m0 : Z -> Z) (base end_ : Z) (s0 s : state)
    (live : list (Z * Z)) :
  bd_init m0 base end_ = Some s0 ->
  0 <= base < 2 ^ 62 -> bd_base s0 <= end_ < 2 ^ 63 ->
  HEAP_SIZE s0 < 2 ^ 31 ->
  reachable s0 s live ->
  (forall p c, In (p, c) live ->
     (p - bd_base s0) mod BLK_SIZE c = 0 /\ 128 <= p - bd_base s0)
  /\ (forall k a, 0 <= k < nsizes s0 -> In a (frees s k) ->
        (a - bd_base s0) mod BLK_SIZE k = 0 /\ 128 <= a - bd_base s0
        /\ a <> 0).
Proof.
  intros Hinit Hbase Hend Hheap Hreach.
  destruct (bd_init_some _ _ _ _ Hinit) as (ml & mr & Hrun).
  destruct (bd_init_inv _ _ _ _ _ _ Hrun Hbase Hend Hheap) as (HI0 & _).
  pose proof (inv_reachable _ _ _ _ _ HI0 Hreach) as HI.
  destruct (reachable_base _ _ _ Hreach) as (En & Eb).
  pose proof (inv_base _ _ _ _ HI) as Hb0.
  rewrite <- En, <- Eb. split.
  - intros p c Hin.
    destruct (inv_blk _ _ _ _ HI c p (or_intror Hin)) as (_ & Hal & _).
    destruct (inv_block_range _ _ _ _ c p HI (or_intror Hin)) as (_ & _ & R & _).
    auto.
  - intros k a Hk Hin.
    destruct (inv_blk _ _ _ _ HI k a (or_introl (conj Hk Hin))) as (_ & Hal & _).
    destruct (inv_block_range _ _ _ _ k a HI (or_introl (conj Hk Hin)))
      as (_ & _ & R & _).
    split; [exact Hal |]. split; [exact R | lia].
Qed.

Lemma blocks_are_aligned_witness :
  (forall p c, In (p, c) [(4448, 1); (4416, 1)] ->
     (p - bd_base ex_state) mod BLK_SIZE c = 0 /\ 128 <= p - bd_base ex_state)
  /\ (forall k a, 0 <= k < nsizes ex_state ->
        In a (frees (after_malloc (after_malloc ex_state 32) 32) k) ->
        (a - bd_base ex_state) mod BLK_SIZE k = 0
        /\ 128 <= a - bd_base ex_state /\ a <> 0).
Proof.
  destruct ex_state_shape as (_ & Hb & Hh).
  apply (blocks_are_aligned (fun _ => 0) 4096 5136 ex_state
           (after_malloc (after_malloc ex_state 32) 32)
           [(4448, 1); (4416, 1)]).
  - exact ex_state_init.
  - lia.
  - rewrite Hb. lia.
  - rewrite Hh. lia.
  - exact ex_reach2.
Defined.

(** ** Requests served from the head of a list *)

(* a request of class k is served from the head of list k when that list is
   not empty *)
Lemma bd_malloc_run_head (s : state) (n k p : Z) (rest : list Z) :
  firstk n = Some k -> k < nsizes s -> frees s k = p :: rest ->
  exists r, bd_malloc_run s n = Some r /\ ret_ptr r = p /\ ret_class r = k
            /\ nsizes (ret_state r) = nsizes s
            /\ frees (ret_state r) k = rest.
Proof.
  intros Hfk Hk Hpop.
  destruct (bd_malloc_run_cases s n k Hfk)
    as [(k' & Hk' & Hempty & Hr)
       | (k' & p' & rest' & s' & Hk' & Hempty & Hpop' & Hr & Hns & _ & Hfr)].
  - pose proof (firstk_sound n k Hfk) as (Hk0 & _).
    rewrite Hempty in Hpop by lia. discriminate.
  - assert (k' = k).
    { destruct (Z.eq_dec k' k) as [E | E]; [exact E |].
      rewrite Hempty in Hpop by lia. discriminate. }
    subst k'. rewrite Hpop in Hpop'. injection Hpop' as <- <-.
    exists (mkRet p s' k). cbn [ret_ptr ret_class ret_state].
    split; [exact Hr |]. split; [reflexivity |]. split; [reflexivity |].
    split; [exact Hns |]. rewrite Hfr, Z.eqb_refl. reflexivity.
Qed.

(** ** bd_print_vector *)

Lemma covers_app (out : list (Z * Z)) (a c i : Z) :
  covers (out ++ [(a, c)]) i = covers out i || ((a <=? i) && (i <? c)).
Proof.
  unfold covers. rewrite existsb_app. cbn [existsb fst snd].
  rewrite orb_false_r. reflexivity.
Qed.

Lemma covers_below (out : list (Z * Z)) (lb i : Z) :
  (forall a c, In (a, c) out -> c <= lb) -> lb <= i -> covers out i = false.
Proof.
  intros H Hi. unfold covers.
  destruct (existsb _ out) eqn:He; [| reflexivity].
  apply existsb_exists in He. destruct He as ([a c] & Hin & Hc).
  cbn [fst snd] in Hc. specialize (H a c Hin). lia.
Qed.

Lemma print_vector_loop_inv (m : Z -> Z) (vector len : Z) (fuel : nat) :
  forall b last lb out,
  len - b <= Z.of_nat fuel -> b <= len ->
  0 <= lb <= b -> (0 < b -> lb < b) -> (last = 0 \/ last = 1) ->
  (forall a c, In (a, c) out -> c <= lb) ->
  (forall i, 0 <= i < lb -> covers out i = bit_isset m vector i) ->
  (forall i, lb <= i < b -> bit_isset m vector i = (last =? 1)) ->
  (last = 0 -> 0 < lb -> exists j, 0 <= j < lb /\ bit_isset m vector j = true) ->
  let '(last', lb', out') := print_vector_loop fuel m vector b len last lb out in
  0 <= lb' <= len /\ (0 < len -> lb' < len) /\ (last' = 0 \/ last' = 1)
  /\ (forall a c, In (a, c) out' -> c <= lb')
  /\ (forall i, 0 <= i < lb' -> covers out' i = bit_isset m vector i)
  /\ (forall i, lb' <= i < len -> bit_isset m vector i = (last' =? 1))
  /\ (last' = 0 -> 0 < lb' ->
      exists j, 0 <= j < lb' /\ bit_isset m vector j = true).
Proof.
  induction fuel as [| f IH]; intros b last lb out Hf Hb Hlb Hlt Hlast Hrg Hcov
    Hbits Hset; cbn [print_vector_loop].
  - cbn [Z.of_nat] in Hf. assert (b = len) by lia. subst b.
    repeat (split; [assumption || lia |]). assumption.
  - destruct (Z.ltb_spec b len) as [Hbl | Hbl].
    2:{ assert (b = len) by lia. subst b.
        repeat (split; [assumption || lia |]). assumption. }
    rewrite Nat2Z.inj_succ in Hf.
    destruct (bit_isset m vector b) eqn:Hbit.
    + (* the bit is set *)
      destruct Hlast as [-> | ->]; cbn [Z.eqb Pos.eqb].
      * (* 0 -> 1: a range starts at b *)
        apply IH; [lia | lia | lia | lia | | | | |].
        -- right. reflexivity.
        -- intros a c Hin. specialize (Hrg a c Hin). lia.
        -- intros i Hi. destruct (Z.lt_ge_cases i lb) as [Hil | Hil].
           ++ apply Hcov. lia.
           ++ rewrite (covers_below out lb i Hrg Hil).
              rewrite Hbits by lia. reflexivity.
        -- intros i Hi. assert (i = b) by lia. subst i. exact Hbit.
        -- intros H. discriminate.
      * (* 1 -> 1 *)
        apply IH; [lia | lia | lia | lia | | | | |].
        -- right. reflexivity.
        -- exact Hrg.
        -- exact Hcov.
        -- intros i Hi. destruct (Z.eq_dec i b) as [-> | Hne];
             [exact Hbit | apply Hbits; lia].
        -- intros H. discriminate.
    + (* the bit is clear *)
      destruct Hlast as [-> | ->]; cbn [Z.eqb Pos.eqb].
      * (* 0 -> 0 *)
        apply IH; [lia | lia | lia | lia | | | | |].
        -- left. reflexivity.
        -- exact Hrg.
        -- exact Hcov.
        -- intros i Hi. destruct (Z.eq_dec i b) as [-> | Hne];
             [exact Hbit | apply Hbits; lia].
        -- exact Hset.
      * (* 1 -> 0: the range [lb, b) is printed *)
        apply IH; [lia | lia | lia | lia | | | | |].
        -- left. reflexivity.
        -- intros a c Hin. apply in_app_or in Hin.
           destruct Hin as [Hin | [Heq | []]].
           ++ specialize (Hrg a c Hin). lia.
           ++ injection Heq as <- <-. lia.
        -- intros i Hi. rewrite covers_app.
           destruct (Z.lt_ge_cases i lb) as [Hil | Hil].
           ++ rewrite Hcov by lia.
              destruct (Z.leb_spec lb i); [lia |]. cbn [andb].
              apply orb_false_r.
           ++ rewrite (covers_below out lb i Hrg Hil).
              destruct (Z.leb_spec lb i), (Z.ltb_spec i b); try lia.
              cbn [andb orb]. rewrite Hbits by lia. reflexivity.
        -- intros i Hi. assert (i = b) by lia. subst i. exact Hbit.
        -- intros _ Hb0. exists lb. split; [lia |].
           rewrite Hbits by lia. reflexivity.
Qed.

(** X22. What [bd_print_vector] prints.  An index below [len] lies in one
    of the printed ranges exactly when its bit is set, or when no bit of
    the vector is set at all: for a vector without a set bit the last line
    of the function prints the whole range [0, len), as it does for a
    vector with every bit set. *)
Theorem bd_print_vector_ranges (m : Z -> Z) (vector len i : Z) :
  0 <= i < len ->
  (covers (bd_print_vector m vector len) i = true
   <-> bit_isset m vector i = true
       \/ forall j, 0 <= j < len -> bit_isset m vector j = false).
Proof.
  intros Hi. unfold bd_print_vector.
  pose proof (print_vector_loop_inv m vector len (Z.to_nat len) 0 1 0 []) as HI.
  destruct (print_vector_loop (Z.to_nat len) m vector 0 len 1 0 [])
    as [[last lb] out].
  destruct HI as (Hlb & Hlt & Hlast & Hrg & Hcov & Hbits & Hset);
    [lia | lia | lia | lia | lia | intros a c [] | intros; lia | intros; lia
    | intros; lia |].
  specialize (Hlt ltac:(lia)).
  destruct (Z.eqb_spec lb 0) as [Hlb0 | Hlb0]; cbn [orb].
  - (* printed [0, len) at the end *)
    subst lb. rewrite covers_app.
    destruct (Z.leb_spec 0 i), (Z.ltb_spec i len); try lia.
    cbn [andb]. rewrite orb_true_r.
    split; [intros _ | reflexivity].
    destruct Hlast as [-> | ->].
    + right. intros j Hj. apply Hbits. lia.
    + left. apply Hbits. lia.
  - destruct Hlast as [-> | ->]; cbn [Z.eqb Pos.eqb].
    + (* the last run is of clear bits and nothing more is printed *)
      destruct (Hset eq_refl ltac:(lia)) as (j0 & Hj0 & Hb0).
      destruct (Z.lt_ge_cases i lb) as [Hil | Hil].
      * rewrite Hcov by lia. split; [auto |].
        intros [Hx | Hx]; [exact Hx |]. rewrite Hx in Hb0 by lia. discriminate.
      * rewrite (covers_below out lb i Hrg Hil).
        split; [discriminate |].
        intros [Hx | Hx].
        -- rewrite Hbits in Hx by lia. discriminate.
        -- rewrite Hx in Hb0 by lia. discriminate.
    + (* the last run is of set bits and is printed *)
      rewrite covers_app.
      assert (Hone : bit_isset m vector lb = true) by (apply Hbits; lia).
      destruct (Z.lt_ge_cases i lb) as [Hil | Hil].
      * rewrite Hcov by lia.
        destruct (Z.leb_spec lb i); [lia |]. cbn [andb]. rewrite orb_false_r.
        split; [auto |].
        intros [Hx | Hx]; [exact Hx |]. rewrite Hx in Hone by lia. discriminate.
      * destruct (Z.leb_spec lb i), (Z.ltb_spec i len); try lia.
        cbn [andb]. rewrite orb_true_r.
        split; [| reflexivity]. intros _. left. apply Hbits. lia.
Qed.

Lemma bd_print_vector_ranges_witness :
  covers (bd_print_vector (fun _ => 0) 100 16) 5 = true
  <-> bit_isset (fun _ => 0) 100 5 = true
      \/ forall j, 0 <= j < 16 -> bit_isset (fun _ => 0) 100 j = false.
Proof. apply bd_print_vector_ranges. lia. Defined.

(** X23. For a vector of positive length without a set bit the function
    prints the empty range [0, 0) and then the whole range [0, len). *)
Theorem bd_print_vector_all_clear (m : Z -> Z) (vector len : Z) :
  0 < len ->
  (forall j, 0 <= j < len -> bit_isset m vector j = false) ->
  bd_print_vector m vector len = [(0, 0); (0, len)].
Proof.
  intros Hlen Hclr. unfold bd_print_vector.
  assert (Hloop : forall fuel b,
            0 < b -> b <= len ->
            print_vector_loop fuel m vector b len 0 0 [(0, 0)]
            = (0, 0, [(0, 0)])).
  { induction fuel as [| f IH]; intros b Hb0 Hb; cbn [print_vector_loop];
      [reflexivity |].
    destruct (Z.ltb_spec b len) as [Hbl | _]; [| reflexivity].
    rewrite Hclr by lia. cbn [Z.eqb Pos.eqb]. apply IH; lia. }
  assert (Hfuel : Z.to_nat len = S (Z.to_nat (len - 1))).
  { rewrite <- Z2Nat.inj_succ by lia. f_equal. lia. }
  rewrite Hfuel. cbn [print_vector_loop].
  destruct (Z.ltb_spec 0 len) as [_ | H]; [| lia].
  rewrite Hclr by lia. cbn [Z.eqb app].
  rewrite Hloop by lia. reflexivity.
Qed.

Lemma bd_print_vector_all_clear_witness :
  bd_print_vector (fun _ => 0) 100 16 = [(0, 0); (0, 16)].
Proof.
  apply bd_print_vector_all_clear; [lia |].
  intros j Hj. rewrite bit_isset_testbit by lia. apply Z.testbit_0_l.
Defined.

(** ** bd_init: where the bit vectors lie *)

Lemma split_bytes_bits (s : state) (k i : Z) :
  0 <= k < nsizes s -> nsizes s <= 27 -> 0 <= i < NBLK s k ->
  i / 8 < split_bytes s k.
Proof.
  intros Hk Hn Hi. unfold split_bytes.
  pose proof (NBLK_range s k Hk Hn) as Hr.
  destruct (ROUNDUP_spec (NBLK s k) 8 ltac:(lia) ltac:(lia) ltac:(lia)) as (HR & Hmod).
  set (R := ROUNDUP (NBLK s k) 8) in *.
  rewrite Z.mul_1_l. rewrite (to_uint64_id R) by lia.
  rewrite Z.quot_div_nonneg by lia.
  apply Z.mod_divide in Hmod; [| lia]. destruct Hmod as [t Ht].
  assert (Hq : R / 8 = t) by (rewrite Ht; apply Z.div_mul; lia).
  rewrite Hq. rewrite to_int_id by lia.
  apply Z.div_lt_upper_bound; lia.
Qed.

Lemma init_split_order (fuel : nat) : forall s k p,
  0 <= k -> nsizes s <= 27 ->
  let r := init_split fuel s k p in
  (forall x, x < p -> mem (fst r) x = mem s x)
  /\ (forall j, k <= j < k + Z.of_nat fuel -> j < nsizes s ->
        split (bd_sizes (fst r) j) + split_bytes s j <= snd r
        /\ (forall t, 0 <= t < split_bytes s j ->
              mem (fst r) (split (bd_sizes (fst r) j) + t) = 0)
        /\ (forall j', j < j' < k + Z.of_nat fuel -> j' < nsizes s ->
              split (bd_sizes (fst r) j) + split_bytes s j
              <= split (bd_sizes (fst r) j'))).
Proof.
  induction fuel as [| f IH]; intros s k p Hk Hn; cbn [init_split].
  - cbn [fst snd]. split; [reflexivity |]. intros; lia.
  - destruct (Z.ltb_spec k (nsizes s)) as [Hlt | Hge].
    2:{ cbn [fst snd]. split; [reflexivity |]. intros; lia. }
    pose proof (split_bytes_spec s k ltac:(lia) Hn) as Hb.
    set (sz := split_bytes s k) in *.
    set (s3 := set_mem (set_split s k p)
                 (memset (mem (set_split s k p))
                    (split (bd_sizes (set_split s k p) k)) 0 sz)).
    pose proof (init_split_ptrs f s3 (k + 1) (p + sz) ltac:(lia) Hn) as HP.
    specialize (IH s3 (k + 1) (p + sz) ltac:(lia) Hn).
    cbv zeta in IH, HP.
    change (nsizes s3) with (nsizes s) in IH, HP.
    destruct IH as (I1 & I2). destruct HP as (P1 & _ & P3 & P4 & _).
    assert (Hst : split (bd_sizes s3 k) = p).
    { unfold s3. cbn [set_mem bd_sizes]. rewrite split_set_split, Z.eqb_refl.
      reflexivity. }
    assert (Hm3 : forall x, mem s3 x = if (p <=? x) && (x <? p + sz) then 0
                                      else mem s x).
    { intros x. unfold s3. cbn [set_mem mem]. unfold memset.
      rewrite split_set_split, Z.eqb_refl. reflexivity. }
    rewrite Nat2Z.inj_succ. split.
    + intros x Hx. rewrite I1 by lia. rewrite Hm3.
      destruct (Z.leb_spec p x); [lia | reflexivity].
    + intros j Hj Hjn. destruct (Z.eq_dec j k) as [-> | Hne].
      * rewrite P3 by lia. rewrite Hst. fold sz.
        split; [lia |]. split.
        -- intros t Ht. rewrite I1 by lia. rewrite Hm3.
           destruct (Z.leb_spec p (p + t)), (Z.ltb_spec (p + t) (p + sz));
             cbn [andb]; lia.
        -- intros j' Hj' Hjn'.
           destruct (P4 j' ltac:(lia) Hjn') as (Hge & _). lia.
      * destruct (I2 j ltac:(lia) Hjn) as (J1 & J2 & J3).
        change (split_bytes s3 j) with (split_bytes s j) in J1, J2, J3.
        split; [exact J1 |]. split; [exact J2 |].
        intros j' Hj' Hjn'. apply J3; lia.
Qed.

Lemma bd_init_layout_ranges (m0 : Z -> Z) (base end_ : Z) s2 p4 :
  bd_init_layout m0 base end_ = (s2, p4) ->
  0 <= base < 2 ^ 62 -> 2 <= nsizes s2 <= 27 ->
  (forall k, 0 <= k < nsizes s2 ->
     bd_base s2 + 32 * nsizes s2 <= alloc (bd_sizes s2 k)
     /\ alloc (bd_sizes s2 k) + alloc_bytes s2 k < p4)
  /\ (forall j, 1 <= j < nsizes s2 ->
        bd_base s2 + 32 * nsizes s2 <= split (bd_sizes s2 j)
        /\ split (bd_sizes s2 j) + split_bytes s2 j <= p4
        /\ (forall t, 0 <= t < split_bytes s2 j ->
              mem s2 (split (bd_sizes s2 j) + t) = 0)
        /\ (forall j', j < j' < nsizes s2 ->
              split (bd_sizes s2 j) + split_bytes s2 j
              <= split (bd_sizes s2 j'))).
Proof.
  intros Hlay Hbase Hn.
  pose proof (bd_init_layout_nsizes m0 base end_) as Hns. cbv zeta in Hns.
  destruct Hns as (Hns & Hb). rewrite Hlay in Hns, Hb. cbn [fst] in Hns, Hb.
  destruct (ROUNDUP_u64_leaf base ltac:(lia)) as (Hp & Hpm).
  revert Hlay. unfold bd_init_layout.
  set (p := ROUNDUP_u64 base LEAF_SIZE) in *.
  set (ns0 := to_int (log2 (to_uint64 (Z.quot (end_ - p) LEAF_SIZE)) + 1)) in *.
  set (ns := if BLK_SIZE (ns0 - 1) <? end_ - p then to_int (ns0 + 1) else ns0) in *.
  set (s0 := mkState ns p (fun _ => mkSz [] 0 0)
                     (memset m0 p 0 (sizeof_Sz_info * ns))).
  set (p1 := p + sizeof_Sz_info * ns).
  pose proof (init_alloc_shape (Z.to_nat ns) s0 0 p1) as HA.
  pose proof (init_alloc_ptrs (Z.to_nat ns) s0 0 p1) as HAp.
  cbv zeta in HA, HAp.
  destruct (init_alloc (Z.to_nat ns) s0 0 p1) as [s1 p2].
  pose proof (init_split_shape (Z.to_nat ns) s1 1 p2) as HS.
  pose proof (init_split_ptrs (Z.to_nat ns) s1 1 p2) as HSp.
  pose proof (init_split_order (Z.to_nat ns) s1 1 p2) as HSo.
  cbv zeta in HS, HSp, HSo.
  destruct (init_split (Z.to_nat ns) s1 1 p2) as [s2' p3].
  intros Heq. injection Heq as <- <-.
  cbn [fst snd] in *.
  destruct HA as (A1 & _). destruct HS as (S1 & _).
  change (nsizes s0) with ns in A1, HAp.
  rewrite A1 in S1, HSp, HSo. rewrite Hns in *.
  destruct HAp as (P1 & _ & P3); [lia | lia |].
  destruct HSp as (Q1 & Q2 & _ & Q4 & Q5); [lia | lia |].
  destruct HSo as (_ & O2); [lia | lia |].
  rewrite Z2Nat.id in P1, P3, Q1, Q4, Q5, O2 by lia.
  specialize (Q5 ltac:(lia) ltac:(lia)).
  unfold sizeof_Sz_info in *. fold ns in Hb.
  destruct (ROUNDUP_u64_leaf p3 ltac:(lia)) as (Hp3 & _).
  assert (Hab : forall k, alloc_bytes s2' k = alloc_bytes s0 k).
  { intros k. unfold alloc_bytes, NBLK, MAXSIZE. rewrite Hns. reflexivity. }
  assert (Hsb : forall k, split_bytes s2' k = split_bytes s1 k).
  { intros k. unfold split_bytes, NBLK, MAXSIZE. rewrite Hns, A1. reflexivity. }
  rewrite Hb. unfold p1 in *. split.
  - intros k Hk. rewrite Q2, Hab.
    destruct (P3 k ltac:(lia) ltac:(lia)) as (R1 & R2). lia.
  - intros j Hj. rewrite Hsb.
    destruct (Q4 j ltac:(lia) ltac:(lia)) as (R1 & _).
    destruct (O2 j ltac:(lia) ltac:(lia)) as (R2 & R3 & R4).
    split; [lia |]. split; [lia |]. split; [exact R3 |].
    intros j' Hj'. apply R4; lia.
Qed.

(** X27. The bits of every block lie in the metadata: in the table that a
    completed [bd_init] leaves, the byte that holds the pair bit of block
    [i] of class [k], and the byte that holds its split bit, lie after the
    [bd_sizes] table and before the end of the range that
    [bd_mark_data_structures] reserved.  (No block that [bd_malloc] hands
    out reaches below that end.) *)
Theorem bit_vectors_inside_metadata (m0 : Z -> Z) (base end_ : Z) s ml mr :
  bd_init_run m0 base end_ = Some (s, ml, mr) ->
  0 <= base < 2 ^ 62 -> bd_base s <= end_ < 2 ^ 63 -> HEAP_SIZE s < 2 ^ 31 ->
  forall k i, 0 <= k < nsizes s -> 0 <= i < NBLK s k ->
    bd_base s + sizeof_Sz_info * nsizes s
      <= alloc (bd_sizes s k) + (i / 2) / 8 < bd_base s + meta ml
    /\ (1 <= k ->
        bd_base s + sizeof_Sz_info * nsizes s
          <= split (bd_sizes s k) + i / 8 < bd_base s + meta ml).
Proof.
  intros Hrun Hbase Hend Hheap k i Hk Hi.
  destruct (bd_init_run_metas _ _ _ _ _ _ Hrun Hbase Hend Hheap)
    as (s2 & p4 & Hlay & HL24 & Hml & _).
  destruct (bd_init_run_middle _ _ _ _ _ _ Hrun Hbase Hend Hheap)
    as (Hn2 & _).
  destruct (bd_init_run_lists _ _ _ _ _ _ Hrun Hbase Hend Hheap)
    as (_ & _ & _ & Hn & _).
  pose proof HL24 as (E2 & B2 & HP2).
  destruct (bd_init_layout_ranges m0 base end_ s2 p4 Hlay Hbase ltac:(lia))
    as (RA & RS).
  rewrite (NBLK_layout s2 s k HL24) in Hi.
  destruct (HP2 k) as (-> & ->). rewrite Hml, E2, B2.
  unfold sizeof_Sz_info.
  destruct (RA k ltac:(lia)) as (A1 & A2).
  destruct (alloc_bytes_spec s2 k ltac:(lia) ltac:(lia)) as (Hab & Hpair).
  specialize (Hpair i Hi).
  assert (H0 : 0 <= i / 2 / 8) by (apply Z.div_pos; [apply Z.div_pos |]; lia).
  assert (H1 : i / 2 / 8 < alloc_bytes s2 k + 1)
    by (apply Z.div_lt_upper_bound; lia).
  split; [lia |].
  intros Hk1. destruct (RS k ltac:(lia)) as (S1 & S2 & _).
  pose proof (split_bytes_bits s2 k i ltac:(lia) ltac:(lia) Hi) as Hsb.
  assert (H2 : 0 <= i / 8) by (apply Z.div_pos; lia).
  lia.
Qed.

Lemma bit_vectors_inside_metadata_witness :
  exists ml mr,
    bd_init_run (fun _ => 0) 4096 5136 = Some (ex_state, ml, mr)
    /\ forall k i, 0 <= k < nsizes ex_state -> 0 <= i < NBLK ex_state k ->
         bd_base ex_state + sizeof_Sz_info * nsizes ex_state
           <= alloc (bd_sizes ex_state k) + (i / 2) / 8
           < bd_base ex_state + meta ml
         /\ (1 <= k ->
             bd_base ex_state + sizeof_Sz_info * nsizes ex_state
               <= split (bd_sizes ex_state k) + i / 8
               < bd_base ex_state + meta ml).
Proof.
  destruct ex_state_run as (ml & mr & Hrun & _).
  destruct ex_state_shape as (_ & Hb & Hh).
  exists ml, mr. split; [exact Hrun |].
  apply (bit_vectors_inside_metadata (fun _ => 0) 4096 5136 ex_state ml mr Hrun).
  - lia.
  - rewrite Hb. lia.
  - rewrite Hh. lia.
Defined.

(** ** Which split bits an update can set *)

Lemma split_only_refl s m S : split_only s m m S.
Proof. intros j i _ _ _ H. left. exact H. Qed.

Lemma split_only_trans s m1 m2 m3 S :
  split_only s m1 m2 S -> split_only s m2 m3 S -> split_only s m1 m3 S.
Proof.
  intros H1 H2 j i Hj Hi H4 Hb.
  destruct (H2 j i Hj Hi H4 Hb) as [Hb2 | HS]; [| right; exact HS].
  apply H1; assumption.
Qed.

Lemma split_only_weaken s m m' (S S' : Z -> Z -> Prop) :
  (forall j i, S j i -> S' j i) -> split_only s m m' S -> split_only s m m' S'.
Proof.
  intros HS H j i Hj Hi H4 Hb.
  destruct (H j i Hj Hi H4 Hb) as [Hb2 | HS2]; [left | right]; auto.
Qed.

Lemma split_only_layout s s' m m' S :
  same_layout s s' -> split_only s m m' S -> split_only s' m m' S.
Proof.
  intros HL H j i Hj Hi H4. pose proof HL as (Hn & _ & HP).
  destruct (HP j) as (_ & ->). rewrite (NBLK_layout s s' j HL) in Hi.
  apply H; [lia | exact Hi | exact H4].
Qed.

Lemma split_disj_layout s s' :
  same_layout s s' -> split_disj s -> split_disj s'.
Proof.
  intros HL H j j' i Hj Hj' Hi. pose proof HL as (Hn & _ & HP).
  destruct (HP j) as (_ & ->). destruct (HP j') as (_ & ->).
  rewrite (NBLK_layout s s' j HL) in Hi. apply H; [lia | lia | exact Hi].
Qed.

(* setting or flipping a pair bit touches no split bit that matters *)
Lemma split_only_alloc_set s B m k i S :
  split_sep s B -> 0 <= k < nsizes s -> 0 <= i < NBLK s k ->
  split_only s m (bit_set m (alloc (bd_sizes s k)) (Z.quot i 2)) S.
Proof.
  intros (Hlow & Hhigh) Hk Hi j i' Hj Hi' H4 Hb. left.
  rewrite Z.quot_div_nonneg in Hb by lia.
  rewrite bit_set_other in Hb; [exact Hb | | lia |].
  - apply Z.div_pos; lia.
  - specialize (Hlow k i Hk Hi). specialize (Hhigh j i' Hj ltac:(lia) H4). lia.
Qed.

Lemma split_only_alloc_flip s B m k i S :
  split_sep s B -> 0 <= k < nsizes s -> 0 <= i < NBLK s k ->
  split_only s m (bit_flip m (alloc (bd_sizes s k)) (Z.quot i 2)) S.
Proof.
  intros (Hlow & Hhigh) Hk Hi j i' Hj Hi' H4 Hb. left.
  rewrite Z.quot_div_nonneg in Hb by lia.
  rewrite bit_flip_other in Hb; [exact Hb | | lia |].
  - apply Z.div_pos; lia.
  - specialize (Hlow k i Hk Hi). specialize (Hhigh j i' Hj ltac:(lia) H4). lia.
Qed.

(* setting the split bit of a block sets no other split bit *)
Lemma split_only_split_set s m k bi (S : Z -> Z -> Prop) :
  split_disj s -> 1 <= k < nsizes s -> 0 <= bi < NBLK s k -> S k bi ->
  split_only s m (bit_set m (split (bd_sizes s k)) bi) S.
Proof.
  intros HD Hk Hbi HS j i Hj Hi H4 Hb.
  destruct (Z.eq_dec j k) as [-> | Hjk].
  - destruct (Z.eq_dec i bi) as [-> | Hne]; [right; exact HS |].
    left. rewrite bit_set_other in Hb; [exact Hb | lia | lia | lia].
  - left. rewrite bit_set_other in Hb; [exact Hb | lia | lia |].
    destruct (Z.lt_ge_cases j k) as [Hlt | Hge].
    + specialize (HD j k i ltac:(lia) ltac:(lia) Hi). lia.
    + specialize (HD k j bi ltac:(lia) ltac:(lia) Hbi). lia.
Qed.

(* an odd index up to NBLK has the pair bit of the block below it *)
Lemma odd_pair (z : Z) :
  0 <= z -> Z.rem z 2 <> 0 -> 0 <= z - 1 /\ Z.quot z 2 = Z.quot (z - 1) 2.
Proof.
  intros Hz Hodd. rewrite Z.rem_mod_nonneg in Hodd by lia.
  pose proof (Z.div_mod z 2 ltac:(lia)) as D.
  pose proof (Z.mod_pos_bound z 2 ltac:(lia)) as M.
  assert (Hz1 : 0 <= z - 1) by lia.
  split; [exact Hz1 |].
  rewrite !Z.quot_div_nonneg by lia.
  apply Z.div_unique with (r := 0); lia.
Qed.

(** ** bd_malloc sets the split bits of the blocks it splits, and no other *)

Lemma split_loop_only (fuel : nat) : forall s k fk p B,
  split_sep s B -> split_disj s -> Z.of_nat fuel = k - fk -> 0 <= fk ->
  k < nsizes s -> nsizes s <= 27 ->
  128 <= p - bd_base s < HEAP_SIZE s ->
  split_only s (mem s) (mem (fst (split_loop fuel s k fk p)))
             (fun j i => fk < j <= k /\ i = blk_index s j p).
Proof.
  induction fuel as [| f IH]; intros s k fk p B HB HD Hf Hfk Hk Hn Hp;
    cbn [split_loop].
  - cbn [fst]. apply split_only_refl.
  - destruct (Z.ltb_spec fk k) as [Hlt | Hge]; [| lia].
    set (s1 := set_mem s (bit_set (mem s) (split (bd_sizes s k)) (blk_index s k p))).
    set (s2 := set_mem s1 (bit_flip (mem s1) (alloc (bd_sizes s1 (k - 1)))
                                    (Z.quot (blk_index s1 (k - 1) p) 2))).
    set (s3 := lst_push s2 (k - 1) (p + BLK_SIZE (k - 1))).
    assert (HL3 : same_layout s s3).
    { eapply same_layout_trans; [apply same_layout_set_mem |].
      eapply same_layout_trans; [apply same_layout_set_mem |].
      apply same_layout_lst_push. }
    pose proof (HEAP_SIZE_bound s ltac:(lia)) as HH.
    pose proof (blk_index_range s k p ltac:(lia) Hn ltac:(lia)) as Hik.
    pose proof (blk_index_range s (k - 1) p ltac:(lia) Hn ltac:(lia)) as Hik1.
    assert (H1 : split_only s (mem s) (mem s1)
                   (fun j i => fk < j <= k /\ i = blk_index s j p)).
    { apply split_only_split_set; [exact HD | lia | exact Hik |].
      split; [lia | reflexivity]. }
    assert (H2 : split_only s (mem s1) (mem s3)
                   (fun j i => fk < j <= k /\ i = blk_index s j p)).
    { apply (split_only_alloc_flip s B); [exact HB | lia | exact Hik1]. }
    specialize (IH s3 (k - 1) fk p B). 
    assert (H3 : split_only s3 (mem s3)
                   (mem (fst (split_loop f s3 (k - 1) fk p)))
                   (fun j i => fk < j <= k - 1 /\ i = blk_index s3 j p)).
    { apply IH.
      - eapply split_sep_layout; eassumption.
      - eapply split_disj_layout; eassumption.
      - lia.
      - exact Hfk.
      - change (nsizes s3) with (nsizes s). lia.
      - exact Hn.
      - exact Hp. }
    eapply split_only_trans; [exact H1 |].
    eapply split_only_trans; [exact H2 |].
    apply (split_only_layout s3 s); [apply same_layout_sym; exact HL3 |].
    eapply split_only_weaken; [| exact H3].
    intros j i (Hj & Hi). rewrite (blk_index_layout s s3) in Hi by exact HL3.
    split; [lia | exact Hi].
Qed.

(** ** bd_mark sets the split bits of the blocks it marks, and no other *)

Lemma mark_blocks_only (fuel : nat) : forall s k bi bj B,
  split_sep s B -> split_disj s -> 0 <= k < nsizes s ->
  0 <= bi -> bj <= NBLK s k ->
  split_only s (mem s) (mem (mark_blocks fuel s k bi bj))
             (fun j i => j = k /\ bi <= i < bj).
Proof.
  induction fuel as [| f IH]; intros s k bi bj B HB HD Hk Hbi Hbj;
    cbn [mark_blocks].
  - apply split_only_refl.
  - destruct (Z.ltb_spec bi bj) as [Hlt | Hge]; [| apply split_only_refl].
    set (s1 := if 0 <? k
               then set_mem s (bit_set (mem s) (split (bd_sizes s k)) bi)
               else s).
    assert (HL1 : same_layout s s1).
    { unfold s1. destruct (0 <? k);
        [apply same_layout_set_mem | apply same_layout_refl]. }
    assert (H1 : split_only s (mem s) (mem s1)
                   (fun j i => j = k /\ bi <= i < bj)).
    { unfold s1. destruct (Z.ltb_spec 0 k); [| apply split_only_refl].
      cbn [mem set_mem].
      apply split_only_split_set; [exact HD | lia | lia |].
      split; [reflexivity | lia]. }
    set (s2 := set_mem s1 (bit_flip (mem s1) (alloc (bd_sizes s1 k))
                                    (Z.quot bi 2))).
    assert (HL2 : same_layout s s2).
    { eapply same_layout_trans; [exact HL1 | apply same_layout_set_mem]. }
    assert (H2 : split_only s (mem s1) (mem s2)
                   (fun j i => j = k /\ bi <= i < bj)).
    { unfold s2. cbn [mem set_mem].
      pose proof HL1 as (_ & _ & HP). destruct (HP k) as (-> & _).
      apply (split_only_alloc_flip s B); [exact HB | exact Hk | lia]. }
    assert (H3 : split_only s2 (mem s2) (mem (mark_blocks f s2 k (bi + 1) bj))
                   (fun j i => j = k /\ bi + 1 <= i < bj)).
    { apply (IH s2 k (bi + 1) bj B).
      - eapply split_sep_layout; eassumption.
      - eapply split_disj_layout; eassumption.
      - destruct HL2 as (-> & _). exact Hk.
      - lia.
      - rewrite (NBLK_layout s s2 k HL2). exact Hbj. }
    eapply split_only_trans; [exact H1 |].
    eapply split_only_trans; [exact H2 |].
    apply (split_only_layout s2 s); [apply same_layout_sym; exact HL2 |].
    eapply split_only_weaken; [| exact H3].
    intros j i (Hj & Hi). split; [exact Hj | lia].
Qed.

Lemma mark_pre_only (s : state) (k start stop : Z) (is_left : bool) B S :
  split_sep s B -> 0 <= k < nsizes s ->
  0 <= blk_index s k start <= NBLK s k ->
  0 <= blk_index_next s k stop <= NBLK s k ->
  split_only s (mem s) (mem (mark_pre s k start stop is_left)) S.
Proof.
  intros HB Hk Hbi Hbj. unfold mark_pre.
  set (bi := blk_index s k start) in *.
  set (bj := blk_index_next s k stop) in *.
  set (s1 := match mark_push s k start stop is_left with
             | Some a => lst_push s k a
             | None => s
             end).
  assert (Hm1 : mem s1 = mem s)
    by (unfold s1; destruct (mark_push s k start stop is_left); reflexivity).
  assert (Ha1 : alloc (bd_sizes s1 k) = alloc (bd_sizes s k)).
  { unfold s1. destruct (mark_push s k start stop is_left); [| reflexivity].
    unfold lst_push. apply alloc_set_free. }
  assert (Hset : forall m z, 0 <= z <= NBLK s k -> Z.rem z 2 <> 0 ->
            split_only s m (bit_set m (alloc (bd_sizes s k)) (Z.quot z 2)) S).
  { intros m z Hz Hodd. destruct (odd_pair z ltac:(lia) Hodd) as (Hz1 & ->).
    apply (split_only_alloc_set s B); [exact HB | exact Hk | lia]. }
  destruct (Z.eqb_spec (Z.rem bi 2) 0) as [Hbi0 | Hbi1]; cbn [negb];
    destruct (Z.eqb_spec (Z.rem bj 2) 0) as [Hbj0 | Hbj1];
    cbn [negb mem set_mem bd_sizes]; rewrite ?Hm1, ?Ha1.
  - apply split_only_refl.
  - apply Hset; assumption.
  - apply Hset; assumption.
  - eapply split_only_trans; [apply (Hset (mem s) bi); assumption |].
    apply Hset; assumption.
Qed.

Lemma mark_class_only (s : state) (k start stop : Z) (is_left : bool)
    (fr B : Z) :
  split_sep s B -> split_disj s -> 0 <= k < nsizes s ->
  0 <= blk_index s k start <= NBLK s k ->
  0 <= blk_index_next s k stop <= NBLK s k ->
  split_only s (mem s) (mem (fst (mark_class s k start stop is_left fr)))
             (fun j i => j = k
                         /\ blk_index s k start <= i < blk_index_next s k stop).
Proof.
  intros HB HD Hk Hbi Hbj. rewrite mark_class_state.
  destruct (mark_pre_mem s k start stop is_left ltac:(lia) ltac:(lia))
    as (HL3 & _).
  pose proof (mark_pre_only s k start stop is_left B
                (fun j i => j = k /\ blk_index s k start <= i
                                     < blk_index_next s k stop)
                HB Hk Hbi Hbj) as H1.
  set (bi := blk_index s k start) in *.
  set (bj := blk_index_next s k stop) in *.
  set (s3 := mark_pre s k start stop is_left) in *.
  pose proof (mark_blocks_only (Z.to_nat (bj - bi)) s3 k bi bj B) as HM.
  eapply split_only_trans; [exact H1 |].
  apply (split_only_layout s3 s); [apply same_layout_sym; exact HL3 |].
  apply HM.
  - eapply split_sep_layout; eassumption.
  - eapply split_disj_layout; eassumption.
  - destruct HL3 as (-> & _). exact Hk.
  - lia.
  - rewrite (NBLK_layout s s3 k HL3). lia.
Qed.

Lemma mark_loop_only (start stop : Z) (is_left : bool) (fuel : nat) :
  forall s k fr B,
  split_sep s B -> split_disj s -> 0 <= k ->
  (forall j, k <= j < nsizes s ->
     0 <= blk_index s j start <= NBLK s j
     /\ 0 <= blk_index_next s j stop <= NBLK s j) ->
  split_only s (mem s)
             (mem (fst (mark_loop fuel s k start stop is_left fr)))
             (fun j i => k <= j
                         /\ blk_index s j start <= i < blk_index_next s j stop).
Proof.
  induction fuel as [| f IH]; intros s k fr B HB HD Hk Hidx; cbn [mark_loop].
  - cbn [fst]. apply split_only_refl.
  - destruct (Z.ltb_spec k (nsizes s)) as [Hlt | Hge];
      [| cbn [fst]; apply split_only_refl].
    destruct (Hidx k ltac:(lia)) as (Hbi & Hbj).
    pose proof (mark_class_only s k start stop is_left fr B HB HD ltac:(lia)
                  Hbi Hbj) as HC.
    pose proof (mark_class_spec s k start stop is_left fr) as HS.
    cbv zeta in HS.
    destruct (mark_class s k start stop is_left fr) as [s1 fr1].
    cbn [fst snd] in HC, HS. destruct HS as (HL1 & _ & _).
    assert (H3 : split_only s1 (mem s1)
                   (mem (fst (mark_loop f s1 (k + 1) start stop is_left fr1)))
                   (fun j i => k + 1 <= j
                               /\ blk_index s1 j start <= i
                                  < blk_index_next s1 j stop)).
    { apply (IH s1 (k + 1) fr1 B).
      - eapply split_sep_layout; eassumption.
      - eapply split_disj_layout; eassumption.
      - lia.
      - intros j Hj. pose proof HL1 as (Hn1 & _). rewrite Hn1 in Hj.
        rewrite (blk_index_layout s s1), (blk_index_next_layout s s1),
                (NBLK_layout s s1) by exact HL1.
        apply Hidx. lia. }
    eapply split_only_trans.
    + eapply split_only_weaken; [| exact HC].
      intros j i (-> & Hi). split; [lia | exact Hi].
    + apply (split_only_layout s1 s); [apply same_layout_sym; exact HL1 |].
      eapply split_only_weaken; [| exact H3].
      intros j i (Hj & Hi).
      rewrite (blk_index_layout s s1), (blk_index_next_layout s s1) in Hi
        by exact HL1.
      split; [lia | exact Hi].
Qed.

(** ** bd_init: the split bits it leaves *)

Lemma layout_split_props (m0 : Z -> Z) (base end_ : Z) s2 p4 :
  bd_init_layout m0 base end_ = (s2, p4) ->
  0 <= base < 2 ^ 62 -> 2 <= nsizes s2 <= 27 ->
  split_disj s2
  /\ forall j i, 1 <= j < nsizes s2 -> 0 <= i < NBLK s2 j ->
       bit_isset (mem s2) (split (bd_sizes s2 j)) i = false.
Proof.
  intros Hlay Hbase Hn.
  destruct (bd_init_layout_ranges m0 base end_ s2 p4 Hlay Hbase Hn)
    as (_ & RS).
  split.
  - intros j j' i Hj Hj' Hi.
    destruct (RS j ltac:(lia)) as (_ & _ & _ & Hord).
    specialize (Hord j' ltac:(lia)).
    pose proof (split_bytes_bits s2 j i ltac:(lia) ltac:(lia) Hi) as Hb.
    pose proof (Z.div_mod i 8 ltac:(lia)) as D.
    pose proof (Z.mod_pos_bound i 8 ltac:(lia)) as M. lia.
  - intros j i Hj Hi.
    destruct (RS j Hj) as (_ & _ & Hz & _).
    pose proof (split_bytes_bits s2 j i ltac:(lia) ltac:(lia) Hi) as Hb.
    rewrite bit_isset_testbit by lia.
    rewrite Hz by (split; [apply Z.div_pos; lia | exact Hb]).
    apply Z.testbit_0_l.
Qed.

(* the block with index i of class j lies inside the aligned block at
   offset a of class k >= j when it starts inside it *)
Lemma block_inside_end (a i j k : Z) :
  0 <= j <= k -> a mod BLK_SIZE k = 0 ->
  a <= i * BLK_SIZE j < a + BLK_SIZE k ->
  (i + 1) * BLK_SIZE j <= a + BLK_SIZE k.
Proof.
  intros Hj Ha Hi.
  pose proof (BLK_SIZE_pos j ltac:(lia)) as HBj.
  pose proof (mod_BLK_SIZE_lower a j k Hj Ha) as Haj.
  destruct (BLK_SIZE_divide j k Hj) as [t Ht].
  apply Z.mod_divide in Haj; [| lia]. destruct Haj as [u Hu].
  rewrite Ht, Hu in *.
  assert (Hlt : i < u + t).
  { apply Z.mul_lt_mono_pos_r with (p := BLK_SIZE j); lia. }
  assert ((i + 1) * BLK_SIZE j <= (u + t) * BLK_SIZE j)
    by (apply Z.mul_le_mono_nonneg_r; lia).
  lia.
Qed.

Lemma bd_init_exact (m0 : Z -> Z) (base end_ : Z) s ml mr :
  bd_init_run m0 base end_ = Some (s, ml, mr) ->
  0 <= base < 2 ^ 62 -> bd_base s <= end_ < 2 ^ 63 -> HEAP_SIZE s < 2 ^ 31 ->
  split_disj s /\ split_exact s [].
Proof.
  intros Hrun Hbase Hend Hheap.
  destruct (bd_init_inv _ _ _ _ _ _ Hrun Hbase Hend Hheap) as (HI & Hle).
  destruct (bd_init_run_middle _ _ _ _ _ _ Hrun Hbase Hend Hheap)
    as (Hn2 & _).
  destruct (bd_init_run_marks _ _ _ _ _ _ Hrun Hbase Hend Hheap)
    as (s2 & s3 & HL23 & HL34 & Hn & Hb0 & Hempty & (B & HB) & HP & HPm & HM
        & HMm & _ & _ & HL & HR & _ & Hlay).
  set (P := meta ml) in *. set (E := HEAP_SIZE s - meta mr) in *.
  set (N := nsizes s) in *. set (b := bd_base s) in *.
  pose proof (HEAP_SIZE_bound s Hn) as HH.
  assert (HL24 : same_layout s2 s) by (eapply same_layout_trans; eassumption).
  assert (E2 : nsizes s2 = N) by (destruct HL24 as (A & _); unfold N; congruence).
  assert (E3 : nsizes s3 = N) by (destruct HL34 as (A & _); unfold N; congruence).
  assert (B2 : bd_base s2 = b) by (destruct HL24 as (_ & A & _); unfold b; congruence).
  assert (B3 : bd_base s3 = b) by (destruct HL34 as (_ & A & _); unfold b; congruence).
  destruct (bd_init_layout m0 base end_) as [s2' p4] eqn:Hlay2.
  cbn [fst] in Hlay. subst s2'.
  destruct (layout_split_props m0 base end_ s2 p4 Hlay2 Hbase ltac:(lia))
    as (HD2 & Hclear).
  assert (HD : split_disj s) by (eapply split_disj_layout; eassumption).
  split; [exact HD |].
  (* what the two markings can have set *)
  pose proof (mark_loop_only b (b + P) true (Z.to_nat N) s2 0 0 B HB HD2
                ltac:(lia)) as OL.
  rewrite HL in OL. cbn [fst] in OL.
  assert (OL' : split_only s2 (mem s2) (mem s3)
                  (fun j i => i < ceil_idx P j)).
  { eapply split_only_weaken; [| apply OL].
    - intros j i (Hj & Hi). rewrite <- B2 in Hi.
      rewrite blk_index_next_ceil in Hi by lia. lia.
    - intros j Hj. rewrite E2 in Hj. rewrite <- B2.
      rewrite blk_index_eq by lia. replace (bd_base s2 - bd_base s2) with 0 by lia.
      rewrite Z.div_0_l by (pose proof (BLK_SIZE_pos j); lia).
      rewrite blk_index_next_ceil by lia.
      pose proof (ceil_idx_nonneg P j ltac:(lia) ltac:(lia)).
      pose proof (ceil_idx_mono P (HEAP_SIZE s) j ltac:(lia)
                    ltac:(unfold E in *; lia)).
      rewrite (NBLK_layout s s2), <- (ceil_idx_heap s j)
        by (try (apply same_layout_sym; exact HL24); unfold N in *; lia).
      lia. }
  assert (HB3 : split_sep s3 B) by (eapply split_sep_layout; eassumption).
  assert (HD3 : split_disj s3) by (eapply split_disj_layout; eassumption).
  pose proof (mark_loop_only (b + E) (b + HEAP_SIZE s) false (Z.to_nat N) s3 0 0
                B HB3 HD3 ltac:(lia)) as OR.
  rewrite HR in OR. cbn [fst] in OR.
  assert (OR' : split_only s3 (mem s3) (mem s)
                  (fun j i => floor_idx E j <= i)).
  { eapply split_only_weaken; [| apply OR].
    - intros j i (Hj & Hi). rewrite <- B3 in Hi.
      rewrite blk_index_floor in Hi by (unfold E; lia). lia.
    - intros j Hj. rewrite E3 in Hj. rewrite <- B3.
      rewrite blk_index_floor by (unfold E; lia).
      rewrite blk_index_next_ceil by lia.
      pose proof (floor_idx_nonneg E j ltac:(lia) ltac:(unfold E; lia)).
      pose proof (floor_idx_mono E (HEAP_SIZE s) j ltac:(lia)
                    ltac:(unfold E; lia)) as Hm.
      rewrite (floor_idx_heap s j) in Hm by (fold N; lia).
      rewrite (NBLK_layout s s3), (ceil_idx_heap s j)
        by (try (apply same_layout_sym; exact HL34); unfold N in *; lia).
      pose proof (NBLK_range s j ltac:(unfold N in *; lia)
                    ltac:(unfold N in *; lia)).
      lia. }
  (* no such block lies inside a free block *)
  intros k a Hin j i Hj Hi.
  destruct Hin as [(Hk & Hin) | []].
  pose proof (or_introl (conj Hk Hin)
              : (0 <= k < nsizes s /\ In a (frees s k)) \/ In (a, k) []) as Hblk.
  destruct (inv_blk _ _ _ _ HI k a Hblk) as (Hk2 & Hal & _).
  destruct (inv_block_range _ _ _ _ k a HI Hblk) as (R1 & R2 & R3 & R4).
  fold b in Hal, R1, R2, R3, R4, Hi. fold N in Hk, Hk2.
  pose proof (BLK_SIZE_pos j ltac:(lia)) as HBj.
  pose proof (BLK_SIZE_pos k ltac:(lia)) as HBk.
  pose proof (block_inside_end (a - b) i j k ltac:(lia) Hal Hi) as Hend'.
  assert (Hi0 : 0 <= i) by nia.
  assert (HiN : i < NBLK s j).
  { pose proof (HEAP_SIZE_blocks s j ltac:(fold N; lia)) as HHb.
    apply Z.mul_lt_mono_pos_r with (p := BLK_SIZE j); [lia |].
    unfold E in *. lia. }
  assert (H4 : j = 1 -> 4 <= i).
  { intros ->. change (BLK_SIZE 1) with 32 in *. lia. }
  destruct (bit_isset (mem s) (split (bd_sizes s j)) i) eqn:Hbit;
    [exfalso | reflexivity].
  pose proof HL34 as (_ & _ & HP34). pose proof HL24 as (_ & _ & HP24).
  destruct (HP34 j) as (_ & Hs3). destruct (HP24 j) as (_ & Hs2).
  rewrite Hs3 in Hbit.
  destruct (OR' j i ltac:(rewrite E3; lia)
                ltac:(rewrite <- (NBLK_layout s3 s j HL34); lia)
                H4 Hbit) as [Hb3 | Hfl].
  - rewrite <- Hs3, Hs2 in Hb3.
    destruct (OL' j i ltac:(rewrite E2; lia)
                  ltac:(rewrite <- (NBLK_layout s2 s j HL24); lia)
                  H4 Hb3) as [Hb2 | Hce].
    + rewrite Hclear in Hb2; [discriminate | rewrite E2; lia |].
      rewrite <- (NBLK_layout s2 s j HL24). lia.
    + pose proof (ceil_idx_spec P j ltac:(lia)) as (Hc & _).
      assert (i * BLK_SIZE j <= (ceil_idx P j - 1) * BLK_SIZE j)
        by (apply Z.mul_le_mono_nonneg_r; lia).
      lia.
  - pose proof (floor_idx_spec E j ltac:(lia)) as (_ & Hf).
    assert ((floor_idx E j + 1) * BLK_SIZE j <= (i + 1) * BLK_SIZE j)
      by (apply Z.mul_le_mono_nonneg_r; lia).
    lia.
Qed.

(** ** size is exact for live blocks, and the invariant along a run *)

Lemma aligned_index (s : state) (j k p : Z) :
  0 <= j <= k -> 0 <= p - bd_base s < 2 ^ 31 ->
  (p - bd_base s) mod BLK_SIZE k = 0 ->
  blk_index s j p * BLK_SIZE j = p - bd_base s.
Proof.
  intros Hj Hp Hal. rewrite blk_index_eq by lia.
  pose proof (BLK_SIZE_pos j ltac:(lia)) as HB.
  pose proof (mod_BLK_SIZE_lower (p - bd_base s) j k Hj Hal) as Hm.
  pose proof (Z.div_mod (p - bd_base s) (BLK_SIZE j) ltac:(lia)) as D.
  lia.
Qed.

Lemma exact_size s lo hi live p c :
  Inv s lo hi live -> split_exact s live -> In (p, c) live ->
  size s p = Some c.
Proof.
  intros HI HE Hin.
  pose proof (inv_n _ _ _ _ HI) as Hn.
  destruct (inv_blk _ _ _ _ HI c p (or_intror Hin)) as (Hc & Hal & Hps).
  destruct (inv_block_range _ _ _ _ c p HI (or_intror Hin))
    as (_ & _ & R3 & R4).
  pose proof (BLK_SIZE_pos c ltac:(lia)) as HBc.
  apply size_first_split; [lia | exact Hps |].
  intros j Hj. unfold parent_split.
  apply (HE c p (or_intror Hin)); [lia |].
  rewrite (aligned_index s (j + 1) c p) by lia. lia.
Qed.

Lemma count_free_pop (s : state) (k a x : Z) (rest : list Z) :
  0 <= k < nsizes s -> frees s k = a :: rest ->
  count_free s x = inb k a x + count_free (set_free s k rest) x.
Proof.
  intros Hk Hpop.
  rewrite (count_free_ext (lst_push (set_free s k rest) k a) s x).
  - rewrite count_free_push by (cbn [set_free nsizes]; lia). lia.
  - reflexivity.
  - intros j. rewrite frees_lst_push, !frees_set_free.
    rewrite Z.eqb_refl.
    destruct (Z.eqb_spec j k) as [-> | _]; [exact Hpop | reflexivity].
Qed.

Lemma live_bytes_remove_one (live : list (Z * Z)) (p c : Z) :
  In (p, c) live ->
  live_bytes (remove_one (p, c) live) = live_bytes live - BLK_SIZE c.
Proof.
  induction live as [| [a d] l IH]; cbn [remove_one In live_bytes fst snd];
    [tauto |].
  intros Hin.
  destruct (Z.eqb_spec p a) as [-> | Hpa]; cbn [andb].
  - destruct (Z.eqb_spec c d) as [-> | Hcd].
    + lia.
    + cbn [live_bytes]. destruct Hin as [Heq | Hin]; [congruence |].
      rewrite IH by exact Hin. lia.
  - cbn [live_bytes]. destruct Hin as [Heq | Hin]; [congruence |].
    rewrite IH by exact Hin. lia.
Qed.

Lemma free_bytes_malloc (s : state) (n : Z) (r : malloc_ret) :
  bd_malloc_run s n = Some r -> ret_ptr r <> 0 ->
  free_bytes (ret_state r) + BLK_SIZE (ret_class r) = free_bytes s.
Proof.
  intros Hrun Hp.
  destruct (firstk n) as [fk |] eqn:Hfk;
    [| unfold bd_malloc_run in Hrun; rewrite Hfk in Hrun; discriminate].
  pose proof (firstk_sound n fk Hfk) as (Hfk0 & _).
  destruct (bd_malloc_run_cases s n fk Hfk)
    as [(k & _ & _ & Hr)
       | (k & p & rest & s' & Hk & Hempty & Hpop & Hr & Hns & Hbs & Hfr)];
    rewrite Hr in Hrun; injection Hrun as <-;
    cbn [ret_ptr ret_class ret_state] in *; [congruence |].
  unfold free_bytes. rewrite Hns.
  rewrite (free_bytes_below_malloc s s' k fk p rest) by (try lia; assumption).
  rewrite Z2Nat.id by lia.
  destruct (Z.leb_spec (nsizes s) fk), (Z.leb_spec (nsizes s) k); lia.
Qed.

Lemma exact_free s lo hi live p c :
  Inv s lo hi live -> split_exact s live -> In (p, c) live ->
  exists s',
    bd_free s p = Some s'
    /\ (forall j, frees s' j = if j =? c then p :: frees s j else frees s j)
    /\ free_bytes s' = free_bytes s + BLK_SIZE c
    /\ split_exact s' (remove_one (p, c) live).
Proof.
  intros HI HE Hin.
  pose proof (inv_n _ _ _ _ HI) as Hn.
  destruct (inv_sep _ _ _ _ HI) as (B & Hlow & Hhigh).
  destruct (inv_blk _ _ _ _ HI c p (or_intror Hin)) as (Hc & Hal & Hps).
  destruct (inv_block_range _ _ _ _ c p HI (or_intror Hin))
    as (_ & R2 & R3 & R4).
  destruct (inv_range _ _ _ _ HI) as (_ & Hhi & _).
  pose proof (BLK_SIZE_pos c ltac:(lia)) as HBc.
  pose proof (exact_size s lo hi live p c HI HE Hin) as Hsz.
  rewrite (bd_free_spec s p c Hsz).
  destruct (Z.ltb_spec c (MAXSIZE s)) as [_ | Hge];
    [| unfold MAXSIZE in Hge; lia].
  set (m' := bit_set (mem s) (alloc (bd_sizes s c))
                     (Z.quot (blk_index s c p) 2)).
  set (s' := lst_push (set_mem s m') c p).
  assert (Hfr : forall j, frees s' j
                          = if j =? c then p :: frees s j else frees s j).
  { intros j. unfold s'. rewrite frees_lst_push, !frees_set_mem.
    destruct (Z.eqb_spec j c) as [-> | _]; reflexivity. }
  assert (HL : same_layout s s').
  { eapply same_layout_trans;
      [apply same_layout_set_mem | apply same_layout_lst_push]. }
  exists s'. split; [reflexivity |]. split; [exact Hfr |]. split.
  { unfold s'. rewrite free_bytes_push by (cbn [set_mem nsizes]; lia).
    rewrite (free_bytes_ext s (set_mem s m')); [reflexivity | reflexivity |].
    intros j. apply frees_set_mem. }
  intros k a Hin' j i Hj Hi.
  change (bd_base s') with (bd_base s) in Hi.
  pose proof HL as (_ & _ & HP). destruct (HP j) as (_ & ->).
  change (mem s') with m'.
  assert (Hold : (0 <= k < nsizes s /\ In a (frees s k)) \/ In (a, k) live).
  { destruct Hin' as [(Hk & Ha) | Ha].
    - change (nsizes s') with (nsizes s) in Hk. rewrite Hfr in Ha.
      destruct (Z.eqb_spec k c) as [-> | _]; [| left; auto].
      destruct Ha as [<- | Ha]; [right; exact Hin | left; auto].
    - right. eapply remove_one_in. exact Ha. }
  pose proof (HE k a Hold j i Hj Hi) as Hbit.
  destruct (inv_blk _ _ _ _ HI k a Hold) as (Hk2 & _).
  destruct (inv_block_range _ _ _ _ k a HI Hold) as (_ & _ & A3 & A4).
  pose proof (BLK_SIZE_pos j ltac:(lia)) as HBj.
  assert (Hi0 : 0 <= i) by nia.
  assert (H4 : j = 1 -> 4 <= i).
  { intros ->. change (BLK_SIZE 1) with 32 in *. lia. }
  pose proof (HEAP_SIZE_bound s Hn) as HH.
  pose proof (blk_index_range s c p ltac:(lia) ltac:(lia) ltac:(lia)) as Hidx.
  unfold m'. rewrite Z.quot_div_nonneg by lia.
  rewrite bit_set_other; [exact Hbit | apply Z.div_pos; lia | exact Hi0 |].
  specialize (Hlow c (blk_index s c p) ltac:(lia) Hidx).
  specialize (Hhigh j i ltac:(lia) Hi0 H4). lia.
Qed.

Lemma exact_malloc s lo hi live n r :
  Inv s lo hi live -> split_disj s -> split_exact s live ->
  bd_malloc_run s n = Some r -> ret_ptr r <> 0 ->
  split_exact (ret_state r) ((ret_ptr r, ret_class r) :: live).
Proof.
  intros HI HD HE Hrun Hp0.
  destruct (inv_malloc _ _ _ _ _ _ HI Hrun) as [(H0 & _) | (_ & _ & _ & HI')];
    [contradiction |].
  destruct (firstk n) as [fk |] eqn:Hfk;
    [| unfold bd_malloc_run in Hrun; rewrite Hfk in Hrun; discriminate].
  pose proof (firstk_sound n fk Hfk) as (Hfk0 & _).
  destruct (bd_malloc_run_cases s n fk Hfk)
    as [(k & _ & _ & Hr)
       | (k & p & rest & s' & Hk & Hempty & Hpop & Hr & Hns & Hbs & Hfr)].
  { rewrite Hr in Hrun. injection Hrun as <-. cbn [ret_ptr] in Hp0.
    contradiction. }
  pose proof (bd_malloc_run_taken s n fk k p rest Hfk Hk Hempty Hpop) as Hr2.
  rewrite Hr in Hr2. injection Hr2 as Hs' _.
  rewrite Hr in Hrun. injection Hrun as <-.
  cbn [ret_ptr ret_class ret_state] in *.
  pose proof (inv_n _ _ _ _ HI) as Hn.
  destruct (inv_sep _ _ _ _ HI) as (B & HB).
  assert (Hpk : (0 <= k < nsizes s /\ In p (frees s k)) \/ In (p, k) live).
  { left. split; [lia |]. rewrite Hpop. left. reflexivity. }
  destruct (inv_blk _ _ _ _ HI k p Hpk) as (Hk2 & Hal & _).
  destruct (inv_block_range _ _ _ _ k p HI Hpk) as (_ & R2 & R3 & R4).
  destruct (inv_range _ _ _ _ HI) as (_ & Hhi & _).
  pose proof (HEAP_SIZE_bound s Hn) as HH.
  pose proof (BLK_SIZE_pos k ltac:(lia)) as HBk.
  set (b := bd_base s) in *.
  (* which split bits the call can have set *)
  set (sp := malloc_pop s k p rest) in *.
  assert (HLp : same_layout s sp).
  { unfold sp, malloc_pop. eapply same_layout_trans;
      [apply same_layout_set_free | apply same_layout_set_mem]. }
  pose proof (blk_index_range s k p ltac:(lia) ltac:(lia)
                ltac:(fold b; lia)) as Hidx.
  assert (O1 : split_only s (mem s) (mem sp)
                 (fun j i => fk < j <= k /\ i = blk_index s j p)).
  { unfold sp, malloc_pop. cbn [mem set_mem set_free].
    rewrite alloc_set_free.
    change (blk_index (set_free s k rest) k p) with (blk_index s k p).
    apply (split_only_alloc_flip s B); [exact HB | lia | exact Hidx]. }
  assert (HBp : split_sep sp B) by (eapply split_sep_layout; eassumption).
  assert (HDp : split_disj sp) by (eapply split_disj_layout; eassumption).
  assert (Hpp : 128 <= p - bd_base sp < HEAP_SIZE sp).
  { rewrite (HEAP_SIZE_layout s sp HLp).
    change (bd_base sp) with b. lia. }
  pose proof (split_loop_only (Z.to_nat (k - fk)) sp k fk p B HBp HDp
                ltac:(rewrite Z2Nat.id; lia) ltac:(lia)
                ltac:(change (nsizes sp) with (nsizes s); lia)
                ltac:(change (nsizes sp) with (nsizes s); lia) Hpp) as O2.
  pose proof (split_loop_mem (Z.to_nat (k - fk)) sp k fk p B HBp
                ltac:(rewrite Z2Nat.id; lia) ltac:(lia)
                ltac:(change (nsizes sp) with (nsizes s); lia)
                ltac:(change (nsizes sp) with (nsizes s); lia) Hpp) as HM.
  cbv zeta in HM. rewrite <- Hs' in O2, HM. destruct HM as (HLs & _).
  assert (HL : same_layout s s') by (eapply same_layout_trans; eassumption).
  assert (O : split_only s (mem s) (mem s')
                (fun j i => fk < j <= k /\ i = blk_index s j p)).
  { eapply split_only_trans; [exact O1 |].
    apply (split_only_layout sp s); [apply same_layout_sym; exact HLp |].
    eapply split_only_weaken; [| exact O2].
    intros j i (Hj & Hi). rewrite (blk_index_layout s sp) in Hi by exact HLp.
    auto. }
  (* the blocks of the new state *)
  intros k' a' Hin j i Hj Hi.
  rewrite Hbs in Hi. fold b in Hi.
  pose proof HL as (_ & _ & HP). destruct (HP j) as (_ & ->).
  destruct (inv_blk _ _ _ _ HI' k' a' Hin) as (Hk'2 & Hal' & _).
  destruct (inv_block_range _ _ _ _ k' a' HI' Hin) as (_ & A2 & A3 & A4).
  destruct (inv_range _ _ _ _ HI') as (_ & Hhi' & _).
  rewrite Hns in Hk'2. rewrite Hbs in Hal', A2, A3, A4. fold b in Hal', A2, A3, A4.
  rewrite (HEAP_SIZE_layout s s' HL) in Hhi'.
  pose proof (BLK_SIZE_pos j ltac:(lia)) as HBj.
  pose proof (BLK_SIZE_pos k' ltac:(lia)) as HBk'.
  assert (Hi0 : 0 <= i) by nia.
  assert (HiN : i < NBLK s j).
  { pose proof (HEAP_SIZE_blocks s j ltac:(lia)) as HHb.
    apply Z.mul_lt_mono_pos_r with (p := BLK_SIZE j); lia. }
  assert (H4 : j = 1 -> 4 <= i).
  { intros ->. change (BLK_SIZE 1) with 32 in *. lia. }
  destruct (bit_isset (mem s') (split (bd_sizes s j)) i) eqn:Hbit;
    [exfalso | reflexivity].
  destruct (O j i ltac:(lia) ltac:(lia) H4 Hbit) as [Hold | (HjS & HiS)].
  - (* the bit was set before: the block around it is no old block, and
       no part of the block taken *)
    assert (Hnew : (0 <= k' < nsizes s /\ In a' (frees s k'))
                   \/ In (a', k') live -> False).
    { intros Hx. rewrite (HE k' a' Hx j i Hj Hi) in Hold. discriminate. }
    assert (Hin_p : p - b <= i * BLK_SIZE j < p - b + BLK_SIZE k -> j <= k ->
              False).
    { intros Hr' Hjk. rewrite (HE k p Hpk j i ltac:(lia) Hr') in Hold.
      discriminate. }
    destruct Hin as [(Hk' & Ha') | [Heq | Hl]].
    + rewrite Hns in Hk'. rewrite Hfr in Ha'.
      destruct (Z.eqb_spec k' k) as [-> | Hne].
      * apply Hnew. left. split; [lia |]. rewrite Hpop. right. exact Ha'.
      * destruct (Z.leb_spec fk k'), (Z.ltb_spec k' k); cbn [andb] in Ha';
          try (apply Hnew; left; split; [lia | exact Ha']).
        rewrite Hempty in Ha' by lia. destruct Ha' as [<- | []].
        assert (BLK_SIZE (k' + 1) <= BLK_SIZE k) by (apply BLK_SIZE_mono; lia).
        rewrite BLK_SIZE_succ in * by lia.
        apply Hin_p; lia.
    + injection Heq as <- <-.
      assert (BLK_SIZE fk <= BLK_SIZE k) by (apply BLK_SIZE_mono; lia).
      apply Hin_p; lia.
    + apply Hnew. right. exact Hl.
  - (* the bit is one the call set: it starts at p, inside no other block *)
    subst i.
    rewrite (aligned_index s j k p) in Hi by (fold b; lia). fold b in Hi.
    assert (Hold_blk :
              (forall x, inb k' a' x <= count_live live x
                                        + count_free (set_free s k rest) x) ->
              False).
    { intros Hc. specialize (Hc p).
      pose proof (inv_cover _ _ _ _ HI p) as Hcov.
      rewrite (count_free_pop s k p p rest ltac:(lia) Hpop) in Hcov.
      unfold inb in Hc, Hcov. rewrite ind_in in Hc by lia.
      rewrite ind_in in Hcov by lia.
      pose proof (ind_range (bd_base s + lo) (bd_base s + hi) p). lia. }
    destruct Hin as [(Hk' & Ha') | [Heq | Hl]].
    + rewrite Hns in Hk'. rewrite Hfr in Ha'.
      assert (Hrest : In a' (frees (set_free s k rest) k') -> False).
      { intros Hx. apply Hold_blk. intros x.
        pose proof (count_free_in (set_free s k rest) k' a' x
                      ltac:(cbn [set_free nsizes]; lia) Hx).
        pose proof (count_live_nonneg live x). lia. }
      destruct (Z.eqb_spec k' k) as [-> | Hne].
      * apply Hrest. rewrite frees_set_free, Z.eqb_refl. exact Ha'.
      * destruct (Z.leb_spec fk k'), (Z.ltb_spec k' k); cbn [andb] in Ha';
          try (apply Hrest; rewrite frees_set_free;
               destruct (Z.eqb_spec k' k); [lia | exact Ha']).
        rewrite Hempty in Ha' by lia. destruct Ha' as [<- | []]. lia.
    + injection Heq as <- <-. lia.
    + apply Hold_blk. intros x.
      pose proof (count_live_in live a' k' x Hl).
      pose proof (count_free_nonneg (set_free s k rest) x). lia.
Qed.

Lemma split_loop_layout (fuel : nat) : forall s k fk p,
  same_layout s (fst (split_loop fuel s k fk p)).
Proof.
  induction fuel as [| f IH]; intros s k fk p; cbn [split_loop].
  - apply same_layout_refl.
  - destruct (fk <? k); [| apply same_layout_refl].
    eapply same_layout_trans; [| apply IH].
    eapply same_layout_trans; [apply same_layout_set_mem |].
    eapply same_layout_trans; [apply same_layout_set_mem |].
    apply same_layout_lst_push.
Qed.

Lemma bd_malloc_run_layout (s : state) (n : Z) (r : malloc_ret) :
  bd_malloc_run s n = Some r -> same_layout s (ret_state r).
Proof.
  unfold bd_malloc_run. destruct (firstk n) as [fk |]; [| discriminate].
  destruct (nsizes s <=? _).
  - intros H. injection H as <-. apply same_layout_refl.
  - destruct (lst_pop _) as [[p rest] |]; [| discriminate].
    match goal with |- context [split_loop ?f ?s2 ?k fk p] =>
      pose proof (split_loop_layout f s2 k fk p) as HL;
      destruct (split_loop f s2 k fk p) as [s3 k']
    end.
    intros H. injection H as <-. cbn [ret_state fst] in *.
    eapply same_layout_trans; [| exact HL].
    eapply same_layout_trans;
      [apply same_layout_set_free | apply same_layout_set_mem].
Qed.

Lemma step_layout s live s' live' :
  step (s, live) (s', live') -> same_layout s s'.
Proof.
  intros Hstep.
  inversion Hstep as [s1 l1 n r Hrun Hp E1 E2 | s1 l1 n r Hrun Hp E1 E2
                     | s1 l1 p c s2 Hin Hf E1 E2]; subst.
  - eapply bd_malloc_run_layout; eassumption.
  - eapply bd_malloc_run_layout; eassumption.
  - destruct (size s p) as [k0 |] eqn:Hsz;
      [| unfold bd_free in Hf; rewrite Hsz in Hf; discriminate].
    rewrite (bd_free_spec s p k0 Hsz) in Hf. injection Hf as <-.
    destruct (k0 <? MAXSIZE s).
    + eapply same_layout_trans;
        [apply same_layout_set_mem | apply same_layout_lst_push].
    + apply same_layout_lst_push.
Qed.

Lemma exact_reachable s0 lo hi s live :
  Inv s0 lo hi [] -> split_disj s0 -> split_exact s0 [] ->
  reachable s0 s live ->
  split_disj s /\ split_exact s live
  /\ free_bytes s + live_bytes live = free_bytes s0.
Proof.
  intros HI0 HD0 HE0 Hr.
  induction Hr as [| s live s' live' Hr IH Hstep].
  - split; [exact HD0 |]. split; [exact HE0 |]. cbn [live_bytes]. lia.
  - destruct IH as (HD & HE & Hfb).
    pose proof (inv_reachable _ _ _ _ _ HI0 Hr) as HI.
    split; [eapply split_disj_layout; [eapply step_layout; exact Hstep | exact HD] |].
    inversion Hstep as [s1 l1 n r Hrun Hp E1 E2 | s1 l1 n r Hrun Hp E1 E2
                       | s1 l1 p c s2 Hin Hf E1 E2]; subst.
    + split; [eapply exact_malloc; eassumption |].
      pose proof (free_bytes_malloc s n r Hrun Hp). cbn [live_bytes]. lia.
    + destruct (inv_malloc _ _ _ _ _ _ HI Hrun) as [(_ & ->) | (Hne & _)];
        [| contradiction].
      split; [exact HE | exact Hfb].
    + destruct (exact_free s lo hi live p c HI HE Hin)
        as (s3 & Hs3 & _ & Hfb3 & HE3).
      rewrite Hs3 in Hf. injection Hf as <-.
      split; [exact HE3 |].
      rewrite (live_bytes_remove_one live p c Hin). lia.
Qed.

(** X28. [bd_free] returns a live block to the free list of the class it
    was granted at: in every state reached from a completed [bd_init],
    [size] answers for a live address exactly the class of its block (the
    split bits record it, though no size is stored), and the call pushes
    the address on that list and changes no other list. *)
Theorem bd_free_returns_block_to_its_class (m0 : Z -> Z) (base end_ : Z)
    (s0 s : state) (live : list (Z * Z)) (p c : Z) :
  bd_init m0 base end_ = Some s0 ->
  0 <= base < 2 ^ 62 -> bd_base s0 <= end_ < 2 ^ 63 ->
  HEAP_SIZE s0 < 2 ^ 31 ->
  reachable s0 s live -> In (p, c) live ->
  size s p = Some c
  /\ exists s',
       bd_free s p = Some s'
       /\ (forall j, frees s' j = if j =? c then p :: frees s j else frees s j)
       /\ free_bytes s' = free_bytes s + BLK_SIZE c.
Proof.
  intros Hinit Hbase Hend Hheap Hreach Hin.
  destruct (bd_init_some _ _ _ _ Hinit) as (ml & mr & Hrun).
  destruct (bd_init_inv _ _ _ _ _ _ Hrun Hbase Hend Hheap) as (HI0 & _).
  destruct (bd_init_exact _ _ _ _ _ _ Hrun Hbase Hend Hheap) as (HD0 & HE0).
  pose proof (inv_reachable _ _ _ _ _ HI0 Hreach) as HI.
  destruct (exact_reachable _ _ _ _ _ HI0 HD0 HE0 Hreach) as (_ & HE & _).
  split; [eapply exact_size; eassumption |].
  destruct (exact_free s _ _ live p c HI HE Hin) as (s' & H1 & H2 & H3 & _).
  exists s'. auto.
Qed.

Lemma ex_reach1 : reachable ex_state (after_malloc ex_state 32) [(4416, 1)].
Proof.
  apply (reach_step ex_state ex_state []); [apply reach_init |].
  apply step_after_malloc; [vm_compute; reflexivity | discriminate].
Qed.

Lemma bd_free_returns_block_to_its_class_witness :
  size (after_malloc ex_state 32) 4416 = Some 1
  /\ exists s',
       bd_free (after_malloc ex_state 32) 4416 = Some s'
       /\ (forall j, frees s' j
                     = if j =? 1 then 4416 :: frees (after_malloc ex_state 32) j
                       else frees (after_malloc ex_state 32) j)
       /\ free_bytes s' = free_bytes (after_malloc ex_state 32) + BLK_SIZE 1.
Proof.
  destruct ex_state_shape as (_ & Hb & Hh).
  apply (bd_free_returns_block_to_its_class (fun _ => 0) 4096 5136 ex_state
           (after_malloc ex_state 32) [(4416, 1)] 4416 1).
  - exact ex_state_init.
  - lia.
  - rewrite Hb. lia.
  - rewrite Hh. lia.
  - exact ex_reach1.
  - left. reflexivity.
Defined.

(** X29. No byte is lost or made: in every state reached from a completed
    [bd_init], the bytes on the free lists, the bytes of the live blocks,
    the metadata and the unavailable tail add up to [HEAP_SIZE]. *)
Theorem bytes_are_conserved (m0 : Z -> Z) (base end_ : Z)
    (s0 s : state) (ml mr : MARK_META) (live : list (Z * Z)) :
  bd_init_run m0 base end_ = Some (s0, ml, mr) ->
  0 <= base < 2 ^ 62 -> bd_base s0 <= end_ < 2 ^ 63 ->
  HEAP_SIZE s0 < 2 ^ 31 ->
  reachable s0 s live ->
  free_bytes s + live_bytes live + meta ml + meta mr = HEAP_SIZE s0.
Proof.
  intros Hrun Hbase Hend Hheap Hreach.
  destruct (bd_init_inv _ _ _ _ _ _ Hrun Hbase Hend Hheap) as (HI0 & _).
  destruct (bd_init_exact _ _ _ _ _ _ Hrun Hbase Hend Hheap) as (HD0 & HE0).
  destruct (exact_reachable _ _ _ _ _ HI0 HD0 HE0 Hreach) as (_ & _ & Hfb).
  pose proof (bd_init_run_free_bytes _ _ _ _ _ _ Hrun Hheap) as (_ & Hacc & _).
  lia.
Qed.

Lemma bytes_are_conserved_witness :
  exists ml mr,
    bd_init_run (fun _ => 0) 4096 5136 = Some (ex_state, ml, mr)
    /\ free_bytes (after_malloc ex_state 32) + live_bytes [(4416, 1)]
       + meta ml + meta mr = HEAP_SIZE ex_state.
Proof.
  destruct ex_state_run as (ml & mr & Hrun & _).
  destruct ex_state_shape as (_ & Hb & Hh).
  exists ml, mr. split; [exact Hrun |].
  apply (bytes_are_conserved (fun _ => 0) 4096 5136 ex_state
           (after_malloc ex_state 32) ml mr [(4416, 1)] Hrun).
  - lia.
  - rewrite Hb. lia.
  - rewrite Hh. lia.
  - exact ex_reach1.
Defined.

(** X30. A block that is freed right after it was handed out is handed out
    again by the next request of the same size: the free list is used as a
    stack, and the second call leaves as many free bytes as the first. *)
Theorem malloc_after_free_reuses_block (m0 : Z -> Z) (base end_ : Z)
    (s0 s : state) (live : list (Z * Z)) (n : Z) (r : malloc_ret) :
  bd_init m0 base end_ = Some s0 ->
  0 <= base < 2 ^ 62 -> bd_base s0 <= end_ < 2 ^ 63 ->
  HEAP_SIZE s0 < 2 ^ 31 ->
  reachable s0 s live ->
  bd_malloc_run s n = Some r -> ret_ptr r <> 0 ->
  exists s1 r2,
    bd_free (ret_state r) (ret_ptr r) = Some s1
    /\ bd_malloc_run s1 n = Some r2
    /\ ret_ptr r2 = ret_ptr r /\ ret_class r2 = ret_class r
    /\ free_bytes (ret_state r2) = free_bytes (ret_state r).
Proof.
  intros Hinit Hbase Hend Hheap Hreach Hmal Hp.
  destruct (bd_init_some _ _ _ _ Hinit) as (ml & mr & Hrun).
  destruct (bd_init_inv _ _ _ _ _ _ Hrun Hbase Hend Hheap) as (HI0 & _).
  destruct (bd_init_exact _ _ _ _ _ _ Hrun Hbase Hend Hheap) as (HD0 & HE0).
  assert (Hreach' : reachable s0 (ret_state r)
                      ((ret_ptr r, ret_class r) :: live)).
  { eapply reach_step; [exact Hreach |]. apply (step_malloc s live n r Hmal Hp). }
  pose proof (inv_reachable _ _ _ _ _ HI0 Hreach') as HI.
  pose proof (inv_n _ _ _ _ HI) as Hn.
  destruct (exact_reachable _ _ _ _ _ HI0 HD0 HE0 Hreach') as (_ & HE & _).
  destruct (exact_free (ret_state r) _ _ _ (ret_ptr r) (ret_class r) HI HE
              (or_introl eq_refl)) as (s1 & Hs1 & Hfr1 & Hfb1 & _).
  assert (Hfk : firstk n = Some (ret_class r)).
  { destruct (firstk n) as [fk |] eqn:Hfk;
      [| unfold bd_malloc_run in Hmal; rewrite Hfk in Hmal; discriminate].
    destruct (bd_malloc_run_cases s n fk Hfk)
      as [(k & _ & _ & Hr) | (k & p & rest & s' & _ & _ & _ & Hr & _)];
      rewrite Hr in Hmal; injection Hmal as <-; cbn [ret_ptr ret_class] in *;
      [congruence | reflexivity]. }
  destruct (inv_blk _ _ _ _ HI (ret_class r) (ret_ptr r)
              (or_intror (or_introl eq_refl))) as (Hc & _).
  assert (Hn1 : nsizes s1 = nsizes (ret_state r)).
  { pose proof (step_layout (ret_state r) ((ret_ptr r, ret_class r) :: live) s1
                  (remove_one (ret_ptr r, ret_class r)
                     ((ret_ptr r, ret_class r) :: live))) as HL.
    destruct HL as (A & _); [| exact A].
    apply step_free; [left; reflexivity | exact Hs1]. }
  destruct (bd_malloc_run_head s1 n (ret_class r) (ret_ptr r)
              (frees (ret_state r) (ret_class r)) Hfk)
    as (r2 & Hr2 & Hp2 & Hc2 & _ & _).
  { rewrite Hn1. lia. }
  { rewrite Hfr1, Z.eqb_refl. reflexivity. }
  exists s1, r2. split; [exact Hs1 |]. split; [exact Hr2 |].
  split; [exact Hp2 |]. split; [exact Hc2 |].
  pose proof (free_bytes_malloc s1 n r2 Hr2 ltac:(rewrite Hp2; exact Hp)) as Hfb2.
  rewrite Hc2 in Hfb2. lia.
Qed.

Lemma malloc_after_free_reuses_block_witness :
  exists r s1 r2,
    bd_malloc_run ex_state 32 = Some r /\ ret_ptr r = 4416
    /\ bd_free (ret_state r) (ret_ptr r) = Some s1
    /\ bd_malloc_run s1 32 = Some r2
    /\ ret_ptr r2 = ret_ptr r /\ ret_class r2 = ret_class r
    /\ free_bytes (ret_state r2) = free_bytes (ret_state r).
Proof.
  destruct (bd_malloc_run_after ex_state 32 4416) as (r & Hr & Hp).
  { vm_compute. reflexivity. }
  destruct ex_state_shape as (_ & Hb & Hh).
  destruct (malloc_after_free_reuses_block (fun _ => 0) 4096 5136 ex_state
              ex_state [] 32 r ex_state_init ltac:(lia)
              ltac:(rewrite Hb; lia) ltac:(rewrite Hh; lia)
              (reach_init ex_state) Hr ltac:(rewrite Hp; discriminate))
    as (s1 & r2 & H).
  exists r, s1, r2. split; [exact Hr |]. split; [exact Hp | exact H].
Defined.

(** ** The pair bits of different classes *)

Lemma alloc_bytes_pairs (s : state) (k i : Z) :
  0 <= k < nsizes s -> nsizes s <= 27 -> 16 <= NBLK s k ->
  0 <= i < NBLK s k -> i / 2 < 8 * alloc_bytes s k.
Proof.
  intros Hk Hn H16 Hi.
  destruct (alloc_bytes_spec s k Hk Hn) as (Hb & Hpair).
  destruct (NBLK_small_or_16 s k Hk) as [Hs | Hm]; [lia |].
  apply Z.mod_divide in Hm; [| lia]. destruct Hm as [t Ht].
  specialize (Hpair (NBLK s k - 1) ltac:(lia)).
  assert (Hlast : (NBLK s k - 1) / 2 = 8 * t - 1).
  { symmetry. apply Z.div_unique with (r := 1); lia. }
  assert (Hi2 : i / 2 < 8 * t) by (apply Z.div_lt_upper_bound; lia).
  lia.
Qed.

Lemma init_alloc_order (fuel : nat) : forall s k p,
  0 <= k -> nsizes s <= 27 ->
  forall j j', k <= j < j' -> j' < k + Z.of_nat fuel -> j' < nsizes s ->
    alloc (bd_sizes (fst (init_alloc fuel s k p)) j) + alloc_bytes s j
    <= alloc (bd_sizes (fst (init_alloc fuel s k p)) j').
Proof.
  induction fuel as [| f IH]; intros s k p Hk Hn j j' Hj Hj' Hjn;
    cbn [init_alloc].
  - cbn [Z.of_nat] in Hj'. lia.
  - destruct (Z.ltb_spec k (nsizes s)) as [Hlt | Hge]; [| lia].
    set (sz := alloc_bytes (set_free s k []) k).
    assert (Hsz : sz = alloc_bytes s k) by reflexivity.
    match goal with |- context [init_alloc f ?x (k + 1) (p + sz)] =>
      set (s3 := x)
    end.
    pose proof (init_alloc_ptrs f s3 (k + 1) (p + sz) ltac:(lia) Hn) as HP.
    cbv zeta in HP. change (nsizes s3) with (nsizes s) in HP.
    destruct HP as (_ & P2 & P3).
    rewrite Nat2Z.inj_succ in Hj'.
    destruct (Z.eq_dec j k) as [-> | Hne].
    + rewrite P2 by lia.
      destruct (P3 j' ltac:(lia) Hjn) as (Hge & _).
      unfold s3 at 1. cbn [set_mem bd_sizes].
      rewrite alloc_set_alloc, Z.eqb_refl. lia.
    + specialize (IH s3 (k + 1) (p + sz) ltac:(lia) Hn j j' ltac:(lia)
                    ltac:(lia) Hjn).
      change (alloc_bytes s3 j) with (alloc_bytes s j) in IH. exact IH.
Qed.

Lemma alloc_disj_layout s s' :
  same_layout s s' -> alloc_disj s -> alloc_disj s'.
Proof.
  intros HL H j j' Hj Hj'. pose proof HL as (Hn & _ & HP).
  destruct (HP j) as (-> & _). destruct (HP j') as (-> & _).
  rewrite (NBLK_layout s s' j HL). apply H; lia.
Qed.

Lemma bd_init_layout_alloc (m0 : Z -> Z) (base end_ : Z) s2 p4 :
  bd_init_layout m0 base end_ = (s2, p4) ->
  2 <= nsizes s2 <= 27 ->
  alloc_disj s2.
Proof.
  intros Hlay Hn j j' Hj Hj'. split.
  - intros H16 i Hi.
    pose proof (bd_init_layout_nsizes m0 base end_) as Hns. cbv zeta in Hns.
    destruct Hns as (Hns & _). rewrite Hlay in Hns. cbn [fst] in Hns.
    revert Hlay. unfold bd_init_layout.
    set (p := ROUNDUP_u64 base LEAF_SIZE) in *.
    set (ns0 := to_int (log2 (to_uint64 (Z.quot (end_ - p) LEAF_SIZE)) + 1)) in *.
    set (ns := if BLK_SIZE (ns0 - 1) <? end_ - p then to_int (ns0 + 1) else ns0) in *.
    set (s0 := mkState ns p (fun _ => mkSz [] 0 0)
                       (memset m0 p 0 (sizeof_Sz_info * ns))).
    set (p1 := p + sizeof_Sz_info * ns).
    pose proof (init_alloc_order (Z.to_nat ns) s0 0 p1 ltac:(lia)
                  ltac:(change (nsizes s0) with ns; lia) j j') as HO.
    pose proof (init_alloc_shape (Z.to_nat ns) s0 0 p1) as HA. cbv zeta in HA.
    destruct (init_alloc (Z.to_nat ns) s0 0 p1) as [s1 p2].
    cbn [fst snd] in HO, HA. destruct HA as (A1 & _).
    change (nsizes s0) with ns in HO, A1.
    pose proof (init_split_ptrs (Z.to_nat ns) s1 1 p2 ltac:(lia)
                  ltac:(lia)) as HS.
    cbv zeta in HS. destruct HS as (_ & S2 & _).
    destruct (init_split (Z.to_nat ns) s1 1 p2) as [s2' p3].
    cbn [fst] in S2.
    intros H. injection H as <- _.
    rewrite !S2.
    specialize (HO ltac:(lia) ltac:(rewrite Z2Nat.id by lia; lia) ltac:(lia)).
    assert (Hab : alloc_bytes s2' j = alloc_bytes s0 j).
    { unfold alloc_bytes, NBLK, MAXSIZE. rewrite Hns. reflexivity. }
    pose proof (alloc_bytes_pairs s2' j i ltac:(lia) ltac:(lia) H16 Hi) as Hp.
    lia.
  - intros H8.
    assert (Hj4 : nsizes s2 - 4 <= j).
    { rewrite NBLK_eq in H8 by lia.
      destruct (Z.le_gt_cases (nsizes s2 - 4) j) as [H | H]; [exact H |].
      assert (2 ^ 4 <= 2 ^ (nsizes s2 - 1 - j))
        by (apply Z.pow_le_mono_r; lia).
      change (2 ^ 4) with 16 in *. lia. }
    rewrite (bd_init_layout_alias m0 base end_ s2 p4 Hlay Hn j) by lia.
    rewrite (bd_init_layout_alias m0 base end_ s2 p4 Hlay Hn j') by lia.
    reflexivity.
Qed.

Lemma bd_init_alloc_disj (m0 : Z -> Z) (base end_ : Z) s ml mr :
  bd_init_run m0 base end_ = Some (s, ml, mr) ->
  0 <= base < 2 ^ 62 -> bd_base s <= end_ < 2 ^ 63 -> HEAP_SIZE s < 2 ^ 31 ->
  alloc_disj s.
Proof.
  intros Hrun Hbase Hend Hheap.
  destruct (bd_init_run_metas _ _ _ _ _ _ Hrun Hbase Hend Hheap)
    as (s2 & p4 & Hlay & HL24 & _).
  destruct (bd_init_run_middle _ _ _ _ _ _ Hrun Hbase Hend Hheap)
    as (Hn2 & _).
  destruct (bd_init_run_lists _ _ _ _ _ _ Hrun Hbase Hend Hheap)
    as (_ & _ & _ & Hn & _).
  pose proof HL24 as (E2 & _).
  apply (alloc_disj_layout s2 s HL24).
  apply (bd_init_layout_alloc m0 base end_ s2 p4 Hlay). lia.
Qed.

Lemma reachable_layout s0 s live : reachable s0 s live -> same_layout s0 s.
Proof.
  intros Hr. induction Hr as [| s live s' live' Hr IH Hstep].
  - apply same_layout_refl.
  - eapply same_layout_trans; [exact IH |].
    eapply step_layout. exact Hstep.
Qed.

(* the pair bits of one address at two classes are two bits of the store *)
Lemma pair_bits_differ (s : state) (B fk j k p : Z) :
  split_sep s B -> alloc_disj s -> nsizes s <= 27 ->
  0 <= fk < j -> j <= k -> k < nsizes s ->
  128 <= p - bd_base s < HEAP_SIZE s ->
  (p - bd_base s) mod BLK_SIZE k = 0 ->
  8 * alloc (bd_sizes s j) + blk_index s j p / 2
  <> 8 * alloc (bd_sizes s fk) + blk_index s fk p / 2.
Proof.
  intros HB HA Hn Hfk Hjk Hk Hp Hal.
  pose proof (HEAP_SIZE_bound s ltac:(lia)) as HH.
  pose proof (blk_index_range s fk p ltac:(lia) Hn ltac:(lia)) as Hif.
  pose proof (blk_index_range s j p ltac:(lia) Hn ltac:(lia)) as Hij.
  destruct (HA fk j ltac:(lia) ltac:(lia)) as (H16 & H8).
  assert (Hj2 : 0 <= blk_index s j p / 2) by (apply Z.div_pos; lia).
  destruct (NBLK_small_or_16 s fk ltac:(lia)) as [Hs | Hm].
  - rewrite (H8 Hs).
    pose proof (aligned_index s fk k p ltac:(lia) ltac:(lia) Hal) as E1.
    pose proof (aligned_index s j k p ltac:(lia) ltac:(lia) Hal) as E2.
    pose proof (BLK_SIZE_pos fk ltac:(lia)) as HBf.
    assert (HBj : 2 * BLK_SIZE fk <= BLK_SIZE j).
    { rewrite <- BLK_SIZE_succ by lia. apply BLK_SIZE_mono. lia. }
    assert (H1 : 1 <= blk_index s j p) by nia.
    assert (H2 : 2 * blk_index s j p <= blk_index s fk p) by nia.
    assert (H3 : blk_index s j p <= blk_index s fk p / 2)
      by (apply Z.div_le_lower_bound; lia).
    assert (H4 : blk_index s j p / 2 < blk_index s j p)
      by (apply Z.div_lt_upper_bound; lia).
    lia.
  - assert (H16' : 16 <= NBLK s fk).
    { apply Z.mod_divide in Hm; [| lia]. destruct Hm as [t Ht]. lia. }
    specialize (H16 H16' (blk_index s fk p) Hif). lia.
Qed.

(** ** bd_malloc flips the pair bit of the block it hands out *)

Lemma split_loop_pair (fuel : nat) : forall s k fk p B,
  split_sep s B -> alloc_disj s -> Z.of_nat fuel = k - fk -> 0 <= fk ->
  k < nsizes s -> nsizes s <= 27 ->
  128 <= p - bd_base s < HEAP_SIZE s ->
  (p - bd_base s) mod BLK_SIZE k = 0 ->
  bit_isset (mem (fst (split_loop fuel s k fk p)))
            (alloc (bd_sizes s fk)) (Z.quot (blk_index s fk p) 2)
  = (if fk <? k
     then negb (bit_isset (mem s) (alloc (bd_sizes s fk))
                          (Z.quot (blk_index s fk p) 2))
     else bit_isset (mem s) (alloc (bd_sizes s fk))
                    (Z.quot (blk_index s fk p) 2)).
Proof.
  induction fuel as [| f IH]; intros s k fk p B HB HA Hf Hfk Hk Hn Hp Hal;
    cbn [split_loop].
  - cbn [fst]. destruct (Z.ltb_spec fk k); [cbn [Z.of_nat] in Hf; lia |].
    reflexivity.
  - destruct (Z.ltb_spec fk k) as [Hlt | Hge]; [| lia].
    set (s1 := set_mem s (bit_set (mem s) (split (bd_sizes s k)) (blk_index s k p))).
    set (s2 := set_mem s1 (bit_flip (mem s1) (alloc (bd_sizes s1 (k - 1)))
                                    (Z.quot (blk_index s1 (k - 1) p) 2))).
    set (s3 := lst_push s2 (k - 1) (p + BLK_SIZE (k - 1))).
    assert (HL3 : same_layout s s3).
    { eapply same_layout_trans; [apply same_layout_set_mem |].
      eapply same_layout_trans; [apply same_layout_set_mem |].
      apply same_layout_lst_push. }
    pose proof (HEAP_SIZE_bound s ltac:(lia)) as HH.
    pose proof (blk_index_range s k p ltac:(lia) Hn ltac:(lia)) as Hik.
    pose proof (blk_index_range s (k - 1) p ltac:(lia) Hn ltac:(lia)) as Hik1.
    pose proof (blk_index_range s fk p ltac:(lia) Hn ltac:(lia)) as Hif.
    pose proof (mod_BLK_SIZE_lower (p - bd_base s) (k - 1) k ltac:(lia) Hal)
      as Hal1.
    assert (Hq : forall z, 0 <= z -> Z.quot z 2 = z / 2)
      by (intros z Hz; apply Z.quot_div_nonneg; lia).
    assert (Hd : forall z, 0 <= z -> 0 <= z / 2)
      by (intros z Hz; apply Z.div_pos; lia).
    (* the bit of class fk in the store of s3 *)
    assert (H3 : bit_isset (mem s3) (alloc (bd_sizes s fk))
                           (Z.quot (blk_index s fk p) 2)
                 = (if fk =? k - 1
                    then negb (bit_isset (mem s) (alloc (bd_sizes s fk))
                                         (Z.quot (blk_index s fk p) 2))
                    else bit_isset (mem s) (alloc (bd_sizes s fk))
                                   (Z.quot (blk_index s fk p) 2))).
    { change (mem s3) with
        (bit_flip (mem s1) (alloc (bd_sizes s (k - 1)))
                  (Z.quot (blk_index s (k - 1) p) 2)).
      assert (Hs1 : bit_isset (mem s1) (alloc (bd_sizes s fk))
                              (Z.quot (blk_index s fk p) 2)
                    = bit_isset (mem s) (alloc (bd_sizes s fk))
                                (Z.quot (blk_index s fk p) 2)).
      { change (mem s1) with
          (bit_set (mem s) (split (bd_sizes s k)) (blk_index s k p)).
        rewrite Hq by lia.
        apply bit_set_other; [lia | apply Hd; lia |].
        destruct HB as (Hlow & Hhigh).
        specialize (Hlow fk (blk_index s fk p) ltac:(lia) Hif).
        assert (H4 : k = 1 -> 4 <= blk_index s k p).
        { intros ->. rewrite blk_index_eq by lia. change (BLK_SIZE 1) with 32.
          apply Z.div_le_lower_bound; lia. }
        specialize (Hhigh k (blk_index s k p) ltac:(lia) ltac:(lia) H4).
        lia. }
      destruct (Z.eqb_spec fk (k - 1)) as [E | E].
      - rewrite <- E. rewrite <- Hs1.
        unfold bit_flip.
        destruct (bit_isset (mem s1) (alloc (bd_sizes s fk))
                            (Z.quot (blk_index s fk p) 2)) eqn:Hb; cbn [negb].
        + apply bit_isset_bit_clear. rewrite Hq by lia. apply Hd. lia.
        + apply bit_isset_bit_set.
      - rewrite <- Hs1. rewrite !Hq by lia.
        apply bit_flip_other; [apply Hd; lia | apply Hd; lia |].
        apply (pair_bits_differ s B fk (k - 1) (k - 1) p); try assumption; lia. }
    specialize (IH s3 (k - 1) fk p B).
    rewrite (blk_index_layout s s3 fk p HL3) in IH.
    pose proof HL3 as (_ & _ & HP3). destruct (HP3 fk) as (Ea & _).
    rewrite Ea in IH.
    rewrite IH.
    + rewrite H3.
      destruct (Z.ltb_spec fk (k - 1)), (Z.eqb_spec fk (k - 1)); try lia;
        reflexivity.
    + eapply split_sep_layout; eassumption.
    + eapply alloc_disj_layout; eassumption.
    + lia.
    + exact Hfk.
    + change (nsizes s3) with (nsizes s). lia.
    + exact Hn.
    + exact Hp.
    + exact Hal1.
Qed.

Lemma bit_isset_bit_flip (m : Z -> Z) (a i : Z) :
  0 <= i -> bit_isset (bit_flip m a i) a i = negb (bit_isset m a i).
Proof.
  intros Hi. unfold bit_flip. destruct (bit_isset m a i) eqn:Hb; cbn [negb].
  - apply bit_isset_bit_clear. exact Hi.
  - apply bit_isset_bit_set.
Qed.

(* the pair bit of the block handed out, at the class of the request *)
Lemma bd_malloc_run_pair s lo hi live B n fk k p rest :
  Inv s lo hi live -> split_sep s B -> alloc_disj s ->
  firstk n = Some fk -> fk <= k < nsizes s ->
  (forall j, fk <= j < k -> frees s j = []) ->
  frees s k = p :: rest ->
  forall r, bd_malloc_run s n = Some r ->
  bit_isset (mem (ret_state r)) (alloc (bd_sizes s fk))
            (Z.quot (blk_index s fk p) 2)
  = negb (bit_isset (mem s) (alloc (bd_sizes s fk))
                    (Z.quot (blk_index s fk p) 2)).
Proof.
  intros HI HB HA Hfk Hk Hempty Hpop r Hrun.
  pose proof (firstk_sound n fk Hfk) as (Hfk0 & _).
  rewrite (bd_malloc_run_taken s n fk k p rest Hfk Hk Hempty Hpop) in Hrun.
  injection Hrun as <-. cbn [ret_state].
  pose proof (inv_n _ _ _ _ HI) as Hn.
  assert (Hpk : (0 <= k < nsizes s /\ In p (frees s k)) \/ In (p, k) live).
  { left. split; [lia |]. rewrite Hpop. left. reflexivity. }
  destruct (inv_blk _ _ _ _ HI k p Hpk) as (Hk2 & Hal & _).
  destruct (inv_block_range _ _ _ _ k p HI Hpk) as (_ & R2 & R3 & R4).
  destruct (inv_range _ _ _ _ HI) as (_ & Hhi & _).
  pose proof (HEAP_SIZE_bound s Hn) as HH.
  pose proof (BLK_SIZE_pos k ltac:(lia)) as HBk.
  set (sp := malloc_pop s k p rest).
  assert (HLp : same_layout s sp).
  { unfold sp, malloc_pop. eapply same_layout_trans;
      [apply same_layout_set_free | apply same_layout_set_mem]. }
  pose proof (blk_index_range s k p ltac:(lia) ltac:(lia) ltac:(lia)) as Hik.
  pose proof (blk_index_range s fk p ltac:(lia) ltac:(lia) ltac:(lia)) as Hif.
  assert (Hmp : mem sp = bit_flip (mem s) (alloc (bd_sizes s k))
                                  (Z.quot (blk_index s k p) 2)).
  { unfold sp, malloc_pop. cbn [mem set_mem set_free].
    rewrite alloc_set_free. reflexivity. }
  pose proof (split_loop_pair (Z.to_nat (k - fk)) sp k fk p B
                ltac:(eapply split_sep_layout; eassumption)
                ltac:(eapply alloc_disj_layout; eassumption)
                ltac:(rewrite Z2Nat.id; lia) ltac:(lia)
                ltac:(change (nsizes sp) with (nsizes s); lia)
                ltac:(change (nsizes sp) with (nsizes s); lia)) as HS.
  rewrite (HEAP_SIZE_layout s sp HLp) in HS.
  change (bd_base sp) with (bd_base s) in HS.
  specialize (HS ltac:(lia) Hal).
  rewrite (blk_index_layout s sp fk p HLp) in HS.
  pose proof HLp as (_ & _ & HPp). destruct (HPp fk) as (Ea & _).
  rewrite Ea in HS. rewrite HS. rewrite Hmp.
  assert (Hq : forall z, 0 <= z -> Z.quot z 2 = z / 2)
    by (intros z Hz; apply Z.quot_div_nonneg; lia).
  assert (Hd : forall z, 0 <= z -> 0 <= z / 2)
    by (intros z Hz; apply Z.div_pos; lia).
  destruct (Z.ltb_spec fk k) as [Hlt | Hge].
  - f_equal. rewrite !Hq by lia.
    apply bit_flip_other; [apply Hd; lia | apply Hd; lia |].
    apply (pair_bits_differ s B fk k k p); try assumption; lia.
  - assert (k = fk) by lia. subst k.
    apply bit_isset_bit_flip. rewrite Hq by lia. apply Hd. lia.
Qed.

(** C6. Exact-fit class selection.  For a request [n] with
    [BLK_SIZE (k-1) < n <= BLK_SIZE k], [k] is the least class whose
    blocks hold [n] bytes, and in every state reached from a completed
    [bd_init] (on a heap below 2^31 bytes, the range of the [int] offsets
    of the code) a call of [bd_malloc] that hands out an address has had
    [k] from [firstk] and hands out a block of class [k], neither larger
    nor smaller: the address is a multiple of [BLK_SIZE k] from [bd_base];
    over every byte, the free lists lose exactly the [BLK_SIZE k] bytes
    from that address on (what is left of a larger block taken from its
    list is back on the lists); [size] reads class [k] back for the
    address from the split bits that the call leaves, which are the only
    record of the class of a block; and the pair bit of the block at
    class [k] is flipped.  For [k <= 59], that is for a request of at
    most 2^63 bytes, [firstk] answers [k] and the call returns. *)
Theorem bd_malloc_exact_fit (m0 : Z -> Z) (base end_ : Z) (s0 s : state)
    (live : list (Z * Z)) (n k : Z) :
  bd_init m0 base end_ = Some s0 ->
  0 <= base < 2 ^ 62 -> bd_base s0 <= end_ < 2 ^ 63 ->
  HEAP_SIZE s0 < 2 ^ 31 ->
  reachable s0 s live ->
  0 <= k ->
  BLK_SIZE (k - 1) < n <= BLK_SIZE k ->
  (forall j, 0 <= j < k -> BLK_SIZE j < n)
  /\ (k <= 59 -> firstk n = Some k /\ exists r, bd_malloc_run s n = Some r)
  /\ (forall r, bd_malloc_run s n = Some r -> ret_ptr r <> 0 ->
        firstk n = Some k
        /\ ret_class r = k
        /\ (ret_ptr r - bd_base s) mod BLK_SIZE k = 0
        /\ (forall x, count_free (ret_state r) x + inb k (ret_ptr r) x
                      = count_free s x)
        /\ free_bytes (ret_state r) + BLK_SIZE k = free_bytes s
        /\ size (ret_state r) (ret_ptr r) = Some k
        /\ bit_isset (mem (ret_state r)) (alloc (bd_sizes s k))
                     (Z.quot (blk_index s k (ret_ptr r)) 2)
           = negb (bit_isset (mem s) (alloc (bd_sizes s k))
                             (Z.quot (blk_index s k (ret_ptr r)) 2))).
Proof.
  intros Hinit Hbase Hend Hheap Hreach Hk Hn.
  split.
  { intros j Hj.
    assert (BLK_SIZE j <= BLK_SIZE (k - 1)) by (apply BLK_SIZE_mono; lia).
    lia. }
  split.
  { intros Hk59.
    assert (Hle : n <= 2 ^ 63).
    { assert (BLK_SIZE k <= BLK_SIZE 59) by (apply BLK_SIZE_mono; lia).
      change (BLK_SIZE 59) with (2 ^ 63) in *. lia. }
    destruct (firstk_returns n Hle) as (fk & Hfk).
    assert (fk = k)
      by (apply (firstk_unique n k fk); [lia | exact Hn | exact Hfk]).
    subst fk. split; [exact Hfk |].
    destruct (bd_malloc_run_cases s n k Hfk)
      as [(k' & _ & _ & Hr) | (k' & p & rest & s' & _ & _ & _ & Hr & _)];
      rewrite Hr; eauto. }
  intros r Hrun Hp.
  destruct (bd_init_some _ _ _ _ Hinit) as (ml & mr & Hir).
  destruct (bd_init_inv _ _ _ _ _ _ Hir Hbase Hend Hheap) as (HI0 & _).
  destruct (bd_init_exact _ _ _ _ _ _ Hir Hbase Hend Hheap) as (HD0 & HE0).
  pose proof (bd_init_alloc_disj _ _ _ _ _ _ Hir Hbase Hend Hheap) as HA0.
  pose proof (inv_reachable _ _ _ _ _ HI0 Hreach) as HI.
  destruct (exact_reachable _ _ _ _ _ HI0 HD0 HE0 Hreach) as (HD & HE & _).
  pose proof (alloc_disj_layout s0 s (reachable_layout _ _ _ Hreach) HA0) as HA.
  destruct (inv_sep _ _ _ _ HI) as (B & HB).
  destruct (firstk n) as [fk |] eqn:Hfk;
    [| unfold bd_malloc_run in Hrun; rewrite Hfk in Hrun; discriminate].
  assert (fk = k) by (eapply firstk_unique; eauto). subst fk.
  split; [reflexivity |].
  destruct (inv_malloc _ _ _ _ _ _ HI Hrun) as [(H0 & _) | (_ & _ & _ & HI')];
    [contradiction |].
  pose proof (exact_malloc _ _ _ _ _ _ HI HD HE Hrun Hp) as HE'.
  destruct (bd_malloc_run_cases s n k Hfk)
    as [(k' & _ & _ & Hr)
       | (k' & p & rest & s' & Hk' & Hempty & Hpop & Hr & Hns & Hbs & Hfr)].
  { rewrite Hr in Hrun. injection Hrun as <-. cbn [ret_ptr] in Hp.
    contradiction. }
  pose proof (bd_malloc_run_pair s _ _ live B n k k' p rest HI HB HA Hfk Hk'
                Hempty Hpop r Hrun) as Hpair.
  rewrite Hr in Hrun. injection Hrun as <-.
  cbn [ret_ptr ret_class ret_state] in *.
  split; [reflexivity |].
  split.
  { destruct (inv_blk _ _ _ _ HI' k p (or_intror (or_introl eq_refl)))
      as (_ & Hal & _).
    rewrite Hbs in Hal. exact Hal. }
  split.
  { intros x. unfold count_free. rewrite Hns.
    rewrite (count_free_below_malloc s s' k' k p rest) by (try lia; assumption).
    rewrite Z2Nat.id by lia.
    destruct (Z.leb_spec (nsizes s) k), (Z.leb_spec (nsizes s) k'); lia. }
  split.
  { unfold free_bytes. rewrite Hns.
    rewrite (free_bytes_below_malloc s s' k' k p rest) by (try lia; assumption).
    rewrite Z2Nat.id by lia.
    destruct (Z.leb_spec (nsizes s) k), (Z.leb_spec (nsizes s) k'); lia. }
  split; [| exact Hpair].
  eapply exact_size; [exact HI' | exact HE' | left; reflexivity].
Qed.

Lemma bd_malloc_exact_fit_witness :
  firstk 20 = Some 1
  /\ exists r,
       bd_malloc_run ex_state 20 = Some r
       /\ ret_ptr r = 4416
       /\ ret_class r = 1
       /\ (ret_ptr r - bd_base ex_state) mod BLK_SIZE 1 = 0
       /\ (forall x, count_free (ret_state r) x + inb 1 (ret_ptr r) x
                     = count_free ex_state x)
       /\ free_bytes (ret_state r) + BLK_SIZE 1 = free_bytes ex_state
       /\ size (ret_state r) (ret_ptr r) = Some 1
       /\ bit_isset (mem (ret_state r)) (alloc (bd_sizes ex_state 1))
                    (Z.quot (blk_index ex_state 1 (ret_ptr r)) 2)
          = negb (bit_isset (mem ex_state) (alloc (bd_sizes ex_state 1))
                            (Z.quot (blk_index ex_state 1 (ret_ptr r)) 2)).
Proof.
  destruct ex_state_shape as (_ & Hb & Hh).
  destruct (bd_malloc_exact_fit (fun _ => 0) 4096 5136 ex_state ex_state []
              20 1 ex_state_init ltac:(lia) ltac:(rewrite Hb; lia)
              ltac:(rewrite Hh; lia) (reach_init ex_state) ltac:(lia)
              ltac:(vm_compute; split; [reflexivity | discriminate]))
    as (_ & H2 & H3).
  destruct (H2 ltac:(lia)) as (H1 & _).
  destruct (bd_malloc_run_after ex_state 20 4416) as (r & Hr & Hp).
  { vm_compute. reflexivity. }
  destruct (H3 r Hr ltac:(rewrite Hp; discriminate)) as (_ & H4).
  split; [exact H1 |]. exists r. split; [exact Hr |]. split; [exact Hp |].
  exact H4.
Defined.

(** ** size on the addresses that may be freed *)

(** C4. Size-class recovery on free.  For an address [p] that may be
    passed to [bd_free] (one that [bd_malloc] handed out, at class [c],
    and that has not been freed since, in a state reached from a completed
    [bd_init] on a heap below 2^31 bytes, the range of the [int] offsets
    of the code) [size] answers the first class [k0], scanning from 0 up,
    for which the split bit of the class-[k0 + 1] block around [p] is set.
    That class lies below the last one: such a bit is always found, so
    the case in which none is set below [nsizes - 1] does not arise for
    such an address (the block of the whole region is never handed out).
    The class found is the class [c] the block was granted at, and
    [bd_free] pushes [p] on the free list of that class. *)
Theorem size_recovers_class (m0 : Z -> Z) (base end_ : Z)
    (s0 s : state) (live : list (Z * Z)) (p c : Z) :
  bd_init m0 base end_ = Some s0 ->
  0 <= base < 2 ^ 62 -> bd_base s0 <= end_ < 2 ^ 63 ->
  HEAP_SIZE s0 < 2 ^ 31 ->
  reachable s0 s live -> In (p, c) live ->
  exists k0 s',
    size s p = Some k0
    /\ 0 <= k0 < nsizes s - 1
    /\ parent_split s k0 p = true
    /\ (forall k, 0 <= k < k0 -> parent_split s k p = false)
    /\ ~ (forall k, 0 <= k < nsizes s - 1 -> parent_split s k p = false)
    /\ k0 = c
    /\ bd_free s p = Some s'
    /\ frees s' k0 = p :: frees s k0.
Proof.
  intros Hinit Hbase Hend Hheap Hreach Hin.
  destruct (bd_init_some _ _ _ _ Hinit) as (ml & mr & Hrun).
  destruct (bd_init_inv _ _ _ _ _ _ Hrun Hbase Hend Hheap) as (HI0 & _).
  destruct (bd_init_exact _ _ _ _ _ _ Hrun Hbase Hend Hheap) as (HD0 & HE0).
  pose proof (inv_reachable _ _ _ _ _ HI0 Hreach) as HI.
  pose proof (inv_n _ _ _ _ HI) as Hn.
  destruct (exact_reachable _ _ _ _ _ HI0 HD0 HE0 Hreach) as (_ & HE & _).
  pose proof (exact_size s _ _ live p c HI HE Hin) as Hsz.
  destruct (size_some_inv s p c ltac:(lia) Hsz) as (Hc & Hset & Hclear).
  destruct (exact_free s _ _ live p c HI HE Hin) as (s' & H1 & H2 & _).
  exists c, s'. split; [exact Hsz |]. split; [exact Hc |].
  split; [exact Hset |]. split; [exact Hclear |]. split.
  { intros Hnone. rewrite (Hnone c Hc) in Hset. discriminate. }
  split; [reflexivity |].
  split; [exact H1 |]. rewrite H2, Z.eqb_refl. reflexivity.
Qed.

Lemma size_recovers_class_witness :
  exists k0 s',
    size (after_malloc ex_state 32) 4416 = Some k0
    /\ 0 <= k0 < nsizes (after_malloc ex_state 32) - 1
    /\ parent_split (after_malloc ex_state 32) k0 4416 = true
    /\ (forall k, 0 <= k < k0 ->
          parent_split (after_malloc ex_state 32) k 4416 = false)
    /\ ~ (forall k, 0 <= k < nsizes (after_malloc ex_state 32) - 1 ->
            parent_split (after_malloc ex_state 32) k 4416 = false)
    /\ k0 = 1
    /\ bd_free (after_malloc ex_state 32) 4416 = Some s'
    /\ frees s' k0 = 4416 :: frees (after_malloc ex_state 32) k0.
Proof.
  destruct ex_state_shape as (_ & Hb & Hh).
  apply (size_recovers_class (fun _ => 0) 4096 5136 ex_state
           (after_malloc ex_state 32) [(4416, 1)] 4416 1).
  - exact ex_state_init.
  - lia.
  - rewrite Hb. lia.
  - rewrite Hh. lia.
  - exact ex_reach1.
  - left. reflexivity.
Defined.

(** ** bd_free outside its precondition *)

(* setting a bit that is set already changes no bit *)
Lemma bit_set_idem (m : Z -> Z) (a i a' i' : Z) :
  0 <= i -> 0 <= i' -> bit_isset m a i = true ->
  bit_isset (bit_set m a i) a' i' = bit_isset m a' i'.
Proof.
  intros Hi Hi' Hb.
  destruct (Z.eq_dec (8 * a + i) (8 * a' + i')) as [He | Hne].
  - rewrite <- !(bit_isset_same_bit _ a i a' i') by assumption.
    rewrite bit_isset_bit_set. symmetry. exact Hb.
  - apply bit_set_other; assumption.
Qed.

(** X21. [bd_free] does not notice a second free of the same address (of
    a live block, in a state reached from a completed [bd_init] on a heap
    below 2^31 bytes).
    After the first call the address is on the free list of its class and
    its pair bit is set; the second call finds the same class through
    [size], sets the pair bit that is set already, so that no bit of the
    store changes, and comes to [lst_push] with an address that is on that
    very list.  No other free list changes; what becomes of the list that
    is pushed on is the list's business. *)
Theorem double_free_is_not_detected (m0 : Z -> Z) (base end_ : Z)
    (s0 s : state) (live : list (Z * Z)) (p c : Z) :
  bd_init m0 base end_ = Some s0 ->
  0 <= base < 2 ^ 62 -> bd_base s0 <= end_ < 2 ^ 63 ->
  HEAP_SIZE s0 < 2 ^ 31 ->
  reachable s0 s live -> In (p, c) live ->
  exists s1 s2,
    bd_free s p = Some s1
    /\ In p (frees s1 c)
    /\ size s1 p = Some c
    /\ bit_isset (mem s1) (alloc (bd_sizes s1 c))
                 (Z.quot (blk_index s1 c p) 2) = true
    /\ bd_free s1 p = Some s2
    /\ mem s2 = bit_set (mem s1) (alloc (bd_sizes s1 c))
                        (Z.quot (blk_index s1 c p) 2)
    /\ (forall a i, 0 <= i -> bit_isset (mem s2) a i = bit_isset (mem s1) a i)
    /\ (forall j, j <> c -> frees s2 j = frees s1 j).
Proof.
  intros Hinit Hbase Hend Hheap Hreach Hin.
  destruct (bd_init_some _ _ _ _ Hinit) as (ml & mr & Hrun).
  destruct (bd_init_inv _ _ _ _ _ _ Hrun Hbase Hend Hheap) as (HI0 & _).
  destruct (bd_init_exact _ _ _ _ _ _ Hrun Hbase Hend Hheap) as (HD0 & HE0).
  pose proof (inv_reachable _ _ _ _ _ HI0 Hreach) as HI.
  pose proof (inv_n _ _ _ _ HI) as Hn.
  destruct (exact_reachable _ _ _ _ _ HI0 HD0 HE0 Hreach) as (_ & HE & _).
  destruct (inv_sep _ _ _ _ HI) as (B & Hlow & Hhigh).
  destruct (inv_blk _ _ _ _ HI c p (or_intror Hin)) as (Hc & _ & _).
  destruct (inv_block_range _ _ _ _ c p HI (or_intror Hin))
    as (_ & R2 & R3 & R4).
  pose proof (BLK_SIZE_pos c ltac:(lia)) as HBc.
  pose proof (exact_size s _ _ live p c HI HE Hin) as Hsz.
  destruct (size_some_inv s p c ltac:(lia) Hsz) as (_ & Hset & Hclear).
  pose proof (bd_free_spec s p c Hsz) as Hf1.
  destruct (Z.ltb_spec c (MAXSIZE s)) as [_ | Hge];
    [| unfold MAXSIZE in Hge; lia].
  set (m1 := bit_set (mem s) (alloc (bd_sizes s c))
                     (Z.quot (blk_index s c p) 2)) in *.
  set (s1 := lst_push (set_mem s m1) c p) in *.
  assert (HL1 : same_layout s s1).
  { eapply same_layout_trans;
      [apply same_layout_set_mem | apply same_layout_lst_push]. }
  assert (Hidx : 0 <= blk_index s c p < NBLK s c).
  { apply blk_index_range; [lia | lia |].
    pose proof (HEAP_SIZE_bound s Hn).
    destruct (inv_range _ _ _ _ HI) as (_ & Hhi & _). lia. }
  (* the bit that the first call set is no split bit that size reads *)
  assert (Hps1 : forall j, 0 <= j < nsizes s - 1 ->
            parent_split s1 j p = parent_split s j p).
  { intros j Hj. rewrite (parent_split_layout s s1) by exact HL1.
    unfold parent_split. change (mem s1) with m1. unfold m1.
    rewrite Z.quot_div_nonneg by lia.
    assert (Hi1 : 0 <= blk_index s (j + 1) p).
    { rewrite blk_index_eq by lia. apply Z.div_pos; [lia |].
      pose proof (BLK_SIZE_pos (j + 1)); lia. }
    apply bit_set_other; [apply Z.div_pos; lia | exact Hi1 |].
    specialize (Hlow c (blk_index s c p) ltac:(lia) Hidx).
    assert (H4 : j + 1 = 1 -> 4 <= blk_index s (j + 1) p).
    { intros Hj1. assert (j = 0) by lia. subst j.
      rewrite blk_index_eq by lia. change (BLK_SIZE (0 + 1)) with 32.
      apply Z.div_le_lower_bound; lia. }
    specialize (Hhigh (j + 1) (blk_index s (j + 1) p) ltac:(lia) Hi1 H4).
    lia. }
  assert (Hsz1 : size s1 p = Some c).
  { apply size_first_split.
    - change (nsizes s1) with (nsizes s). lia.
    - rewrite Hps1 by lia. exact Hset.
    - intros j Hj. rewrite Hps1 by lia. apply Hclear. exact Hj. }
  pose proof (bd_free_spec s1 p c Hsz1) as Hf2.
  change (MAXSIZE s1) with (MAXSIZE s) in Hf2.
  destruct (Z.ltb_spec c (MAXSIZE s)) as [_ | Hge];
    [| unfold MAXSIZE in Hge; lia].
  assert (Hq0 : 0 <= Z.quot (blk_index s c p) 2).
  { rewrite Z.quot_div_nonneg by lia. apply Z.div_pos; lia. }
  assert (Hbit : bit_isset (mem s1) (alloc (bd_sizes s1 c))
                           (Z.quot (blk_index s1 c p) 2) = true).
  { pose proof HL1 as (_ & _ & HP). destruct (HP c) as (Ha & _). rewrite Ha.
    change (blk_index s1 c p) with (blk_index s c p).
    change (mem s1) with m1. unfold m1. apply bit_isset_bit_set. }
  match type of Hf2 with _ = Some ?x => set (s2 := x) in * end.
  exists s1, s2. split; [exact Hf1 |]. split.
  { unfold s1. rewrite frees_lst_push, Z.eqb_refl. left. reflexivity. }
  split; [exact Hsz1 |]. split; [exact Hbit |]. split; [exact Hf2 |].
  split; [reflexivity |]. split.
  - intros a i Hi. change (mem s2) with
      (bit_set (mem s1) (alloc (bd_sizes s1 c)) (Z.quot (blk_index s1 c p) 2)).
    apply bit_set_idem; [| exact Hi | exact Hbit].
    change (blk_index s1 c p) with (blk_index s c p). exact Hq0.
  - intros j Hj. unfold s2. rewrite frees_lst_push, frees_set_mem.
    destruct (Z.eqb_spec j c); [contradiction | reflexivity].
Qed.

Lemma double_free_is_not_detected_witness :
  exists s1 s2,
    bd_free (after_malloc (after_malloc ex_state 32) 32) 4416 = Some s1
    /\ In 4416 (frees s1 1)
    /\ size s1 4416 = Some 1
    /\ bit_isset (mem s1) (alloc (bd_sizes s1 1))
                 (Z.quot (blk_index s1 1 4416) 2) = true
    /\ bd_free s1 4416 = Some s2
    /\ mem s2 = bit_set (mem s1) (alloc (bd_sizes s1 1))
                        (Z.quot (blk_index s1 1 4416) 2)
    /\ (forall a i, 0 <= i -> bit_isset (mem s2) a i = bit_isset (mem s1) a i)
    /\ (forall j, j <> 1 -> frees s2 j = frees s1 j).
Proof.
  destruct ex_state_shape as (_ & Hb & Hh).
  apply (double_free_is_not_detected (fun _ => 0) 4096 5136 ex_state
           (after_malloc (after_malloc ex_state 32) 32)
           [(4448, 1); (4416, 1)] 4416 1).
  - exact ex_state_init.
  - lia.
  - rewrite Hb. lia.
  - rewrite Hh. lia.
  - exact ex_reach2.
  - right. left. reflexivity.
Defined.
